(** * Zagoal recommendation backend: scoring engine and interaction upsert

    A shallow embedding of
    - [src/common/vector.utils.ts] (cosine similarity, max-normalisation),
    - [src/recommendations/recommendations.service.ts] (behaviour score,
      adjustment resolution, weight normalisation, ranking),
    - [src/interactions/interactions.service.ts] (interaction upsert),
    - [src/users/users.service.ts] and [src/vendors/vendors.service.ts]
      (schemas, prompts, creation and update),
    together with the properties the specification states about them and
    further properties that the code shows.

    JavaScript numbers are kept behind the interface [JsNumber], which lists
    the primitive operations the services use.  Two implementations are given:
    [Binary64], the IEEE 754 doubles the program really runs on (Rocq's
    primitive floats), and [Exact], unrounded arithmetic over the reals
    extended with the two infinities and NaN.  Every function of the services
    is written once, over the interface.

    The numerical properties are stated and proved on the doubles.  What the
    operations round to is derived from their specification ([SpecFloat]):
    a sum, product, quotient or square root of finite doubles is the exact
    result within a relative error of [2 ^ -53], as long as it neither
    overflows nor falls among the subnormal numbers. *)

From Stdlib Require Import ZArith List String Ascii Bool Lia Permutation.
From Stdlib Require Import Floats.
From Stdlib Require Import Reals Lra.
Import ListNotations.

Set Implicit Arguments.
Set Warnings "-inexact-float,-register-all".

(* ================================================================= *)
(** * JavaScript numbers *)

Declare Scope js_scope.
Delimit Scope js_scope with js.

Class JsNumber (N : Type) : Type := {
  (** literals that occur in the services *)
  num_zero : N;
  num_one : N;
  num_five : N;
  num_0_2 : N;
  num_0_3 : N;
  num_0_4 : N;
  num_0_5 : N;
  num_0_6 : N;
  num_neg_infinity : N;
  (** an array length, or any other natural number, as a number *)
  num_of_nat : nat -> N;
  (** arithmetic *)
  num_add : N -> N -> N;
  num_sub : N -> N -> N;
  num_mul : N -> N -> N;
  num_div : N -> N -> N;
  num_sqrt : N -> N;
  (** one step of [Math.max]: the running maximum and the next argument *)
  num_max : N -> N -> N;
  (** [ToBoolean]: false on zero and on NaN *)
  num_truthy : N -> bool;
  (** [===], [<] and [<=] *)
  num_eqb : N -> N -> bool;
  num_ltb : N -> N -> bool;
  num_leb : N -> N -> bool;
  (** [Number.isNaN] and [Number.isFinite] *)
  num_is_nan : N -> bool;
  num_is_finite : N -> bool
}.

Notation "x + y" := (num_add x y) : js_scope.
Notation "x - y" := (num_sub x y) : js_scope.
Notation "x * y" := (num_mul x y) : js_scope.
Notation "x / y" := (num_div x y) : js_scope.
Notation "x === y" := (num_eqb x y) (at level 70, no associativity) : js_scope.
Notation "x <? y" := (num_ltb x y) : js_scope.
Notation "x <=? y" := (num_leb x y) : js_scope.

(** [x || y] on numbers: [x] when it is truthy, [y] otherwise. *)
Definition num_or {N} `{JsNumber N} (x y : N) : N :=
  if num_truthy x then x else y.

(* ----------------------------------------------------------------- *)
(** ** IEEE 754 binary64 *)

Module Binary64.

Definition is_pos_zero (x : float) : bool :=
  match classify x with PZero => true | _ => false end.

Definition is_neg_zero (x : float) : bool :=
  match classify x with NZero => true | _ => false end.

(** One iteration of the loop of [Math.max]: NaN is contagious, [+0] is
    larger than [-0], otherwise the larger argument is kept. *)
Definition max_step (highest x : float) : float :=
  if (is_nan highest || is_nan x)%bool then nan
  else if (is_pos_zero x && is_neg_zero highest)%bool then x
  else if (highest <? x)%float then x
  else highest.

Definition truthy (x : float) : bool :=
  negb (is_nan x || is_zero x).

#[global] Instance number : JsNumber float := {|
  num_zero := 0%float;
  num_one := 1%float;
  num_five := 5%float;
  num_0_2 := 0.2%float;
  num_0_3 := 0.3%float;
  num_0_4 := 0.4%float;
  num_0_5 := 0.5%float;
  num_0_6 := 0.6%float;
  num_neg_infinity := neg_infinity;
  num_of_nat := fun n => of_uint63 (Uint63.of_Z (Z.of_nat n));
  num_add := PrimFloat.add;
  num_sub := PrimFloat.sub;
  num_mul := PrimFloat.mul;
  num_div := PrimFloat.div;
  num_sqrt := PrimFloat.sqrt;
  num_max := max_step;
  num_truthy := truthy;
  num_eqb := PrimFloat.eqb;
  num_ltb := PrimFloat.ltb;
  num_leb := PrimFloat.leb;
  num_is_nan := is_nan;
  num_is_finite := is_finite
|}.

End Binary64.

(* ----------------------------------------------------------------- *)
(** ** Exact arithmetic

    The reals with [+Infinity], [-Infinity] and NaN: the operations follow
    IEEE 754 on the special values, and are the exact operations of [R] on
    finite values (no rounding, no overflow, one zero). *)

Module Exact.

Inductive xreal : Type :=
| Fin (r : R)
| PInf
| NInf
| NaN.

Definition Req_b (x y : R) : bool := if Req_dec_T x y then true else false.
Definition Rlt_b (x y : R) : bool := if Rlt_dec x y then true else false.

Definition opp (x : xreal) : xreal :=
  match x with
  | Fin a => Fin (- a)
  | PInf => NInf
  | NInf => PInf
  | NaN => NaN
  end.

Definition add (x y : xreal) : xreal :=
  match x, y with
  | NaN, _ | _, NaN => NaN
  | Fin a, Fin b => Fin (a + b)
  | PInf, NInf | NInf, PInf => NaN
  | PInf, _ | _, PInf => PInf
  | NInf, _ | _, NInf => NInf
  end.

Definition sub (x y : xreal) : xreal := add x (opp y).

(** An infinity times, or divided by, a finite [b]. *)
Definition scale_inf (positive : bool) (b : R) : xreal :=
  if Req_b b 0 then NaN
  else if Bool.eqb positive (Rlt_b 0 b) then PInf else NInf.

Definition mul (x y : xreal) : xreal :=
  match x, y with
  | NaN, _ | _, NaN => NaN
  | Fin a, Fin b => Fin (a * b)
  | PInf, Fin b | Fin b, PInf => scale_inf true b
  | NInf, Fin b | Fin b, NInf => scale_inf false b
  | PInf, PInf | NInf, NInf => PInf
  | PInf, NInf | NInf, PInf => NInf
  end.

Definition div (x y : xreal) : xreal :=
  match x, y with
  | NaN, _ | _, NaN => NaN
  | Fin a, Fin b =>
      if Req_b b 0
      then (if Req_b a 0 then NaN else if Rlt_b 0 a then PInf else NInf)
      else Fin (a / b)
  | Fin _, (PInf | NInf) => Fin 0
  | PInf, Fin b => if Rlt_b b 0 then NInf else PInf
  | NInf, Fin b => if Rlt_b b 0 then PInf else NInf
  | (PInf | NInf), (PInf | NInf) => NaN
  end.

Definition sqrt (x : xreal) : xreal :=
  match x with
  | Fin a => if Rlt_b a 0 then NaN else Fin (R_sqrt.sqrt a)
  | PInf => PInf
  | NInf | NaN => NaN
  end.

Definition is_nan (x : xreal) : bool :=
  match x with NaN => true | _ => false end.

Definition is_finite (x : xreal) : bool :=
  match x with Fin _ => true | _ => false end.

Definition eqb (x y : xreal) : bool :=
  match x, y with
  | Fin a, Fin b => Req_b a b
  | PInf, PInf | NInf, NInf => true
  | _, _ => false
  end.

Definition ltb (x y : xreal) : bool :=
  match x, y with
  | NaN, _ | _, NaN => false
  | Fin a, Fin b => Rlt_b a b
  | NInf, (Fin _ | PInf) => true
  | Fin _, PInf => true
  | _, _ => false
  end.

Definition leb (x y : xreal) : bool := (ltb x y || eqb x y)%bool.

Definition max_step (highest x : xreal) : xreal :=
  if (is_nan highest || is_nan x)%bool then NaN
  else if ltb highest x then x
  else highest.

Definition truthy (x : xreal) : bool :=
  match x with
  | Fin a => negb (Req_b a 0)
  | PInf | NInf => true
  | NaN => false
  end.

#[global] Instance number : JsNumber xreal := {|
  num_zero := Fin 0;
  num_one := Fin 1;
  num_five := Fin 5;
  num_0_2 := Fin (2 / 10);
  num_0_3 := Fin (3 / 10);
  num_0_4 := Fin (4 / 10);
  num_0_5 := Fin (5 / 10);
  num_0_6 := Fin (6 / 10);
  num_neg_infinity := NInf;
  num_of_nat := fun n => Fin (INR n);
  num_add := add;
  num_sub := sub;
  num_mul := mul;
  num_div := div;
  num_sqrt := sqrt;
  num_max := max_step;
  num_truthy := truthy;
  num_eqb := eqb;
  num_ltb := ltb;
  num_leb := leb;
  num_is_nan := is_nan;
  num_is_finite := is_finite
|}.

End Exact.

(* ================================================================= *)
(** * [common/vector.utils.ts] *)

Section VectorUtils.

Context {N : Type} `{JsNumber N}.
Local Open Scope js_scope.

(** The accumulators [dot], [normA] and [normB] of [cosineSimilarity]
    after the loop over [i < a.length], started from the given values.
    The loop is only reached with [a.length = b.length]. *)
Fixpoint cosine_loop (a b : list N) (dot normA normB : N) : N * N * N :=
  match a, b with
  | x :: a', y :: b' =>
      cosine_loop a' b' (dot + x * y) (normA + x * x) (normB + y * y)
  | _, _ => (dot, normA, normB)
  end.

Definition cosineSimilarity (a b : list N) : N :=
  if (Nat.eqb (List.length a) 0 || Nat.eqb (List.length b) 0
      || negb (Nat.eqb (List.length a) (List.length b)))%bool
  then num_zero
  else
    let '(dot, normA, normB) :=
      cosine_loop a b num_zero num_zero num_zero in
    if (negb (num_truthy normA) || negb (num_truthy normB))%bool
    then num_zero
    else dot / (num_sqrt normA * num_sqrt normB).

(** [Math.max(...values)] *)
Definition Math_max (values : list N) : N :=
  fold_left num_max values num_neg_infinity.

Definition normalizeVector (values : list N) : list N :=
  let max := Math_max values in
  if max === num_zero
  then map (fun _ => num_zero) values
  else map (fun v => v / max) values.

End VectorUtils.

(* ================================================================= *)
(** * Values exchanged with the runtime and the collaborators *)

(** A parsed JSON document, as [JSON.parse] returns it.  An object lists its
    own properties, each key once. *)
Inductive json (N : Type) : Type :=
| JNull
| JBool (b : bool)
| JNum (x : N)
| JStr (s : string)
| JArr (items : list (json N))
| JObj (fields : list (string * json N)).

Arguments JNull {N}.
Arguments JBool {N} b.
Arguments JStr {N} s.

(** Property access [obj[key]]; [None] stands for [undefined]. *)
Fixpoint json_get {N} (key : string) (fields : list (string * json N))
  : option (json N) :=
  match fields with
  | [] => None
  | (k, v) :: rest => if String.eqb k key then Some v else json_get key rest
  end.

(** [ToBoolean] on a parsed value. *)
Definition json_truthy {N} `{JsNumber N} (j : json N) : bool :=
  match j with
  | JNull => false
  | JBool b => b
  | JNum x => num_truthy x
  | JStr s => negb (String.eqb s "")
  | JArr _ | JObj _ => true
  end.

(** [x ?? y] *)
Definition nullish {A} (x : option A) (y : A) : A :=
  match x with Some a => a | None => y end.

Module Traits.
(** [z.infer<typeof userTraitsSchema>] *)
Record t (N : Type) : Type := {
  adventurous : N;
  decisive : N;
  eccentric : N;
  flexible : N;
  loyal : N;
  optimistic : N;
  patient : N;
  perfectionist : N;
  punctual : N
}.
End Traits.

Module InteractionRow.
(** A row of the [Interaction] table.  The Prisma schema is not among the
    sources: the record has the columns that the services read and write,
    and [(userId, vendorId)] is unique in the table. *)
Record t : Type := {
  userId : Z;
  vendorId : Z;
  liked : bool;
  score : option Z
}.
End InteractionRow.

Module InteractionSummary.
Record t : Type := {
  vendorId : Z;
  liked : bool;
  score : option Z
}.
End InteractionSummary.

Module User.
(** A user loaded with [include: { interactions: true }], with the columns
    that the service reads.  The nine trait columns are grouped in
    [traits]. *)
Record t (N : Type) : Type := {
  id : Z;
  name : string;
  traits : Traits.t N;
  embedding : list N;
  behaviorPreferences : option (json N);
  interactions : list InteractionRow.t
}.
End User.

Module Vendor.
(** [VendorWithTraitsAndEmbedding] *)
Record t (N : Type) : Type := {
  id : Z;
  name : string;
  description : option string;
  embedding : list N;
  serviceQuality : N;
  interactionStyle : N;
  serviceConduct : N;
  expertise : N;
  environment : N;
  atmosphere : N;
  design : N;
  hospitality : N;
  outcomeQuality : N;
  waitingTime : N;
  physicalElements : N;
  experienceTone : N
}.
End Vendor.

Module Weights.
Record t (N : Type) : Type := {
  embedding : N;
  traits : N;
  behavior : N
}.
End Weights.

Module Adjustments.
(** [AdjustmentsInput]: what [adjustmentsSchema.parse] returns. *)
Record t (N : Type) : Type := {
  Adventurous : option N;
  Decisive : option N;
  Eccentric : option N;
  Flexible : option N;
  Loyal : option N;
  Optimistic : option N;
  Patient : option N;
  Perfectionist : option N;
  Punctual : option N;
  embeddingWeight : option N;
  traitWeight : option N;
  behaviorWeight : option N;
  behaviorPreferences : option (json N)
}.
End Adjustments.

Module Scores.
Record t (N : Type) : Type := {
  embeddingScore : N;
  traitScore : N;
  behaviorScore : N;
  finalScore : N
}.
End Scores.

Module ItemDebug.
Record t (N : Type) : Type := {
  vendorTraitVector : list N;
  prompt : string
}.
End ItemDebug.

Module RecommendationItem.
Record t (N : Type) : Type := {
  vendor : Vendor.t N;
  scores : Scores.t N;
  debug : option (ItemDebug.t N)
}.
End RecommendationItem.

Module UserDebug.
Record t (N : Type) : Type := {
  userTraitVector : list N;
  userEmbeddingLength : nat;
  adjustments : option (Adjustments.t N);
  prompt : string
}.
End UserDebug.

Module ResultUser.
Record t (N : Type) : Type := {
  id : Z;
  name : string;
  traits : Traits.t N;
  behaviorPreferences : option (json N);
  weights : Weights.t N;
  testMode : bool;
  debug : option (UserDebug.t N)
}.
End ResultUser.

Module Result.
Record t (N : Type) : Type := {
  user : ResultUser.t N;
  recommendations : list (RecommendationItem.t N)
}.
End Result.

(** What the service reads from outside: the two tables behind
    [PrismaService], the embedding collaborator ([None]: the promise is
    rejected), and the runtime's [JSON.parse] ([None]: it throws),
    [JSON.stringify] and number-to-string conversion. *)
Module World.
Record t (N : Type) : Type := {
  users : Z -> option (User.t N);
  vendors : list (Vendor.t N);
  generateEmbedding : string -> option (list N);
  JSON_parse : string -> option (json N);
  JSON_stringify : json N -> string;
  Number_toString : N -> string
}.
End World.

(* ================================================================= *)
(** * Calls to the collaborators, and exceptions *)

Inductive event : Type :=
| EvFindUser (userId : Z)                (* user.findUnique *)
| EvGenerateEmbedding (prompt : string)  (* generateEmbedding *)
| EvFindVendors.                         (* vendor.findMany *)

Inductive error : Type :=
| InvalidAdjustments   (* [new Error(`Invalid adjustments: ...`)] *)
| EmbeddingFailure.    (* the rejection of [generateEmbedding] *)

Inductive outcome (A : Type) : Type :=
| Returned (a : A)
| Thrown (e : error).

Arguments Thrown {A} e.

(** An asynchronous computation: the collaborator calls it made, in order,
    and how it ended. *)
Definition Async (A : Type) : Type := (list event * outcome A)%type.

Definition ret {A} (a : A) : Async A := ([], Returned a).

Definition throw {A} (e : error) : Async A := ([], Thrown e).

Definition bind {A B} (m : Async A) (k : A -> Async B) : Async B :=
  match m with
  | (t, Returned a) => let '(t', r) := k a in (t ++ t', r)
  | (t, Thrown e) => (t, Thrown e)
  end.

Notation "x <- m ;; k" := (bind m (fun x => k))
  (at level 61, m at next level, right associativity).

Definition trace {A} (m : Async A) : list event := fst m.
Definition result {A} (m : Async A) : outcome A := snd m.

Definition event_is_embedding (e : event) : bool :=
  match e with EvGenerateEmbedding _ => true | _ => false end.

(** Whether [generateEmbedding] was invoked during the computation. *)
Definition embedding_invoked {A} (m : Async A) : bool :=
  existsb event_is_embedding (trace m).

(* ================================================================= *)
(** * [Map<number, number[]>] *)

Module NumberMap.
Definition t (V : Type) : Type := list (Z * V).

Definition empty {V} : t V := [].

Fixpoint get {V} (key : Z) (m : t V) : option V :=
  match m with
  | [] => None
  | (k, v) :: rest => if Z.eqb k key then Some v else get key rest
  end.

(** [set] keeps the position of a key that is already present. *)
Fixpoint set {V} (key : Z) (value : V) (m : t V) : t V :=
  match m with
  | [] => [(key, value)]
  | (k, v) :: rest =>
      if Z.eqb k key then (k, value) :: rest
      else (k, v) :: set key value rest
  end.
End NumberMap.

(* ================================================================= *)
(** * The parts of the runtime and of zod that the services call *)

Definition obind {A B} (m : option A) (k : A -> option B) : option B :=
  match m with Some a => k a | None => None end.

Notation "'let?' x := m 'in' k" := (obind m (fun x => k))
  (at level 10, x name, m at level 100, k at level 200).

Section Runtime.

Context {N : Type} `{JsNumber N}.
Local Open Scope js_scope.

(** [Array.prototype.sort(comparefn)], as a stable insertion sort: an
    element moves behind its neighbour when [comparefn] of the two is
    positive; a NaN from [comparefn] counts as [+0].  The runtime promises
    a stable sort for a consistent comparator only; when [comparefn]
    returns NaN for some pairs the order is the engine's own, so the
    properties of the order are stated for comparators without NaN. *)
Fixpoint sort_insert {A} (comparefn : A -> A -> N) (x : A) (sorted : list A)
  : list A :=
  match sorted with
  | [] => [x]
  | y :: rest =>
      if num_zero <? comparefn x y
      then y :: sort_insert comparefn x rest
      else x :: y :: rest
  end.

Definition Array_sort {A} (comparefn : A -> A -> N) (items : list A)
  : list A :=
  fold_right (sort_insert comparefn) [] items.

(** [z.number().min(lo).max(hi)] *)
Definition z_number (lo hi : N) (j : json N) : option N :=
  match j with
  | JNum x =>
      if num_is_nan x then None
      else if x <? lo then None
      else if hi <? x then None
      else Some x
  | _ => None
  end.

(** [z.string()] *)
Definition z_string (j : json N) : option string :=
  match j with
  | JStr s => Some s
  | _ => None
  end.

(** [schema.optional()] on a property: [undefined] is accepted as it is. *)
Definition z_optional {A} (schema : json N -> option A)
    (v : option (json N)) : option (option A) :=
  match v with
  | None => Some None
  | Some j =>
      match schema j with
      | Some a => Some (Some a)
      | None => None
      end
  end.

(** [z.object(shape)] where every property of [shape] is optional: the
    keys of [shape] that the input has are validated and kept, the other
    keys of the input are stripped. *)
Fixpoint z_object_fields
    (shape : list (string * (json N -> option (json N))))
    (fields : list (string * json N)) : option (list (string * json N)) :=
  match shape with
  | [] => Some []
  | (key, schema) :: shape' =>
      let? v := z_optional schema (json_get key fields) in
      let? out := z_object_fields shape' fields in
      Some (match v with
            | Some j => (key, j) :: out
            | None => out
            end)
  end.

Definition z_object (shape : list (string * (json N -> option (json N))))
    (j : json N) : option (json N) :=
  match j with
  | JObj fields => option_map (@JObj N) (z_object_fields shape fields)
  | _ => None
  end.

End Runtime.

(* ================================================================= *)
(** * [users/users.service.ts]: the schemas the recommendations import *)

Section UserSchemas.

Context {N : Type} `{JsNumber N}.

Definition weight_schema (j : json N) : option (json N) :=
  option_map (@JNum N) (z_number num_zero num_one j).

Definition string_schema (j : json N) : option (json N) :=
  option_map (@JStr N) (z_string j).

Definition vendorTraitPreferenceSchema : json N -> option (json N) :=
  z_object
    [ ("serviceQuality", weight_schema);
      ("interactionStyle", weight_schema);
      ("serviceConduct", weight_schema);
      ("expertise", weight_schema);
      ("environment", weight_schema);
      ("atmosphere", weight_schema);
      ("design", weight_schema);
      ("hospitality", weight_schema);
      ("outcomeQuality", weight_schema);
      ("waitingTime", weight_schema);
      ("physicalElements", weight_schema);
      ("experienceTone", weight_schema) ]%string.

Definition behaviorPreferencesSchema : json N -> option (json N) :=
  z_object
    [ ("notes", string_schema);
      ("recentPattern", string_schema);
      ("vendorTraitWeights", vendorTraitPreferenceSchema) ]%string.

End UserSchemas.

(* ================================================================= *)
(** * [recommendations/recommendations.service.ts] *)

Section RecommendationsService.

Context {N : Type} `{JsNumber N}.
Local Open Scope js_scope.
Local Open Scope string_scope.

Definition defaultWeights : Weights.t N :=
  {| Weights.embedding := num_0_5;
     Weights.traits := num_0_3;
     Weights.behavior := num_0_2 |}.

Definition adjustmentsSchema (j : json N) : option (Adjustments.t N) :=
  match j with
  | JObj fields =>
      let trait key := z_optional (z_number num_zero num_five)
                         (json_get key fields) in
      let weight key := z_optional (z_number num_zero num_one)
                          (json_get key fields) in
      let? Adventurous := trait "Adventurous" in
      let? Decisive := trait "Decisive" in
      let? Eccentric := trait "Eccentric" in
      let? Flexible := trait "Flexible" in
      let? Loyal := trait "Loyal" in
      let? Optimistic := trait "Optimistic" in
      let? Patient := trait "Patient" in
      let? Perfectionist := trait "Perfectionist" in
      let? Punctual := trait "Punctual" in
      let? embeddingWeight := weight "embeddingWeight" in
      let? traitWeight := weight "traitWeight" in
      let? behaviorWeight := weight "behaviorWeight" in
      let? behaviorPreferences :=
        z_optional behaviorPreferencesSchema
          (json_get "behaviorPreferences" fields) in
      Some {| Adjustments.Adventurous := Adventurous;
              Adjustments.Decisive := Decisive;
              Adjustments.Eccentric := Eccentric;
              Adjustments.Flexible := Flexible;
              Adjustments.Loyal := Loyal;
              Adjustments.Optimistic := Optimistic;
              Adjustments.Patient := Patient;
              Adjustments.Perfectionist := Perfectionist;
              Adjustments.Punctual := Punctual;
              Adjustments.embeddingWeight := embeddingWeight;
              Adjustments.traitWeight := traitWeight;
              Adjustments.behaviorWeight := behaviorWeight;
              Adjustments.behaviorPreferences := behaviorPreferences |}
  | _ => None
  end.

Variable world : World.t N.

Definition newline : string := String (ascii_of_nat 10) EmptyString.

(** [lines.filter(Boolean).join("\n")] *)
Definition join_truthy_lines (lines : list string) : string :=
  String.concat newline (filter (fun l => negb (String.eqb l "")) lines).

Definition show (x : N) : string := World.Number_toString world x.

Definition buildUserPromptFromTraits (name : string) (traits : Traits.t N)
    (behaviorPreferences : option (json N)) : string :=
  join_truthy_lines
    [ "User: " ++ name;
      "Personality traits:";
      "Adventurous: " ++ show (Traits.adventurous traits);
      "Decisive: " ++ show (Traits.decisive traits);
      "Eccentric: " ++ show (Traits.eccentric traits);
      "Flexible: " ++ show (Traits.flexible traits);
      "Loyal: " ++ show (Traits.loyal traits);
      "Optimistic: " ++ show (Traits.optimistic traits);
      "Patient: " ++ show (Traits.patient traits);
      "Perfectionist: " ++ show (Traits.perfectionist traits);
      "Punctual: " ++ show (Traits.punctual traits);
      match behaviorPreferences with
      | Some bp =>
          if json_truthy bp
          then "Behavior preferences: " ++ World.JSON_stringify world bp
          else ""
      | None => ""
      end ].

Definition getUserTraitVector (user : Traits.t N) : list N :=
  [ Traits.adventurous user;
    Traits.decisive user;
    Traits.eccentric user;
    Traits.flexible user;
    Traits.loyal user;
    Traits.optimistic user;
    Traits.patient user;
    Traits.perfectionist user;
    Traits.punctual user ].

Definition getVendorTraitVector (vendor : Vendor.t N) : list N :=
  [ Vendor.serviceQuality vendor;
    Vendor.interactionStyle vendor;
    Vendor.serviceConduct vendor;
    Vendor.expertise vendor;
    Vendor.environment vendor;
    Vendor.atmosphere vendor;
    Vendor.design vendor;
    Vendor.hospitality vendor;
    Vendor.outcomeQuality vendor;
    Vendor.waitingTime vendor;
    Vendor.physicalElements vendor;
    Vendor.experienceTone vendor ].

Definition buildVendorPromptForDebug (vendor : Vendor.t N) : string :=
  join_truthy_lines
    [ "Vendor: " ++ Vendor.name vendor;
      match Vendor.description vendor with
      | Some d => if String.eqb d "" then "" else "Description: " ++ d
      | None => ""
      end;
      "Traits:";
      "Service Quality: " ++ show (Vendor.serviceQuality vendor);
      "Interaction Style: " ++ show (Vendor.interactionStyle vendor);
      "Service Conduct: " ++ show (Vendor.serviceConduct vendor);
      "Expertise: " ++ show (Vendor.expertise vendor);
      "Environment: " ++ show (Vendor.environment vendor);
      "Atmosphere: " ++ show (Vendor.atmosphere vendor);
      "Design: " ++ show (Vendor.design vendor);
      "Hospitality: " ++ show (Vendor.hospitality vendor);
      "Outcome Quality: " ++ show (Vendor.outcomeQuality vendor);
      "Waiting Time: " ++ show (Vendor.waitingTime vendor);
      "Physical Elements: " ++ show (Vendor.physicalElements vendor);
      "Experience Tone: " ++ show (Vendor.experienceTone vendor) ].

Definition computeTraitSimilarity (userVector vendorVector : list N) : N :=
  let u := normalizeVector userVector in
  let v := normalizeVector vendorVector in
  cosineSimilarity u v.

Definition computeBehaviorScoreForVendor
    (vendorId : Z)
    (userInteractions : list InteractionSummary.t)
    (vendorTraitVector : list N)
    (likedVendorsTraitMap : NumberMap.t (list N)) : N :=
  let interaction :=
    find (fun i => Z.eqb (InteractionSummary.vendorId i) vendorId)
         userInteractions in
  let directScore :=
    match interaction with
    | Some i => if InteractionSummary.liked i then num_one else num_zero
    | None => num_zero
    end in
  let likedVendors := filter InteractionSummary.liked userInteractions in
  let similarityAggregate :=
    if Nat.ltb 0 (List.length likedVendors)
    then
      let total :=
        fold_left
          (fun total liked =>
             match NumberMap.get (InteractionSummary.vendorId liked)
                                 likedVendorsTraitMap with
             | None => total
             | Some likedVector =>
                 total + computeTraitSimilarity vendorTraitVector likedVector
             end)
          likedVendors num_zero in
      total / num_of_nat (List.length likedVendors)
    else num_zero in
  let behaviorScore :=
    num_0_6 * directScore + num_0_4 * similarityAggregate in
  behaviorScore.

(** ** The collaborator calls *)

Definition prisma_user_findUnique (userId : Z)
  : Async (option (User.t N)) :=
  ([EvFindUser userId], Returned (World.users world userId)).

Definition prisma_vendor_findMany : Async (list (Vendor.t N)) :=
  ([EvFindVendors], Returned (World.vendors world)).

Definition embeddingsService_generateEmbedding (text : string)
  : Async (list N) :=
  ([EvGenerateEmbedding text],
   match World.generateEmbedding world text with
   | Some v => Returned v
   | None => Thrown EmbeddingFailure
   end).

(** ** [computeRecommendations] *)

(** [adjustments?.field] *)
Definition adjusted {A} (adjustments : option (Adjustments.t N))
    (field : Adjustments.t N -> option A) : option A :=
  match adjustments with
  | Some a => field a
  | None => None
  end.

(** The [if (adjustmentsRaw) { try { ... } catch { throw ... } }] block:
    [undefined] and the empty string are falsy. *)
Definition parseAdjustments (adjustmentsRaw : option string)
  : Async (option (Adjustments.t N)) :=
  match adjustmentsRaw with
  | None => ret None
  | Some raw =>
      if String.eqb raw "" then ret None
      else
        match World.JSON_parse world raw with
        | None => throw InvalidAdjustments
        | Some parsed =>
            match adjustmentsSchema parsed with
            | None => throw InvalidAdjustments
            | Some adjustments => ret (Some adjustments)
            end
        end
  end.

Definition effectiveTraits (user : User.t N)
    (adjustments : option (Adjustments.t N)) : Traits.t N :=
  let stored := User.traits user in
  {| Traits.adventurous :=
       nullish (adjusted adjustments (@Adjustments.Adventurous N))
               (Traits.adventurous stored);
     Traits.decisive :=
       nullish (adjusted adjustments (@Adjustments.Decisive N))
               (Traits.decisive stored);
     Traits.eccentric :=
       nullish (adjusted adjustments (@Adjustments.Eccentric N))
               (Traits.eccentric stored);
     Traits.flexible :=
       nullish (adjusted adjustments (@Adjustments.Flexible N))
               (Traits.flexible stored);
     Traits.loyal :=
       nullish (adjusted adjustments (@Adjustments.Loyal N))
               (Traits.loyal stored);
     Traits.optimistic :=
       nullish (adjusted adjustments (@Adjustments.Optimistic N))
               (Traits.optimistic stored);
     Traits.patient :=
       nullish (adjusted adjustments (@Adjustments.Patient N))
               (Traits.patient stored);
     Traits.perfectionist :=
       nullish (adjusted adjustments (@Adjustments.Perfectionist N))
               (Traits.perfectionist stored);
     Traits.punctual :=
       nullish (adjusted adjustments (@Adjustments.Punctual N))
               (Traits.punctual stored) |}.

Definition effectiveWeights (adjustments : option (Adjustments.t N))
  : Weights.t N :=
  {| Weights.embedding :=
       nullish (adjusted adjustments (@Adjustments.embeddingWeight N))
               (Weights.embedding defaultWeights);
     Weights.traits :=
       nullish (adjusted adjustments (@Adjustments.traitWeight N))
               (Weights.traits defaultWeights);
     Weights.behavior :=
       nullish (adjusted adjustments (@Adjustments.behaviorWeight N))
               (Weights.behavior defaultWeights) |}.

Definition normalizeWeights (weights : Weights.t N) : Weights.t N :=
  let weightSum :=
    num_or (Weights.embedding weights + Weights.traits weights
            + Weights.behavior weights) num_one in
  {| Weights.embedding := Weights.embedding weights / weightSum;
     Weights.traits := Weights.traits weights / weightSum;
     Weights.behavior := Weights.behavior weights / weightSum |}.

(** The loop that fills [likedVendorsTraitMap]. *)
Definition buildLikedVendorsTraitMap (user : User.t N)
    (vendors : list (Vendor.t N)) : NumberMap.t (list N) :=
  fold_left
    (fun m vendor =>
       if existsb
            (fun i => Z.eqb (InteractionRow.vendorId i) (Vendor.id vendor)
                      && InteractionRow.liked i)%bool
            (User.interactions user)
       then NumberMap.set (Vendor.id vendor) (getVendorTraitVector vendor) m
       else m)
    vendors NumberMap.empty.

Definition summarize (i : InteractionRow.t) : InteractionSummary.t :=
  {| InteractionSummary.vendorId := InteractionRow.vendorId i;
     InteractionSummary.liked := InteractionRow.liked i;
     InteractionSummary.score := InteractionRow.score i |}.

(** The callback of [vendors.map]. *)
Definition scoreVendor (debug : bool) (normalizedWeights : Weights.t N)
    (userEmbedding userTraitVector : list N)
    (userInteractions : list InteractionSummary.t)
    (likedVendorsTraitMap : NumberMap.t (list N))
    (vendor : Vendor.t N) : RecommendationItem.t N :=
  let vendorTraitVector := getVendorTraitVector vendor in
  let embeddingScore :=
    cosineSimilarity userEmbedding (Vendor.embedding vendor) in
  let traitScore :=
    computeTraitSimilarity userTraitVector vendorTraitVector in
  let behaviorScore :=
    computeBehaviorScoreForVendor (Vendor.id vendor) userInteractions
      vendorTraitVector likedVendorsTraitMap in
  let finalScore :=
    Weights.embedding normalizedWeights * embeddingScore
    + Weights.traits normalizedWeights * traitScore
    + Weights.behavior normalizedWeights * behaviorScore in
  {| RecommendationItem.vendor := vendor;
     RecommendationItem.scores :=
       {| Scores.embeddingScore := embeddingScore;
          Scores.traitScore := traitScore;
          Scores.behaviorScore := behaviorScore;
          Scores.finalScore := finalScore |};
     RecommendationItem.debug :=
       if debug
       then Some {| ItemDebug.vendorTraitVector := vendorTraitVector;
                    ItemDebug.prompt := buildVendorPromptForDebug vendor |}
       else None |}.

(** The comparator of [results.sort]. *)
Definition byFinalScoreDescending (a b : RecommendationItem.t N) : N :=
  Scores.finalScore (RecommendationItem.scores b)
  - Scores.finalScore (RecommendationItem.scores a).

(** Everything after the user embedding and the vendors are known. *)
Definition rankVendors (user : User.t N) (testMode debug : bool)
    (adjustments : option (Adjustments.t N))
    (userEmbedding : list N) (vendors : list (Vendor.t N)) : Result.t N :=
  let traits := effectiveTraits user adjustments in
  let normalizedWeights := normalizeWeights (effectiveWeights adjustments) in
  let behaviorPreferences :=
    match adjusted adjustments (@Adjustments.behaviorPreferences N) with
    | Some bp => Some bp
    | None => User.behaviorPreferences user
    end in
  let userPrompt :=
    buildUserPromptFromTraits (User.name user) traits behaviorPreferences in
  let userTraitVector := getUserTraitVector traits in
  let likedVendorsTraitMap := buildLikedVendorsTraitMap user vendors in
  let userInteractions := map summarize (User.interactions user) in
  let results :=
    map (scoreVendor debug normalizedWeights userEmbedding userTraitVector
           userInteractions likedVendorsTraitMap)
        vendors in
  let results := Array_sort byFinalScoreDescending results in
  {| Result.user :=
       {| ResultUser.id := User.id user;
          ResultUser.name := User.name user;
          ResultUser.traits := traits;
          ResultUser.behaviorPreferences := behaviorPreferences;
          ResultUser.weights := normalizedWeights;
          ResultUser.testMode := testMode;
          ResultUser.debug :=
            if debug
            then Some {| UserDebug.userTraitVector := userTraitVector;
                         UserDebug.userEmbeddingLength :=
                           List.length userEmbedding;
                         UserDebug.adjustments := adjustments;
                         UserDebug.prompt := userPrompt |}
            else None |};
     Result.recommendations := results |}.

Definition computeRecommendations (userId : Z) (testMode : bool)
    (adjustmentsRaw : option string) (options : option (option bool))
  : Async (option (Result.t N)) :=
  let debug :=
    nullish (match options with Some o => o | None => None end) false in
  user <- prisma_user_findUnique userId ;;
  match user with
  | None => ret None
  | Some user =>
      adjustments <- parseAdjustments adjustmentsRaw ;;
      let traits := effectiveTraits user adjustments in
      let behaviorPreferences :=
        match adjusted adjustments (@Adjustments.behaviorPreferences N) with
        | Some bp => Some bp
        | None => User.behaviorPreferences user
        end in
      let userPrompt :=
        buildUserPromptFromTraits (User.name user) traits
          behaviorPreferences in
      userEmbedding <-
        (if (testMode || match adjustments with
                         | Some _ => true
                         | None => false
                         end)%bool
         then embeddingsService_generateEmbedding userPrompt
         else ret (User.embedding user)) ;;
      vendors <- prisma_vendor_findMany ;;
      ret (Some (rankVendors user testMode debug adjustments
                   userEmbedding vendors))
  end.

Definition getRecommendations (userId : Z) (testMode : bool)
    (adjustmentsRaw : option string) : Async (option (Result.t N)) :=
  computeRecommendations userId testMode adjustmentsRaw (Some (Some false)).

Definition getRecommendationsDebug (userId : Z) (testMode : bool)
    (adjustmentsRaw : option string) : Async (option (Result.t N)) :=
  computeRecommendations userId testMode adjustmentsRaw (Some (Some true)).

End RecommendationsService.

(* ================================================================= *)
(** * [interactions/interactions.service.ts] *)

Module InteractionsService.

(** The three tables the service touches; of a user and of a vendor only
    the primary key matters here. *)
Record Database : Type := {
  userIds : list Z;
  vendorIds : list Z;
  interactions : list InteractionRow.t
}.

(** [InteractionInput]: [score] is optional. *)
Record InteractionInput : Type := {
  userId : Z;
  vendorId : Z;
  liked : bool;
  score : option Z
}.

(** The compound unique key [userId_vendorId]. *)
Definition has_key (userId vendorId : Z) (row : InteractionRow.t) : bool :=
  (Z.eqb (InteractionRow.userId row) userId
   && Z.eqb (InteractionRow.vendorId row) vendorId)%bool.

(** [prisma.interaction.upsert({ where, update, create })]: the row with the
    key is updated where it stands, or the new row is added. *)
Definition interaction_upsert (userId vendorId : Z)
    (update : InteractionRow.t -> InteractionRow.t)
    (create : InteractionRow.t)
    (rows : list InteractionRow.t)
  : list InteractionRow.t * InteractionRow.t :=
  match find (has_key userId vendorId) rows with
  | Some old =>
      (map (fun row => if has_key userId vendorId row then update row
                       else row) rows,
       update old)
  | None => (rows ++ [create], create)
  end.

Definition findUnique (id : Z) (ids : list Z) : option Z :=
  find (Z.eqb id) ids.

(** The database after the call, and the value the promise resolves to
    ([None]: [null]). *)
Definition upsertInteraction (input : InteractionInput) (db : Database)
  : Database * option InteractionRow.t :=
  let user := findUnique (userId input) (userIds db) in
  let vendor := findUnique (vendorId input) (vendorIds db) in
  match user, vendor with
  | Some _, Some _ =>
      let '(rows, row) :=
        interaction_upsert (userId input) (vendorId input)
          (fun old =>
             {| InteractionRow.userId := InteractionRow.userId old;
                InteractionRow.vendorId := InteractionRow.vendorId old;
                InteractionRow.liked := liked input;
                InteractionRow.score := score input |})
          {| InteractionRow.userId := userId input;
             InteractionRow.vendorId := vendorId input;
             InteractionRow.liked := liked input;
             InteractionRow.score := score input |}
          (interactions db) in
      ({| userIds := userIds db;
          vendorIds := vendorIds db;
          interactions := rows |},
       Some row)
  | _, _ => (db, None)
  end.

Definition listForUser (userId : Z) (db : Database)
  : list InteractionRow.t :=
  filter (fun row => Z.eqb (InteractionRow.userId row) userId)
         (interactions db).

End InteractionsService.

(* ================================================================= *)
(** * Laws of the number operations

    The facts about numbers that the proofs below rely on.  Both
    implementations satisfy them. *)

Class JsNumberLaws (N : Type) `{JsNumber N} : Prop := {
  num_mul_comm : forall x y : N, (x * y = y * x)%js;
  (** the sign of a difference of two numbers agrees with their order *)
  num_lt_sub : forall x y : N,
      num_is_nan x = false -> num_is_nan y = false ->
      (num_zero <? x - y)%js = (y <? x)%js;
  num_le_total : forall x y : N,
      num_is_nan x = false -> num_is_nan y = false ->
      (x <? y)%js = false -> (y <=? x)%js = true;
  num_lt_le : forall x y : N, (x <? y)%js = true -> (x <=? y)%js = true;
  (** zero divided by the length of a non-empty array *)
  num_zero_div_length : forall n : nat,
      (0 < n)%nat -> (Z.of_nat n < 2 ^ 32)%Z ->
      (num_zero / num_of_nat n)%js = num_zero;
  num_max_neg_infinity_zero : num_max num_neg_infinity num_zero = num_zero;
  num_max_zero_zero : num_max num_zero num_zero = num_zero;
  num_zero_eq_zero : (num_zero === num_zero)%js = true
}.

Arguments JsNumberLaws N {_}.

(* ================================================================= *)
(** * Vocabulary of the specification *)

Section Vocabulary.

Context {N : Type} `{JsNumber N}.
Local Open Scope js_scope.
Variable world : World.t N.

(** Whether an adjustments payload reaches the parser: [if (adjustmentsRaw)]. *)
Definition payload_supplied (adjustmentsRaw : option string) : bool :=
  match adjustmentsRaw with
  | Some raw => negb (String.eqb raw "")
  | None => false
  end.


(** Whether at least one of the thirteen fields of the payload is set. *)
Definition any_field_supplied (a : Adjustments.t N) : bool :=
  let set {A} (field : option A) :=
    match field with Some _ => true | None => false end in
  (set (Adjustments.Adventurous a) || set (Adjustments.Decisive a)
   || set (Adjustments.Eccentric a) || set (Adjustments.Flexible a)
   || set (Adjustments.Loyal a) || set (Adjustments.Optimistic a)
   || set (Adjustments.Patient a) || set (Adjustments.Perfectionist a)
   || set (Adjustments.Punctual a) || set (Adjustments.embeddingWeight a)
   || set (Adjustments.traitWeight a) || set (Adjustments.behaviorWeight a)
   || set (Adjustments.behaviorPreferences a))%bool.

(** [l.reduce((total, x) => total + x, 0)] *)
Definition total_of (l : list N) : N := fold_left num_add l num_zero.

(** The direct score as the specification words it: 1 when some interaction
    with the vendor is a like. *)
Definition directScore_spec (vendorId : Z)
    (userInteractions : list InteractionSummary.t) : N :=
  if existsb (fun i => Z.eqb (InteractionSummary.vendorId i) vendorId
                       && InteractionSummary.liked i)%bool
             userInteractions
  then num_one else num_zero.

(** The trait similarities between the target vendor and the liked vendors
    whose trait vector is in the map, in the order of the interactions. *)
Definition liked_similarities (userInteractions : list InteractionSummary.t)
    (vendorTraitVector : list N)
    (likedVendorsTraitMap : NumberMap.t (list N)) : list N :=
  flat_map
    (fun liked =>
       match NumberMap.get (InteractionSummary.vendorId liked)
                           likedVendorsTraitMap with
       | Some likedVector =>
           [computeTraitSimilarity vendorTraitVector likedVector]
       | None => []
       end)
    (filter InteractionSummary.liked userInteractions).

(** The average of a list of numbers, 0 for the empty list. *)
Definition average (l : list N) : N :=
  match l with
  | [] => num_zero
  | _ :: _ => total_of l / num_of_nat (List.length l)
  end.

(** The behaviour score as the specification words it: the aggregate is the
    average of the similarities that are available. *)
Definition behaviorScore_spec (vendorId : Z)
    (userInteractions : list InteractionSummary.t)
    (vendorTraitVector : list N)
    (likedVendorsTraitMap : NumberMap.t (list N)) : N :=
  num_0_6 * directScore_spec vendorId userInteractions
  + num_0_4 * average (liked_similarities userInteractions vendorTraitVector
                         likedVendorsTraitMap).

(** The aggregate with the divisor of the code: the number of liked
    interactions, whether their vendor has a vector in the map or not. *)
Definition aggregate_over_liked
    (userInteractions : list InteractionSummary.t)
    (vendorTraitVector : list N)
    (likedVendorsTraitMap : NumberMap.t (list N)) : N :=
  match filter InteractionSummary.liked userInteractions with
  | [] => num_zero
  | likedVendors =>
      total_of (liked_similarities userInteractions vendorTraitVector
             likedVendorsTraitMap)
      / num_of_nat (List.length likedVendors)
  end.

(** Every liked interaction has its vendor's vector in the map. *)
Definition all_liked_resolve (userInteractions : list InteractionSummary.t)
    (likedVendorsTraitMap : NumberMap.t (list N)) : bool :=
  forallb
    (fun liked =>
       match NumberMap.get (InteractionSummary.vendorId liked)
                           likedVendorsTraitMap with
       | Some _ => true
       | None => false
       end)
    (filter InteractionSummary.liked userInteractions).

Definition final_score (item : RecommendationItem.t N) : N :=
  Scores.finalScore (RecommendationItem.scores item).

(** The ranking is in descending order of [finalScore]: each item's score
    is [>=] the score of the item after it. *)
Fixpoint descending (items : list (RecommendationItem.t N)) : bool :=
  match items with
  | [] => true
  | a :: rest =>
      match rest with
      | [] => true
      | b :: _ => (final_score b <=? final_score a) && descending rest
      end
  end.

(** No item of the ranking has NaN as its [finalScore]. *)
Definition no_nan_score (items : list (RecommendationItem.t N)) : bool :=
  forallb (fun item => negb (num_is_nan (final_score item))) items.

Definition weights_of (e t b : N) : Weights.t N :=
  {| Weights.embedding := e; Weights.traits := t; Weights.behavior := b |}.

Definition sum_of_weights (w : Weights.t N) : N :=
  Weights.embedding w + Weights.traits w + Weights.behavior w.

End Vocabulary.

(** The dot product and the Euclidean norm of vectors of reals. *)
Fixpoint dot_product (a b : list R) : R :=
  match a, b with
  | x :: a', y :: b' => x * y + dot_product a' b'
  | _, _ => 0
  end.

Definition euclidean_norm (a : list R) : R := R_sqrt.sqrt (dot_product a a).

(** A binary floating-point number that is not zero, not NaN, and has the
    given sign bit. *)
Definition same_sign_nonzero (s : bool) (x : spec_float) : Prop :=
  match x with
  | S754_finite s' _ _ | S754_infinity s' => s' = s
  | _ => False
  end.

Local Open Scope Z_scope.

(** A shifted mantissa with its two rounding bits stands for a number that
    is at most 1 at exponent [e], and below 1 when a bit is set. *)
Definition under_one (mrs : shr_record) (e : Z) : Prop :=
  0 <= shr_m mrs <= 2 ^ (- e)
  /\ (shr_r mrs = true \/ shr_s mrs = true -> shr_m mrs < 2 ^ (- e)).

(** A binary floating-point number that is at most 1: negative, zero, or a
    positive mantissa that is at most [2 ^ (- e)]. *)
Definition at_most_one (x : spec_float) : Prop :=
  match x with
  | S754_nan => False
  | S754_zero _ => True
  | S754_infinity s => s = true
  | S754_finite s m e => s = true \/ (Zpos m <= 2 ^ (- e) /\ e <= 0)
  end.

(** The position of a binary floating-point number in the order, as a
    triple compared lexicographically. *)
Definition order_key (x : spec_float) : Z * Z * Z :=
  match x with
  | S754_infinity true => (-2, 0, 0)
  | S754_finite true m e => (-1, - e, - Zpos m)
  | S754_zero _ | S754_nan => (0, 0, 0)
  | S754_finite false m e => (1, e, Zpos m)
  | S754_infinity false => (2, 0, 0)
  end.

Definition lex_le (a b : Z * Z * Z) : Prop :=
  let '(a1, a2, a3) := a in
  let '(b1, b2, b3) := b in
  a1 < b1 \/ (a1 = b1 /\ (a2 < b2 \/ (a2 = b2 /\ a3 <= b3))).

Local Close Scope Z_scope.

(** The largest element of a non-empty vector of reals. *)
Fixpoint maximum (first : R) (others : list R) : R :=
  match others with
  | [] => first
  | x :: others' => maximum (Rmax first x) others'
  end.

(* ================================================================= *)
(** * Sample data

    A small deployment over binary64 numbers, used to run the services on
    concrete inputs. *)

Module Fixtures.

Local Open Scope string_scope.
Local Open Scope float_scope.

(** The quotation mark. *)
Definition dq : string := String (ascii_of_nat 34) EmptyString.

(** The text of an object with no property, and of an object whose only
    property is the trait override [Adventurous: 7]. *)
Definition empty_object_text : string := "{}".

Definition trait_out_of_range_text : string :=
  "{" ++ dq ++ "Adventurous" ++ dq ++ ":7}".

(** [JSON.parse] on the three texts the examples use: the two above, and the
    empty text, which is a syntax error.  No other text is parsed. *)
Definition JSON_parse (text : string) : option (json float) :=
  if String.eqb text empty_object_text then Some (JObj [])
  else if String.eqb text trait_out_of_range_text
       then Some (JObj [("Adventurous", JNum 7)])
       else None.

(** The sample users have no behaviour preferences, so [JSON.stringify] is
    never reached. *)
Definition JSON_stringify (j : json float) : string := "null".

(** Number-to-string conversion on the numbers the samples print, which
    are trait values: the integers from 0 to 5. *)
Definition Number_toString (x : float) : string :=
  if x =? 0 then "0" else if x =? 1 then "1" else if x =? 2 then "2"
  else if x =? 3 then "3" else if x =? 4 then "4" else if x =? 5 then "5"
  else "NaN".

(** The user of scenario A, who liked vendor 1. *)
Definition alex : User.t float :=
  {| User.id := 1;
     User.name := "Adventurous Alex";
     User.traits :=
       {| Traits.adventurous := 5; Traits.decisive := 4;
          Traits.eccentric := 3; Traits.flexible := 4; Traits.loyal := 3;
          Traits.optimistic := 5; Traits.patient := 2;
          Traits.perfectionist := 2; Traits.punctual := 3 |};
     User.embedding := [0.5; 0.25];
     User.behaviorPreferences := None;
     User.interactions :=
       [ {| InteractionRow.userId := 1; InteractionRow.vendorId := 1;
            InteractionRow.liked := true; InteractionRow.score := None |} ] |}.

Definition vendor (id : Z) (name : string) (embedding : list float)
    (t : list float) : Vendor.t float :=
  {| Vendor.id := id;
     Vendor.name := name;
     Vendor.description := None;
     Vendor.embedding := embedding;
     Vendor.serviceQuality := nth 0 t 0;
     Vendor.interactionStyle := nth 1 t 0;
     Vendor.serviceConduct := nth 2 t 0;
     Vendor.expertise := nth 3 t 0;
     Vendor.environment := nth 4 t 0;
     Vendor.atmosphere := nth 5 t 0;
     Vendor.design := nth 6 t 0;
     Vendor.hospitality := nth 7 t 0;
     Vendor.outcomeQuality := nth 8 t 0;
     Vendor.waitingTime := nth 9 t 0;
     Vendor.physicalElements := nth 10 t 0;
     Vendor.experienceTone := nth 11 t 0 |}.

(** The trait vector of scenario A. *)
Definition spa_traits : list float := [2; 1; 3; 4; 2; 2; 3; 5; 2; 2; 2; 5].

Definition garage_traits : list float :=
  [5; 5; 1; 1; 4; 0; 0; 3; 2; 1; 1; 1].

Definition spa : Vendor.t float := vendor 1 "Spa" [0.25; 0.5] spa_traits.

Definition garage : Vendor.t float := vendor 2 "Garage" [1; 0] garage_traits.

Definition world : World.t float :=
  {| World.users := fun id => if Z.eqb id 1 then Some alex else None;
     World.vendors := [spa; garage];
     World.generateEmbedding := fun _ => Some [0.125; 1];
     World.JSON_parse := JSON_parse;
     World.JSON_stringify := JSON_stringify;
     World.Number_toString := Number_toString |}.

(** Two likes, one of a vendor that is in the map and one of a vendor that
    is not. *)
Definition two_likes : list InteractionSummary.t :=
  [ {| InteractionSummary.vendorId := 1; InteractionSummary.liked := true;
       InteractionSummary.score := None |};
    {| InteractionSummary.vendorId := 9; InteractionSummary.liked := true;
       InteractionSummary.score := None |} ].

Definition only_spa : NumberMap.t (list float) := [(1%Z, spa_traits)].

(** A deployment whose stored embeddings have components of magnitude
    [1e200]: their squares are beyond the binary64 range. *)
Definition huge : list float := [1e200].

Definition overflow_world : World.t float :=
  {| World.users :=
       fun id =>
         if Z.eqb id 1
         then Some {| User.id := 1;
                      User.name := User.name alex;
                      User.traits := User.traits alex;
                      User.embedding := huge;
                      User.behaviorPreferences := None;
                      User.interactions := [] |}
         else None;
     World.vendors :=
       [ vendor 1 "Spa" huge spa_traits;
         vendor 2 "Garage" huge garage_traits ];
     World.generateEmbedding := fun _ => Some [0.125; 1];
     World.JSON_parse := JSON_parse;
     World.JSON_stringify := JSON_stringify;
     World.Number_toString := Number_toString |}.

(** A stored like with a rating, another user's record, and a dislike of
    the same vendor sent without a rating. *)
Definition rated_like : InteractionRow.t :=
  {| InteractionRow.userId := 1; InteractionRow.vendorId := 7;
     InteractionRow.liked := true; InteractionRow.score := Some 4%Z |}.

Definition database : InteractionsService.Database :=
  {| InteractionsService.userIds := [1%Z; 2%Z];
     InteractionsService.vendorIds := [7%Z];
     InteractionsService.interactions :=
       [ rated_like;
         {| InteractionRow.userId := 2; InteractionRow.vendorId := 7;
            InteractionRow.liked := true; InteractionRow.score := None |} ] |}.

Definition plain_dislike : InteractionsService.InteractionInput :=
  {| InteractionsService.userId := 1; InteractionsService.vendorId := 7;
     InteractionsService.liked := false;
     InteractionsService.score := None |}.

End Fixtures.

(* ================================================================= *)
(** * The users and vendors services, further vocabulary and samples *)

Section MoreVocabulary.

Context {N : Type} `{JsNumber N}.
Local Open Scope js_scope.

(** [lo <= x <= hi] for a number that is not NaN, as
    [z.number().min(lo).max(hi)] checks it. *)
Definition within (lo hi x : N) : bool :=
  (negb (num_is_nan x) && negb (x <? lo) && negb (hi <? x))%bool.

(** The overrides of the nine traits, and of the three weights, that a
    parsed payload carries. *)
Definition trait_overrides (a : Adjustments.t N) : list (option N) :=
  [ Adjustments.Adventurous a; Adjustments.Decisive a;
    Adjustments.Eccentric a; Adjustments.Flexible a; Adjustments.Loyal a;
    Adjustments.Optimistic a; Adjustments.Patient a;
    Adjustments.Perfectionist a; Adjustments.Punctual a ].

Definition weight_overrides (a : Adjustments.t N) : list (option N) :=
  [ Adjustments.embeddingWeight a; Adjustments.traitWeight a;
    Adjustments.behaviorWeight a ].

(** The keys that [adjustmentsSchema] declares. *)
Definition adjustment_keys : list string :=
  [ "Adventurous"; "Decisive"; "Eccentric"; "Flexible"; "Loyal";
    "Optimistic"; "Patient"; "Perfectionist"; "Punctual";
    "embeddingWeight"; "traitWeight"; "behaviorWeight";
    "behaviorPreferences" ]%string.

(** A recommendation without its debug part, and a response without its
    debug parts. *)
Definition without_item_debug (item : RecommendationItem.t N)
  : RecommendationItem.t N :=
  {| RecommendationItem.vendor := RecommendationItem.vendor item;
     RecommendationItem.scores := RecommendationItem.scores item;
     RecommendationItem.debug := None |}.

Definition without_debug (r : Result.t N) : Result.t N :=
  {| Result.user :=
       {| ResultUser.id := ResultUser.id (Result.user r);
          ResultUser.name := ResultUser.name (Result.user r);
          ResultUser.traits := ResultUser.traits (Result.user r);
          ResultUser.behaviorPreferences :=
            ResultUser.behaviorPreferences (Result.user r);
          ResultUser.weights := ResultUser.weights (Result.user r);
          ResultUser.testMode := ResultUser.testMode (Result.user r);
          ResultUser.debug := None |};
     Result.recommendations :=
       map without_item_debug (Result.recommendations r) |}.

(** The recommendations whose final score is [===] to [s]. *)
Definition tied_at (s : N) (items : list (RecommendationItem.t N))
  : list (RecommendationItem.t N) :=
  filter (fun item => final_score item === s) items.

(** Whether the user has a liked interaction with the vendor of this id. *)
Definition liked_by (user : User.t N) (vendorId : Z) : bool :=
  existsb (fun i => Z.eqb (InteractionRow.vendorId i) vendorId
                    && InteractionRow.liked i)%bool
          (User.interactions user).

End MoreVocabulary.

(* ----------------------------------------------------------------- *)
(** ** More of zod: required properties, non-empty strings, booleans *)

Section MoreRuntime.

Context {N : Type} `{JsNumber N}.

(** A property of [z.object] that is not optional: [undefined] is
    rejected. *)
Definition z_required {A} (schema : json N -> option A)
    (v : option (json N)) : option A :=
  match v with
  | Some j => schema j
  | None => None
  end.

(** [z.string().min(1)] *)
Definition z_string_min_1 (j : json N) : option string :=
  match z_string j with
  | Some s => if String.eqb s "" then None else Some s
  | None => None
  end.

(** [z.boolean()] *)
Definition z_boolean (j : json N) : option bool :=
  match j with
  | JBool b => Some b
  | _ => None
  end.

End MoreRuntime.

(* ----------------------------------------------------------------- *)
(** ** What the users and vendors services exchange with Prisma *)

Module PartialTraits.
(** The output of [userTraitsSchema.partial()]: the keys that the input
    has. *)
Record t (N : Type) : Type := {
  adventurous : option N;
  decisive : option N;
  eccentric : option N;
  flexible : option N;
  loyal : option N;
  optimistic : option N;
  patient : option N;
  perfectionist : option N;
  punctual : option N
}.
End PartialTraits.

Module UserRow.
(** A row of the [User] table, loaded without its interactions. *)
Record t (N : Type) : Type := {
  id : Z;
  name : string;
  traits : Traits.t N;
  embedding : list N;
  behaviorPreferences : option (json N);
  isTestUser : bool
}.
End UserRow.

Module CreateUserInput.
(** [z.infer<typeof createUserSchema>] *)
Record t (N : Type) : Type := {
  name : string;
  traits : Traits.t N;
  behaviorPreferences : option (json N);
  isTestUser : option bool
}.
End CreateUserInput.

Module UpdateUserTraitsInput.
(** [z.infer<typeof updateUserTraitsSchema>] *)
Record t (N : Type) : Type := {
  traits : PartialTraits.t N;
  behaviorPreferences : option (json N)
}.
End UpdateUserTraitsInput.

Module UserCreateData.
(** The [data] of [prisma.user.create]; [None] is [null]. *)
Record t (N : Type) : Type := {
  name : string;
  traits : Traits.t N;
  embedding : list N;
  behaviorPreferences : option (json N);
  isTestUser : bool
}.
End UserCreateData.

Module UserUpdateData.
(** The [data] of [prisma.user.update]: the nine trait columns when they
    are written, the embedding, and the behaviour preferences ([None] is
    [null]). *)
Record t (N : Type) : Type := {
  traits : option (Traits.t N);
  embedding : list N;
  behaviorPreferences : option (json N)
}.
End UserUpdateData.

Module VendorTraits.
(** [z.infer<typeof vendorTraitsSchema>] *)
Record t (N : Type) : Type := {
  serviceQuality : N;
  interactionStyle : N;
  serviceConduct : N;
  expertise : N;
  environment : N;
  atmosphere : N;
  design : N;
  hospitality : N;
  outcomeQuality : N;
  waitingTime : N;
  physicalElements : N;
  experienceTone : N
}.
End VendorTraits.

Module CreateVendorInput.
(** [z.infer<typeof createVendorSchema>] *)
Record t (N : Type) : Type := {
  name : string;
  description : option string;
  traits : VendorTraits.t N
}.
End CreateVendorInput.

Module VendorCreateData.
(** The [data] of [prisma.vendor.create]. *)
Record t (N : Type) : Type := {
  name : string;
  description : option string;
  traits : VendorTraits.t N;
  embedding : list N
}.
End VendorCreateData.

(** The calls that the users and vendors services make, with their
    arguments. *)
Inductive call (N : Type) : Type :=
| UserFindUnique (id : Z)
| UserFindMany
| UserCreate (data : UserCreateData.t N)
| UserUpdate (id : Z) (data : UserUpdateData.t N)
| VendorFindUnique (id : Z)
| VendorFindMany
| VendorCreate (data : VendorCreateData.t N)
| GenerateEmbedding (text : string).

Arguments UserFindUnique {N} id.
Arguments UserFindMany {N}.
Arguments VendorFindUnique {N} id.
Arguments VendorFindMany {N}.
Arguments GenerateEmbedding {N} text.

Module Prisma.
(** What the calls to [PrismaService] resolve to. *)
Record t (N : Type) : Type := {
  user_findUnique : Z -> option (UserRow.t N);
  user_findMany : list (UserRow.t N);
  user_create : UserCreateData.t N -> UserRow.t N;
  user_update : Z -> UserUpdateData.t N -> UserRow.t N;
  vendor_findUnique : Z -> option (Vendor.t N);
  vendor_findMany : list (Vendor.t N);
  vendor_create : VendorCreateData.t N -> Vendor.t N
}.
End Prisma.

(** An asynchronous computation of these services: its calls, in order, and
    how it ended. *)
Definition Task (N A : Type) : Type := (list (call N) * outcome A)%type.

Definition task_ret {N A} (a : A) : Task N A := ([], Returned a).

Definition task_bind {N A B} (m : Task N A) (k : A -> Task N B)
  : Task N B :=
  match m with
  | (t, Returned a) => let '(t', r) := k a in (t ++ t', r)
  | (t, Thrown e) => (t, Thrown e)
  end.

Notation "x <-- m ;; k" := (task_bind m (fun x => k))
  (at level 61, m at next level, right associativity).

(** Whether a call writes to the database. *)
Definition is_write {N} (c : call N) : bool :=
  match c with
  | UserCreate _ | UserUpdate _ _ | VendorCreate _ => true
  | _ => false
  end.

(* ----------------------------------------------------------------- *)
(** ** [users/users.service.ts] *)

Section UsersServiceSchemas.

Context {N : Type} `{JsNumber N}.
Local Open Scope string_scope.

Definition userTraitsSchema (j : json N) : option (Traits.t N) :=
  match j with
  | JObj fields =>
      let trait key := z_required (z_number num_zero num_five)
                         (json_get key fields) in
      let? adventurous := trait "adventurous" in
      let? decisive := trait "decisive" in
      let? eccentric := trait "eccentric" in
      let? flexible := trait "flexible" in
      let? loyal := trait "loyal" in
      let? optimistic := trait "optimistic" in
      let? patient := trait "patient" in
      let? perfectionist := trait "perfectionist" in
      let? punctual := trait "punctual" in
      Some {| Traits.adventurous := adventurous;
              Traits.decisive := decisive;
              Traits.eccentric := eccentric;
              Traits.flexible := flexible;
              Traits.loyal := loyal;
              Traits.optimistic := optimistic;
              Traits.patient := patient;
              Traits.perfectionist := perfectionist;
              Traits.punctual := punctual |}
  | _ => None
  end.

(** [userTraitsSchema.partial()] *)
Definition userTraitsSchema_partial (j : json N)
  : option (PartialTraits.t N) :=
  match j with
  | JObj fields =>
      let trait key := z_optional (z_number num_zero num_five)
                         (json_get key fields) in
      let? adventurous := trait "adventurous" in
      let? decisive := trait "decisive" in
      let? eccentric := trait "eccentric" in
      let? flexible := trait "flexible" in
      let? loyal := trait "loyal" in
      let? optimistic := trait "optimistic" in
      let? patient := trait "patient" in
      let? perfectionist := trait "perfectionist" in
      let? punctual := trait "punctual" in
      Some {| PartialTraits.adventurous := adventurous;
              PartialTraits.decisive := decisive;
              PartialTraits.eccentric := eccentric;
              PartialTraits.flexible := flexible;
              PartialTraits.loyal := loyal;
              PartialTraits.optimistic := optimistic;
              PartialTraits.patient := patient;
              PartialTraits.perfectionist := perfectionist;
              PartialTraits.punctual := punctual |}
  | _ => None
  end.

(** The traits of a partial object, in the order of the schema. *)
Definition partial_traits (t : PartialTraits.t N) : list (option N) :=
  [ PartialTraits.adventurous t; PartialTraits.decisive t;
    PartialTraits.eccentric t; PartialTraits.flexible t;
    PartialTraits.loyal t; PartialTraits.optimistic t;
    PartialTraits.patient t; PartialTraits.perfectionist t;
    PartialTraits.punctual t ].

(** [Object.keys(val).length] *)
Definition Object_keys_length (t : PartialTraits.t N) : nat :=
  List.length
    (filter (fun o => match o with Some _ => true | None => false end)
            (partial_traits t)).

Definition createUserSchema (j : json N) : option (CreateUserInput.t N) :=
  match j with
  | JObj fields =>
      let? name := z_required z_string_min_1 (json_get "name" fields) in
      let? traits := z_required userTraitsSchema (json_get "traits" fields) in
      let? behaviorPreferences :=
        z_optional behaviorPreferencesSchema
          (json_get "behaviorPreferences" fields) in
      let? isTestUser :=
        z_optional z_boolean (json_get "isTestUser" fields) in
      Some {| CreateUserInput.name := name;
              CreateUserInput.traits := traits;
              CreateUserInput.behaviorPreferences := behaviorPreferences;
              CreateUserInput.isTestUser := isTestUser |}
  | _ => None
  end.

Definition updateUserTraitsSchema (j : json N)
  : option (UpdateUserTraitsInput.t N) :=
  match j with
  | JObj fields =>
      let? traits :=
        z_required
          (fun j =>
             let? val := userTraitsSchema_partial j in
             (* [.refine((val) => Object.keys(val).length > 0)] *)
             if Nat.ltb 0 (Object_keys_length val) then Some val else None)
          (json_get "traits" fields) in
      let? behaviorPreferences :=
        z_optional behaviorPreferencesSchema
          (json_get "behaviorPreferences" fields) in
      Some {| UpdateUserTraitsInput.traits := traits;
              UpdateUserTraitsInput.behaviorPreferences :=
                behaviorPreferences |}
  | _ => None
  end.

(** The parsed [behaviorPreferences] of the body. *)
Definition updateBehaviorPreferencesSchema (j : json N)
  : option (json N) :=
  match j with
  | JObj fields =>
      z_required behaviorPreferencesSchema
        (json_get "behaviorPreferences" fields)
  | _ => None
  end.

End UsersServiceSchemas.

(** [embeddingsService.generateEmbedding], as these services await it. *)
Definition generateEmbedding {N} (world : World.t N) (text : string)
  : Task N (list N) :=
  ([GenerateEmbedding text],
   match World.generateEmbedding world text with
   | Some v => Returned v
   | None => Thrown EmbeddingFailure
   end).

Module UsersService.

Section WithCollaborators.

Context {N : Type} `{JsNumber N}.
Variable world : World.t N.
Variable prisma : Prisma.t N.
Local Open Scope string_scope.

Definition buildUserPrompt (name : string) (traits : Traits.t N)
    (behaviorPreferences : option (json N)) (isTestUser : option bool)
  : string :=
  let t := traits in
  join_truthy_lines
    [ "User: " ++ name;
      match isTestUser with
      | Some true => "This is a test user for behavior experiments."
      | _ => ""
      end;
      "Personality traits:";
      "Adventurous: " ++ show world (Traits.adventurous t);
      "Decisive: " ++ show world (Traits.decisive t);
      "Eccentric: " ++ show world (Traits.eccentric t);
      "Flexible: " ++ show world (Traits.flexible t);
      "Loyal: " ++ show world (Traits.loyal t);
      "Optimistic: " ++ show world (Traits.optimistic t);
      "Patient: " ++ show world (Traits.patient t);
      "Perfectionist: " ++ show world (Traits.perfectionist t);
      "Punctual: " ++ show world (Traits.punctual t);
      match behaviorPreferences with
      | Some bp =>
          if json_truthy bp
          then "Behavior preferences: " ++ World.JSON_stringify world bp
          else ""
      | None => ""
      end ].

Definition create (input : CreateUserInput.t N) : Task N (UserRow.t N) :=
  let prompt :=
    buildUserPrompt (CreateUserInput.name input)
      (CreateUserInput.traits input)
      (CreateUserInput.behaviorPreferences input)
      (CreateUserInput.isTestUser input) in
  embedding <-- generateEmbedding world prompt ;;
  let data :=
    {| UserCreateData.name := CreateUserInput.name input;
       UserCreateData.traits := CreateUserInput.traits input;
       UserCreateData.embedding := embedding;
       UserCreateData.behaviorPreferences :=
         CreateUserInput.behaviorPreferences input;
       UserCreateData.isTestUser :=
         nullish (CreateUserInput.isTestUser input) false |} in
  ([UserCreate data], Returned (Prisma.user_create prisma data)).

Definition findAll : Task N (list (UserRow.t N)) :=
  ([UserFindMany], Returned (Prisma.user_findMany prisma)).

Definition findOne (id : Z) : Task N (option (UserRow.t N)) :=
  ([UserFindUnique id], Returned (Prisma.user_findUnique prisma id)).

(** [input.traits.x ?? existing.x], for the nine traits. *)
Definition updatedTraits (input : PartialTraits.t N)
    (existing : Traits.t N) : Traits.t N :=
  {| Traits.adventurous :=
       nullish (PartialTraits.adventurous input)
               (Traits.adventurous existing);
     Traits.decisive :=
       nullish (PartialTraits.decisive input) (Traits.decisive existing);
     Traits.eccentric :=
       nullish (PartialTraits.eccentric input) (Traits.eccentric existing);
     Traits.flexible :=
       nullish (PartialTraits.flexible input) (Traits.flexible existing);
     Traits.loyal :=
       nullish (PartialTraits.loyal input) (Traits.loyal existing);
     Traits.optimistic :=
       nullish (PartialTraits.optimistic input)
               (Traits.optimistic existing);
     Traits.patient :=
       nullish (PartialTraits.patient input) (Traits.patient existing);
     Traits.perfectionist :=
       nullish (PartialTraits.perfectionist input)
               (Traits.perfectionist existing);
     Traits.punctual :=
       nullish (PartialTraits.punctual input) (Traits.punctual existing) |}.

Definition updateTraits (id : Z) (input : UpdateUserTraitsInput.t N)
  : Task N (option (UserRow.t N)) :=
  existing <-- ([UserFindUnique id],
                Returned (Prisma.user_findUnique prisma id)) ;;
  match existing with
  | None => task_ret None
  | Some existing =>
      let updatedTraits :=
        updatedTraits (UpdateUserTraitsInput.traits input)
          (UserRow.traits existing) in
      let behaviorPreferences :=
        match UpdateUserTraitsInput.behaviorPreferences input with
        | Some bp => Some bp
        | None => UserRow.behaviorPreferences existing
        end in
      let prompt :=
        buildUserPrompt (UserRow.name existing) updatedTraits
          behaviorPreferences (Some (UserRow.isTestUser existing)) in
      embedding <-- generateEmbedding world prompt ;;
      let data :=
        {| UserUpdateData.traits := Some updatedTraits;
           UserUpdateData.embedding := embedding;
           UserUpdateData.behaviorPreferences := behaviorPreferences |} in
      ([UserUpdate id data],
       Returned (Some (Prisma.user_update prisma id data)))
  end.

Definition updateBehaviorPreferences (id : Z)
    (behaviorPreferences : json N) : Task N (option (UserRow.t N)) :=
  existing <-- ([UserFindUnique id],
                Returned (Prisma.user_findUnique prisma id)) ;;
  match existing with
  | None => task_ret None
  | Some existing =>
      let traits := UserRow.traits existing in
      let prompt :=
        buildUserPrompt (UserRow.name existing) traits
          (Some behaviorPreferences) (Some (UserRow.isTestUser existing)) in
      embedding <-- generateEmbedding world prompt ;;
      let data :=
        {| UserUpdateData.traits := None;
           UserUpdateData.embedding := embedding;
           UserUpdateData.behaviorPreferences :=
             Some behaviorPreferences |} in
      ([UserUpdate id data],
       Returned (Some (Prisma.user_update prisma id data)))
  end.

End WithCollaborators.

End UsersService.

(* ----------------------------------------------------------------- *)
(** ** [vendors/vendors.service.ts] *)

Section VendorsServiceSchemas.

Context {N : Type} `{JsNumber N}.
Local Open Scope string_scope.

Definition vendorTraitsSchema (j : json N) : option (VendorTraits.t N) :=
  match j with
  | JObj fields =>
      let trait key := z_required (z_number num_zero num_five)
                         (json_get key fields) in
      let? serviceQuality := trait "serviceQuality" in
      let? interactionStyle := trait "interactionStyle" in
      let? serviceConduct := trait "serviceConduct" in
      let? expertise := trait "expertise" in
      let? environment := trait "environment" in
      let? atmosphere := trait "atmosphere" in
      let? design := trait "design" in
      let? hospitality := trait "hospitality" in
      let? outcomeQuality := trait "outcomeQuality" in
      let? waitingTime := trait "waitingTime" in
      let? physicalElements := trait "physicalElements" in
      let? experienceTone := trait "experienceTone" in
      Some {| VendorTraits.serviceQuality := serviceQuality;
              VendorTraits.interactionStyle := interactionStyle;
              VendorTraits.serviceConduct := serviceConduct;
              VendorTraits.expertise := expertise;
              VendorTraits.environment := environment;
              VendorTraits.atmosphere := atmosphere;
              VendorTraits.design := design;
              VendorTraits.hospitality := hospitality;
              VendorTraits.outcomeQuality := outcomeQuality;
              VendorTraits.waitingTime := waitingTime;
              VendorTraits.physicalElements := physicalElements;
              VendorTraits.experienceTone := experienceTone |}
  | _ => None
  end.

Definition createVendorSchema (j : json N)
  : option (CreateVendorInput.t N) :=
  match j with
  | JObj fields =>
      let? name := z_required z_string_min_1 (json_get "name" fields) in
      let? description :=
        z_optional z_string (json_get "description" fields) in
      let? traits :=
        z_required vendorTraitsSchema (json_get "traits" fields) in
      Some {| CreateVendorInput.name := name;
              CreateVendorInput.description := description;
              CreateVendorInput.traits := traits |}
  | _ => None
  end.

End VendorsServiceSchemas.

Module VendorsService.

Section WithCollaborators.

Context {N : Type} `{JsNumber N}.
Variable world : World.t N.
Variable prisma : Prisma.t N.
Local Open Scope string_scope.

Definition buildVendorPrompt (input : CreateVendorInput.t N) : string :=
  let t := CreateVendorInput.traits input in
  join_truthy_lines
    [ "Vendor: " ++ CreateVendorInput.name input;
      match CreateVendorInput.description input with
      | Some d => if String.eqb d "" then "" else "Description: " ++ d
      | None => ""
      end;
      "Traits:";
      "Service Quality: " ++ show world (VendorTraits.serviceQuality t);
      "Interaction Style: " ++ show world (VendorTraits.interactionStyle t);
      "Service Conduct: " ++ show world (VendorTraits.serviceConduct t);
      "Expertise: " ++ show world (VendorTraits.expertise t);
      "Environment: " ++ show world (VendorTraits.environment t);
      "Atmosphere: " ++ show world (VendorTraits.atmosphere t);
      "Design: " ++ show world (VendorTraits.design t);
      "Hospitality: " ++ show world (VendorTraits.hospitality t);
      "Outcome Quality: " ++ show world (VendorTraits.outcomeQuality t);
      "Waiting Time: " ++ show world (VendorTraits.waitingTime t);
      "Physical Elements: " ++ show world (VendorTraits.physicalElements t);
      "Experience Tone: " ++ show world (VendorTraits.experienceTone t) ].

Definition create (input : CreateVendorInput.t N) : Task N (Vendor.t N) :=
  let prompt := buildVendorPrompt input in
  embedding <-- generateEmbedding world prompt ;;
  let data :=
    {| VendorCreateData.name := CreateVendorInput.name input;
       VendorCreateData.description := CreateVendorInput.description input;
       VendorCreateData.traits := CreateVendorInput.traits input;
       VendorCreateData.embedding := embedding |} in
  ([VendorCreate data], Returned (Prisma.vendor_create prisma data)).

Definition findAll : Task N (list (Vendor.t N)) :=
  ([VendorFindMany], Returned (Prisma.vendor_findMany prisma)).

Definition findOne (id : Z) : Task N (option (Vendor.t N)) :=
  ([VendorFindUnique id], Returned (Prisma.vendor_findUnique prisma id)).

End WithCollaborators.

End VendorsService.

(** The row that stores the data of a vendor under an id. *)
Definition vendor_row {N} (id : Z) (data : VendorCreateData.t N)
  : Vendor.t N :=
  let t := VendorCreateData.traits data in
  {| Vendor.id := id;
     Vendor.name := VendorCreateData.name data;
     Vendor.description := VendorCreateData.description data;
     Vendor.embedding := VendorCreateData.embedding data;
     Vendor.serviceQuality := VendorTraits.serviceQuality t;
     Vendor.interactionStyle := VendorTraits.interactionStyle t;
     Vendor.serviceConduct := VendorTraits.serviceConduct t;
     Vendor.expertise := VendorTraits.expertise t;
     Vendor.environment := VendorTraits.environment t;
     Vendor.atmosphere := VendorTraits.atmosphere t;
     Vendor.design := VendorTraits.design t;
     Vendor.hospitality := VendorTraits.hospitality t;
     Vendor.outcomeQuality := VendorTraits.outcomeQuality t;
     Vendor.waitingTime := VendorTraits.waitingTime t;
     Vendor.physicalElements := VendorTraits.physicalElements t;
     Vendor.experienceTone := VendorTraits.experienceTone t |}.

(** The user of the recommendations service that a row of the users
    service stands for, with the interactions loaded beside it. *)
Definition user_of_row {N} (row : UserRow.t N)
    (interactions : list InteractionRow.t) : User.t N :=
  {| User.id := UserRow.id row;
     User.name := UserRow.name row;
     User.traits := UserRow.traits row;
     User.embedding := UserRow.embedding row;
     User.behaviorPreferences := UserRow.behaviorPreferences row;
     User.interactions := interactions |}.

(** The nine traits of a user, and whether all are within [0, 5]. *)
Definition traits_within {N} `{JsNumber N} (t : Traits.t N) : bool :=
  forallb (within num_zero num_five) (getUserTraitVector t).

(** The twelve traits of a vendor input, in the order of
    [getVendorTraitVector]. *)
Definition vendor_trait_values {N} (t : VendorTraits.t N) : list N :=
  [ VendorTraits.serviceQuality t; VendorTraits.interactionStyle t;
    VendorTraits.serviceConduct t; VendorTraits.expertise t;
    VendorTraits.environment t; VendorTraits.atmosphere t;
    VendorTraits.design t; VendorTraits.hospitality t;
    VendorTraits.outcomeQuality t; VendorTraits.waitingTime t;
    VendorTraits.physicalElements t; VendorTraits.experienceTone t ].

(** The pairs [(userId, vendorId)] of the stored interactions, in table
    order. *)
Definition interaction_keys (rows : list InteractionRow.t) : list (Z * Z) :=
  map (fun row => (InteractionRow.userId row, InteractionRow.vendorId row))
      rows.

(** The record that [upsertInteraction] writes for an input. *)
Definition row_of_input (input : InteractionsService.InteractionInput)
  : InteractionRow.t :=
  {| InteractionRow.userId := InteractionsService.userId input;
     InteractionRow.vendorId := InteractionsService.vendorId input;
     InteractionRow.liked := InteractionsService.liked input;
     InteractionRow.score := InteractionsService.score input |}.

(** Whether the input's user and vendor are both stored. *)
Definition parties_exist (input : InteractionsService.InteractionInput)
    (db : InteractionsService.Database) : Prop :=
  In (InteractionsService.userId input) (InteractionsService.userIds db)
  /\ In (InteractionsService.vendorId input)
        (InteractionsService.vendorIds db).

Module Samples.

Local Open Scope string_scope.
Local Open Scope float_scope.

(** The deployment of [Fixtures.world] while the embedding process fails:
    every call to [generateEmbedding] is rejected. *)
Definition offline_world : World.t float :=
  {| World.users := World.users Fixtures.world;
     World.vendors := World.vendors Fixtures.world;
     World.generateEmbedding := fun _ => None;
     World.JSON_parse := World.JSON_parse Fixtures.world;
     World.JSON_stringify := World.JSON_stringify Fixtures.world;
     World.Number_toString := World.Number_toString Fixtures.world |}.

(** A payload with a trait override, a weight override and a key that the
    schema does not declare. *)
Definition payload : json float :=
  JObj [ ("Adventurous", JNum 2); ("lowercase", JBool true);
         ("traitWeight", JNum 0.25) ].

(** Three recommendations, built as [computeRecommendations] builds them:
    the first two have the same final score. *)
Definition scored (vendor : Vendor.t float) (finalScore : float)
  : RecommendationItem.t float :=
  {| RecommendationItem.vendor := vendor;
     RecommendationItem.scores :=
       {| Scores.embeddingScore := finalScore; Scores.traitScore := 0;
          Scores.behaviorScore := 0; Scores.finalScore := finalScore |};
     RecommendationItem.debug := None |}.

Definition results : list (RecommendationItem.t float) :=
  [ scored Fixtures.spa 0.25; scored Fixtures.garage 0.25;
    scored (Fixtures.vendor 3 "Cafe" [] Fixtures.spa_traits) 0.5 ].

(** The row of [Fixtures.alex] in the users service, and a Prisma client
    over it: [create] stores under the id 2, [update] rewrites the row. *)
Definition alex_row : UserRow.t float :=
  {| UserRow.id := 1;
     UserRow.name := User.name Fixtures.alex;
     UserRow.traits := User.traits Fixtures.alex;
     UserRow.embedding := User.embedding Fixtures.alex;
     UserRow.behaviorPreferences := None;
     UserRow.isTestUser := false |}.

Definition prisma : Prisma.t float :=
  {| Prisma.user_findUnique :=
       fun id => if Z.eqb id 1 then Some alex_row else None;
     Prisma.user_findMany := [alex_row];
     Prisma.user_create :=
       fun data =>
         {| UserRow.id := 2;
            UserRow.name := UserCreateData.name data;
            UserRow.traits := UserCreateData.traits data;
            UserRow.embedding := UserCreateData.embedding data;
            UserRow.behaviorPreferences :=
              UserCreateData.behaviorPreferences data;
            UserRow.isTestUser := UserCreateData.isTestUser data |};
     Prisma.user_update :=
       fun id data =>
         {| UserRow.id := id;
            UserRow.name := UserRow.name alex_row;
            UserRow.traits :=
              nullish (UserUpdateData.traits data) (UserRow.traits alex_row);
            UserRow.embedding := UserUpdateData.embedding data;
            UserRow.behaviorPreferences :=
              UserUpdateData.behaviorPreferences data;
            UserRow.isTestUser := UserRow.isTestUser alex_row |};
     Prisma.vendor_findUnique :=
       fun id => find (fun v => Z.eqb (Vendor.id v) id)
                      (World.vendors Fixtures.world);
     Prisma.vendor_findMany := World.vendors Fixtures.world;
     Prisma.vendor_create := vendor_row 3 |}.

(** The body of [PATCH /users/1] that sets one trait, and the body of
    [POST /vendors] for a cafe. *)
Definition traits_body : json float :=
  JObj [ ("traits", JObj [ ("patient", JNum 4) ]) ].

Definition traits_input : UpdateUserTraitsInput.t float :=
  {| UpdateUserTraitsInput.traits :=
       {| PartialTraits.adventurous := None; PartialTraits.decisive := None;
          PartialTraits.eccentric := None; PartialTraits.flexible := None;
          PartialTraits.loyal := None; PartialTraits.optimistic := None;
          PartialTraits.patient := Some 4;
          PartialTraits.perfectionist := None;
          PartialTraits.punctual := None |};
     UpdateUserTraitsInput.behaviorPreferences := None |}.

Definition cafe_body : json float :=
  JObj [ ("name", JStr "Cafe");
         ("traits",
          JObj [ ("serviceQuality", JNum 4); ("interactionStyle", JNum 3);
                 ("serviceConduct", JNum 5); ("expertise", JNum 2);
                 ("environment", JNum 4); ("atmosphere", JNum 5);
                 ("design", JNum 3); ("hospitality", JNum 4);
                 ("outcomeQuality", JNum 4); ("waitingTime", JNum 1);
                 ("physicalElements", JNum 2);
                 ("experienceTone", JNum 0.5) ]) ].

(** The deployment of [Fixtures.world] when the embedding service returns,
    for every prompt, the embedding stored for [Fixtures.alex]. *)
Definition steady_world : World.t float :=
  {| World.users := World.users Fixtures.world;
     World.vendors := World.vendors Fixtures.world;
     World.generateEmbedding := fun _ => Some (User.embedding Fixtures.alex);
     World.JSON_parse := World.JSON_parse Fixtures.world;
     World.JSON_stringify := World.JSON_stringify Fixtures.world;
     World.Number_toString := World.Number_toString Fixtures.world |}.

(** A like with the rating 5. *)
Definition like_of (userId vendorId : Z)
  : InteractionsService.InteractionInput :=
  {| InteractionsService.userId := userId;
     InteractionsService.vendorId := vendorId;
     InteractionsService.liked := true;
     InteractionsService.score := Some 5%Z |}.

(** A database with a second vendor, which nobody has rated yet. *)
Definition two_vendor_database : InteractionsService.Database :=
  {| InteractionsService.userIds := [1%Z; 2%Z];
     InteractionsService.vendorIds := [7%Z; 8%Z];
     InteractionsService.interactions :=
       InteractionsService.interactions Fixtures.database |}.

End Samples.

(* ----------------------------------------------------------------- *)
(** ** Binary64 numbers as real numbers, and the sums of the cosine *)

(** The power of two of an integer exponent, as a real number. *)
Definition pow2 (e : Z) : R := powerRZ 2 e.

(** The real number that a binary floating-point number stands for; zero
    for the values that are not finite. *)
Definition SF2R (x : spec_float) : R :=
  match x with
  | S754_finite s m e => (IZR (cond_Zopp s (Zpos m)) * pow2 e)%R
  | _ => 0%R
  end.

Definition B2R (x : float) : R := SF2R (Prim2SF x).

(** A shifted mantissa with its two rounding bits locates the real [y]:
    at the mantissa, below, at, or above the middle of the next unit. *)
Definition located (mrs : shr_record) (y : R) : Prop :=
  match shr_r mrs, shr_s mrs with
  | false, false => y = IZR (shr_m mrs)
  | false, true => (IZR (shr_m mrs) < y < IZR (shr_m mrs) + / 2)%R
  | true, false => y = (IZR (shr_m mrs) + / 2)%R
  | true, true => (IZR (shr_m mrs) + / 2 < y < IZR (shr_m mrs) + 1)%R
  end.

(** The floating-point number that rounding builds from a sign, a shifted
    mantissa and its exponent. *)
Definition SF_of_rounded (prec emax : Z) (s : bool) (m e : Z)
  : spec_float :=
  match m with
  | Z0 => S754_zero s
  | Zpos p =>
      if (e <=? emax - prec)%Z then S754_finite s p e else S754_infinity s
  | Zneg _ => S754_nan
  end.

Definition SF_is_finite (x : spec_float) : bool :=
  match x with
  | S754_zero _ | S754_finite _ _ _ => true
  | _ => false
  end.

(** The sign bit as a factor. *)
Definition sign_R (s : bool) : R := if s then (-1)%R else 1%R.

Section MoreVectorVocabulary.
Context {N : Type} `{JsNumber N}.
Local Open Scope js_scope.

(** The sum of the products of the components of two vectors, accumulated
    from the left: the dot product as the loop of [cosineSimilarity]
    computes it, and the sum of squares when the two vectors are the
    same. *)
Fixpoint sum_of_products (acc : N) (a b : list N) : N :=
  match a, b with
  | x :: a', y :: b' => sum_of_products (acc + x * y) a' b'
  | _, _ => acc
  end.

End MoreVectorVocabulary.

(** A binary64 number that is zero or of a magnitude between [2 ^ -200] and
    [2 ^ 200]. *)
Definition moderate (x : float) : bool :=
  ((x =? 0) || ((0x1p-200 <=? abs x) && (abs x <=? 0x1p200)))%float.

(* ================================================================= *)
(** * The two implementations satisfy the laws *)

(** ** Exact arithmetic *)

Module ExactLaws.
Import Exact.

Lemma Req_b_true (x y : R) : Req_b x y = true <-> x = y.
Proof. unfold Req_b. destruct (Req_dec_T x y); split; congruence. Qed.
Lemma Req_b_false (x y : R) : Req_b x y = false <-> x <> y.
Proof. unfold Req_b. destruct (Req_dec_T x y); split; congruence. Qed.
Lemma Rlt_b_true (x y : R) : Rlt_b x y = true <-> (x < y)%R.
Proof. unfold Rlt_b. destruct (Rlt_dec x y); split; congruence. Qed.
Lemma Rlt_b_false (x y : R) : Rlt_b x y = false <-> (y <= x)%R.
Proof. unfold Rlt_b. destruct (Rlt_dec x y); split; try congruence; lra. Qed.

Ltac decide_reals :=
  repeat match goal with
  | |- context [Req_b ?x ?y] =>
      let E := fresh "E" in
      destruct (Req_b x y) eqn:E;
      [apply Req_b_true in E | apply Req_b_false in E]
  | |- context [Rlt_b ?x ?y] =>
      let E := fresh "E" in
      destruct (Rlt_b x y) eqn:E;
      [apply Rlt_b_true in E | apply Rlt_b_false in E]
  | H : context [Req_b ?x ?y] |- _ =>
      let E := fresh "E" in
      destruct (Req_b x y) eqn:E;
      [apply Req_b_true in E | apply Req_b_false in E]
  | H : context [Rlt_b ?x ?y] |- _ =>
      let E := fresh "E" in
      destruct (Rlt_b x y) eqn:E;
      [apply Rlt_b_true in E | apply Rlt_b_false in E]
  end.

Ltac close_reals :=
  try reflexivity; try discriminate; try (exfalso; lra); try contradiction.

#[global] Instance exact_laws : JsNumberLaws xreal.
Proof.
  constructor.
  - intros [a| | |] [b| | |]; simpl; try reflexivity.
    f_equal. apply Rmult_comm.
  - intros [a| | |] [b| | |]; simpl; try discriminate; intros _ _;
      try reflexivity.
    decide_reals; close_reals.
  - intros [a| | |] [b| | |]; simpl; try discriminate; intros _ _;
      unfold leb; simpl; try reflexivity; try discriminate.
    intros Hlt. decide_reals; close_reals.
  - intros x y Hlt. unfold num_leb; simpl. unfold leb.
    simpl in Hlt. rewrite Hlt. reflexivity.
  - intros n Hpos _. simpl.
    assert (INR n <> 0%R) by (apply not_0_INR; lia).
    decide_reals; close_reals. f_equal. unfold Rdiv. apply Rmult_0_l.
  - simpl. unfold max_step; simpl. reflexivity.
  - simpl. unfold max_step; simpl. decide_reals; close_reals.
  - simpl. decide_reals; close_reals.
Qed.
End ExactLaws.

(** ** Binary64

    The facts are first proved on the specification of the operations
    ([SpecFloat]), for any precision, and then carried to the primitive
    floats. *)

Unset Implicit Arguments.
Local Open Scope Z_scope.

Section SpecFloatFacts.
Variables prec emax : Z.
Hypothesis prec_pos : 0 < prec.

Abbreviation emin := (SpecFloat.emin prec emax).
Abbreviation fexp := (SpecFloat.fexp prec emax).

Lemma digits2_pos_lower (p : positive) :
  2 ^ (Zpos (digits2_pos p) - 1) <= Zpos p.
Proof.
  induction p as [p IH|p IH|]; simpl digits2_pos.
  - rewrite Pos2Z.inj_succ.
    replace (Z.succ (Zpos (digits2_pos p)) - 1)
      with (Z.succ (Zpos (digits2_pos p) - 1)) by lia.
    rewrite Z.pow_succ_r by lia. lia.
  - rewrite Pos2Z.inj_succ.
    replace (Z.succ (Zpos (digits2_pos p)) - 1)
      with (Z.succ (Zpos (digits2_pos p) - 1)) by lia.
    rewrite Z.pow_succ_r by lia. lia.
  - simpl. lia.
Qed.

Lemma digits2_pos_upper (p : positive) :
  Zpos p < 2 ^ Zpos (digits2_pos p).
Proof.
  induction p as [p IH|p IH|]; simpl digits2_pos.
  - rewrite Pos2Z.inj_succ, Z.pow_succ_r by lia. lia.
  - rewrite Pos2Z.inj_succ, Z.pow_succ_r by lia. lia.
  - simpl. lia.
Qed.

Lemma shr_1_m (mrs : shr_record) :
  0 <= shr_m mrs -> shr_m (shr_1 mrs) = shr_m mrs / 2.
Proof.
  destruct mrs as [m r s]. destruct m as [|[p|p|]|p]; cbn [shr_m shr_1];
    intros Hm; try lia.
  - reflexivity.
  - apply Z.div_unique with (r := 1); lia.
  - apply Z.div_unique with (r := 0); lia.
  - reflexivity.
Qed.

Lemma shr_m_iter (k : positive) :
  forall mrs, 0 <= shr_m mrs ->
    shr_m (SpecFloat.iter_pos shr_1 k mrs) = shr_m mrs / 2 ^ Zpos k.
Proof.
  induction k as [k IH|k IH|]; intros mrs Hm.
  - change (SpecFloat.iter_pos shr_1 k~1 mrs)
      with (SpecFloat.iter_pos shr_1 k
              (SpecFloat.iter_pos shr_1 k (shr_1 mrs))).
    assert (H1 : 0 <= shr_m (shr_1 mrs)).
    { rewrite shr_1_m by assumption. apply Z.div_pos; lia. }
    assert (H2 : 0 <= shr_m (SpecFloat.iter_pos shr_1 k (shr_1 mrs))).
    { rewrite IH by assumption. apply Z.div_pos; [assumption|].
      apply Z.pow_pos_nonneg; lia. }
    rewrite (IH _ H2), (IH _ H1), shr_1_m by assumption.
    rewrite !Z.div_div by (try apply Z.pow_pos_nonneg; lia).
    f_equal. rewrite Pos2Z.inj_xI.
    rewrite <- Z.pow_add_r, <- Z.pow_succ_r by lia. f_equal. lia.
  - change (SpecFloat.iter_pos shr_1 k~0 mrs)
      with (SpecFloat.iter_pos shr_1 k (SpecFloat.iter_pos shr_1 k mrs)).
    assert (H2 : 0 <= shr_m (SpecFloat.iter_pos shr_1 k mrs)).
    { rewrite IH by assumption. apply Z.div_pos; [assumption|].
      apply Z.pow_pos_nonneg; lia. }
    rewrite (IH _ H2), (IH _ Hm).
    rewrite !Z.div_div by (try apply Z.pow_pos_nonneg; lia).
    f_equal. rewrite Pos2Z.inj_xO.
    rewrite <- Z.pow_add_r by lia. f_equal. lia.
  - change (SpecFloat.iter_pos shr_1 1 mrs) with (shr_1 mrs).
    rewrite shr_1_m by assumption. reflexivity.
Qed.

Lemma shr_m_of_loc (m : Z) (l : location) : shr_m (shr_record_of_loc m l) = m.
Proof. destruct l as [|[| |]]; reflexivity. Qed.

(** Shifting a positive mantissa to its canonical exponent leaves it
    positive. *)
Lemma shr_fexp_pos (p : positive) (e : Z) (l : location) :
  emin <= e ->
  0 < shr_m (fst (shr_fexp prec emax (Zpos p) e l))
  /\ emin <= snd (shr_fexp prec emax (Zpos p) e l).
Proof.
  intros He. unfold shr_fexp, shr. simpl Zdigits2.
  set (d := Zpos (digits2_pos p)).
  destruct (fexp (d + e) - e) as [|k|k] eqn:Hn; simpl;
    rewrite ?shr_m_of_loc; try (split; lia).
  assert (Hk : Zpos k = d - prec).
  { unfold SpecFloat.fexp in Hn. lia. }
  rewrite shr_m_iter by (rewrite shr_m_of_loc; lia).
  rewrite shr_m_of_loc. split; [|lia].
  apply Z.div_str_pos. split; [apply Z.pow_pos_nonneg; lia|].
  pose proof (digits2_pos_lower p) as Hlow. fold d in Hlow.
  apply Z.le_trans with (2 ^ (d - 1)); [|assumption].
  apply Z.pow_le_mono_r; lia.
Qed.

Lemma round_nearest_even_pos (m : Z) (l : location) :
  0 < m -> 0 < round_nearest_even m l.
Proof.
  intros Hm. destruct l as [|[| |]]; simpl; try lia.
  destruct (Z.even m); lia.
Qed.

Lemma binary_round_aux_nonzero (s : bool) (p : positive) (e : Z)
    (l : location) :
  emin <= e ->
  same_sign_nonzero s (binary_round_aux prec emax s (Zpos p) e l).
Proof.
  intros He. unfold binary_round_aux.
  destruct (shr_fexp_pos p e l He) as [Hm1 He1].
  destruct (shr_fexp prec emax (Zpos p) e l) as [mrs1 e1]. simpl in Hm1, He1.
  pose proof (round_nearest_even_pos _ (loc_of_shr_record mrs1) Hm1) as Hr.
  destruct (round_nearest_even (shr_m mrs1) (loc_of_shr_record mrs1))
    as [|q|q]; try lia.
  destruct (shr_fexp_pos q e1 loc_Exact He1) as [Hm2 He2].
  destruct (shr_fexp prec emax (Zpos q) e1 loc_Exact) as [mrs2 e2].
  simpl in Hm2, He2.
  destruct (shr_m mrs2) as [|m2|m2]; try lia.
  destruct (e2 <=? emax - prec); reflexivity.
Qed.

Lemma shl_align_exponent (p : positive) (e e' : Z) :
  emin <= e -> emin <= e' -> emin <= snd (shl_align p e e').
Proof.
  intros. unfold shl_align. destruct (e' - e); simpl; lia.
Qed.

Lemma binary_round_nonzero (s : bool) (p : positive) (e : Z) :
  emin <= e ->
  same_sign_nonzero s (binary_round prec emax s p e).
Proof.
  intros He. unfold binary_round.
  pose proof (shl_align_exponent p e (fexp (Zpos (digits2_pos p) + e)) He)
    as Hs.
  destruct (shl_align p e (fexp (Zpos (digits2_pos p) + e))) as [mz ez].
  apply binary_round_aux_nonzero. apply Hs. unfold SpecFloat.fexp. lia.
Qed.


Lemma bounded_facts (m : positive) (e : Z) :
  SpecFloat.bounded prec emax m e = true ->
  emin <= e
  /\ Zpos (digits2_pos m) <= prec
  /\ (emin < e -> Zpos (digits2_pos m) = prec).
Proof.
  unfold SpecFloat.bounded, canonical_mantissa, SpecFloat.fexp.
  intros Hb. apply andb_true_iff in Hb. destruct Hb as [Hc _].
  apply Z.eqb_eq in Hc. lia.
Qed.

Lemma shl_align_value (p : positive) (e e' : Z) :
  e' <= e -> Zpos (fst (shl_align p e e')) = Zpos p * 2 ^ (e - e').
Proof.
  intros Hle. unfold shl_align.
  destruct (e' - e) as [|d|d] eqn:Hd; simpl fst.
  - replace (e - e') with 0 by lia. lia.
  - lia.
  - replace (e - e') with (Zpos d) by lia.
    change (Pos.iter xO p d) with (shift_pos d p).
    rewrite shift_pos_correct, Zpower_pos_nat, Zpower_nat_Z.
    rewrite positive_nat_Z. lia.
Qed.

(** A canonical mantissa at a larger exponent is the larger number. *)
Lemma canonical_order (mx my : positive) (ex ey : Z) :
  SpecFloat.bounded prec emax mx ex = true ->
  SpecFloat.bounded prec emax my ey = true ->
  ey < ex ->
  Zpos my < Zpos mx * 2 ^ (ex - ey).
Proof.
  intros Hx Hy Hlt.
  destruct (bounded_facts _ _ Hx) as [Hex [_ Hdx]].
  destruct (bounded_facts _ _ Hy) as [Hey [Hdy _]].
  pose proof (digits2_pos_lower mx) as Hlow.
  pose proof (digits2_pos_upper my) as Hup.
  rewrite Hdx in Hlow by lia.
  assert (Hpow : 2 ^ Zpos (digits2_pos my) <= 2 ^ prec)
    by (apply Z.pow_le_mono_r; lia).
  assert (Htwo : 2 ^ 1 <= 2 ^ (ex - ey)) by (apply Z.pow_le_mono_r; lia).
  assert (Hprec : 2 ^ prec = 2 ^ (prec - 1) * 2 ^ 1).
  { rewrite <- Z.pow_add_r by lia. f_equal. lia. }
  assert (Hpos : 0 < 2 ^ (prec - 1)) by (apply Z.pow_pos_nonneg; lia).
  nia.
Qed.

Lemma sub_mantissa_sign (sx sy : bool) (mx my : positive) (ex ey : Z) :
  SpecFloat.bounded prec emax mx ex = true ->
  SpecFloat.bounded prec emax my ey = true ->
  0 < cond_Zopp sx (Zpos (fst (shl_align mx ex (Z.min ex ey))))
      - cond_Zopp sy (Zpos (fst (shl_align my ey (Z.min ex ey))))
  <-> SFcompare (S754_finite sy my ey) (S754_finite sx mx ex) = Some Lt.
Proof.
  intros Hx Hy.
  rewrite !shl_align_value by lia.
  assert (Hpx : 0 < 2 ^ (ex - Z.min ex ey)) by (apply Z.pow_pos_nonneg; lia).
  assert (Hpy : 0 < 2 ^ (ey - Z.min ex ey)) by (apply Z.pow_pos_nonneg; lia).
  unfold SFcompare.
  destruct (Z.compare_spec ey ex) as [Heq|Hlt|Hgt].
  - subst ey. rewrite Z.min_id, Z.sub_diag, Z.pow_0_r, !Z.mul_1_r.
    change (Pos.compare_cont Eq my mx) with (Pos.compare my mx).
    destruct (Pos.compare_spec my mx) as [Hm|Hm|Hm];
      destruct sx, sy; unfold cond_Zopp; cbv beta iota; split; intros Hgoal;
      try discriminate; try reflexivity; try lia.
  - pose proof (canonical_order _ _ _ _ Hx Hy Hlt) as Hord.
    replace (Z.min ex ey) with ey in * by lia.
    rewrite Z.sub_diag, Z.pow_0_r, Z.mul_1_r.
    destruct sx, sy; unfold cond_Zopp; cbv beta iota; split; intros Hgoal;
      try discriminate; try reflexivity; try lia.
  - pose proof (canonical_order _ _ _ _ Hy Hx Hgt) as Hord.
    replace (Z.min ex ey) with ex in * by lia.
    rewrite Z.sub_diag, Z.pow_0_r, Z.mul_1_r.
    destruct sx, sy; unfold cond_Zopp; cbv beta iota; split; intros Hgoal;
      try discriminate; try reflexivity; try lia.
Qed.

Lemma SFltb_zero_same_sign (s : bool) (x : spec_float) :
  same_sign_nonzero s x -> SFltb (S754_zero false) x = negb s.
Proof.
  destruct x as [s'|s'| |s' m e]; simpl; try contradiction;
    intros ->; destruct s; reflexivity.
Qed.

(** The sign of a floating-point difference agrees with the order of its
    operands. *)
Lemma SFsub_sign (x y : spec_float) :
  SpecFloat.valid_binary prec emax x = true ->
  SpecFloat.valid_binary prec emax y = true ->
  x <> S754_nan -> y <> S754_nan ->
  SFltb (S754_zero false) (SFsub prec emax x y) = SFltb y x.
Proof.
  intros Hx Hy Hnx Hny.
  destruct x as [sx|sx| |sx mx ex]; try congruence;
    destruct y as [sy|sy| |sy my ey]; try congruence;
    try (destruct sx, sy; reflexivity);
    try (destruct sx; reflexivity);
    try (destruct sy; reflexivity).
  simpl in Hx, Hy.
  pose proof (sub_mantissa_sign sx sy _ _ _ _ Hx Hy) as Hsign.
  destruct (bounded_facts _ _ Hx) as [Hex _].
  destruct (bounded_facts _ _ Hy) as [Hey _].
  unfold SFsub, binary_normalize.
  destruct (cond_Zopp sx (Zpos (fst (shl_align mx ex (Z.min ex ey))))
            - cond_Zopp sy (Zpos (fst (shl_align my ey (Z.min ex ey)))))
    as [|p|p] eqn:Hm.
  - unfold SFltb at 2.
    destruct (SFcompare (S754_finite sy my ey) (S754_finite sx mx ex))
      as [[| |]|] eqn:Hc; try reflexivity.
    exfalso. assert (0 < 0) by (apply Hsign; reflexivity). lia.
  - rewrite (@SFltb_zero_same_sign false)
      by (apply binary_round_nonzero; lia).
    unfold SFltb. rewrite (proj1 Hsign) by lia. reflexivity.
  - rewrite (@SFltb_zero_same_sign true)
      by (apply binary_round_nonzero; lia).
    unfold SFltb.
    destruct (SFcompare (S754_finite sy my ey) (S754_finite sx mx ex))
      as [[| |]|] eqn:Hc; try reflexivity.
    exfalso. assert (0 < Zneg p) by (apply Hsign; reflexivity). lia.
Qed.

Lemma SFcompare_antisym (x y : spec_float) :
  SFcompare y x = option_map CompOpp (SFcompare x y).
Proof.
  destruct x as [sx|sx| |sx mx ex], y as [sy|sy| |sy my ey]; simpl;
    try reflexivity;
    try (destruct sx; reflexivity);
    try (destruct sy; reflexivity);
    try (destruct sx, sy; reflexivity).
  rewrite (Z.compare_antisym ey ex).
  change (Pos.compare_cont Eq my mx) with (Pos.compare my mx).
  change (Pos.compare_cont Eq mx my) with (Pos.compare mx my).
  rewrite (Pos.compare_antisym my mx).
  destruct sx, sy; simpl; try reflexivity;
    destruct (ey ?= ex); simpl; try reflexivity;
    destruct (my ?= mx)%positive; reflexivity.
Qed.

Lemma SFmul_comm (x y : spec_float) :
  SFmul prec emax x y = SFmul prec emax y x.
Proof.
  destruct x as [sx|sx| |sx mx ex], y as [sy|sy| |sy my ey]; simpl;
    try reflexivity; try (rewrite (xorb_comm sx sy); reflexivity).
  rewrite (xorb_comm sx sy), (Pos.mul_comm mx my), (Z.add_comm ex ey).
  reflexivity.
Qed.

End SpecFloatFacts.

(** ** Quotients that are at most 1 *)

Section RoundingBelowOne.
Variables prec emax : Z.
Hypothesis prec_pos : 0 < prec.
Hypothesis emin_nonpos : SpecFloat.emin prec emax <= 0.
Hypothesis prec_le_emax : prec <= emax.

Abbreviation emin := (SpecFloat.emin prec emax).
Abbreviation fexp := (SpecFloat.fexp prec emax).

Lemma pow2_double (e : Z) : e + 1 <= 0 -> 2 ^ (- e) = 2 * 2 ^ (- (e + 1)).
Proof.
  intros He. rewrite <- Z.pow_succ_r by lia. f_equal. lia.
Qed.

Lemma shr_1_under_one (mrs : shr_record) (e : Z) :
  e + 1 <= 0 -> under_one mrs e -> under_one (shr_1 mrs) (e + 1).
Proof.
  intros He [Hm Hbits]. unfold under_one in *.
  rewrite (pow2_double e He) in Hm, Hbits.
  assert (Hpos : 0 < 2 ^ (- (e + 1))) by (apply Z.pow_pos_nonneg; lia).
  destruct mrs as [m r s]. cbn [shr_m shr_r shr_s] in *.
  destruct m as [|[p|p|]|p]; cbn [shr_1 shr_m shr_r shr_s]; try lia.
  split; [lia|]. intros [Hf|Hs]; [discriminate|].
  apply orb_true_iff in Hs. specialize (Hbits Hs). lia.
Qed.

Lemma iter_under_one (n : positive) :
  forall (mrs : shr_record) (e : Z),
    e + Zpos n <= 0 -> under_one mrs e ->
    under_one (SpecFloat.iter_pos shr_1 n mrs) (e + Zpos n).
Proof.
  induction n as [n IH|n IH|]; intros mrs e He Hu.
  - change (SpecFloat.iter_pos shr_1 n~1 mrs)
      with (SpecFloat.iter_pos shr_1 n
              (SpecFloat.iter_pos shr_1 n (shr_1 mrs))).
    replace (e + Zpos n~1) with (e + 1 + Zpos n + Zpos n) by lia.
    apply IH; [lia|]. apply IH; [lia|]. apply shr_1_under_one; [lia|exact Hu].
  - change (SpecFloat.iter_pos shr_1 n~0 mrs)
      with (SpecFloat.iter_pos shr_1 n (SpecFloat.iter_pos shr_1 n mrs)).
    replace (e + Zpos n~0) with (e + Zpos n + Zpos n) by lia.
    apply IH; [lia|]. apply IH; [lia|exact Hu].
  - change (SpecFloat.iter_pos shr_1 1 mrs) with (shr_1 mrs).
    apply shr_1_under_one; assumption.
Qed.

(** The number of digits of a mantissa that is at most [2 ^ k]. *)
Lemma Zdigits2_bound (m k : Z) :
  0 <= k -> 0 <= m <= 2 ^ k -> Zdigits2 m <= k + 1.
Proof.
  intros Hk [Hm0 Hm]. destruct m as [|p|p]; simpl; try lia.
  pose proof (digits2_pos_lower p) as Hlow.
  destruct (Z.le_gt_cases (Zpos (digits2_pos p)) (k + 1)) as [Hle|Hgt];
    [exact Hle|].
  exfalso.
  assert (2 ^ (k + 1) <= 2 ^ (Zpos (digits2_pos p) - 1))
    by (apply Z.pow_le_mono_r; lia).
  rewrite Z.pow_add_r in H by lia. change (2 ^ 1) with 2 in H.
  assert (0 < 2 ^ k) by (apply Z.pow_pos_nonneg; lia). lia.
Qed.

Lemma shr_fexp_under_one (m e : Z) (l : location) :
  e <= 0 -> under_one (shr_record_of_loc m l) e ->
  under_one (fst (shr_fexp prec emax m e l)) (snd (shr_fexp prec emax m e l))
  /\ snd (shr_fexp prec emax m e l) <= 0.
Proof.
  intros He Hu. unfold shr_fexp, shr.
  destruct (fexp (Zdigits2 m + e) - e) as [|n|n] eqn:Hn; simpl;
    try (split; [exact Hu|exact He]).
  assert (Hout : e + Zpos n <= 0).
  { destruct Hu as [Hm _]. rewrite shr_m_of_loc in Hm.
    pose proof (Zdigits2_bound m (- e) ltac:(lia) Hm) as Hd.
    unfold SpecFloat.fexp in Hn. lia. }
  split; [|exact Hout]. apply iter_under_one; assumption.
Qed.

Lemma round_under_one (mrs : shr_record) (e : Z) :
  under_one mrs e ->
  0 <= round_nearest_even (shr_m mrs) (loc_of_shr_record mrs) <= 2 ^ (- e).
Proof.
  intros [Hm Hbits]. destruct mrs as [m r s].
  cbn [shr_m shr_r shr_s] in *.
  destruct r, s; cbn [loc_of_shr_record round_nearest_even];
    try destruct (Z.even m); try lia;
    assert (m < 2 ^ (- e)) by (apply Hbits; auto); lia.
Qed.

Lemma under_one_exact (m e : Z) :
  0 <= m <= 2 ^ (- e) -> under_one (shr_record_of_loc m loc_Exact) e.
Proof.
  intros Hm. split; [exact Hm|]. simpl. intros [Hf|Hf]; discriminate.
Qed.

(** Rounding a number that is at most 1 gives zero or a finite number
    that is at most 1. *)
Lemma binary_round_aux_under_one (s : bool) (q e : Z) (l : location) :
  e <= 0 -> under_one (shr_record_of_loc q l) e ->
  binary_round_aux prec emax s q e l = S754_zero s
  \/ exists (m2 : positive) (e2 : Z),
       binary_round_aux prec emax s q e l = S754_finite s m2 e2
       /\ Zpos m2 <= 2 ^ (- e2) /\ e2 <= 0.
Proof.
  intros He Hu. unfold binary_round_aux.
  destruct (shr_fexp_under_one q e l He Hu) as [Hu1 He1].
  destruct (shr_fexp prec emax q e l) as [mrs1 e1]. simpl in Hu1, He1.
  pose proof (round_under_one mrs1 e1 Hu1) as Hr.
  destruct (shr_fexp_under_one _ e1 loc_Exact He1 (under_one_exact _ _ Hr))
    as [Hu2 He2].
  destruct (shr_fexp prec emax
              (round_nearest_even (shr_m mrs1) (loc_of_shr_record mrs1))
              e1 loc_Exact) as [mrs2 e2].
  simpl in Hu2, He2. destruct Hu2 as [Hm2 _].
  destruct (shr_m mrs2) as [|m2|m2]; [left; reflexivity| |lia].
  right. exists m2, e2.
  replace (e2 <=? emax - prec) with true by (symmetry; apply Z.leb_le; lia).
  repeat split; lia.
Qed.


Lemma shr_fexp_nonneg (m e : Z) (l : location) :
  0 <= m -> 0 <= shr_m (fst (shr_fexp prec emax m e l)).
Proof.
  intros Hm. unfold shr_fexp, shr.
  destruct (fexp (Zdigits2 m + e) - e) as [|n|n]; simpl;
    rewrite ?shr_m_of_loc; try exact Hm.
  rewrite shr_m_iter by (rewrite shr_m_of_loc; exact Hm).
  rewrite shr_m_of_loc. apply Z.div_pos; [exact Hm|].
  apply Z.pow_pos_nonneg; lia.
Qed.

Lemma round_nearest_even_nonneg (m : Z) (l : location) :
  0 <= m -> 0 <= round_nearest_even m l.
Proof.
  intros Hm. destruct l as [|[| |]]; simpl; try lia.
  destruct (Z.even m); lia.
Qed.

(** Rounding a non-negative mantissa never gives NaN, and keeps the sign. *)
Lemma binary_round_aux_sign (s : bool) (q e : Z) (l : location) :
  0 <= q ->
  match binary_round_aux prec emax s q e l with
  | S754_nan => False
  | S754_zero s' | S754_infinity s' | S754_finite s' _ _ => s' = s
  end.
Proof.
  intros Hq. unfold binary_round_aux.
  pose proof (shr_fexp_nonneg q e l Hq) as H1.
  destruct (shr_fexp prec emax q e l) as [mrs1 e1]. simpl in H1.
  pose proof (round_nearest_even_nonneg _ (loc_of_shr_record mrs1) H1) as Hr.
  pose proof (shr_fexp_nonneg _ e1 loc_Exact Hr) as H2.
  destruct (shr_fexp prec emax
              (round_nearest_even (shr_m mrs1) (loc_of_shr_record mrs1))
              e1 loc_Exact) as [mrs2 e2].
  simpl in H2. destruct (shr_m mrs2) as [|m2|m2]; try lia; try reflexivity.
  destruct (e2 <=? emax - prec); reflexivity.
Qed.

Lemma new_location_cases (nb r : Z) :
  (r = 0 /\ new_location nb r = loc_Exact)
  \/ (r <> 0 /\ exists c, new_location nb r = loc_Inexact c).
Proof.
  unfold new_location, new_location_even, new_location_odd.
  destruct (Z.eq_dec r 0) as [->|Hr].
  - left. split; [reflexivity|]. destruct (Z.even nb); reflexivity.
  - right. split; [exact Hr|].
    destruct (Z.even nb); rewrite (proj2 (Z.eqb_neq r 0) Hr);
      eexists; reflexivity.
Qed.

Lemma under_one_of_loc (q e : Z) (l : location) :
  0 <= q <= 2 ^ (- e) ->
  (l <> loc_Exact -> q < 2 ^ (- e)) ->
  under_one (shr_record_of_loc q l) e.
Proof.
  intros Hq Hstrict. split; [rewrite shr_m_of_loc; exact Hq|].
  rewrite shr_m_of_loc. intros Hbits. apply Hstrict. intros ->.
  simpl in Hbits. destruct Hbits; discriminate.
Qed.

(** The quotient of two positive numbers, the first at most the second, is
    at most 1 before it is rounded. *)
Lemma SFdiv_core_under_one (mx my : positive) (ex ey : Z) :
  Zpos mx * 2 ^ (ex - Z.min ex ey) <= Zpos my * 2 ^ (ey - Z.min ex ey) ->
  let '(q, e, l) := SFdiv_core_binary prec emax (Zpos mx) ex (Zpos my) ey in
  e <= 0 /\ under_one (shr_record_of_loc q l) e.
Proof.
  intros Hle. unfold SFdiv_core_binary. simpl Zdigits2.
  set (d1 := Zpos (digits2_pos mx)). set (d2 := Zpos (digits2_pos my)).
  set (e' := Z.min (fexp (d1 + ex - (d2 + ey))) (ex - ey)).
  assert (Hd : d1 + ex - (d2 + ey) <= 0).
  { pose proof (digits2_pos_lower mx) as Hlow. fold d1 in Hlow.
    pose proof (digits2_pos_upper my) as Hup. fold d2 in Hup.
    assert (Hp1 : 0 < 2 ^ (ex - Z.min ex ey))
      by (apply Z.pow_pos_nonneg; lia).
    assert (Hp2 : 0 < 2 ^ (ey - Z.min ex ey))
      by (apply Z.pow_pos_nonneg; lia).
    assert (Hlt : 2 ^ (d1 - 1 + (ex - Z.min ex ey))
                  < 2 ^ (d2 + (ey - Z.min ex ey))).
    { rewrite !Z.pow_add_r by (unfold d1, d2; lia). nia. }
    apply Z.pow_lt_mono_r_iff in Hlt; unfold d1, d2 in *; lia. }
  assert (He' : e' <= 0).
  { unfold e', SpecFloat.fexp. lia. }
  assert (Hs : 0 <= ex - ey - e') by (unfold e'; lia).
  set (m' := match ex - ey - e' with
             | Zpos _ => Z.shiftl (Zpos mx) (ex - ey - e')
             | Z0 => Zpos mx
             | Zneg _ => 0
             end).
  assert (Hm' : m' = Zpos mx * 2 ^ (ex - ey - e')).
  { unfold m'. destruct (ex - ey - e') as [|s|s] eqn:Es; try lia.
    apply Z.shiftl_mul_pow2. lia. }
  assert (Hbound : m' <= Zpos my * 2 ^ (- e')).
  { rewrite Hm'.
    destruct (Z.le_ge_cases ey ex) as [Hc|Hc].
    - replace (Z.min ex ey) with ey in Hle by lia.
      rewrite Z.sub_diag, Z.pow_0_r, Z.mul_1_r in Hle.
      replace (ex - ey - e') with ((ex - ey) + (- e')) by lia.
      rewrite Z.pow_add_r by lia.
      assert (0 < 2 ^ (- e')) by (apply Z.pow_pos_nonneg; lia). nia.
    - replace (Z.min ex ey) with ex in Hle by lia.
      rewrite Z.sub_diag, Z.pow_0_r, Z.mul_1_r in Hle.
      replace (- e') with ((ey - ex) + (ex - ey - e')) by lia.
      rewrite Z.pow_add_r by lia.
      assert (0 < 2 ^ (ex - ey - e')) by (apply Z.pow_pos_nonneg; lia).
      nia. }
  pose proof (Z_div_mod m' (Zpos my) ltac:(lia)) as Hdiv.
  destruct (Z.div_eucl m' (Zpos my)) as [q r]. destruct Hdiv as [Heq Hr].
  split; [exact He'|].
  assert (Hm0 : 0 <= m').
  { rewrite Hm'. apply Z.mul_nonneg_nonneg; [lia|].
    apply Z.pow_nonneg. lia. }
  assert (Hp : 0 < 2 ^ (- e')) by (apply Z.pow_pos_nonneg; lia).
  apply under_one_of_loc.
  - split; nia.
  - intros Hl. destruct (new_location_cases (Zpos my) r) as [[Hr0 Hx]|[Hr0 _]];
      [congruence|]. nia.
Qed.


Lemma SFdiv_core_nonneg (mx my : positive) (ex ey : Z) :
  0 <= fst (fst (SFdiv_core_binary prec emax (Zpos mx) ex (Zpos my) ey)).
Proof.
  unfold SFdiv_core_binary.
  set (s := ex - ey - _).
  set (m' := match s with
             | Zpos _ => Z.shiftl (Zpos mx) s
             | Z0 => Zpos mx
             | Zneg _ => 0
             end).
  assert (Hm' : 0 <= m').
  { unfold m'. destruct s; try lia. apply Z.shiftl_nonneg. lia. }
  pose proof (Z_div_mod m' (Zpos my) ltac:(lia)) as Hdiv.
  destruct (Z.div_eucl m' (Zpos my)) as [q r]. simpl. nia.
Qed.

(** The scaled mantissas of two positive numbers in order. *)
Lemma SFleb_mantissas (mx my : positive) (ex ey : Z) :
  SpecFloat.bounded prec emax mx ex = true ->
  SpecFloat.bounded prec emax my ey = true ->
  SFleb (S754_finite false mx ex) (S754_finite false my ey) = true ->
  Zpos mx * 2 ^ (ex - Z.min ex ey) <= Zpos my * 2 ^ (ey - Z.min ex ey).
Proof.
  intros Hx Hy Hle.
  pose proof (sub_mantissa_sign prec emax prec_pos false false mx my ex ey
                Hx Hy) as Hsign.
  unfold cond_Zopp in Hsign. rewrite !shl_align_value in Hsign by lia.
  destruct (Z.le_gt_cases (Zpos mx * 2 ^ (ex - Z.min ex ey))
              (Zpos my * 2 ^ (ey - Z.min ex ey))) as [Hgoal|Hgt];
    [exact Hgoal|].
  exfalso. assert (Hlt : SFcompare (S754_finite false my ey)
                           (S754_finite false mx ex) = Some Lt)
    by (apply Hsign; lia).
  unfold SFleb in Hle.
  rewrite (SFcompare_antisym (S754_finite false my ey)
             (S754_finite false mx ex)), Hlt in Hle.
  discriminate.
Qed.

(** A number divided by a positive finite number that is not smaller is at
    most 1. *)
Lemma SFdiv_at_most_one (x : spec_float) (my : positive) (ey : Z) :
  SpecFloat.valid_binary prec emax x = true ->
  SpecFloat.bounded prec emax my ey = true ->
  SFleb x (S754_finite false my ey) = true ->
  at_most_one (SFdiv prec emax x (S754_finite false my ey)).
Proof.
  intros Hx Hy Hle.
  destruct x as [sx|sx| |sx mx ex]; simpl.
  - exact I.
  - destruct sx; [reflexivity|discriminate].
  - discriminate.
  - rewrite xorb_false_r. destruct sx.
    + pose proof (SFdiv_core_nonneg mx my ex ey) as Hq.
      destruct (SFdiv_core_binary prec emax (Zpos mx) ex (Zpos my) ey)
        as [[q e] l]. simpl in Hq.
      pose proof (binary_round_aux_sign true q e l Hq) as Hs.
      destruct (binary_round_aux prec emax true q e l); simpl; auto.
    + simpl in Hx.
      pose proof (SFdiv_core_under_one mx my ex ey
                    (SFleb_mantissas mx my ex ey Hx Hy Hle)) as Hcore.
      destruct (SFdiv_core_binary prec emax (Zpos mx) ex (Zpos my) ey)
        as [[q e] l]. destruct Hcore as [He Hu].
      destruct (binary_round_aux_under_one false q e l He Hu)
        as [->|[m2 [e2 [-> Hb]]]]; simpl; auto.
Qed.

End RoundingBelowOne.

Lemma lex_le_refl (a : Z * Z * Z) : lex_le a a.
Proof. destruct a as [[a1 a2] a3]. simpl. lia. Qed.

Lemma lex_le_trans (a b c : Z * Z * Z) :
  lex_le a b -> lex_le b c -> lex_le a c.
Proof.
  destruct a as [[a1 a2] a3], b as [[b1 b2] b3], c as [[c1 c2] c3].
  simpl. lia.
Qed.

Lemma SFleb_order_key (x y : spec_float) :
  x <> S754_nan -> y <> S754_nan ->
  (SFleb x y = true <-> lex_le (order_key x) (order_key y)).
Proof.
  intros Hx Hy. unfold SFleb.
  destruct x as [sx|sx| |sx mx ex]; try congruence;
    destruct y as [sy|sy| |sy my ey]; try congruence;
    try destruct sx; try destruct sy; simpl;
    try (split; [intros _; lia|reflexivity]);
    try (split; [discriminate|lia]).
  - change (Pos.compare_cont Eq mx my) with (Pos.compare mx my).
    destruct (Z.compare_spec ex ey); try destruct (Pos.compare_spec mx my);
      simpl; split; intros Hgoal; try reflexivity; try discriminate; lia.
  - change (Pos.compare_cont Eq mx my) with (Pos.compare mx my).
    destruct (Z.compare_spec ex ey); try destruct (Pos.compare_spec mx my);
      simpl; split; intros Hgoal; try reflexivity; try discriminate; lia.
Qed.

Lemma SFcompare_refl (x : spec_float) :
  x <> S754_nan -> SFcompare x x = Some Eq.
Proof.
  destruct x as [s|s| |s m e]; try congruence; intros _; simpl;
    destruct s; try reflexivity;
    rewrite Z.compare_refl, Pos.compare_cont_refl; reflexivity.
Qed.

Module Binary64Laws.

Import Binary64.

Lemma binary64_prec_pos : 0 < prec.
Proof. reflexivity. Qed.

Lemma not_nan (x : float) : is_nan x = false -> Prim2SF x <> S754_nan.
Proof.
  unfold is_nan. rewrite FloatAxioms.eqb_spec. intros Hx Hnan.
  rewrite Hnan in Hx. discriminate.
Qed.

Lemma mul_comm (x y : float) : (x * y = y * x)%float.
Proof.
  apply Prim2SF_inj. rewrite !FloatAxioms.mul_spec.
  apply (@SFmul_comm prec emax).
Qed.

Lemma lt_sub (x y : float) :
  is_nan x = false -> is_nan y = false ->
  (0 <? x - y)%float = (y <? x)%float.
Proof.
  intros Hx Hy. rewrite !FloatAxioms.ltb_spec, FloatAxioms.sub_spec.
  change (Prim2SF 0) with (S754_zero false).
  apply (@SFsub_sign prec emax binary64_prec_pos);
    auto using Prim2SF_valid, not_nan.
Qed.

Lemma le_total (x y : float) :
  is_nan x = false -> is_nan y = false ->
  (x <? y)%float = false -> (y <=? x)%float = true.
Proof.
  intros Hx Hy. rewrite FloatAxioms.ltb_spec, FloatAxioms.leb_spec.
  unfold SFltb, SFleb.
  rewrite (SFcompare_antisym (Prim2SF x) (Prim2SF y)).
  apply not_nan in Hx, Hy.
  destruct (Prim2SF x) as [sx|sx| |sx mx ex]; try congruence;
    destruct (Prim2SF y) as [sy|sy| |sy my ey]; try congruence;
    destruct (SFcompare _ _) as [[| |]|] eqn:Hc; simpl;
    try reflexivity; try discriminate;
    simpl in Hc;
    repeat match type of Hc with
           | context [if ?b then _ else _] => destruct b
           end;
    try discriminate.
Qed.

Lemma lt_le (x y : float) :
  (x <? y)%float = true -> (x <=? y)%float = true.
Proof.
  rewrite FloatAxioms.ltb_spec, FloatAxioms.leb_spec. unfold SFltb, SFleb.
  destruct (SFcompare _ _) as [[| |]|]; congruence.
Qed.

Lemma zero_div_length (n : nat) :
  (0 < n)%nat -> Z.of_nat n < 2 ^ 32 ->
  (0 / of_uint63 (Uint63.of_Z (Z.of_nat n)))%float = 0%float.
Proof.
  intros Hpos Hsmall. apply Prim2SF_inj.
  rewrite FloatAxioms.div_spec, FloatAxioms.of_uint63_spec, Uint63.of_Z_spec.
  rewrite Z.mod_small
    by (split; [lia|apply Z.lt_trans with (2 ^ 32); [lia|reflexivity]]).
  change (Prim2SF 0) with (S754_zero false).
  destruct (Z.of_nat n) as [|p|p] eqn:Hn; try lia.
  unfold binary_normalize.
  assert (Hemin : SpecFloat.emin prec emax <= 0)
    by (vm_compute; discriminate).
  pose proof (@binary_round_nonzero prec emax binary64_prec_pos false p 0 Hemin)
    as Hr.
  destruct (binary_round prec emax false p 0) as [s|s| |s m e];
    simpl in Hr; try contradiction; subst s; reflexivity.
Qed.

#[global] Instance binary64_laws : JsNumberLaws float.
Proof.
  constructor.
  - exact mul_comm.
  - exact lt_sub.
  - exact le_total.
  - exact lt_le.
  - exact zero_div_length.
  - reflexivity.
  - reflexivity.
  - reflexivity.
Qed.

End Binary64Laws.

(** ** The order of binary64 numbers, division and [Math.max] *)

Module Binary64Order.

Import Binary64 Binary64Laws.

Lemma binary64_emin_nonpos : SpecFloat.emin prec emax <= 0.
Proof. vm_compute. discriminate. Qed.

Lemma binary64_prec_le_emax : prec <= emax.
Proof. vm_compute. discriminate. Qed.

Lemma is_nan_spec (x : float) :
  is_nan x = false <-> Prim2SF x <> S754_nan.
Proof.
  split; [apply not_nan|].
  intros Hx. unfold is_nan. rewrite FloatAxioms.eqb_spec. unfold SFeqb.
  rewrite (SFcompare_refl _ Hx). reflexivity.
Qed.

Lemma leb_not_nan (x y : float) :
  (x <=? y)%float = true -> is_nan x = false /\ is_nan y = false.
Proof.
  rewrite FloatAxioms.leb_spec, !is_nan_spec. unfold SFleb.
  destruct (Prim2SF x), (Prim2SF y); simpl; try discriminate;
    intros _; split; discriminate.
Qed.

Lemma le_refl (x : float) : is_nan x = false -> (x <=? x)%float = true.
Proof.
  intros Hx. apply is_nan_spec in Hx.
  rewrite FloatAxioms.leb_spec. apply (SFleb_order_key _ _ Hx Hx).
  apply lex_le_refl.
Qed.

Lemma le_trans (x y z : float) :
  (x <=? y)%float = true -> (y <=? z)%float = true ->
  (x <=? z)%float = true.
Proof.
  intros Hxy Hyz.
  destruct (leb_not_nan _ _ Hxy) as [Hx Hy].
  destruct (leb_not_nan _ _ Hyz) as [_ Hz].
  apply is_nan_spec in Hx, Hy, Hz.
  rewrite FloatAxioms.leb_spec in *.
  apply (SFleb_order_key _ _ Hx Hz).
  apply lex_le_trans with (order_key (Prim2SF y));
    [apply (SFleb_order_key _ _ Hx Hy)|apply (SFleb_order_key _ _ Hy Hz)];
    assumption.
Qed.

Lemma at_most_one_le (x : spec_float) :
  SpecFloat.valid_binary prec emax x = true ->
  at_most_one x ->
  SFleb x (Prim2SF 1) = true.
Proof.
  change (Prim2SF 1) with (S754_finite false 4503599627370496 (-52)).
  intros Hvalid Hone.
  destruct x as [s|s| |s m e]; simpl in Hone; try contradiction.
  - destruct s; reflexivity.
  - subst s. reflexivity.
  - destruct s; [reflexivity|].
    destruct Hone as [Hf|[Hm He]]; [discriminate|].
    apply SFleb_order_key; try discriminate. simpl.
    right. split; [reflexivity|].
    destruct (Z.compare_spec e (-52)) as [Heq|Hlt|Hgt].
    + right. split; [exact Heq|]. subst e. exact Hm.
    + left. exact Hlt.
    + exfalso. simpl in Hvalid.
      pose proof (canonical_order prec emax binary64_prec_pos
                    m 4503599627370496 e (-52) Hvalid eq_refl Hgt) as Hord.
      assert (Hpow : 2 ^ (- e) * 2 ^ (e - -52) = 2 ^ 52).
      { rewrite <- Z.pow_add_r by lia. f_equal. lia. }
      assert (0 < 2 ^ (e - -52)) by (apply Z.pow_pos_nonneg; lia).
      change (2 ^ 52) with 4503599627370496 in Hpow. nia.
Qed.

Lemma positive_finite (m : float) :
  (0 <? m)%float = true -> is_finite m = true ->
  exists (my : positive) (ey : Z), Prim2SF m = S754_finite false my ey.
Proof.
  unfold is_finite, is_infinity.
  rewrite FloatAxioms.ltb_spec, FloatAxioms.eqb_spec, FloatAxioms.abs_spec.
  change (Prim2SF 0) with (S754_zero false).
  change (Prim2SF infinity) with (S754_infinity false).
  destruct (Prim2SF m) as [s|s| |s my ey]; simpl; try discriminate.
  - destruct s; try discriminate. intros _.
    change (SFeqb (S754_infinity false) (S754_infinity false)) with true.
    rewrite orb_true_r. discriminate.
  - destruct s; try discriminate. eauto.
Qed.

Lemma div_le_one (x m : float) :
  (x <=? m)%float = true -> (0 <? m)%float = true -> is_finite m = true ->
  (x / m <=? 1)%float = true.
Proof.
  intros Hle Hpos Hfin.
  destruct (positive_finite m Hpos Hfin) as [my [ey Hm]].
  rewrite FloatAxioms.leb_spec in *. rewrite Hm in Hle.
  pose proof (Prim2SF_valid m) as Hvalid. rewrite Hm in Hvalid.
  apply at_most_one_le; [apply Prim2SF_valid|].
  rewrite FloatAxioms.div_spec, Hm.
  apply (SFdiv_at_most_one prec emax binary64_prec_pos
           binary64_emin_nonpos binary64_prec_le_emax
           (Prim2SF x) my ey (Prim2SF_valid x) Hvalid Hle).
Qed.

Lemma zero_lt (m : float) :
  (0 <=? m)%float = true -> (m =? 0)%float = false -> (0 <? m)%float = true.
Proof.
  rewrite FloatAxioms.leb_spec, FloatAxioms.ltb_spec, FloatAxioms.eqb_spec.
  change (Prim2SF 0) with (S754_zero false).
  unfold SFleb, SFltb, SFeqb.
  rewrite (SFcompare_antisym (S754_zero false) (Prim2SF m)).
  destruct (SFcompare (S754_zero false) (Prim2SF m)) as [[| |]|]; simpl;
    congruence.
Qed.

(** ** [Math.max] on binary64 numbers *)

Lemma fold_max_nan (v : list float) : fold_left max_step v nan = nan.
Proof.
  induction v as [|x v IH]; simpl; [reflexivity|]. exact IH.
Qed.

Lemma max_step_nan (h x : float) :
  is_nan (max_step h x) = false -> is_nan h = false /\ is_nan x = false.
Proof.
  unfold max_step. destruct (is_nan h), (is_nan x); simpl;
    try discriminate. split; reflexivity.
Qed.

Lemma pos_zero_spec (x : float) :
  is_pos_zero x = true -> Prim2SF x = S754_zero false.
Proof.
  unfold is_pos_zero. rewrite FloatAxioms.classify_spec.
  unfold SF64classify, SFclassify.
  destruct (Prim2SF x) as [s|s| |s m e]; try destruct s;
    try destruct (_ =? _); try discriminate. reflexivity.
Qed.

Lemma neg_zero_spec (x : float) :
  is_neg_zero x = true -> Prim2SF x = S754_zero true.
Proof.
  unfold is_neg_zero. rewrite FloatAxioms.classify_spec.
  unfold SF64classify, SFclassify.
  destruct (Prim2SF x) as [s|s| |s m e]; try destruct s;
    try destruct (_ =? _); try discriminate. reflexivity.
Qed.

(** One step of [Math.max] returns one of its arguments, and it is [>=]
    both. *)
Lemma max_step_upper (h x : float) :
  is_nan h = false -> is_nan x = false ->
  (max_step h x = h \/ max_step h x = x)
  /\ (h <=? max_step h x)%float = true
  /\ (x <=? max_step h x)%float = true.
Proof.
  intros Hh Hx. unfold max_step. rewrite Hh, Hx. simpl.
  destruct (is_pos_zero x && is_neg_zero h)%bool eqn:Hz.
  - apply andb_true_iff in Hz. destruct Hz as [Hp Hn].
    split; [right; reflexivity|]. split; [|apply le_refl; exact Hx].
    rewrite FloatAxioms.leb_spec, (pos_zero_spec _ Hp), (neg_zero_spec _ Hn).
    reflexivity.
  - destruct (h <? x)%float eqn:Hlt.
    + split; [right; reflexivity|].
      split; [apply lt_le; exact Hlt|apply le_refl; exact Hx].
    + split; [left; reflexivity|].
      split; [apply le_refl; exact Hh|apply le_total; assumption].
Qed.

(** The maximum is [>=] the starting value and every element. *)
Lemma fold_max_upper (v : list float) :
  forall h : float,
    is_nan (fold_left max_step v h) = false ->
    (h <=? fold_left max_step v h)%float = true
    /\ Forall (fun x => (x <=? fold_left max_step v h)%float = true) v.
Proof.
  induction v as [|x v IH]; intros h Hm; simpl in *.
  - split; [apply le_refl; exact Hm|constructor].
  - assert (Hstep : is_nan (max_step h x) = false).
    { destruct (is_nan (max_step h x)) eqn:Hn; [|reflexivity].
      assert (Heq : max_step h x = nan).
      { apply Prim2SF_inj. change (Prim2SF nan) with S754_nan.
        destruct (Prim2SF (max_step h x)) eqn:Hs; try reflexivity;
          exfalso; assert (Hc : is_nan (max_step h x) = false)
            by (apply is_nan_spec; rewrite Hs; discriminate);
          congruence. }
      rewrite Heq, fold_max_nan in Hm. discriminate. }
    destruct (max_step_nan h x Hstep) as [Hh Hx].
    destruct (max_step_upper h x Hh Hx) as [_ [Hhs Hxs]].
    destruct (IH (max_step h x) Hm) as [Hsm Hall].
    split; [exact (le_trans _ _ _ Hhs Hsm)|].
    constructor; [exact (le_trans _ _ _ Hxs Hsm)|exact Hall].
Qed.

(** The maximum of numbers that are all at most [b] is at most [b]. *)
Lemma fold_max_bounded (b : float) (v : list float) :
  forall h : float,
    (h <=? b)%float = true ->
    Forall (fun y => (y <=? b)%float = true) v ->
    (fold_left max_step v h <=? b)%float = true.
Proof.
  induction v as [|y v IH]; intros h Hh Hall; simpl; [exact Hh|].
  inversion Hall as [|? ? Hy Hrest]; subst.
  apply IH; [|exact Hrest].
  destruct (leb_not_nan _ _ Hh) as [Hnh _].
  destruct (leb_not_nan _ _ Hy) as [Hny _].
  destruct (max_step_upper h y Hnh Hny) as [[->| ->] _]; assumption.
Qed.

End Binary64Order.

(** On binary64 numbers, when the maximum of a vector is finite and not
    negative, the components of the normalised vector are at most 1. *)
Lemma normalizeVector_bounded (v : list float) :
  is_finite (Math_max v) = true ->
  (0 <=? Math_max v)%float = true ->
  (Math_max (normalizeVector v) <=? 1)%float = true.
Proof.
  intros Hfin Hpos. unfold normalizeVector.
  destruct (Binary64Order.leb_not_nan _ _ Hpos) as [_ Hnan].
  change (Math_max v === num_zero)%js with (Math_max v =? 0)%float.
  destruct (Math_max v =? 0)%float eqn:Hzero.
  - apply Binary64Order.fold_max_bounded; [reflexivity|].
    apply Forall_forall. intros y Hy. apply in_map_iff in Hy.
    destruct Hy as [_ [<- _]]. reflexivity.
  - pose proof (Binary64Order.zero_lt _ Hpos Hzero) as Hlt.
    destruct (Binary64Order.fold_max_upper v neg_infinity Hnan)
      as [_ Hall].
    apply Binary64Order.fold_max_bounded; [reflexivity|].
    apply Forall_forall. intros y Hy. apply in_map_iff in Hy.
    destruct Hy as [x [<- Hx]].
    rewrite Forall_forall in Hall.
    apply Binary64Order.div_le_one;
      [apply Hall; exact Hx|exact Hlt|exact Hfin].
Qed.

Local Close Scope Z_scope.
Set Implicit Arguments.

(* ================================================================= *)
(** * Properties of the vector utilities *)

Section VectorFacts.

Context {N : Type} `{JsNumberLaws N}.
Local Open Scope js_scope.

(** Swapping the vectors swaps the two norm accumulators. *)
Lemma cosine_loop_swap (a : list N) :
  forall (b : list N) (dot normA normB : N),
    cosine_loop b a dot normB normA
    = let '(dot', normA', normB') := cosine_loop a b dot normA normB in
      (dot', normB', normA').
Proof.
  induction a as [|x a IH]; intros [|y b] dot normA normB; simpl;
    try reflexivity.
  rewrite (num_mul_comm y x). apply IH.
Qed.

Lemma cosineSimilarity_sym (a b : list N) :
  cosineSimilarity a b = cosineSimilarity b a.
Proof.
  unfold cosineSimilarity.
  rewrite (Nat.eqb_sym (List.length b) (List.length a)).
  rewrite (orb_comm (Nat.eqb (List.length b) 0)).
  destruct (Nat.eqb (List.length a) 0 || Nat.eqb (List.length b) 0
            || negb (Nat.eqb (List.length a) (List.length b)))%bool;
    [reflexivity|].
  rewrite (cosine_loop_swap a b).
  destruct (cosine_loop a b num_zero num_zero num_zero)
    as [[dot normA] normB].
  rewrite (orb_comm (negb (num_truthy normB))).
  rewrite (num_mul_comm (num_sqrt normB)). reflexivity.
Qed.

(** The guards of [cosineSimilarity]. *)
Lemma cosineSimilarity_length_guard (a b : list N) :
  a = [] \/ b = [] \/ List.length a <> List.length b ->
  cosineSimilarity a b = num_zero.
Proof.
  intros Hguard. unfold cosineSimilarity.
  assert (Hcond : (Nat.eqb (List.length a) 0 || Nat.eqb (List.length b) 0
                   || negb (Nat.eqb (List.length a) (List.length b)))%bool
                  = true).
  { destruct Hguard as [->|[->|Hlen]].
    - reflexivity.
    - simpl. apply orb_true_iff. left. apply orb_true_r.
    - apply orb_true_iff. right. apply negb_true_iff.
      apply Nat.eqb_neq. exact Hlen. }
  rewrite Hcond. reflexivity.
Qed.

Lemma Math_max_zeros (n : nat) :
  Math_max (repeat num_zero (S n)) = num_zero.
Proof.
  unfold Math_max. simpl. rewrite num_max_neg_infinity_zero.
  induction n as [|n IH]; simpl; [reflexivity|].
  rewrite num_max_zero_zero. exact IH.
Qed.

(** Normalising a vector of zeros gives it back. *)
Lemma normalizeVector_zeros (n : nat) :
  normalizeVector (repeat num_zero n) = repeat num_zero n.
Proof.
  destruct n as [|n].
  { unfold normalizeVector. simpl. destruct (_ === _); reflexivity. }
  unfold normalizeVector. rewrite Math_max_zeros, num_zero_eq_zero.
  generalize (S n). intros k. induction k as [|k IH]; simpl; congruence.
Qed.

End VectorFacts.

(** C9.  On binary64 numbers, [cosineSimilarity(a, b)] and
    [cosineSimilarity(b, a)] are the same number, for all vectors [a] and
    [b]. *)
Theorem cosineSimilarity_symmetric :
  forall a b : list float, cosineSimilarity a b = cosineSimilarity b a.
Proof.
  intros a b. apply cosineSimilarity_sym.
Qed.

(** A user's trait vector has nine components and a vendor's has twelve, so
    their trait similarity takes the length guard of [cosineSimilarity]. *)
Lemma normalizeVector_length {N : Type} `{JsNumber N} (values : list N) :
  List.length (normalizeVector values) = List.length values.
Proof.
  unfold normalizeVector. destruct (_ === _)%js; apply length_map.
Qed.

Lemma traitScore_is_zero {N : Type} `{JsNumber N} (traits : Traits.t N)
    (vendor : Vendor.t N) :
  computeTraitSimilarity (getUserTraitVector traits)
    (getVendorTraitVector vendor)
  = num_zero.
Proof.
  unfold computeTraitSimilarity. apply cosineSimilarity_length_guard.
  right. right. rewrite !normalizeVector_length. discriminate.
Qed.

(** Scenario A of the specification: the only like is the target vendor
    itself, and its behaviour score is 1. *)
Example scenario_A :
  computeBehaviorScoreForVendor 1
    (map summarize (User.interactions Fixtures.alex))
    Fixtures.spa_traits
    (buildLikedVendorsTraitMap Fixtures.alex (World.vendors Fixtures.world))
  = 1%float.
Proof. vm_compute. reflexivity. Qed.

(** Scenario B: three zero weights are left as they are. *)
Example scenario_B :
  normalizeWeights (weights_of 0%float 0%float 0%float)
  = weights_of 0%float 0%float 0%float.
Proof. vm_compute. reflexivity. Qed.

(** Scenario C: a trait override of 7 does not pass the schema. *)
Example scenario_C :
  adjustmentsSchema (JObj [("Adventurous"%string, JNum 7%float)]) = None.
Proof. vm_compute. reflexivity. Qed.

(** C6, as stated, fails on a vector whose maximum is negative: dividing by
    the maximum then turns the components into numbers above 1. *)
Lemma normalizeVector_negative_maximum :
  normalizeVector [(-1)%float; (-2)%float] = [1%float; 2%float]
  /\ (Math_max (normalizeVector [(-1)%float; (-2)%float]) <=? 1%float)%js
     = false.
Proof. split; vm_compute; reflexivity. Qed.

(** Without its maximum being finite the bound is lost as well: infinity
    divided by infinity is NaN. *)
Example normalizeVector_infinite_maximum :
  normalizeVector [1%float; infinity] = [0%float; nan].
Proof. vm_compute. reflexivity. Qed.

(** C6 (amended).  On binary64 numbers, for every vector [v]: when its
    maximum is 0 (of either sign) [normalizeVector] returns a vector of
    zeros; otherwise it divides every component by the maximum; when the
    maximum is finite and not negative, the maximum component of the result
    is at most 1; and a vector of zeros is mapped to itself. *)
Theorem normalizeVector_binary64 :
  forall v : list float,
    ((Math_max v =? 0)%float = true ->
     normalizeVector v = map (fun _ => 0%float) v)
    /\ ((Math_max v =? 0)%float = false ->
        normalizeVector v = map (fun x => (x / Math_max v)%float) v)
    /\ (is_finite (Math_max v) = true ->
        (0 <=? Math_max v)%float = true ->
        (Math_max (normalizeVector v) <=? 1)%float = true)
    /\ (forall n : nat, v = repeat 0%float n -> normalizeVector v = v).
Proof.
  intros v. split; [|split; [|split]].
  - intros Hzero. unfold normalizeVector.
    change (Math_max v === num_zero)%js with (Math_max v =? 0)%float.
    rewrite Hzero. reflexivity.
  - intros Hzero. unfold normalizeVector.
    change (Math_max v === num_zero)%js with (Math_max v =? 0)%float.
    rewrite Hzero. reflexivity.
  - apply normalizeVector_bounded.
  - intros n ->. exact (@normalizeVector_zeros float _ _ n).
Qed.

Lemma normalizeVector_binary64_witness :
  is_finite (Math_max [1%float; 2%float]) = true
  /\ (0 <=? Math_max [1%float; 2%float])%float = true
  /\ (Math_max (normalizeVector [1%float; 2%float]) <=? 1)%float = true.
Proof.
  assert (Hfin : is_finite (Math_max [1%float; 2%float]) = true)
    by reflexivity.
  assert (Hpos : (0 <=? Math_max [1%float; 2%float])%float = true)
    by reflexivity.
  split; [exact Hfin|]. split; [exact Hpos|].
  destruct (normalizeVector_binary64 [1%float; 2%float])
    as [_ [_ [Hbound _]]].
  exact (Hbound Hfin Hpos).
Defined.

(** ** In exact arithmetic *)

Import Exact ExactLaws.

Section ExactArithmetic.
Local Open Scope R_scope.

Lemma Req_b_neq (x y : R) : x <> y -> Req_b x y = false.
Proof. apply Req_b_false. Qed.

Lemma Req_b_refl (x : R) : Req_b x x = true.
Proof. apply Req_b_true. reflexivity. Qed.

Lemma Rlt_b_lt (x y : R) : x < y -> Rlt_b x y = true.
Proof. apply Rlt_b_true. Qed.

Lemma Rlt_b_ge (x y : R) : y <= x -> Rlt_b x y = false.
Proof. apply Rlt_b_false. Qed.

Lemma div_fin (a b : R) : b <> 0 -> div (Fin a) (Fin b) = Fin (a / b).
Proof. intros Hb. unfold div. rewrite (Req_b_neq Hb). reflexivity. Qed.

Lemma sqrt_fin (a : R) : 0 <= a -> sqrt (Fin a) = Fin (R_sqrt.sqrt a).
Proof. intros Ha. unfold sqrt. rewrite (Rlt_b_ge Ha). reflexivity. Qed.

Lemma truthy_fin (a : R) : a <> 0 -> truthy (Fin a) = true.
Proof. intros Ha. unfold truthy. rewrite (Req_b_neq Ha). reflexivity. Qed.

Lemma truthy_zero : truthy (Fin 0) = false.
Proof. unfold truthy. rewrite Req_b_refl. reflexivity. Qed.

End ExactArithmetic.


Section ExactVectors.
Local Open Scope R_scope.

Lemma max_step_fin (m x : R) : max_step (Fin m) (Fin x) = Fin (Rmax m x).
Proof.
  unfold max_step, Rmax. simpl.
  destruct (Rle_dec m x) as [Hle|Hgt].
  - destruct (Req_dec_T m x) as [->|Hne].
    + rewrite Rlt_b_ge by lra. reflexivity.
    + rewrite Rlt_b_lt by lra. reflexivity.
  - rewrite Rlt_b_ge by lra. reflexivity.
Qed.

Lemma fold_max_fin (v : list R) :
  forall m : R, fold_left max_step (map Fin v) (Fin m) = Fin (maximum m v).
Proof.
  induction v as [|x v IH]; intros m; simpl; [reflexivity|].
  rewrite max_step_fin. apply IH.
Qed.

Lemma Math_max_fin (x : R) (v : list R) :
  Math_max (map Fin (x :: v)) = Fin (maximum x v).
Proof.
  unfold Math_max. simpl. apply fold_max_fin.
Qed.

Lemma maximum_ge (v : list R) :
  forall m y : R, In y (m :: v) -> y <= maximum m v.
Proof.
  induction v as [|x v IH]; intros m y Hin; simpl.
  - destruct Hin as [->|[]]. lra.
  - destruct Hin as [->|[->|Hin]].
    + apply Rle_trans with (Rmax y x); [apply Rmax_l|].
      apply IH. left. reflexivity.
    + apply Rle_trans with (Rmax m y); [apply Rmax_r|].
      apply IH. left. reflexivity.
    + apply IH. right. exact Hin.
Qed.

Lemma maximum_in (v : list R) :
  forall m : R, In (maximum m v) (m :: v).
Proof.
  induction v as [|x v IH]; intros m; simpl; [left; reflexivity|].
  destruct (IH (Rmax m x)) as [Heq|Hin].
  - unfold Rmax in Heq at 1. destruct (Rle_dec m x); auto.
  - right. right. exact Hin.
Qed.

(** The largest component of a non-empty vector of reals all at most [1]
    is at most [1]. *)
Lemma Math_max_bounded (w : list R) :
  w <> [] -> Forall (fun x => x <= 1) w ->
  (Math_max (map Fin w) <=? Fin 1)%js = true.
Proof.
  destruct w as [|x w]; [congruence|]. intros _ Hall.
  rewrite Math_max_fin.
  pose proof (maximum_in w x) as Hin.
  rewrite Forall_forall in Hall. apply Hall in Hin.
  simpl. unfold leb. simpl.
  destruct (Req_dec_T (maximum x w) 1) as [->|Hne].
  - rewrite Req_b_refl. apply orb_true_r.
  - rewrite Rlt_b_lt by lra. reflexivity.
Qed.

(** The same four facts hold in exact arithmetic, for every vector [v] of
    finite numbers: zeros when the maximum is 0, a division by the maximum
    otherwise, a result whose maximum is at most 1 when the maximum of [v]
    is not negative, and the zero vector mapped to itself. *)
Theorem normalizeVector_exact :
  forall v : list R,
    (Math_max (map Fin v) = Fin 0 ->
     normalizeVector (map Fin v) = map (fun _ => Fin 0) v)
    /\ (forall m : R,
          Math_max (map Fin v) = Fin m -> m <> 0 ->
          normalizeVector (map Fin v) = map (fun x => Fin (x / m)) v)
    /\ (forall m : R,
          Math_max (map Fin v) = Fin m -> 0 <= m ->
          (Math_max (normalizeVector (map Fin v)) <=? Fin 1)%js = true)
    /\ (Forall (fun x => x = 0) v -> normalizeVector (map Fin v) = map Fin v).
Proof.
  intros v.
  assert (Hzero : Math_max (map Fin v) = Fin 0 ->
                  normalizeVector (map Fin v) = map (fun _ => Fin 0) v).
  { intros Hm. unfold normalizeVector. rewrite Hm. simpl.
    rewrite Req_b_refl, map_map. reflexivity. }
  assert (Hdiv : forall m : R,
             Math_max (map Fin v) = Fin m -> m <> 0 ->
             normalizeVector (map Fin v) = map (fun x => Fin (x / m)) v).
  { intros m Hm Hne. unfold normalizeVector. rewrite Hm. simpl.
    rewrite (Req_b_neq Hne), map_map. apply map_ext. intros x.
    apply (@div_fin x m Hne). }
  split; [exact Hzero|]. split; [exact Hdiv|]. split.
  - intros m Hm Hpos.
    assert (Hv : v <> []) by (intros ->; discriminate).
    destruct (Req_dec_T m 0) as [->|Hne].
    + rewrite (Hzero Hm).
      rewrite <- (map_map (fun _ => 0) Fin).
      apply Math_max_bounded.
      * destruct v; [congruence|discriminate].
      * apply Forall_forall. intros y Hy. apply in_map_iff in Hy.
        destruct Hy as [_ [<- _]]. lra.
    + rewrite (Hdiv m Hm Hne).
      rewrite <- (map_map (fun x => x / m) Fin).
      apply Math_max_bounded.
      * destruct v; [congruence|discriminate].
      * apply Forall_forall. intros y Hy. apply in_map_iff in Hy.
        destruct Hy as [x [<- Hx]].
        destruct v as [|x0 v]; [contradiction|].
        rewrite Math_max_fin in Hm. injection Hm as Hm.
        pose proof (@maximum_ge v x0 x Hx) as Hle. rewrite Hm in Hle.
        apply (Rmult_le_reg_r m); [lra|]. unfold Rdiv.
        rewrite Rmult_assoc, Rinv_l by lra. lra.
  - intros Hall. destruct v as [|x v].
    + unfold normalizeVector. simpl. reflexivity.
    + assert (Hm : Math_max (map Fin (x :: v)) = Fin 0).
      { rewrite Math_max_fin. f_equal.
        pose proof (maximum_in v x) as Hin.
        rewrite Forall_forall in Hall. apply Hall in Hin. exact Hin. }
      rewrite (Hzero Hm). apply map_ext_in. intros y Hy.
      rewrite Forall_forall in Hall. rewrite (Hall y Hy). reflexivity.
Qed.

Lemma normalizeVector_exact_witness :
  Math_max (map Fin [1; 2]) = Fin 2
  /\ 0 <= 2
  /\ (Math_max (normalizeVector (map Fin [1; 2])) <=? Fin 1)%js = true.
Proof.
  assert (Hmax : Math_max (map Fin [1; 2]) = Fin 2).
  { rewrite Math_max_fin. simpl. f_equal. unfold Rmax.
    destruct (Rle_dec 1 2); lra. }
  assert (Hpos : 0 <= 2) by lra.
  split; [exact Hmax|]. split; [exact Hpos|].
  destruct (normalizeVector_exact [1; 2]) as [_ [_ [Hbound _]]].
  exact (Hbound 2 Hmax Hpos).
Defined.

End ExactVectors.

Section ExactCosine.
Local Open Scope R_scope.

Lemma cosine_loop_fin (a : list R) :
  forall (b : list R) (dot normA normB : R),
    List.length a = List.length b ->
    cosine_loop (map Fin a) (map Fin b) (Fin dot) (Fin normA) (Fin normB)
    = (Fin (dot + dot_product a b),
       Fin (normA + dot_product a a),
       Fin (normB + dot_product b b)).
Proof.
  induction a as [|x a IH]; intros [|y b] dot normA normB Hlen;
    try discriminate; simpl.
  - rewrite !Rplus_0_r. reflexivity.
  - rewrite IH by (simpl in Hlen; congruence).
    f_equal; [f_equal|]; apply f_equal; ring.
Qed.

Lemma dot_self_nonneg (a : list R) : 0 <= dot_product a a.
Proof.
  induction a as [|x a IH]; simpl; [lra|].
  pose proof (Rle_0_sqr x) as Hsq. unfold Rsqr in Hsq. lra.
Qed.

Lemma euclidean_norm_zero (a : list R) :
  euclidean_norm a = 0 <-> dot_product a a = 0.
Proof.
  unfold euclidean_norm. split.
  - apply sqrt_eq_0. apply dot_self_nonneg.
  - intros ->. apply sqrt_0.
Qed.

Lemma length_guard_false (a b : list R) :
  a <> [] -> List.length a = List.length b ->
  (Nat.eqb (List.length (map Fin a)) 0
   || Nat.eqb (List.length (map Fin b)) 0
   || negb (Nat.eqb (List.length (map Fin a)) (List.length (map Fin b))))%bool
  = false.
Proof.
  intros Ha Hlen. rewrite !length_map, <- Hlen, Nat.eqb_refl.
  destruct a; [congruence|reflexivity].
Qed.

Lemma length_guard_cases (a b : list R) :
  (a = [] \/ b = [] \/ List.length a <> List.length b)
  \/ (a <> [] /\ List.length a = List.length b).
Proof.
  destruct a as [|x a]; [left; left; reflexivity|].
  destruct (Nat.eq_dec (List.length (x :: a)) (List.length b)) as [Heq|Hne].
  - right. split; [discriminate|exact Heq].
  - left. right. right. exact Hne.
Qed.

(** [cosineSimilarity] once the length guard is passed. *)
Lemma cosineSimilarity_fin (a b : list R) :
  a <> [] -> List.length a = List.length b ->
  cosineSimilarity (map Fin a) (map Fin b)
  = if (Req_b (dot_product a a) 0 || Req_b (dot_product b b) 0)%bool
    then Fin 0
    else Fin (dot_product a b / (euclidean_norm a * euclidean_norm b)).
Proof.
  intros Ha Hlen. unfold cosineSimilarity.
  rewrite (@length_guard_false a b Ha Hlen).
  change (@num_zero xreal _) with (Fin 0).
  rewrite (@cosine_loop_fin a b 0 0 0 Hlen), !Rplus_0_l.
  cbn [num_truthy num_div num_mul num_sqrt number truthy].
  rewrite !negb_involutive.
  destruct (Req_b (dot_product a a) 0) eqn:Ea; [reflexivity|].
  destruct (Req_b (dot_product b b) 0) eqn:Eb; [reflexivity|].
  apply Req_b_false in Ea, Eb. simpl orb. cbv iota.
  rewrite !sqrt_fin by apply dot_self_nonneg.
  cbn [mul]. apply div_fin.
  fold (euclidean_norm a). fold (euclidean_norm b).
  intros Hprod. apply Rmult_integral in Hprod.
  destruct Hprod as [Hz|Hz]; apply euclidean_norm_zero in Hz; contradiction.
Qed.

(** C5, as stated, fails on binary64 numbers when the sums of squares
    overflow: both norms are then infinite, none of the guards applies, and
    the quotient is NaN. *)
Lemma cosineSimilarity_overflow_not_finite :
  cosineSimilarity [1e200%float] [1e200%float] = nan
  /\ num_is_finite (cosineSimilarity [1e200%float] [1e200%float]) = false.
Proof. split; vm_compute; reflexivity. Qed.

(** In exact arithmetic, an idealisation of the numbers of the program,
    for all vectors [a] and [b] of finite
    numbers, [cosineSimilarity(a, b)] is exactly 0 when either vector is
    empty, when the lengths differ, or when either Euclidean norm is 0; in
    all other cases it is the dot product divided by the product of the
    norms; and the result is always a finite number. *)
Theorem cosineSimilarity_exact :
  forall a b : list R,
    (a = [] \/ b = [] \/ List.length a <> List.length b ->
     cosineSimilarity (map Fin a) (map Fin b) = Fin 0)
    /\ (euclidean_norm a = 0 \/ euclidean_norm b = 0 ->
        cosineSimilarity (map Fin a) (map Fin b) = Fin 0)
    /\ (a <> [] -> List.length a = List.length b ->
        euclidean_norm a <> 0 -> euclidean_norm b <> 0 ->
        cosineSimilarity (map Fin a) (map Fin b)
        = Fin (dot_product a b / (euclidean_norm a * euclidean_norm b)))
    /\ num_is_finite (cosineSimilarity (map Fin a) (map Fin b)) = true.
Proof.
  intros a b.
  assert (Hguard : a = [] \/ b = [] \/ List.length a <> List.length b ->
                   cosineSimilarity (map Fin a) (map Fin b) = Fin 0).
  { intros Hg. change (Fin 0) with (@num_zero xreal _).
    apply cosineSimilarity_length_guard.
    destruct Hg as [->|[->|Hlen]]; auto.
    right. right. rewrite !length_map. exact Hlen. }
  split; [exact Hguard|].
  destruct (length_guard_cases a b) as [Hg|[Ha Hlen]].
  - rewrite (Hguard Hg). repeat split; try reflexivity.
    intros Ha Hlen. exfalso.
    destruct Hg as [->|[->|Hne]]; try congruence.
    destruct a; [congruence|discriminate].
  - rewrite (@cosineSimilarity_fin a b Ha Hlen). repeat split.
    + intros [Hz|Hz]; apply euclidean_norm_zero in Hz; rewrite Hz, Req_b_refl;
        [reflexivity|rewrite orb_true_r; reflexivity].
    + intros _ _ Hna Hnb.
      rewrite !Req_b_neq; [reflexivity| |];
        intros Hz; apply euclidean_norm_zero in Hz; contradiction.
    + destruct (_ || _)%bool; reflexivity.
Qed.

Lemma cosineSimilarity_exact_witness :
  [3; 4] <> []
  /\ List.length [3; 4] = List.length [4; 3]
  /\ euclidean_norm [3; 4] <> 0
  /\ euclidean_norm [4; 3] <> 0
  /\ cosineSimilarity (map Fin [3; 4]) (map Fin [4; 3])
     = Fin (dot_product [3; 4] [4; 3]
            / (euclidean_norm [3; 4] * euclidean_norm [4; 3])).
Proof.
  assert (Ha : [3; 4] <> []) by discriminate.
  assert (Hna : euclidean_norm [3; 4] <> 0).
  { intros Hz. apply euclidean_norm_zero in Hz. simpl in Hz. lra. }
  assert (Hnb : euclidean_norm [4; 3] <> 0).
  { intros Hz. apply euclidean_norm_zero in Hz. simpl in Hz. lra. }
  split; [exact Ha|]. split; [reflexivity|].
  split; [exact Hna|]. split; [exact Hnb|].
  destruct (cosineSimilarity_exact [3; 4] [4; 3]) as [_ [_ [Hformula _]]].
  exact (Hformula Ha eq_refl Hna Hnb).
Defined.

End ExactCosine.

(* ================================================================= *)
(** * Properties of the behaviour score *)

Section BehaviorFacts.

Context {N : Type} `{JsNumberLaws N}.
Local Open Scope js_scope.

(** With at most one interaction per vendor, the interaction that [find]
    returns is a like exactly when some interaction with the vendor is. *)
Lemma directScore_find (vendorId : Z)
    (userInteractions : list InteractionSummary.t) :
  NoDup (map InteractionSummary.vendorId userInteractions) ->
  match find (fun i => Z.eqb (InteractionSummary.vendorId i) vendorId)
             userInteractions with
  | Some i => if InteractionSummary.liked i then num_one else num_zero
  | None => num_zero
  end
  = directScore_spec vendorId userInteractions.
Proof.
  unfold directScore_spec.
  induction userInteractions as [|i rest IH]; intros Hnodup; simpl;
    [reflexivity|].
  inversion Hnodup as [|? ? Hnotin Hrest]; subst.
  destruct (Z.eqb_spec (InteractionSummary.vendorId i) vendorId) as [Heq|Hne];
    simpl.
  - destruct (InteractionSummary.liked i); [reflexivity|].
    destruct (existsb _ rest) eqn:Hex; [|reflexivity].
    exfalso. apply existsb_exists in Hex. destruct Hex as [j [Hin Hj]].
    apply andb_true_iff in Hj. destruct Hj as [Hj _].
    apply Z.eqb_eq in Hj. apply Hnotin. rewrite Heq, <- Hj.
    apply in_map. exact Hin.
  - apply IH. exact Hrest.
Qed.

(** The loop over the liked interactions adds up the similarities that are
    available, in order. *)
Lemma total_is_sum (vendorTraitVector : list N)
    (likedVendorsTraitMap : NumberMap.t (list N))
    (likedVendors : list InteractionSummary.t) :
  forall total : N,
    fold_left
      (fun total liked =>
         match NumberMap.get (InteractionSummary.vendorId liked)
                             likedVendorsTraitMap with
         | None => total
         | Some likedVector =>
             total + computeTraitSimilarity vendorTraitVector likedVector
         end)
      likedVendors total
    = fold_left num_add
        (flat_map
           (fun liked =>
              match NumberMap.get (InteractionSummary.vendorId liked)
                                  likedVendorsTraitMap with
              | Some likedVector =>
                  [computeTraitSimilarity vendorTraitVector likedVector]
              | None => []
              end)
           likedVendors)
        total.
Proof.
  induction likedVendors as [|liked rest IH]; intros total; simpl;
    [reflexivity|].
  rewrite fold_left_app, IH.
  destruct (NumberMap.get _ _); reflexivity.
Qed.

Lemma computeBehaviorScoreForVendor_unfold (vendorId : Z)
    (userInteractions : list InteractionSummary.t)
    (vendorTraitVector : list N)
    (likedVendorsTraitMap : NumberMap.t (list N)) :
  NoDup (map InteractionSummary.vendorId userInteractions) ->
  computeBehaviorScoreForVendor vendorId userInteractions vendorTraitVector
    likedVendorsTraitMap
  = num_0_6 * directScore_spec vendorId userInteractions
    + num_0_4 * aggregate_over_liked userInteractions vendorTraitVector
                  likedVendorsTraitMap.
Proof.
  intros Hnodup. unfold computeBehaviorScoreForVendor.
  rewrite (@directScore_find vendorId userInteractions Hnodup).
  f_equal. f_equal.
  unfold aggregate_over_liked, liked_similarities, total_of.
  rewrite total_is_sum.
  destruct (filter InteractionSummary.liked userInteractions); reflexivity.
Qed.

Lemma filter_length_le {A} (f : A -> bool) (l : list A) :
  (List.length (filter f l) <= List.length l)%nat.
Proof.
  induction l as [|x l IH]; simpl; [lia|].
  destruct (f x); simpl; lia.
Qed.

Lemma aggregate_none_available
    (userInteractions : list InteractionSummary.t)
    (vendorTraitVector : list N)
    (likedVendorsTraitMap : NumberMap.t (list N)) :
  (Z.of_nat (List.length userInteractions) < 2 ^ 32)%Z ->
  liked_similarities userInteractions vendorTraitVector likedVendorsTraitMap
  = [] ->
  aggregate_over_liked userInteractions vendorTraitVector likedVendorsTraitMap
  = num_zero.
Proof.
  intros Hsmall Hnone. unfold aggregate_over_liked. rewrite Hnone.
  pose proof (filter_length_le InteractionSummary.liked userInteractions)
    as Hle.
  destruct (filter InteractionSummary.liked userInteractions) as [|i rest];
    [reflexivity|].
  apply num_zero_div_length; simpl in *; lia.
Qed.

Lemma resolved_length (vendorTraitVector : list N)
    (likedVendorsTraitMap : NumberMap.t (list N))
    (likedVendors : list InteractionSummary.t) :
  forallb
    (fun liked =>
       match NumberMap.get (InteractionSummary.vendorId liked)
                           likedVendorsTraitMap with
       | Some _ => true
       | None => false
       end)
    likedVendors = true ->
  List.length
    (flat_map
       (fun liked =>
          match NumberMap.get (InteractionSummary.vendorId liked)
                              likedVendorsTraitMap with
          | Some likedVector =>
              [computeTraitSimilarity vendorTraitVector likedVector]
          | None => []
          end)
       likedVendors)
  = List.length likedVendors.
Proof.
  induction likedVendors as [|liked rest IH]; simpl; [reflexivity|].
  destruct (NumberMap.get _ _); simpl; [|discriminate].
  intros Hall. rewrite IH by exact Hall. reflexivity.
Qed.

Lemma aggregate_all_available
    (userInteractions : list InteractionSummary.t)
    (vendorTraitVector : list N)
    (likedVendorsTraitMap : NumberMap.t (list N)) :
  all_liked_resolve userInteractions likedVendorsTraitMap = true ->
  aggregate_over_liked userInteractions vendorTraitVector likedVendorsTraitMap
  = average (liked_similarities userInteractions vendorTraitVector
               likedVendorsTraitMap).
Proof.
  unfold all_liked_resolve, aggregate_over_liked, liked_similarities, average.
  intros Hall.
  pose proof (@resolved_length vendorTraitVector likedVendorsTraitMap _ Hall)
    as Hlen.
  destruct (filter InteractionSummary.liked userInteractions) as [|i rest].
  - reflexivity.
  - destruct (flat_map _ (i :: rest)) as [|s sims] eqn:Hsims;
      [discriminate|].
    rewrite Hlen. reflexivity.
Qed.

End BehaviorFacts.

(** The behaviour score over any numbers that satisfy the laws. *)
Lemma computeBehaviorScoreForVendor_spec :
  forall (N : Type) (HN : JsNumber N) (HL : JsNumberLaws N) (vendorId : Z)
         (userInteractions : list InteractionSummary.t)
         (vendorTraitVector : list N)
         (likedVendorsTraitMap : NumberMap.t (list N)),
    NoDup (map InteractionSummary.vendorId userInteractions) ->
    (Z.of_nat (List.length userInteractions) < 2 ^ 32)%Z ->
    computeBehaviorScoreForVendor vendorId userInteractions vendorTraitVector
      likedVendorsTraitMap
    = (num_0_6 * directScore_spec vendorId userInteractions
       + num_0_4 * aggregate_over_liked userInteractions vendorTraitVector
                     likedVendorsTraitMap)%js
    /\ (liked_similarities userInteractions vendorTraitVector
          likedVendorsTraitMap = [] ->
        aggregate_over_liked userInteractions vendorTraitVector
          likedVendorsTraitMap = num_zero)
    /\ (all_liked_resolve userInteractions likedVendorsTraitMap = true ->
        computeBehaviorScoreForVendor vendorId userInteractions
          vendorTraitVector likedVendorsTraitMap
        = behaviorScore_spec vendorId userInteractions vendorTraitVector
            likedVendorsTraitMap).
Proof.
  intros N HN HL vendorId userInteractions vendorTraitVector
         likedVendorsTraitMap Hnodup Hsmall.
  split; [apply computeBehaviorScoreForVendor_unfold; exact Hnodup|].
  split; [apply aggregate_none_available; exact Hsmall|].
  intros Hall. rewrite computeBehaviorScoreForVendor_unfold by exact Hnodup.
  unfold behaviorScore_spec. rewrite aggregate_all_available by exact Hall.
  reflexivity.
Qed.

(** C1, as stated, fails when a liked vendor has no vector in the map: the
    code still counts that like in the divisor.  With two likes of which one
    resolves (to the target's own vector, similarity 1), the code gives
    0.6 + 0.4 * (1 / 2) where the average of the available similarities
    gives 0.6 + 0.4 * 1. *)
Lemma unresolved_like_lowers_aggregate :
  computeBehaviorScoreForVendor 1 Fixtures.two_likes Fixtures.spa_traits
    Fixtures.only_spa
  = 0.8%float
  /\ behaviorScore_spec 1 Fixtures.two_likes Fixtures.spa_traits
       Fixtures.only_spa
     = 1%float
  /\ (computeBehaviorScoreForVendor 1 Fixtures.two_likes Fixtures.spa_traits
        Fixtures.only_spa
      === behaviorScore_spec 1 Fixtures.two_likes Fixtures.spa_traits
            Fixtures.only_spa)%js
     = false.
Proof. repeat split; vm_compute; reflexivity. Qed.

(** C1 (amended).  With at most one interaction per vendor, the behaviour
    score of a target vendor is [0.6 * directScore + 0.4 * aggregate] on
    binary64 numbers, where [directScore] is 1 if an interaction with this
    vendor is a like and 0 otherwise (the rating is not read), and
    [aggregate] is the sum of the trait similarities between the target and
    the liked vendors whose vector is in the map, divided by the number of
    all liked interactions.  The aggregate is 0 when there is no liked
    interaction or no liked vendor has a vector in the map, and it is the
    average of the similarities when every liked vendor has one. *)
Theorem behaviorScore_formula :
  forall (vendorId : Z) (userInteractions : list InteractionSummary.t)
         (vendorTraitVector : list float)
         (likedVendorsTraitMap : NumberMap.t (list float)),
    NoDup (map InteractionSummary.vendorId userInteractions) ->
    (Z.of_nat (List.length userInteractions) < 2 ^ 32)%Z ->
    computeBehaviorScoreForVendor vendorId userInteractions vendorTraitVector
      likedVendorsTraitMap
    = (0.6 * directScore_spec vendorId userInteractions
       + 0.4 * aggregate_over_liked userInteractions vendorTraitVector
                 likedVendorsTraitMap)%float
    /\ (liked_similarities userInteractions vendorTraitVector
          likedVendorsTraitMap = [] ->
        aggregate_over_liked userInteractions vendorTraitVector
          likedVendorsTraitMap = 0%float)
    /\ (all_liked_resolve userInteractions likedVendorsTraitMap = true ->
        computeBehaviorScoreForVendor vendorId userInteractions
          vendorTraitVector likedVendorsTraitMap
        = behaviorScore_spec vendorId userInteractions vendorTraitVector
            likedVendorsTraitMap).
Proof.
  intros vendorId userInteractions vendorTraitVector likedVendorsTraitMap.
  exact (@computeBehaviorScoreForVendor_spec float _ _ vendorId
           userInteractions vendorTraitVector likedVendorsTraitMap).
Qed.

Lemma behaviorScore_formula_witness :
  NoDup (map InteractionSummary.vendorId Fixtures.two_likes)
  /\ (Z.of_nat (List.length Fixtures.two_likes) < 2 ^ 32)%Z
  /\ computeBehaviorScoreForVendor 1 Fixtures.two_likes Fixtures.spa_traits
       Fixtures.only_spa
     = (0.6 * directScore_spec 1 Fixtures.two_likes
        + 0.4 * aggregate_over_liked Fixtures.two_likes Fixtures.spa_traits
                  Fixtures.only_spa)%float.
Proof.
  assert (Hnodup : NoDup (map InteractionSummary.vendorId Fixtures.two_likes)).
  { repeat constructor; simpl; intuition discriminate. }
  split; [exact Hnodup|]. split; [reflexivity|].
  exact (proj1 (behaviorScore_formula 1 Fixtures.two_likes
                  Fixtures.spa_traits Fixtures.only_spa Hnodup eq_refl)).
Defined.

(* ================================================================= *)
(** * Properties of the weight normalisation *)

Section ExactWeights.
Local Open Scope R_scope.

(** On binary64 numbers the normalised weights need not add up to exactly
    1: those of (0.1, 0.2, 0.3) add up to the double just below 1. *)
Lemma normalized_weights_sum_rounding :
  sum_of_weights
    (normalizeWeights (weights_of 0.1%float 0.2%float 0.3%float))
  = 0.99999999999999989%float
  /\ (0%float <? 0.1 + 0.2 + 0.3)%float = true
  /\ (sum_of_weights
        (normalizeWeights (weights_of 0.1%float 0.2%float 0.3%float))
      === 1%float)%js = false.
Proof. repeat split; vm_compute; reflexivity. Qed.

(** In exact arithmetic, an idealisation of the numbers of the program,
    for every raw weight triple with
    each component in [0,1]: if the sum of the three is greater than 0, each
    output weight is the raw weight divided by the sum, and the normalised
    triple sums to exactly 1; if the sum is 0, the divisor is 1, so each
    output weight is its raw value, which is 0, and nothing is divided by
    zero. *)
Theorem normalizeWeights_exact :
  forall e t b : R,
    0 <= e <= 1 -> 0 <= t <= 1 -> 0 <= b <= 1 ->
    (0 < e + t + b ->
     normalizeWeights (weights_of (Fin e) (Fin t) (Fin b))
     = weights_of (Fin (e / (e + t + b))) (Fin (t / (e + t + b)))
         (Fin (b / (e + t + b)))
     /\ sum_of_weights
          (normalizeWeights (weights_of (Fin e) (Fin t) (Fin b)))
        = Fin 1)
    /\ (e + t + b = 0 ->
        normalizeWeights (weights_of (Fin e) (Fin t) (Fin b))
        = weights_of (Fin e) (Fin t) (Fin b)
        /\ weights_of (Fin e) (Fin t) (Fin b)
           = weights_of (Fin 0) (Fin 0) (Fin 0)).
Proof.
  intros e t b He Ht Hb. unfold normalizeWeights, weights_of, num_or.
  cbn [Weights.embedding Weights.traits Weights.behavior num_add num_div
       num_truthy num_one number add].
  split.
  - intros Hsum. assert (Hne : e + t + b <> 0) by lra.
    rewrite (truthy_fin Hne), !(div_fin _ Hne).
    split; [reflexivity|]. unfold sum_of_weights.
    cbn [Weights.embedding Weights.traits Weights.behavior num_add number add].
    f_equal. field. exact Hne.
  - intros Hsum. rewrite Hsum, truthy_zero.
    rewrite !div_fin by lra.
    assert (e = 0) by lra. assert (t = 0) by lra. assert (b = 0) by lra.
    subst. split; [|reflexivity]. f_equal; f_equal; field.
Qed.
Lemma normalizeWeights_exact_witness :
  0 <= 5 / 10 <= 1 /\ 0 <= 3 / 10 <= 1 /\ 0 <= 2 / 10 <= 1
  /\ 0 < 5 / 10 + 3 / 10 + 2 / 10
  /\ sum_of_weights
       (normalizeWeights
          (weights_of (Fin (5 / 10)) (Fin (3 / 10)) (Fin (2 / 10))))
     = Fin 1.
Proof.
  assert (He : 0 <= 5 / 10 <= 1) by lra.
  assert (Ht : 0 <= 3 / 10 <= 1) by lra.
  assert (Hb : 0 <= 2 / 10 <= 1) by lra.
  assert (Hsum : 0 < 5 / 10 + 3 / 10 + 2 / 10) by lra.
  split; [exact He|]. split; [exact Ht|]. split; [exact Hb|].
  split; [exact Hsum|].
  destruct (normalizeWeights_exact He Ht Hb) as [Hpositive _].
  exact (proj2 (Hpositive Hsum)).
Defined.

End ExactWeights.


(* ================================================================= *)
(** * Properties of the orchestration *)

Section OrchestrationFacts.

Context {N : Type} `{JsNumber N}.
Variable world : World.t N.

Lemma parseAdjustments_not_supplied (adjustmentsRaw : option string) :
  payload_supplied adjustmentsRaw = false ->
  parseAdjustments world adjustmentsRaw = ret None.
Proof.
  destruct adjustmentsRaw as [raw|]; simpl; [|reflexivity].
  destruct (String.eqb raw ""); simpl; [reflexivity|discriminate].
Qed.


(** The parser makes no collaborator call, and hands back an object exactly
    when a payload was supplied. *)
Lemma parseAdjustments_returned (adjustmentsRaw : option string)
    (adjustments : option (Adjustments.t N)) :
  result (parseAdjustments world adjustmentsRaw) = Returned adjustments ->
  parseAdjustments world adjustmentsRaw = ret adjustments
  /\ (match adjustments with Some _ => true | None => false end)
     = payload_supplied adjustmentsRaw.
Proof.
  unfold parseAdjustments, payload_supplied.
  destruct adjustmentsRaw as [raw|]; simpl.
  - destruct (String.eqb raw ""); simpl.
    + intros [= <-]. split; reflexivity.
    + destruct (World.JSON_parse world raw) as [parsed|]; simpl;
        [|discriminate].
      destruct (adjustmentsSchema parsed); simpl; [|discriminate].
      intros [= <-]. split; reflexivity.
  - intros [= <-]. split; reflexivity.
Qed.

(** The service once the user is known to exist. *)
Lemma computeRecommendations_existing_user
    (userId : Z) (user : User.t N) (testMode : bool)
    (adjustmentsRaw : option string) (options : option (option bool)) :
  World.users world userId = Some user ->
  computeRecommendations world userId testMode adjustmentsRaw options
  = bind ([EvFindUser userId], Returned tt)
      (fun _ =>
         adjustments <- parseAdjustments world adjustmentsRaw ;;
         userEmbedding <-
           (if (testMode || match adjustments with
                            | Some _ => true
                            | None => false
                            end)%bool
            then embeddingsService_generateEmbedding world
                   (buildUserPromptFromTraits world (User.name user)
                      (effectiveTraits user adjustments)
                      match adjusted adjustments
                              (@Adjustments.behaviorPreferences N) with
                      | Some bp => Some bp
                      | None => User.behaviorPreferences user
                      end)
            else ret (User.embedding user)) ;;
         vendors <- prisma_vendor_findMany world ;;
         ret (Some (rankVendors world user testMode
                      (nullish match options with
                               | Some o => o
                               | None => None
                               end false)
                      adjustments userEmbedding vendors))).
Proof.
  intros Huser. unfold computeRecommendations, prisma_user_findUnique.
  rewrite Huser. reflexivity.
Qed.

End OrchestrationFacts.

(** C7.  When storage has no user with the given id, [computeRecommendations]
    resolves to [null] (the not-found result) instead of throwing, and its
    only collaborator call is the user lookup: no adjustment is parsed, no
    embedding is requested, no vendor is loaded or scored. *)
Theorem computeRecommendations_unknown_user :
  forall (N : Type) (HN : JsNumber N) (world : World.t N) (userId : Z)
         (testMode : bool) (adjustmentsRaw : option string)
         (options : option (option bool)),
    World.users world userId = None ->
    computeRecommendations world userId testMode adjustmentsRaw options
    = ([EvFindUser userId], Returned None).
Proof.
  intros N HN world userId testMode adjustmentsRaw options Hnone.
  unfold computeRecommendations, prisma_user_findUnique.
  rewrite Hnone. reflexivity.
Qed.

Lemma computeRecommendations_unknown_user_witness :
  World.users Fixtures.world 2 = None
  /\ computeRecommendations Fixtures.world 2 true
       (Some Fixtures.trait_out_of_range_text) (Some (Some true))
     = ([EvFindUser 2], Returned None).
Proof.
  split; [reflexivity|].
  apply (@computeRecommendations_unknown_user float _ Fixtures.world 2 true
           (Some Fixtures.trait_out_of_range_text) (Some (Some true))).
  reflexivity.
Defined.




(** C2, as stated, fails on the payload [{}]: it parses to an object with no
    field supplied, and with [testMode] false a fresh embedding is requested
    all the same, because [if (testMode || adjustments)] tests the parsed
    object, which is truthy. *)
Lemma empty_object_payload_requests_embedding :
  World.JSON_parse Fixtures.world Fixtures.empty_object_text = Some (JObj [])
  /\ option_map (@any_field_supplied float) (adjustmentsSchema (JObj []))
     = Some false
  /\ embedding_invoked
       (computeRecommendations Fixtures.world 1 false
          (Some Fixtures.empty_object_text) None)
     = true.
Proof.
  split; [reflexivity|]. split; [reflexivity|].
  vm_compute. reflexivity.
Qed.

(** C2 (amended).  For an existing user whose adjustments payload, if any,
    is well formed, [computeRecommendations] requests a fresh embedding if
    and only if [testMode] is true or an adjustments payload was supplied (a
    non-empty text; whether any field is set in it does not matter).
    Otherwise no embedding is requested and the ranking is computed from the
    user's stored embedding. *)
Theorem embedding_requested_iff_testMode_or_payload :
  forall (N : Type) (HN : JsNumber N) (world : World.t N) (userId : Z)
         (user : User.t N) (testMode : bool) (adjustmentsRaw : option string)
         (options : option (option bool))
         (adjustments : option (Adjustments.t N)),
    World.users world userId = Some user ->
    result (parseAdjustments world adjustmentsRaw) = Returned adjustments ->
    embedding_invoked
      (computeRecommendations world userId testMode adjustmentsRaw options)
    = (testMode || payload_supplied adjustmentsRaw)%bool
    /\ ((testMode || payload_supplied adjustmentsRaw)%bool = false ->
        computeRecommendations world userId testMode adjustmentsRaw options
        = ([EvFindUser userId; EvFindVendors],
           Returned
             (Some (rankVendors world user false
                      (nullish match options with
                               | Some o => o
                               | None => None
                               end false)
                      None (User.embedding user) (World.vendors world))))).
Proof.
  intros N HN world userId user testMode adjustmentsRaw options adjustments
         Huser Hparsed.
  destruct (parseAdjustments_returned world adjustmentsRaw Hparsed)
    as [Hparse Hsupplied].
  rewrite (computeRecommendations_existing_user world userId testMode
             adjustmentsRaw options Huser).
  rewrite Hparse, <- Hsupplied.
  destruct testMode, adjustments as [a|]; simpl.
  - split; [|discriminate].
    unfold embedding_invoked; simpl.
    destruct (World.generateEmbedding world _); reflexivity.
  - split; [|discriminate].
    unfold embedding_invoked; simpl.
    destruct (World.generateEmbedding world _); reflexivity.
  - split; [|discriminate].
    unfold embedding_invoked; simpl.
    destruct (World.generateEmbedding world _); reflexivity.
  - split; [reflexivity|]. intros _. reflexivity.
Qed.

Lemma embedding_requested_iff_testMode_or_payload_witness :
  World.users Fixtures.world 1 = Some Fixtures.alex
  /\ result (parseAdjustments Fixtures.world None) = Returned None
  /\ embedding_invoked (computeRecommendations Fixtures.world 1 false None None)
     = false.
Proof.
  split; [reflexivity|]. split; [reflexivity|].
  apply (proj1 (@embedding_requested_iff_testMode_or_payload float _
                  Fixtures.world 1 Fixtures.alex false None None None
                  eq_refl eq_refl)).
Defined.

(** ** The ranking *)

Section RankingFacts.

Context {N : Type} `{JsNumberLaws N}.
Local Open Scope js_scope.

Lemma descending_cons (a b : RecommendationItem.t N)
    (rest : list (RecommendationItem.t N)) :
  descending (a :: b :: rest)
  = ((final_score b <=? final_score a) && descending (b :: rest))%bool.
Proof. reflexivity. Qed.

(** The comparator is positive exactly when its first argument has the
    smaller score. *)
Lemma comparator_positive (x y : RecommendationItem.t N) :
  num_is_nan (final_score x) = false -> num_is_nan (final_score y) = false ->
  (num_zero <? byFinalScoreDescending x y) = (final_score x <? final_score y).
Proof.
  intros Hx Hy. unfold byFinalScoreDescending.
  fold (final_score x) (final_score y).
  apply num_lt_sub; assumption.
Qed.

Lemma no_nan_score_cons (x : RecommendationItem.t N)
    (items : list (RecommendationItem.t N)) :
  no_nan_score (x :: items) = true <->
  num_is_nan (final_score x) = false /\ no_nan_score items = true.
Proof.
  unfold no_nan_score. simpl. rewrite andb_true_iff, negb_true_iff.
  reflexivity.
Qed.

Lemma sort_insert_no_nan (x : RecommendationItem.t N)
    (sorted : list (RecommendationItem.t N)) :
  no_nan_score (sort_insert byFinalScoreDescending x sorted)
  = no_nan_score (x :: sorted).
Proof.
  induction sorted as [|y rest IH]; simpl; [reflexivity|].
  destruct (num_zero <? byFinalScoreDescending x y); [|reflexivity].
  unfold no_nan_score in *. simpl in *. rewrite IH.
  rewrite !andb_assoc. f_equal. apply andb_comm.
Qed.

Lemma Array_sort_no_nan (items : list (RecommendationItem.t N)) :
  no_nan_score (Array_sort byFinalScoreDescending items) = no_nan_score items.
Proof.
  induction items as [|x items IH]; simpl; [reflexivity|].
  rewrite sort_insert_no_nan. unfold no_nan_score in *. simpl.
  rewrite IH. reflexivity.
Qed.

(** Inserting an item into a descending ranking keeps it descending. *)
Lemma sort_insert_descending (x : RecommendationItem.t N)
    (sorted : list (RecommendationItem.t N)) :
  num_is_nan (final_score x) = false ->
  no_nan_score sorted = true ->
  descending sorted = true ->
  descending (sort_insert byFinalScoreDescending x sorted) = true.
Proof.
  intros Hx. induction sorted as [|y rest IH]; intros Hnan Hdesc;
    [reflexivity|].
  apply no_nan_score_cons in Hnan. destruct Hnan as [Hy Hrest].
  cbn [sort_insert]. rewrite (comparator_positive x y Hx Hy).
  destruct (final_score x <? final_score y) eqn:Hlt.
  - assert (Htail : descending (sort_insert byFinalScoreDescending x rest)
                    = true).
    { apply IH; [exact Hrest|].
      destruct rest; [reflexivity|].
      rewrite descending_cons in Hdesc.
      apply andb_true_iff in Hdesc. apply Hdesc. }
    destruct rest as [|z rest'].
    + cbn [sort_insert]. rewrite descending_cons.
      rewrite (num_lt_le _ _ Hlt). reflexivity.
    + cbn [sort_insert] in *.
      apply no_nan_score_cons in Hrest. destruct Hrest as [Hz _].
      rewrite (comparator_positive x z Hx Hz) in *.
      rewrite descending_cons in Hdesc.
      apply andb_true_iff in Hdesc. destruct Hdesc as [Hzy _].
      destruct (final_score x <? final_score z).
      * rewrite descending_cons, Hzy, Htail. reflexivity.
      * rewrite descending_cons, (num_lt_le _ _ Hlt), Htail. reflexivity.
  - rewrite descending_cons, Hdesc.
    rewrite (num_le_total _ _ Hx Hy Hlt). reflexivity.
Qed.

Lemma Array_sort_descending (items : list (RecommendationItem.t N)) :
  no_nan_score items = true ->
  descending (Array_sort byFinalScoreDescending items) = true.
Proof.
  induction items as [|x items IH]; intros Hnan; [reflexivity|].
  apply no_nan_score_cons in Hnan. destruct Hnan as [Hx Hrest].
  simpl. apply sort_insert_descending.
  - exact Hx.
  - rewrite Array_sort_no_nan. exact Hrest.
  - apply IH. exact Hrest.
Qed.

(** Sorting keeps every item, once. *)
Lemma sort_insert_permutation {A} (comparefn : A -> A -> N) (x : A)
    (sorted : list A) :
  Permutation.Permutation (x :: sorted) (sort_insert comparefn x sorted).
Proof.
  induction sorted as [|y rest IH]; simpl; [reflexivity|].
  destruct (num_zero <? comparefn x y); [|reflexivity].
  rewrite Permutation.perm_swap. apply Permutation.perm_skip. exact IH.
Qed.

Lemma Array_sort_permutation {A} (comparefn : A -> A -> N) (items : list A) :
  Permutation.Permutation items (Array_sort comparefn items).
Proof.
  induction items as [|x items IH]; simpl; [reflexivity|].
  rewrite <- sort_insert_permutation. apply Permutation.perm_skip. exact IH.
Qed.

Variable world : World.t N.

(** A successful run returns the ranking of the loaded vendors. *)
Lemma computeRecommendations_returned (userId : Z) (testMode : bool)
    (adjustmentsRaw : option string) (options : option (option bool))
    (r : Result.t N) :
  result (computeRecommendations world userId testMode adjustmentsRaw options)
  = Returned (Some r) ->
  exists (user : User.t N) (debug : bool)
         (adjustments : option (Adjustments.t N)) (userEmbedding : list N),
    World.users world userId = Some user
    /\ r = rankVendors world user testMode debug adjustments userEmbedding
             (World.vendors world).
Proof.
  unfold computeRecommendations, prisma_user_findUnique.
  destruct (World.users world userId) as [user|] eqn:Huser; simpl;
    [|discriminate].
  destruct (parseAdjustments world adjustmentsRaw) as [t1 [adjustments|e]];
    simpl; [|discriminate].
  destruct (testMode || _)%bool; simpl.
  - destruct (World.generateEmbedding world _) as [userEmbedding|]; simpl;
      [|discriminate].
    intros [= <-]. eauto 10.
  - intros [= <-]. eauto 10.
Qed.

End RankingFacts.

(** The order of the ranking over any numbers that satisfy the laws. *)
Lemma ranking_descending :
  forall (N : Type) (HN : JsNumber N) (HL : JsNumberLaws N)
         (world : World.t N) (userId : Z) (testMode : bool)
         (adjustmentsRaw : option string) (options : option (option bool))
         (r : Result.t N),
    result (computeRecommendations world userId testMode adjustmentsRaw
              options)
    = Returned (Some r) ->
    no_nan_score (Result.recommendations r) = true ->
    descending (Result.recommendations r) = true.
Proof.
  intros N HN HL world userId testMode adjustmentsRaw options r Hrun Hnan.
  destruct (computeRecommendations_returned world _ _ _ _ Hrun)
    as [user [debug [adjustments [userEmbedding [_ ->]]]]].
  unfold rankVendors in *. cbn [Result.recommendations] in *.
  apply Array_sort_descending.
  rewrite <- Array_sort_no_nan. exact Hnan.
Qed.

(** C8, as stated, fails when a final score is NaN, which no order relates
    to any number: with stored embeddings of magnitude [1e200] every
    embedding score, and so every final score, is NaN, and no arrangement of
    the two items has the first score [>=] the second. *)
Lemma nan_scores_are_not_descending :
  match result (computeRecommendations Fixtures.overflow_world 1 false None
                  None) with
  | Returned (Some r) =>
      map (@final_score float) (Result.recommendations r) = [nan; nan]
      /\ descending (Result.recommendations r) = false
      /\ descending (rev (Result.recommendations r)) = false
  | _ => False
  end.
Proof. vm_compute. repeat split; reflexivity. Qed.

(** C8 (amended).  In every successful result of [computeRecommendations] in
    which no [finalScore] is NaN, the recommendations are sorted by
    [finalScore] in descending order on binary64 numbers: for every pair of
    adjacent items the earlier score is [>=] the later one. *)
Theorem recommendations_descending :
  forall (world : World.t float) (userId : Z) (testMode : bool)
         (adjustmentsRaw : option string) (options : option (option bool))
         (r : Result.t float),
    result (computeRecommendations world userId testMode adjustmentsRaw
              options)
    = Returned (Some r) ->
    no_nan_score (Result.recommendations r) = true ->
    descending (Result.recommendations r) = true.
Proof.
  intros world userId testMode adjustmentsRaw options r.
  exact (@ranking_descending float _ _ world userId testMode adjustmentsRaw
           options r).
Qed.

Lemma recommendations_descending_witness :
  exists r : Result.t float,
    result (computeRecommendations Fixtures.world 1 false None None)
    = Returned (Some r)
    /\ no_nan_score (Result.recommendations r) = true
    /\ descending (Result.recommendations r) = true.
Proof.
  eexists. split; [reflexivity|]. split; [vm_compute; reflexivity|].
  apply (@recommendations_descending Fixtures.world 1 false None None).
  - reflexivity.
  - vm_compute. reflexivity.
Defined.

(* ================================================================= *)
(** * Properties of the interaction upsert *)

Section UpsertFacts.

Import InteractionsService.

Variables (userId vendorId : Z).
Variable update : InteractionRow.t -> InteractionRow.t.
Variable create : InteractionRow.t.

Lemma findUnique_present (id : Z) (ids : list Z) :
  In id ids -> exists found, findUnique id ids = Some found.
Proof.
  intros Hin. unfold findUnique.
  destruct (find (Z.eqb id) ids) as [found|] eqn:Hfind.
  - exists found. reflexivity.
  - exfalso. apply (find_none _ _ Hfind) in Hin.
    rewrite Z.eqb_refl in Hin. discriminate.
Qed.

Lemma find_key_present (rows : list InteractionRow.t) :
  (exists row, In row rows /\ has_key userId vendorId row = true) ->
  exists old, find (has_key userId vendorId) rows = Some old
              /\ has_key userId vendorId old = true.
Proof.
  intros [row [Hin Hkey]].
  destruct (find (has_key userId vendorId) rows) as [old|] eqn:Hfind.
  - exists old. split; [reflexivity|]. apply (find_some _ _ Hfind).
  - exfalso. rewrite (find_none _ _ Hfind _ Hin) in Hkey. discriminate.
Qed.

(** Updating in place touches the rows with the key and no other row. *)
Lemma updated_rows (rows : list InteractionRow.t) (row' : InteractionRow.t) :
  In row'
     (map (fun row => if has_key userId vendorId row then update row else row)
          rows) ->
  (exists row, In row rows /\ has_key userId vendorId row = true
               /\ row' = update row)
  \/ (In row' rows /\ has_key userId vendorId row' = false).
Proof.
  rewrite in_map_iff. intros [row [Heq Hin]].
  destruct (has_key userId vendorId row) eqn:Hkey.
  - left. exists row. auto.
  - right. subst row'. auto.
Qed.

Lemma other_rows_kept (rows : list InteractionRow.t) :
  (forall row, has_key userId vendorId (update row)
               = has_key userId vendorId row) ->
  filter (fun row => negb (has_key userId vendorId row))
    (map (fun row => if has_key userId vendorId row then update row else row)
         rows)
  = filter (fun row => negb (has_key userId vendorId row)) rows.
Proof.
  intros Hkeep. induction rows as [|row rows IH]; simpl; [reflexivity|].
  destruct (has_key userId vendorId row) eqn:Hkey.
  - rewrite Hkeep, Hkey. simpl. exact IH.
  - rewrite Hkey. simpl. rewrite IH. reflexivity.
Qed.

End UpsertFacts.

(** C10.  When the user and the vendor exist and an interaction is already
    stored for the pair, [upsertInteraction] overwrites that record: every
    stored record of the pair then has [liked] equal to the input value and
    [score] equal to the input score, which is [null] when the optional score
    was omitted (a stored rating is cleared, not kept).  No record is added,
    the records of other pairs are unchanged, and the updated record is
    returned. *)
Theorem upsertInteraction_overwrites_existing :
  forall (input : InteractionsService.InteractionInput)
         (db : InteractionsService.Database),
    In (InteractionsService.userId input) (InteractionsService.userIds db) ->
    In (InteractionsService.vendorId input)
       (InteractionsService.vendorIds db) ->
    (exists row,
        In row (InteractionsService.interactions db)
        /\ InteractionsService.has_key (InteractionsService.userId input)
             (InteractionsService.vendorId input) row = true) ->
    let after := fst (InteractionsService.upsertInteraction input db) in
    let key := InteractionsService.has_key (InteractionsService.userId input)
                 (InteractionsService.vendorId input) in
    (forall row, In row (InteractionsService.interactions after) ->
                 key row = true ->
                 InteractionRow.liked row = InteractionsService.liked input
                 /\ InteractionRow.score row = InteractionsService.score input)
    /\ (exists row, In row (InteractionsService.interactions after)
                    /\ key row = true
                    /\ snd (InteractionsService.upsertInteraction input db)
                       = Some row)
    /\ List.length (InteractionsService.interactions after)
       = List.length (InteractionsService.interactions db)
    /\ filter (fun row => negb (key row))
         (InteractionsService.interactions after)
       = filter (fun row => negb (key row))
           (InteractionsService.interactions db).
Proof.
  intros input db Huser Hvendor Hrow after key.
  destruct (findUnique_present _ _ Huser) as [u Hu].
  destruct (findUnique_present _ _ Hvendor) as [v Hv].
  destruct (find_key_present _ _ _ Hrow) as [old [Hfind Hold]].
  subst after.
  unfold InteractionsService.upsertInteraction,
    InteractionsService.interaction_upsert.
  rewrite Hu, Hv, Hfind. simpl. fold key.
  repeat split.
  - apply updated_rows in H. destruct H as [[row0 [_ [_ ->]]]|[_ Hno]].
    + reflexivity.
    + fold key in Hno. congruence.
  - apply updated_rows in H. destruct H as [[row0 [_ [_ ->]]]|[_ Hno]].
    + reflexivity.
    + fold key in Hno. congruence.
  - eexists. split; [|split; [|reflexivity]].
    + apply in_map_iff. exists old. split.
      * fold key in Hold. rewrite Hold. reflexivity.
      * apply (find_some _ _ Hfind).
    + exact Hold.
  - apply length_map.
  - apply other_rows_kept. intros row. reflexivity.
Qed.

Lemma upsertInteraction_overwrites_existing_witness :
  In 1%Z (InteractionsService.userIds Fixtures.database)
  /\ In 7%Z (InteractionsService.vendorIds Fixtures.database)
  /\ In Fixtures.rated_like
        (InteractionsService.interactions Fixtures.database)
  /\ List.length
       (InteractionsService.interactions
          (fst (InteractionsService.upsertInteraction Fixtures.plain_dislike
                  Fixtures.database)))
     = 2%nat
  /\ snd (InteractionsService.upsertInteraction Fixtures.plain_dislike
            Fixtures.database)
     = Some {| InteractionRow.userId := 1; InteractionRow.vendorId := 7;
               InteractionRow.liked := false; InteractionRow.score := None |}.
Proof.
  split; [left; reflexivity|]. split; [left; reflexivity|].
  split; [left; reflexivity|].
  destruct (upsertInteraction_overwrites_existing Fixtures.plain_dislike
              Fixtures.database (or_introl eq_refl) (or_introl eq_refl)
              (ex_intro _ Fixtures.rated_like
                 (conj (or_introl eq_refl) eq_refl)))
    as [_ [_ [Hlength _]]].
  split; [exact Hlength|reflexivity].
Defined.

(* ================================================================= *)
(** * Further properties of the services *)

Section ServiceFacts.

Context {N : Type} `{JsNumber N}.
Variable world : World.t N.
Local Open Scope js_scope.

Lemma scoreVendor_vendor (debug : bool) (w : Weights.t N)
    (userEmbedding userTraitVector : list N)
    (userInteractions : list InteractionSummary.t)
    (likedVendorsTraitMap : NumberMap.t (list N))
    (vendors : list (Vendor.t N)) :
  map (@RecommendationItem.vendor N)
    (map (scoreVendor world debug w userEmbedding userTraitVector
            userInteractions likedVendorsTraitMap) vendors)
  = vendors.
Proof.
  rewrite map_map. simpl. apply map_id.
Qed.

(** How a run of [computeRecommendations] can go: the calls it makes and
    how it ends. *)
Lemma computeRecommendations_runs (userId : Z) (testMode : bool)
    (adjustmentsRaw : option string) (options : option (option bool)) :
  let run :=
    computeRecommendations world userId testMode adjustmentsRaw options in
  (World.users world userId = None
   /\ run = ([EvFindUser userId], Returned None))
  \/ (exists user,
        World.users world userId = Some user
        /\ ((result (parseAdjustments world adjustmentsRaw)
             = Thrown InvalidAdjustments
             /\ run = ([EvFindUser userId], Thrown InvalidAdjustments))
            \/ exists adjustments,
                 parseAdjustments world adjustmentsRaw = ret adjustments
                 /\ let prompt :=
                      buildUserPromptFromTraits world (User.name user)
                        (effectiveTraits user adjustments)
                        match adjusted adjustments
                                (@Adjustments.behaviorPreferences N) with
                        | Some bp => Some bp
                        | None => User.behaviorPreferences user
                        end in
                    let debug :=
                      nullish match options with
                              | Some o => o
                              | None => None
                              end false in
                    if (testMode || payload_supplied adjustmentsRaw)%bool
                    then
                      match World.generateEmbedding world prompt with
                      | Some userEmbedding =>
                          run = ([EvFindUser userId;
                                  EvGenerateEmbedding prompt;
                                  EvFindVendors],
                                 Returned
                                   (Some (rankVendors world user testMode
                                            debug adjustments userEmbedding
                                            (World.vendors world))))
                      | None =>
                          run = ([EvFindUser userId;
                                  EvGenerateEmbedding prompt],
                                 Thrown EmbeddingFailure)
                      end
                    else
                      run = ([EvFindUser userId; EvFindVendors],
                             Returned
                               (Some (rankVendors world user testMode debug
                                        adjustments (User.embedding user)
                                        (World.vendors world)))))).
Proof.
  intros run. subst run.
  destruct (World.users world userId) as [user|] eqn:Huser.
  - right. exists user. split; [reflexivity|].
    rewrite (computeRecommendations_existing_user world userId testMode
               adjustmentsRaw options Huser).
    destruct (parseAdjustments world adjustmentsRaw) as [t [adjustments|e]]
      eqn:Hparse.
    + right. exists adjustments.
      destruct (parseAdjustments_returned world adjustmentsRaw
                  (adjustments := adjustments)) as [Hret Hsupplied].
      { rewrite Hparse. reflexivity. }
      rewrite Hparse in Hret. split; [exact Hret|].
      injection Hret as ->. rewrite <- Hsupplied. cbv zeta.
      destruct testMode, adjustments as [a|]; simpl;
        try (destruct (World.generateEmbedding world _); reflexivity).
      reflexivity.
    + left.
      assert (He : e = InvalidAdjustments /\ t = []).
      { unfold parseAdjustments in Hparse.
        destruct adjustmentsRaw as [raw|]; [|discriminate].
        destruct (String.eqb raw ""); [discriminate|].
        destruct (World.JSON_parse world raw) as [parsed|];
          [|injection Hparse as <- <-; split; reflexivity].
        destruct (adjustmentsSchema parsed);
          [discriminate|injection Hparse as <- <-; split; reflexivity]. }
      destruct He as [-> ->]. split; reflexivity.
  - left. split; [reflexivity|].
    unfold computeRecommendations, prisma_user_findUnique.
    rewrite Huser. reflexivity.
Qed.


(** A run that returns a response ranks the vendor table for a stored
    user. *)
Lemma computeRecommendations_ranked (userId : Z) (testMode : bool)
    (adjustmentsRaw : option string) (options : option (option bool))
    (r : Result.t N) :
  result (computeRecommendations world userId testMode adjustmentsRaw options)
  = Returned (Some r) ->
  exists (user : User.t N) (adjustments : option (Adjustments.t N))
         (userEmbedding : list N),
    World.users world userId = Some user
    /\ parseAdjustments world adjustmentsRaw = ret adjustments
    /\ r = rankVendors world user testMode
             (nullish match options with Some o => o | None => None end
                false)
             adjustments userEmbedding (World.vendors world).
Proof.
  intros Hrun.
  destruct (computeRecommendations_runs userId testMode adjustmentsRaw
              options) as [[_ Hnone]|[user [Huser [[_ Hbad]|Hok]]]].
  - rewrite Hnone in Hrun. discriminate.
  - rewrite Hbad in Hrun. discriminate.
  - destruct Hok as [adjustments [Hparse Hcases]]. cbv zeta in Hcases.
    destruct (testMode || payload_supplied adjustmentsRaw)%bool.
    + destruct (World.generateEmbedding world _) as [userEmbedding|].
      * rewrite Hcases in Hrun. injection Hrun as <-. eauto 10.
      * rewrite Hcases in Hrun. discriminate.
    + rewrite Hcases in Hrun. injection Hrun as <-. eauto 10.
Qed.

(** ** Sorting and the debug parts *)

Lemma sort_insert_map {A B : Type} (f : A -> B) (cmpA : A -> A -> N)
    (cmpB : B -> B -> N) :
  (forall x y, cmpB (f x) (f y) = cmpA x y) ->
  forall (x : A) (l : list A),
    map f (sort_insert cmpA x l) = sort_insert cmpB (f x) (map f l).
Proof.
  intros Hcmp x l. induction l as [|y l IH]; simpl; [reflexivity|].
  rewrite Hcmp. destruct (num_zero <? cmpA x y); simpl; [|reflexivity].
  rewrite IH. reflexivity.
Qed.

Lemma Array_sort_map {A B : Type} (f : A -> B) (cmpA : A -> A -> N)
    (cmpB : B -> B -> N) :
  (forall x y, cmpB (f x) (f y) = cmpA x y) ->
  forall l : list A,
    map f (Array_sort cmpA l) = Array_sort cmpB (map f l).
Proof.
  intros Hcmp l. induction l as [|x l IH]; simpl; [reflexivity|].
  unfold Array_sort in *. simpl.
  rewrite (sort_insert_map f cmpA cmpB Hcmp), IH. reflexivity.
Qed.

Lemma rankVendors_without_debug (user : User.t N) (testMode debug : bool)
    (adjustments : option (Adjustments.t N)) (userEmbedding : list N)
    (vendors : list (Vendor.t N)) :
  without_debug
    (rankVendors world user testMode debug adjustments userEmbedding vendors)
  = rankVendors world user testMode false adjustments userEmbedding vendors.
Proof.
  unfold rankVendors, without_debug.
  cbn [Result.user Result.recommendations ResultUser.id ResultUser.name
       ResultUser.traits ResultUser.behaviorPreferences ResultUser.weights
       ResultUser.testMode].
  f_equal.
  rewrite (Array_sort_map (@without_item_debug N)
             (@byFinalScoreDescending N _) (@byFinalScoreDescending N _))
    by reflexivity.
  rewrite map_map. reflexivity.
Qed.

(** ** The liked-vendors map *)

Lemma NumberMap_get_set_same {V : Type} (key : Z) (value : V)
    (m : NumberMap.t V) :
  NumberMap.get key (NumberMap.set key value m) = Some value.
Proof.
  induction m as [|[k v] m IH]; simpl.
  - rewrite Z.eqb_refl. reflexivity.
  - destruct (Z.eqb k key) eqn:Hk; simpl; rewrite Hk; [reflexivity|exact IH].
Qed.

Lemma NumberMap_get_set_other {V : Type} (key key' : Z) (value : V)
    (m : NumberMap.t V) :
  key' <> key ->
  NumberMap.get key' (NumberMap.set key value m) = NumberMap.get key' m.
Proof.
  intros Hne. induction m as [|[k v] m IH]; simpl.
  - destruct (Z.eqb_spec key key'); [congruence|reflexivity].
  - destruct (Z.eqb_spec k key) as [->|Hk]; simpl.
    + destruct (Z.eqb_spec key key'); [congruence|reflexivity].
    + destruct (Z.eqb k key'); [reflexivity|exact IH].
Qed.

(** The loop that fills the map, from any starting map. *)
Lemma liked_map_loop_other (user : User.t N) (vendors : list (Vendor.t N)) :
  forall (m : NumberMap.t (list N)) (id : Z),
    ~ In id (map (@Vendor.id N) vendors) ->
    NumberMap.get id
      (fold_left
         (fun m vendor =>
            if liked_by user (Vendor.id vendor)
            then NumberMap.set (Vendor.id vendor)
                   (getVendorTraitVector vendor) m
            else m)
         vendors m)
    = NumberMap.get id m.
Proof.
  induction vendors as [|v vendors IH]; intros m id Hnot; simpl;
    [reflexivity|].
  simpl in Hnot. rewrite IH by tauto.
  destruct (liked_by user (Vendor.id v)); [|reflexivity].
  apply NumberMap_get_set_other. intros ->. tauto.
Qed.

Lemma liked_map_loop_vendor (user : User.t N) (vendors : list (Vendor.t N)) :
  NoDup (map (@Vendor.id N) vendors) ->
  forall (m : NumberMap.t (list N)) (vendor : Vendor.t N),
    In vendor vendors ->
    NumberMap.get (Vendor.id vendor)
      (fold_left
         (fun m vendor =>
            if liked_by user (Vendor.id vendor)
            then NumberMap.set (Vendor.id vendor)
                   (getVendorTraitVector vendor) m
            else m)
         vendors m)
    = if liked_by user (Vendor.id vendor)
      then Some (getVendorTraitVector vendor)
      else NumberMap.get (Vendor.id vendor) m.
Proof.
  induction vendors as [|v vendors IH]; intros Hnodup m vendor Hin;
    [contradiction|].
  simpl in Hnodup. inversion Hnodup as [|? ? Hfresh Hrest]; subst.
  simpl. destruct Hin as [->|Hin].
  - rewrite liked_map_loop_other by exact Hfresh.
    destruct (liked_by user (Vendor.id vendor)); [|reflexivity].
    apply NumberMap_get_set_same.
  - rewrite (IH Hrest _ _ Hin).
    destruct (liked_by user (Vendor.id vendor)) eqn:Hliked; [reflexivity|].
    destruct (liked_by user (Vendor.id v)); [|reflexivity].
    apply NumberMap_get_set_other. intros Heq.
    apply Hfresh. rewrite <- Heq. apply in_map. exact Hin.
Qed.

(** ** The adjustments schema *)

Lemma z_number_within (lo hi : N) (j : json N) (x : N) :
  z_number lo hi j = Some x -> j = JNum x /\ within lo hi x = true.
Proof.
  unfold z_number, within. destruct j as [| |y| | |]; try discriminate.
  destruct (num_is_nan y) eqn:Hnan; [discriminate|].
  destruct (y <? lo) eqn:Hlo; [discriminate|].
  destruct (hi <? y) eqn:Hhi; [discriminate|].
  intros [= <-]. rewrite Hnan, Hlo, Hhi. split; reflexivity.
Qed.

Lemma z_optional_number_within (lo hi : N) (v : option (json N))
    (o : option N) (x : N) :
  z_optional (z_number lo hi) v = Some o -> o = Some x ->
  within lo hi x = true.
Proof.
  unfold z_optional. destruct v as [j|]; [|intros [= <-]; discriminate].
  destruct (z_number lo hi j) as [y|] eqn:Hy; [|discriminate].
  intros [= <-] [= ->]. apply (z_number_within _ _ _ Hy).
Qed.

Lemma json_get_skip (key k : string) (v : json N)
    (before after : list (string * json N)) :
  k <> key ->
  json_get key (before ++ (k, v) :: after) = json_get key (before ++ after).
Proof.
  intros Hne. induction before as [|[k' v'] before IH]; simpl.
  - destruct (String.eqb_spec k key); [congruence|reflexivity].
  - destruct (String.eqb k' key); [reflexivity|exact IH].
Qed.

End ServiceFacts.

(** X1.  In every response of [computeRecommendations] the trait score of
    every recommendation is 0: the user's trait vector has nine components
    and a vendor's has twelve, so [cosineSimilarity] always takes its length
    guard. *)
Theorem traitScore_always_zero :
  forall (N : Type) (HN : JsNumber N) (world : World.t N) (userId : Z)
         (testMode : bool) (adjustmentsRaw : option string)
         (options : option (option bool)) (r : Result.t N),
    result (computeRecommendations world userId testMode adjustmentsRaw
              options)
    = Returned (Some r) ->
    Forall (fun item =>
              Scores.traitScore (RecommendationItem.scores item) = num_zero)
           (Result.recommendations r).
Proof.
  intros N HN world userId testMode adjustmentsRaw options r Hrun.
  destruct (computeRecommendations_ranked world _ _ _ _ Hrun)
    as [user [adjustments [userEmbedding [_ [_ ->]]]]].
  unfold rankVendors. cbn [Result.recommendations].
  eapply Permutation_Forall; [apply Array_sort_permutation|].
  apply Forall_forall. intros item Hitem. apply in_map_iff in Hitem.
  destruct Hitem as [vendor [<- _]]. unfold scoreVendor.
  cbn [RecommendationItem.scores Scores.traitScore].
  apply traitScore_is_zero.
Qed.

Lemma traitScore_always_zero_witness :
  exists r : Result.t float,
    result (computeRecommendations Fixtures.world 1 false None None)
    = Returned (Some r)
    /\ Forall (fun item =>
                 Scores.traitScore (RecommendationItem.scores item)
                 = 0%float)
              (Result.recommendations r).
Proof.
  eexists. split; [reflexivity|].
  exact (@traitScore_always_zero float _ Fixtures.world 1 false None None
           _ eq_refl).
Defined.

(** X2.  A response lists every vendor of the table exactly once: the
    vendors of the recommendations are a rearrangement of the vendor table,
    so there are as many recommendations as vendors. *)
Theorem recommendations_cover_vendors :
  forall (N : Type) (HN : JsNumber N) (world : World.t N) (userId : Z)
         (testMode : bool) (adjustmentsRaw : option string)
         (options : option (option bool)) (r : Result.t N),
    result (computeRecommendations world userId testMode adjustmentsRaw
              options)
    = Returned (Some r) ->
    Permutation (World.vendors world)
      (map (@RecommendationItem.vendor N) (Result.recommendations r))
    /\ List.length (Result.recommendations r)
       = List.length (World.vendors world).
Proof.
  intros N HN world userId testMode adjustmentsRaw options r Hrun.
  destruct (computeRecommendations_ranked world _ _ _ _ Hrun)
    as [user [adjustments [userEmbedding [_ [_ ->]]]]].
  unfold rankVendors. cbn [Result.recommendations].
  split.
  - eapply Permutation_trans;
      [|apply Permutation_map; apply Array_sort_permutation].
    rewrite scoreVendor_vendor. apply Permutation_refl.
  - rewrite <- (Permutation_length (Array_sort_permutation _ _)).
    apply length_map.
Qed.

Lemma recommendations_cover_vendors_witness :
  exists r : Result.t float,
    result (computeRecommendations Fixtures.world 1 false None None)
    = Returned (Some r)
    /\ List.length (Result.recommendations r) = 2%nat.
Proof.
  eexists. split; [reflexivity|].
  exact (proj2 (@recommendations_cover_vendors float _ Fixtures.world 1
                  false None None _ eq_refl)).
Defined.

(** X3.  Every run of [computeRecommendations] follows one of four courses.
    It starts with the user lookup; it requests at most one embedding, for
    one prompt; it reads the vendor table at most once, as its last call;
    and it returns a response exactly when it read the vendor table.  A run
    that stops after the user lookup returns [null] or throws the
    invalid-adjustments error, and a run that stops after the embedding
    request throws the embedding failure. *)
Theorem computeRecommendations_call_protocol :
  forall (N : Type) (HN : JsNumber N) (world : World.t N) (userId : Z)
         (testMode : bool) (adjustmentsRaw : option string)
         (options : option (option bool)),
    let run :=
      computeRecommendations world userId testMode adjustmentsRaw options in
    exists prompt : string,
      (trace run = [EvFindUser userId]
       /\ (result run = Returned None
           \/ result run = Thrown InvalidAdjustments))
      \/ (trace run = [EvFindUser userId; EvGenerateEmbedding prompt]
          /\ result run = Thrown EmbeddingFailure)
      \/ ((trace run = [EvFindUser userId; EvFindVendors]
           \/ trace run = [EvFindUser userId; EvGenerateEmbedding prompt;
                           EvFindVendors])
          /\ exists r : Result.t N, result run = Returned (Some r)).
Proof.
  intros N HN world userId testMode adjustmentsRaw options run.
  destruct (computeRecommendations_runs world userId testMode adjustmentsRaw
              options) as [[_ Hnone]|[user [Huser [[_ Hbad]|Hok]]]];
    fold run in Hnone || fold run in Hbad || idtac.
  - exists ""%string. left. rewrite Hnone. split; [reflexivity|]. left.
    reflexivity.
  - exists ""%string. left. rewrite Hbad. split; [reflexivity|]. right.
    reflexivity.
  - destruct Hok as [adjustments [_ Hcases]]. cbv zeta in Hcases.
    fold run in Hcases.
    match type of Hcases with
    | context [EvGenerateEmbedding ?p] => exists p
    end.
    destruct (testMode || payload_supplied adjustmentsRaw)%bool.
    + destruct (World.generateEmbedding world _) as [userEmbedding|];
        rewrite Hcases.
      * right. right. split; [right; reflexivity|]. eexists. reflexivity.
      * right. left. split; reflexivity.
    + rewrite Hcases. right. right. split; [left; reflexivity|].
      eexists. reflexivity.
Qed.

(** X4.  When the user exists, the adjustments payload (if any) is well
    formed, and test mode is on or a payload was supplied, a rejected
    [generateEmbedding] makes [computeRecommendations] throw that failure:
    the vendor table is not read and nothing is ranked. *)
Theorem embedding_failure_propagates :
  forall (N : Type) (HN : JsNumber N) (world : World.t N) (userId : Z)
         (user : User.t N) (testMode : bool) (adjustmentsRaw : option string)
         (options : option (option bool))
         (adjustments : option (Adjustments.t N)),
    World.users world userId = Some user ->
    result (parseAdjustments world adjustmentsRaw) = Returned adjustments ->
    (testMode || payload_supplied adjustmentsRaw)%bool = true ->
    let prompt :=
      buildUserPromptFromTraits world (User.name user)
        (effectiveTraits user adjustments)
        match adjusted adjustments (@Adjustments.behaviorPreferences N) with
        | Some bp => Some bp
        | None => User.behaviorPreferences user
        end in
    World.generateEmbedding world prompt = None ->
    computeRecommendations world userId testMode adjustmentsRaw options
    = ([EvFindUser userId; EvGenerateEmbedding prompt],
       Thrown EmbeddingFailure).
Proof.
  intros N HN world userId user testMode adjustmentsRaw options adjustments
         Huser Hparsed Hfresh prompt Hfail.
  destruct (computeRecommendations_runs world userId testMode adjustmentsRaw
              options) as [[Hnone _]|[user' [Huser' [[Hbad _]|Hok]]]].
  - congruence.
  - congruence.
  - destruct Hok as [adjustments' [Hparse Hcases]].
    rewrite Hparse in Hparsed. injection Hparsed as ->.
    assert (user' = user) by congruence. subst user'.
    cbv zeta in Hcases. rewrite Hfresh in Hcases. fold prompt in Hcases.
    rewrite Hfail in Hcases. exact Hcases.
Qed.

Lemma embedding_failure_propagates_witness :
  result (computeRecommendations Samples.offline_world 1 true None None)
  = Thrown EmbeddingFailure.
Proof.
  rewrite (@embedding_failure_propagates float _ Samples.offline_world 1
             Fixtures.alex true None None None eq_refl eq_refl eq_refl
             eq_refl).
  reflexivity.
Defined.

(** X5.  The debug endpoint and the plain endpoint make the same calls and
    end the same way; when they return a response, the plain response is
    the debug response without its debug parts: the same user summary, and
    the same vendors with the same scores in the same order. *)
Theorem debug_changes_no_score :
  forall (N : Type) (HN : JsNumber N) (world : World.t N) (userId : Z)
         (testMode : bool) (adjustmentsRaw : option string),
    trace (getRecommendations world userId testMode adjustmentsRaw)
    = trace (getRecommendationsDebug world userId testMode adjustmentsRaw)
    /\ result (getRecommendations world userId testMode adjustmentsRaw)
       = match result (getRecommendationsDebug world userId testMode
                         adjustmentsRaw) with
         | Returned (Some r) => Returned (Some (without_debug r))
         | other => other
         end.
Proof.
  intros N HN world userId testMode adjustmentsRaw.
  unfold getRecommendations, getRecommendationsDebug.
  destruct (computeRecommendations_runs world userId testMode adjustmentsRaw
              (Some (Some false)))
    as [[Hnone Hplain]|[user [Huser [[Hbad Hplain]|Hok]]]];
    destruct (computeRecommendations_runs world userId testMode
                adjustmentsRaw (Some (Some true)))
      as [[Hnone' Hdebug]|[user' [Huser' [[Hbad' Hdebug]|Hok']]]];
    try congruence.
  - rewrite Hplain, Hdebug. split; reflexivity.
  - rewrite Hplain, Hdebug. split; reflexivity.
  - destruct Hok' as [adjustments' [Hparse' _]]. rewrite Hparse' in Hbad.
    discriminate.
  - destruct Hok as [adjustments [Hparse _]]. rewrite Hparse in Hbad'.
    discriminate.
  - destruct Hok as [adjustments [Hparse Hplain]].
    destruct Hok' as [adjustments' [Hparse' Hdebug]].
    assert (user' = user) by congruence. subst user'.
    rewrite Hparse in Hparse'. injection Hparse' as <-.
    cbv zeta in Hplain, Hdebug.
    destruct (testMode || payload_supplied adjustmentsRaw)%bool.
    + destruct (World.generateEmbedding world _) as [userEmbedding|];
        rewrite Hplain, Hdebug; (split; [reflexivity|]);
        [|reflexivity].
      unfold result. cbn [snd]. rewrite rankVendors_without_debug.
      reflexivity.
    + rewrite Hplain, Hdebug. split; [reflexivity|].
      unfold result. cbn [snd]. rewrite rankVendors_without_debug.
      reflexivity.
Qed.

(** The overrides that the schema lets through are in range. *)
Lemma adjustmentsSchema_overrides_within :
  forall (N : Type) (HN : JsNumber N) (j : json N) (a : Adjustments.t N),
    adjustmentsSchema j = Some a ->
    (forall x : N, In (Some x) (trait_overrides a) ->
                   within num_zero num_five x = true)
    /\ (forall x : N, In (Some x) (weight_overrides a) ->
                      within num_zero num_one x = true).
Proof.
  intros N HN j a. unfold adjustmentsSchema.
  destruct j as [| | | | |fields]; try discriminate.
  repeat match goal with
         | |- context [obind (z_optional ?schema ?v) _] =>
             let o := fresh "o" in
             let Ho := fresh "Ho" in
             destruct (z_optional schema v) as [o|] eqn:Ho;
             [cbn [obind]|discriminate]
         end.
  intros [= <-]. unfold trait_overrides, weight_overrides.
  cbn [Adjustments.Adventurous Adjustments.Decisive Adjustments.Eccentric
       Adjustments.Flexible Adjustments.Loyal Adjustments.Optimistic
       Adjustments.Patient Adjustments.Perfectionist Adjustments.Punctual
       Adjustments.embeddingWeight Adjustments.traitWeight
       Adjustments.behaviorWeight].
  split; intros x Hin; simpl in Hin;
    repeat (destruct Hin as [Hin|Hin];
            [eapply z_optional_number_within; [|exact Hin]; eassumption|]);
    contradiction.
Qed.

(** X6.  Every override that [adjustmentsSchema] lets through is in range:
    an accepted trait override is a number from 0 to 5, an accepted weight
    override is a number from 0 to 1, and neither is NaN. *)
Theorem adjustmentsSchema_in_range :
  forall (N : Type) (HN : JsNumber N) (j : json N) (a : Adjustments.t N),
    adjustmentsSchema j = Some a ->
    (forall x : N, In (Some x) (trait_overrides a) ->
                   within num_zero num_five x = true)
    /\ (forall x : N, In (Some x) (weight_overrides a) ->
                      within num_zero num_one x = true).
Proof.
  intros N HN j a Hparsed.
  exact (@adjustmentsSchema_overrides_within N HN j a Hparsed).
Qed.

Lemma adjustmentsSchema_in_range_witness :
  exists a : Adjustments.t float,
    adjustmentsSchema Samples.payload = Some a
    /\ Adjustments.Adventurous a = Some 2%float
    /\ within 0%float 5%float 2%float = true.
Proof.
  eexists. split; [reflexivity|]. split; [reflexivity|].
  exact (proj1 (@adjustmentsSchema_in_range float _ Samples.payload _
                  eq_refl) 2%float (or_introl eq_refl)).
Defined.

(** X7.  [adjustmentsSchema] ignores the properties it does not declare:
    wherever such a property stands in the payload, the payload is accepted
    or rejected, and parsed, as it is without the property.  The declared
    keys are case sensitive, so a lower-case trait name is such a
    property. *)
Theorem adjustmentsSchema_ignores_unknown_keys :
  forall (N : Type) (HN : JsNumber N) (k : string) (v : json N)
         (before after : list (string * json N)),
    ~ In k adjustment_keys ->
    adjustmentsSchema (JObj (before ++ (k, v) :: after))
    = adjustmentsSchema (JObj (before ++ after)).
Proof.
  intros N HN k v before after Hnot. unfold adjustmentsSchema.
  unfold adjustment_keys in Hnot. simpl in Hnot.
  rewrite !(@json_get_skip N _ k v before after)
    by (intros Hk; apply Hnot; rewrite Hk; auto 20).
  reflexivity.
Qed.

Lemma adjustmentsSchema_ignores_unknown_keys_witness :
  adjustmentsSchema Samples.payload
  = adjustmentsSchema
      (JObj [ ("Adventurous"%string, JNum 2%float);
              ("traitWeight"%string, JNum 0.25%float) ]).
Proof.
  apply (@adjustmentsSchema_ignores_unknown_keys float _ "lowercase"%string
           (JBool true) [("Adventurous"%string, JNum 2%float)]
           [("traitWeight"%string, JNum 0.25%float)]).
  unfold adjustment_keys. simpl.
  intros Hin. repeat (destruct Hin as [Hin|Hin]; [discriminate|]).
  exact Hin.
Defined.

(** X8.  When the vendor ids are distinct, the liked-vendors map that
    [computeRecommendations] builds holds, under the id of each vendor the
    user has a liked interaction with, that vendor's own trait vector, and
    has no entry for any other id: not for a vendor the user did not like,
    and not for an id that is not in the vendor table. *)
Theorem likedVendorsTraitMap_lookup :
  forall (N : Type) (HN : JsNumber N) (user : User.t N)
         (vendors : list (Vendor.t N)),
    NoDup (map (@Vendor.id N) vendors) ->
    (forall vendor : Vendor.t N,
        In vendor vendors ->
        NumberMap.get (Vendor.id vendor)
          (buildLikedVendorsTraitMap user vendors)
        = if liked_by user (Vendor.id vendor)
          then Some (getVendorTraitVector vendor)
          else None)
    /\ (forall id : Z,
          ~ In id (map (@Vendor.id N) vendors) ->
          NumberMap.get id (buildLikedVendorsTraitMap user vendors) = None).
Proof.
  intros N HN user vendors Hnodup. split.
  - intros vendor Hin.
    exact (@liked_map_loop_vendor N user vendors Hnodup NumberMap.empty
             vendor Hin).
  - intros id Hnot.
    exact (@liked_map_loop_other N user vendors NumberMap.empty id Hnot).
Qed.

Lemma likedVendorsTraitMap_lookup_witness :
  NumberMap.get 1%Z
    (buildLikedVendorsTraitMap Fixtures.alex (World.vendors Fixtures.world))
  = Some Fixtures.spa_traits
  /\ NumberMap.get 2%Z
       (buildLikedVendorsTraitMap Fixtures.alex
          (World.vendors Fixtures.world))
     = None.
Proof.
  assert (Hnodup : NoDup (map (@Vendor.id float)
                            (World.vendors Fixtures.world))).
  { repeat constructor; simpl; intuition discriminate. }
  pose proof (proj1 (@likedVendorsTraitMap_lookup float _ Fixtures.alex
                       (World.vendors Fixtures.world) Hnodup)) as Hget.
  split.
  - exact (Hget Fixtures.spa (or_introl eq_refl)).
  - exact (Hget Fixtures.garage (or_intror (or_introl eq_refl))).
Defined.

(* ================================================================= *)
(** * NaN and ties on binary64 numbers *)

Module Binary64NaN.

Import Binary64 Binary64Laws Binary64Order.

Lemma nan_spec (x : float) :
  PrimFloat.is_nan x = true <-> Prim2SF x = S754_nan.
Proof.
  split.
  - intros Hx. destruct (Prim2SF x) eqn:Hs; try reflexivity;
      assert (Hc : PrimFloat.is_nan x = false)
        by (apply is_nan_spec; rewrite Hs; discriminate);
      congruence.
  - intros Hx. destruct (PrimFloat.is_nan x) eqn:Hn; [reflexivity|].
    apply is_nan_spec in Hn. contradiction.
Qed.

Lemma add_nan_l (x y : float) :
  PrimFloat.is_nan x = true -> PrimFloat.is_nan (x + y)%float = true.
Proof.
  rewrite !nan_spec, FloatAxioms.add_spec. intros ->. reflexivity.
Qed.

Lemma add_nan_r (x y : float) :
  PrimFloat.is_nan y = true -> PrimFloat.is_nan (x + y)%float = true.
Proof.
  rewrite !nan_spec, FloatAxioms.add_spec. intros ->.
  destruct (Prim2SF x); reflexivity.
Qed.

Lemma mul_nan (x : float) :
  PrimFloat.is_nan x = true -> PrimFloat.is_nan (x * x)%float = true.
Proof.
  rewrite !nan_spec, FloatAxioms.mul_spec. intros ->. reflexivity.
Qed.

Lemma div_nan_r (x y : float) :
  PrimFloat.is_nan y = true -> PrimFloat.is_nan (x / y)%float = true.
Proof.
  rewrite !nan_spec, FloatAxioms.div_spec. intros ->.
  destruct (Prim2SF x); reflexivity.
Qed.

Lemma is_nan_eq (x : float) : PrimFloat.is_nan x = true -> x = nan.
Proof.
  intros Hx. apply Prim2SF_inj. apply nan_spec in Hx. rewrite Hx.
  reflexivity.
Qed.

(** [Math.max] of arguments one of which is NaN is NaN. *)
Lemma fold_max_nan_in (v : list float) :
  forall h : float,
    (exists x, In x v /\ PrimFloat.is_nan x = true) ->
    fold_left max_step v h = nan.
Proof.
  induction v as [|y v IH]; intros h [x [Hin Hx]]; [contradiction|].
  simpl. destruct Hin as [->|Hin].
  - unfold max_step at 2. rewrite Hx, orb_true_r. apply fold_max_nan.
  - apply IH. eauto.
Qed.

(** The accumulator [normA] of [cosineSimilarity] is NaN after the loop when
    it was NaN before, or when [a] has a NaN component. *)
Lemma cosine_loop_nan (a : list float) :
  forall (b : list float) (dot normA normB : float),
    List.length a = List.length b ->
    PrimFloat.is_nan normA = true
    \/ (exists x, In x a /\ PrimFloat.is_nan x = true) ->
    PrimFloat.is_nan (snd (fst (cosine_loop a b dot normA normB))) = true.
Proof.
  induction a as [|x a IH]; intros [|y b] dot normA normB Hlen Hnan;
    try discriminate.
  - simpl. destruct Hnan as [Hnan|[x [[] _]]]. exact Hnan.
  - simpl. apply IH; [simpl in Hlen; lia|].
    destruct Hnan as [Hnan|[z [[->|Hin] Hz]]].
    + left. apply add_nan_l. exact Hnan.
    + left. apply add_nan_r. apply mul_nan. exact Hz.
    + right. eauto.
Qed.

Lemma cosineSimilarity_nan_left (a b : list float) :
  (exists x, In x a /\ PrimFloat.is_nan x = true) ->
  cosineSimilarity a b = 0%float.
Proof.
  intros Hnan. unfold cosineSimilarity.
  destruct (Nat.eqb (List.length a) 0 || Nat.eqb (List.length b) 0
            || negb (Nat.eqb (List.length a) (List.length b)))%bool
    eqn:Hguard; [reflexivity|].
  apply orb_false_iff in Hguard. destruct Hguard as [_ Hlen].
  apply negb_false_iff, Nat.eqb_eq in Hlen.
  pose proof (cosine_loop_nan a b 0%float 0%float 0%float Hlen
                (or_intror Hnan)) as HnormA.
  change (@num_zero float number) with 0%float.
  destruct (cosine_loop a b 0%float 0%float 0%float)
    as [[dot normA] normB].
  simpl in HnormA.
  change (num_truthy normA) with (truthy normA). unfold truthy.
  rewrite HnormA. reflexivity.
Qed.

(** Equal numbers are not separated by [<]. *)
Lemma SFcompare_Eq (x y : spec_float) :
  SFcompare x y = Some Eq ->
  x = y \/ (exists s s', x = S754_zero s /\ y = S754_zero s').
Proof.
  destruct x as [s|s| |s m e], y as [s'|s'| |s' m' e']; simpl;
    try discriminate;
    try (intros _; right; eauto; fail);
    try (destruct s; discriminate);
    try (destruct s'; discriminate);
    try (destruct s, s'; try discriminate; intros _; left; reflexivity).
  destruct s, s'; try discriminate;
    destruct (Z.compare_spec e e') as [->|_|_]; try discriminate;
    intros Hm; left; f_equal.
  - injection Hm as Hm. apply (f_equal CompOpp) in Hm.
    rewrite CompOpp_involutive in Hm. apply Pos.compare_eq in Hm.
    exact Hm.
  - injection Hm as Hm. apply Pos.compare_eq in Hm. exact Hm.
Qed.

Lemma lt_separates (x y s : float) :
  (x =? s)%float = true -> (x <? y)%float = true -> (y =? s)%float = false.
Proof.
  rewrite !FloatAxioms.eqb_spec, FloatAxioms.ltb_spec.
  unfold SFeqb, SFltb. intros Hxs Hxy.
  destruct (SFcompare (Prim2SF x) (Prim2SF s)) as [[| |]|] eqn:Hcxs;
    try discriminate.
  destruct (SFcompare (Prim2SF x) (Prim2SF y)) as [[| |]|] eqn:Hcxy;
    try discriminate.
  destruct (SFcompare (Prim2SF y) (Prim2SF s)) as [[| |]|] eqn:Hcys;
    try reflexivity.
  exfalso.
  destruct (SFcompare_Eq _ _ Hcxs) as [Hx|[s1 [s2 [Hx Hs]]]];
    destruct (SFcompare_Eq _ _ Hcys) as [Hy|[s3 [s4 [Hy Hs']]]].
  - rewrite Hx, <- Hy in Hcxy.
    pose proof (SFcompare_antisym (Prim2SF y) (Prim2SF y)) as Hanti.
    rewrite Hcxy in Hanti. discriminate.
  - rewrite Hx, Hs', Hy in Hcxy. discriminate.
  - rewrite Hx, Hy, Hs in Hcxy. discriminate.
  - rewrite Hx, Hy in Hcxy. discriminate.
Qed.

Lemma tied_at_sort_insert (s : float) (x : RecommendationItem.t float)
    (sorted : list (RecommendationItem.t float)) :
  PrimFloat.is_nan (final_score x) = false ->
  no_nan_score sorted = true ->
  tied_at s (sort_insert (@byFinalScoreDescending float _) x sorted)
  = tied_at s (x :: sorted).
Proof.
  intros Hx. induction sorted as [|y rest IH]; intros Hnan; [reflexivity|].
  apply no_nan_score_cons in Hnan. destruct Hnan as [Hy Hrest].
  cbn [sort_insert].
  rewrite (@comparator_positive float Binary64.number binary64_laws x y
             Hx Hy).
  destruct (final_score x <? final_score y)%js eqn:Hlt; [|reflexivity].
  unfold tied_at in *. cbn [filter]. rewrite (IH Hrest). cbn [filter].
  destruct (final_score x === s)%js eqn:Htx; [|reflexivity].
  assert (Hty : (final_score y === s)%js = false)
    by exact (lt_separates Htx Hlt).
  rewrite Hty. reflexivity.
Qed.

End Binary64NaN.

(** X9.  On binary64 numbers, when a component of the vector is NaN,
    every component of [normalizeVector]'s result is NaN: [Math.max] is NaN,
    which is not [=== 0], and every quotient by NaN is NaN. *)
Theorem normalizeVector_nan_poisons :
  forall v : list float,
    (exists x, In x v /\ PrimFloat.is_nan x = true) ->
    Forall (fun y => PrimFloat.is_nan y = true) (normalizeVector v).
Proof.
  intros v Hnan. unfold normalizeVector.
  assert (Hmax : Math_max v = nan)
    by (apply Binary64NaN.fold_max_nan_in; exact Hnan).
  rewrite Hmax.
  change (nan === num_zero)%js with false. cbv iota.
  apply Forall_forall. intros y Hy. apply in_map_iff in Hy.
  destruct Hy as [x [<- _]].
  apply Binary64NaN.div_nan_r. reflexivity.
Qed.

Lemma normalizeVector_nan_poisons_witness :
  Forall (fun y => PrimFloat.is_nan y = true)
         (normalizeVector [1%float; nan; 3%float]).
Proof.
  apply (normalizeVector_nan_poisons [1%float; nan; 3%float]).
  exists nan. split; [right; left; reflexivity|reflexivity].
Defined.

(** X10.  On binary64 numbers, [cosineSimilarity] of two vectors one of
    which has a NaN component is 0, never NaN: the squared norm of that
    vector is NaN, which is falsy, so the zero-norm guard returns 0. *)
Theorem cosineSimilarity_nan_is_zero :
  forall a b : list float,
    (exists x, (In x a \/ In x b) /\ PrimFloat.is_nan x = true) ->
    cosineSimilarity a b = 0%float.
Proof.
  intros a b [x [[Hin|Hin] Hx]].
  - apply Binary64NaN.cosineSimilarity_nan_left. eauto.
  - rewrite (@cosineSimilarity_sym float _ _ a b).
    apply Binary64NaN.cosineSimilarity_nan_left. eauto.
Qed.

Lemma cosineSimilarity_nan_is_zero_witness :
  cosineSimilarity [1%float; nan] [2%float; 3%float] = 0%float.
Proof.
  apply (cosineSimilarity_nan_is_zero [1%float; nan] [2%float; 3%float]).
  exists nan. split; [left; right; left; reflexivity|reflexivity].
Defined.

(** X11.  On binary64 numbers, [results.sort] by descending final score is
    stable when no final score is NaN: for every score [s], the
    recommendations whose final score is [=== s] stand in the same relative
    order after the sort as before it, which is the order of the vendor
    table. *)
Theorem ranking_keeps_order_of_ties :
  forall (s : float) (results : list (RecommendationItem.t float)),
    no_nan_score results = true ->
    tied_at s (Array_sort (@byFinalScoreDescending float _) results)
    = tied_at s results.
Proof.
  intros s results. induction results as [|x results IH]; intros Hnan;
    [reflexivity|].
  apply no_nan_score_cons in Hnan. destruct Hnan as [Hx Hrest].
  change (Array_sort (@byFinalScoreDescending float _) (x :: results))
    with (sort_insert (@byFinalScoreDescending float _) x
            (Array_sort (@byFinalScoreDescending float _) results)).
  rewrite Binary64NaN.tied_at_sort_insert.
  - unfold tied_at in *. cbn [filter]. rewrite (IH Hrest). reflexivity.
  - exact Hx.
  - rewrite Array_sort_no_nan. exact Hrest.
Qed.

Lemma ranking_keeps_order_of_ties_witness :
  no_nan_score Samples.results = true
  /\ map (fun item => Vendor.id (RecommendationItem.vendor item))
       (Array_sort (@byFinalScoreDescending float _) Samples.results)
     = [3%Z; 1%Z; 2%Z]
  /\ tied_at 0.25%float
       (Array_sort (@byFinalScoreDescending float _) Samples.results)
     = [ Samples.scored Fixtures.spa 0.25;
         Samples.scored Fixtures.garage 0.25 ].
Proof.
  assert (Hnan : no_nan_score Samples.results = true) by reflexivity.
  split; [exact Hnan|]. split; [reflexivity|].
  rewrite (ranking_keeps_order_of_ties 0.25%float Samples.results Hnan).
  reflexivity.
Defined.

(* ================================================================= *)
(** * Further properties of the interaction upsert *)

Section MoreUpsertFacts.

Import InteractionsService.

Lemma findUnique_absent (id : Z) (ids : list Z) :
  ~ In id ids -> findUnique id ids = None.
Proof.
  intros Hnot. unfold findUnique.
  destruct (find (Z.eqb id) ids) as [found|] eqn:Hfind; [|reflexivity].
  exfalso. apply Hnot. destruct (find_some _ _ Hfind) as [Hin Heq].
  apply Z.eqb_eq in Heq. subst found. exact Hin.
Qed.

Lemma has_key_iff (userId vendorId : Z) (row : InteractionRow.t) :
  has_key userId vendorId row = true
  <-> (InteractionRow.userId row, InteractionRow.vendorId row)
      = (userId, vendorId).
Proof.
  unfold has_key. rewrite andb_true_iff, !Z.eqb_eq.
  split; [intros [-> ->]; reflexivity|intros [= -> ->]; auto].
Qed.

Lemma find_key_none (userId vendorId : Z) (rows : list InteractionRow.t) :
  find (has_key userId vendorId) rows = None <->
  ~ In (userId, vendorId) (interaction_keys rows).
Proof.
  unfold interaction_keys. split.
  - intros Hnone Hin. apply in_map_iff in Hin.
    destruct Hin as [row [Hkey Hin]].
    pose proof (find_none _ _ Hnone _ Hin) as Hno.
    apply has_key_iff in Hkey. congruence.
  - intros Hnot.
    destruct (find (has_key userId vendorId) rows) as [row|] eqn:Hfind;
      [|reflexivity].
    exfalso. apply Hnot. destruct (find_some _ _ Hfind) as [Hin Hkey].
    apply has_key_iff in Hkey. apply in_map_iff. eauto.
Qed.


Lemma row_of_key (input : InteractionInput) (old : InteractionRow.t) :
  has_key (userId input) (vendorId input) old = true ->
  {| InteractionRow.userId := InteractionRow.userId old;
     InteractionRow.vendorId := InteractionRow.vendorId old;
     InteractionRow.liked := liked input;
     InteractionRow.score := score input |}
  = row_of_input input.
Proof.
  intros Hkey. apply has_key_iff in Hkey. injection Hkey as Hu Hv.
  unfold row_of_input. rewrite Hu, Hv. reflexivity.
Qed.

(** The rows after an update in place: the rows of the pair become the
    input's record, the others stay. *)
Lemma updated_in_place (input : InteractionInput)
    (rows : list InteractionRow.t) :
  map (fun row =>
         if has_key (userId input) (vendorId input) row
         then {| InteractionRow.userId := InteractionRow.userId row;
                 InteractionRow.vendorId := InteractionRow.vendorId row;
                 InteractionRow.liked := liked input;
                 InteractionRow.score := score input |}
         else row) rows
  = map (fun row =>
           if has_key (userId input) (vendorId input) row
           then row_of_input input else row) rows.
Proof.
  apply map_ext. intros row.
  destruct (has_key (userId input) (vendorId input) row) eqn:Hkey;
    [|reflexivity].
  apply row_of_key. exact Hkey.
Qed.

(** What [upsertInteraction] does once both parties are known to exist. *)
Lemma upsertInteraction_parties_exist (input : InteractionInput)
    (db : Database) :
  parties_exist input db ->
  upsertInteraction input db
  = ({| userIds := userIds db;
        vendorIds := vendorIds db;
        interactions :=
          match find (has_key (userId input) (vendorId input))
                     (interactions db) with
          | Some _ =>
              map (fun row =>
                     if has_key (userId input) (vendorId input) row
                     then row_of_input input else row)
                  (interactions db)
          | None => interactions db ++ [row_of_input input]
          end |},
     Some (row_of_input input)).
Proof.
  intros [Huser Hvendor].
  destruct (findUnique_present _ _ Huser) as [u Hu].
  destruct (findUnique_present _ _ Hvendor) as [v Hv].
  unfold upsertInteraction, interaction_upsert. rewrite Hu, Hv.
  destruct (find (has_key (userId input) (vendorId input))
                 (interactions db)) as [old|] eqn:Hfind.
  - rewrite updated_in_place. f_equal. f_equal. apply row_of_key.
    apply (find_some _ _ Hfind).
  - reflexivity.
Qed.

Lemma upsertInteraction_party_missing (input : InteractionInput)
    (db : Database) :
  ~ parties_exist input db -> upsertInteraction input db = (db, None).
Proof.
  intros Hnot. unfold upsertInteraction.
  destruct (findUnique (userId input) (userIds db)) as [u|] eqn:Hu;
    [|reflexivity].
  destruct (findUnique (vendorId input) (vendorIds db)) as [v|] eqn:Hv;
    [|reflexivity].
  exfalso. apply Hnot. unfold findUnique in *. split.
  - destruct (find_some _ _ Hu) as [Hin Heq]. apply Z.eqb_eq in Heq.
    subst u. exact Hin.
  - destruct (find_some _ _ Hv) as [Hin Heq]. apply Z.eqb_eq in Heq.
    subst v. exact Hin.
Qed.

Lemma parties_exist_dec (input : InteractionInput) (db : Database) :
  {parties_exist input db} + {~ parties_exist input db}.
Proof.
  unfold parties_exist.
  destruct (in_dec Z.eq_dec (userId input) (userIds db));
    destruct (in_dec Z.eq_dec (vendorId input) (vendorIds db));
    tauto.
Qed.

Lemma keys_updated_in_place (input : InteractionInput)
    (rows : list InteractionRow.t) :
  interaction_keys
    (map (fun row =>
            if has_key (userId input) (vendorId input) row
            then row_of_input input else row) rows)
  = interaction_keys rows.
Proof.
  unfold interaction_keys. rewrite map_map. apply map_ext. intros row.
  destruct (has_key (userId input) (vendorId input) row) eqn:Hkey;
    [|reflexivity].
  apply has_key_iff in Hkey. symmetry. exact Hkey.
Qed.

Lemma has_key_row_of_input (input : InteractionInput) :
  has_key (userId input) (vendorId input) (row_of_input input) = true.
Proof.
  unfold has_key, row_of_input. simpl. rewrite !Z.eqb_refl. reflexivity.
Qed.

Lemma find_key_app_new (input : InteractionInput)
    (rows : list InteractionRow.t) :
  find (has_key (userId input) (vendorId input)) rows = None ->
  forall row' : InteractionRow.t,
    has_key (userId input) (vendorId input) row' = true ->
    find (has_key (userId input) (vendorId input)) (rows ++ [row'])
    = Some row'
    /\ map (fun row =>
              if has_key (userId input) (vendorId input) row
              then row_of_input input else row) (rows ++ [row'])
       = rows ++ [row_of_input input].
Proof.
  intros Hnone row' Hkey. induction rows as [|row rows IH]; simpl.
  - rewrite Hkey. split; reflexivity.
  - simpl in Hnone.
    destruct (has_key (userId input) (vendorId input) row) eqn:Hrow;
      [discriminate|].
    destruct (IH Hnone) as [Hfind Hmap]. rewrite Hfind, Hmap.
    split; reflexivity.
Qed.

Lemma map_overwrite_twice (a b : InteractionInput)
    (rows : list InteractionRow.t) :
  userId a = userId b -> vendorId a = vendorId b ->
  map (fun row =>
         if has_key (userId b) (vendorId b) row
         then row_of_input b else row)
    (map (fun row =>
            if has_key (userId a) (vendorId a) row
            then row_of_input a else row) rows)
  = map (fun row =>
           if has_key (userId b) (vendorId b) row
           then row_of_input b else row) rows.
Proof.
  intros Hu Hv.
  assert (Ha : has_key (userId b) (vendorId b) (row_of_input a) = true)
    by (rewrite <- Hu, <- Hv; apply has_key_row_of_input).
  rewrite map_map. apply map_ext. intros row. rewrite Hu, Hv.
  destruct (has_key (userId b) (vendorId b) row) eqn:Hkey.
  - rewrite Ha. reflexivity.
  - rewrite Hkey. reflexivity.
Qed.

Lemma find_key_updated (a b : InteractionInput)
    (rows : list InteractionRow.t) (old : InteractionRow.t) :
  userId a = userId b -> vendorId a = vendorId b ->
  find (has_key (userId b) (vendorId b)) rows = Some old ->
  exists old',
    find (has_key (userId b) (vendorId b))
      (map (fun row =>
              if has_key (userId a) (vendorId a) row
              then row_of_input a else row) rows)
    = Some old'.
Proof.
  intros Hu Hv.
  assert (Ha : has_key (userId b) (vendorId b) (row_of_input a) = true)
    by (rewrite <- Hu, <- Hv; apply has_key_row_of_input).
  rewrite Hu, Hv.
  induction rows as [|row rows IH]; simpl; [discriminate|].
  destruct (has_key (userId b) (vendorId b) row) eqn:Hkey.
  - intros _. rewrite Ha. eauto.
  - rewrite Hkey. exact IH.
Qed.

Lemma filter_key_none (userId vendorId : Z)
    (rows : list InteractionRow.t) :
  ~ In (userId, vendorId) (interaction_keys rows) ->
  filter (has_key userId vendorId) rows = [].
Proof.
  intros Hnot. induction rows as [|row rows IH]; [reflexivity|].
  simpl in *. destruct (has_key userId vendorId row) eqn:Hkey.
  - exfalso. apply Hnot. left. apply has_key_iff. exact Hkey.
  - apply IH. tauto.
Qed.

Lemma filter_key_updated (input : InteractionInput)
    (rows : list InteractionRow.t) :
  NoDup (interaction_keys rows) ->
  In (userId input, vendorId input) (interaction_keys rows) ->
  filter (has_key (userId input) (vendorId input))
    (map (fun row =>
            if has_key (userId input) (vendorId input) row
            then row_of_input input else row) rows)
  = [row_of_input input].
Proof.
  induction rows as [|row rows IH]; intros Hnodup Hin; [contradiction|].
  inversion Hnodup as [|? ? Hfresh Hrest]; subst.
  change (~ In (InteractionRow.userId row, InteractionRow.vendorId row)
               (interaction_keys rows)) in Hfresh.
  change (NoDup (interaction_keys rows)) in Hrest.
  cbn [map filter].
  destruct (has_key (userId input) (vendorId input) row) eqn:Hkey.
  - rewrite has_key_row_of_input. f_equal.
    apply filter_key_none. rewrite keys_updated_in_place.
    apply has_key_iff in Hkey. rewrite <- Hkey. exact Hfresh.
  - rewrite Hkey. apply IH; [exact Hrest|].
    destruct Hin as [Heq|Hin]; [|exact Hin].
    apply has_key_iff in Heq. congruence.
Qed.

End MoreUpsertFacts.

(** X12.  When the user or the vendor of the input is not stored,
    [upsertInteraction] resolves to [null] and writes nothing: the three
    tables are as they were. *)
Theorem upsertInteraction_missing_party :
  forall (input : InteractionsService.InteractionInput)
         (db : InteractionsService.Database),
    ~ In (InteractionsService.userId input) (InteractionsService.userIds db)
    \/ ~ In (InteractionsService.vendorId input)
           (InteractionsService.vendorIds db) ->
    InteractionsService.upsertInteraction input db = (db, None).
Proof.
  intros input db Hmissing. apply upsertInteraction_party_missing.
  unfold parties_exist. tauto.
Qed.

Lemma upsertInteraction_missing_party_witness :
  InteractionsService.upsertInteraction (Samples.like_of 2 8)
    Fixtures.database
  = (Fixtures.database, None).
Proof.
  apply (upsertInteraction_missing_party (Samples.like_of 2 8)
           Fixtures.database).
  right. simpl. intros [Heq|[]]. discriminate.
Defined.

(** X13.  [upsertInteraction] keeps the pairs [(userId, vendorId)] of the
    interaction table distinct: if no two stored interactions have the same
    pair before the call, none have after it, whatever the input.  The user
    and vendor tables are never written. *)
Theorem upsertInteraction_keeps_pairs_unique :
  forall (input : InteractionsService.InteractionInput)
         (db : InteractionsService.Database),
    NoDup (interaction_keys (InteractionsService.interactions db)) ->
    let after := fst (InteractionsService.upsertInteraction input db) in
    NoDup (interaction_keys (InteractionsService.interactions after))
    /\ InteractionsService.userIds after = InteractionsService.userIds db
    /\ InteractionsService.vendorIds after
       = InteractionsService.vendorIds db.
Proof.
  intros input db Hnodup after. subst after.
  destruct (parties_exist_dec input db) as [Hexist|Hmissing].
  - rewrite (@upsertInteraction_parties_exist input db Hexist).
    cbn [fst InteractionsService.interactions InteractionsService.userIds
         InteractionsService.vendorIds].
    split; [|split; reflexivity].
    destruct (find _ (InteractionsService.interactions db)) as [old|]
      eqn:Hfind.
    + rewrite keys_updated_in_place. exact Hnodup.
    + apply find_key_none in Hfind.
      unfold interaction_keys in *. rewrite map_app. simpl.
      apply NoDup_app; [exact Hnodup|repeat constructor; auto|].
      intros key Hin [<-|[]]. exact (Hfind Hin).
  - rewrite (@upsertInteraction_party_missing input db Hmissing).
    simpl. auto.
Qed.

Lemma upsertInteraction_keeps_pairs_unique_witness :
  NoDup (interaction_keys
           (InteractionsService.interactions Samples.two_vendor_database))
  /\ NoDup (interaction_keys
              (InteractionsService.interactions
                 (fst (InteractionsService.upsertInteraction
                         (Samples.like_of 2 8)
                         Samples.two_vendor_database)))).
Proof.
  assert (Hnodup : NoDup (interaction_keys
                            (InteractionsService.interactions
                               Samples.two_vendor_database))).
  { repeat constructor; simpl; intuition discriminate. }
  split; [exact Hnodup|].
  exact (proj1 (upsertInteraction_keeps_pairs_unique (Samples.like_of 2 8)
                  Samples.two_vendor_database Hnodup)).
Defined.

(** X14.  When the user and the vendor are stored, [upsertInteraction]
    returns the record of the input (its user, vendor, [liked], and its
    score or [null]), and this record is then among the interactions that
    [listForUser] finds for the user.  If the stored pairs were distinct,
    it is the only stored record of its pair. *)
Theorem upsertInteraction_then_listForUser :
  forall (input : InteractionsService.InteractionInput)
         (db : InteractionsService.Database),
    In (InteractionsService.userId input) (InteractionsService.userIds db) ->
    In (InteractionsService.vendorId input)
       (InteractionsService.vendorIds db) ->
    let after := fst (InteractionsService.upsertInteraction input db) in
    snd (InteractionsService.upsertInteraction input db)
    = Some (row_of_input input)
    /\ In (row_of_input input)
          (InteractionsService.listForUser
             (InteractionsService.userId input) after)
    /\ (NoDup (interaction_keys (InteractionsService.interactions db)) ->
        filter (InteractionsService.has_key
                  (InteractionsService.userId input)
                  (InteractionsService.vendorId input))
               (InteractionsService.interactions after)
        = [row_of_input input]).
Proof.
  intros input db Huser Hvendor after. subst after.
  rewrite (@upsertInteraction_parties_exist input db (conj Huser Hvendor)).
  cbn [fst snd InteractionsService.interactions].
  split; [reflexivity|].
  set (key := InteractionsService.has_key
                (InteractionsService.userId input)
                (InteractionsService.vendorId input)).
  pose proof (has_key_row_of_input input) as Hnew. fold key in Hnew.
  split.
  - unfold InteractionsService.listForUser.
    cbn [InteractionsService.interactions].
    apply filter_In. split; [|simpl; apply Z.eqb_refl].
    destruct (find key (InteractionsService.interactions db)) as [old|]
      eqn:Hfind.
    + apply in_map_iff. exists old.
      destruct (find_some _ _ Hfind) as [Hin Hold].
      rewrite Hold. auto.
    + apply in_or_app. right. left. reflexivity.
  - intros Hnodup.
    destruct (find key (InteractionsService.interactions db)) as [old|]
      eqn:Hfind.
    + apply filter_key_updated; [exact Hnodup|].
      destruct (find_some _ _ Hfind) as [Hin Hold].
      apply has_key_iff in Hold. rewrite <- Hold.
      unfold interaction_keys.
      apply (in_map (fun row => (InteractionRow.userId row,
                                 InteractionRow.vendorId row))).
      exact Hin.
    + apply find_key_none in Hfind. rewrite filter_app. unfold key in *.
      rewrite (filter_key_none _ _ _ Hfind). cbn [filter app].
      rewrite Hnew. reflexivity.
Qed.

Lemma upsertInteraction_then_listForUser_witness :
  snd (InteractionsService.upsertInteraction (Samples.like_of 2 8)
         Samples.two_vendor_database)
  = Some {| InteractionRow.userId := 2; InteractionRow.vendorId := 8;
            InteractionRow.liked := true; InteractionRow.score := Some 5%Z |}
  /\ List.length
       (InteractionsService.listForUser 2
          (fst (InteractionsService.upsertInteraction (Samples.like_of 2 8)
                  Samples.two_vendor_database)))
     = 2%nat.
Proof.
  split; [|reflexivity].
  exact (proj1 (upsertInteraction_then_listForUser (Samples.like_of 2 8)
                  Samples.two_vendor_database
                  (or_intror (or_introl eq_refl))
                  (or_intror (or_introl eq_refl)))).
Defined.

(** X15.  The last write wins: when two inputs name the same user and
    vendor, sending the first and then the second leaves the database, and
    returns the record, that sending the second alone does.  In particular a
    repeated call changes nothing. *)
Theorem upsertInteraction_last_write_wins :
  forall (a b : InteractionsService.InteractionInput)
         (db : InteractionsService.Database),
    InteractionsService.userId a = InteractionsService.userId b ->
    InteractionsService.vendorId a = InteractionsService.vendorId b ->
    InteractionsService.upsertInteraction b
      (fst (InteractionsService.upsertInteraction a db))
    = InteractionsService.upsertInteraction b db.
Proof.
  intros a b db Hu Hv.
  destruct (parties_exist_dec b db) as [Hexist|Hmissing].
  - assert (Hexist_a : parties_exist a db)
      by (unfold parties_exist in *; rewrite Hu, Hv; exact Hexist).
    rewrite (@upsertInteraction_parties_exist a db Hexist_a).
    cbn [fst].
    rewrite (@upsertInteraction_parties_exist b db Hexist).
    rewrite upsertInteraction_parties_exist by exact Hexist.
    cbn [InteractionsService.userIds InteractionsService.vendorIds
         InteractionsService.interactions].
    f_equal. f_equal. rewrite Hu, Hv.
    destruct (find (InteractionsService.has_key
                      (InteractionsService.userId b)
                      (InteractionsService.vendorId b))
                   (InteractionsService.interactions db)) as [old|]
      eqn:Hfind.
    + destruct (find_key_updated a b _ Hu Hv Hfind) as [old' Hfind'].
      rewrite Hu, Hv in Hfind'. rewrite Hfind'.
      pose proof (map_overwrite_twice a b
                    (InteractionsService.interactions db) Hu Hv) as Htwice.
      rewrite Hu, Hv in Htwice. exact Htwice.
    + assert (Ha : InteractionsService.has_key
                     (InteractionsService.userId b)
                     (InteractionsService.vendorId b) (row_of_input a)
                   = true)
        by (rewrite <- Hu, <- Hv; apply has_key_row_of_input).
      destruct (find_key_app_new b _ Hfind _ Ha) as [Hfind' Hmap].
      rewrite Hfind'. exact Hmap.
  - assert (Hmissing_a : ~ parties_exist a db)
      by (unfold parties_exist in *; rewrite Hu, Hv; exact Hmissing).
    rewrite (@upsertInteraction_party_missing a db Hmissing_a).
    reflexivity.
Qed.

Lemma upsertInteraction_last_write_wins_witness :
  InteractionsService.upsertInteraction Fixtures.plain_dislike
    (fst (InteractionsService.upsertInteraction (Samples.like_of 1 7)
            Fixtures.database))
  = InteractionsService.upsertInteraction Fixtures.plain_dislike
      Fixtures.database.
Proof.
  exact (upsertInteraction_last_write_wins (Samples.like_of 1 7)
           Fixtures.plain_dislike Fixtures.database eq_refl eq_refl).
Defined.

(** X16.  [upsertInteraction] for one user does not change what
    [listForUser] finds for any other user. *)
Theorem upsertInteraction_other_users_unchanged :
  forall (input : InteractionsService.InteractionInput)
         (db : InteractionsService.Database) (other : Z),
    other <> InteractionsService.userId input ->
    InteractionsService.listForUser other
      (fst (InteractionsService.upsertInteraction input db))
    = InteractionsService.listForUser other db.
Proof.
  intros input db other Hother.
  destruct (parties_exist_dec input db) as [Hexist|Hmissing].
  - rewrite (@upsertInteraction_parties_exist input db Hexist).
    unfold InteractionsService.listForUser.
    cbn [fst InteractionsService.interactions].
    assert (Hnew : Z.eqb (InteractionRow.userId (row_of_input input)) other
                   = false)
      by (apply Z.eqb_neq; simpl; congruence).
    destruct (find _ (InteractionsService.interactions db)) as [old|].
    + induction (InteractionsService.interactions db) as [|row rows IH];
        [reflexivity|].
      cbn [map filter].
      destruct (InteractionsService.has_key
                  (InteractionsService.userId input)
                  (InteractionsService.vendorId input) row) eqn:Hkey.
      * rewrite Hnew. apply has_key_iff in Hkey. injection Hkey as Hrow _.
        assert (Hrow' : Z.eqb (InteractionRow.userId row) other = false)
          by (apply Z.eqb_neq; congruence).
        rewrite Hrow'. exact IH.
      * rewrite IH. reflexivity.
    + rewrite filter_app. cbn [filter]. rewrite Hnew. apply app_nil_r.
  - rewrite (@upsertInteraction_party_missing input db Hmissing).
    reflexivity.
Qed.

Lemma upsertInteraction_other_users_unchanged_witness :
  InteractionsService.listForUser 2
    (fst (InteractionsService.upsertInteraction Fixtures.plain_dislike
            Fixtures.database))
  = InteractionsService.listForUser 2 Fixtures.database.
Proof.
  apply (@upsertInteraction_other_users_unchanged Fixtures.plain_dislike
           Fixtures.database 2%Z).
  discriminate.
Defined.

(* ================================================================= *)
(** * Properties of the users and vendors services *)

Section UsersVendorsFacts.

Context {N : Type} `{JsNumber N}.
Variable world : World.t N.
Variable prisma : Prisma.t N.

(** The two services build the same prompt for a user who is not a test
    user. *)
Lemma buildUserPrompt_agrees (name : string) (traits : Traits.t N)
    (behaviorPreferences : option (json N)) (isTestUser : option bool) :
  isTestUser <> Some true ->
  UsersService.buildUserPrompt world name traits behaviorPreferences
    isTestUser
  = buildUserPromptFromTraits world name traits behaviorPreferences.
Proof.
  intros Hplain. unfold UsersService.buildUserPrompt,
    buildUserPromptFromTraits.
  destruct isTestUser as [[|]|]; [congruence| |]; reflexivity.
Qed.

Lemma effectiveTraits_none (user : User.t N) :
  effectiveTraits user None = User.traits user.
Proof.
  unfold effectiveTraits. destruct (User.traits user). reflexivity.
Qed.

(** How a run of [updateTraits] can go. *)
Lemma updateTraits_runs (id : Z) (input : UpdateUserTraitsInput.t N) :
  let run := UsersService.updateTraits world prisma id input in
  match Prisma.user_findUnique prisma id with
  | None => run = ([UserFindUnique id], Returned None)
  | Some existing =>
      let traits :=
        UsersService.updatedTraits (UpdateUserTraitsInput.traits input)
          (UserRow.traits existing) in
      let behaviorPreferences :=
        match UpdateUserTraitsInput.behaviorPreferences input with
        | Some bp => Some bp
        | None => UserRow.behaviorPreferences existing
        end in
      let prompt :=
        UsersService.buildUserPrompt world (UserRow.name existing) traits
          behaviorPreferences (Some (UserRow.isTestUser existing)) in
      match World.generateEmbedding world prompt with
      | None =>
          run = ([UserFindUnique id; GenerateEmbedding prompt],
                 Thrown EmbeddingFailure)
      | Some embedding =>
          let data :=
            {| UserUpdateData.traits := Some traits;
               UserUpdateData.embedding := embedding;
               UserUpdateData.behaviorPreferences := behaviorPreferences |}
          in
          run = ([UserFindUnique id; GenerateEmbedding prompt;
                  UserUpdate id data],
                 Returned (Some (Prisma.user_update prisma id data)))
      end
  end.
Proof.
  unfold UsersService.updateTraits. simpl.
  destruct (Prisma.user_findUnique prisma id) as [existing|];
    [|reflexivity].
  simpl. unfold generateEmbedding.
  destruct (World.generateEmbedding world _); reflexivity.
Qed.

Lemma updateBehaviorPreferences_runs (id : Z)
    (behaviorPreferences : json N) :
  let run :=
    UsersService.updateBehaviorPreferences world prisma id
      behaviorPreferences in
  match Prisma.user_findUnique prisma id with
  | None => run = ([UserFindUnique id], Returned None)
  | Some existing =>
      let prompt :=
        UsersService.buildUserPrompt world (UserRow.name existing)
          (UserRow.traits existing) (Some behaviorPreferences)
          (Some (UserRow.isTestUser existing)) in
      match World.generateEmbedding world prompt with
      | None =>
          run = ([UserFindUnique id; GenerateEmbedding prompt],
                 Thrown EmbeddingFailure)
      | Some embedding =>
          let data :=
            {| UserUpdateData.traits := None;
               UserUpdateData.embedding := embedding;
               UserUpdateData.behaviorPreferences :=
                 Some behaviorPreferences |} in
          run = ([UserFindUnique id; GenerateEmbedding prompt;
                  UserUpdate id data],
                 Returned (Some (Prisma.user_update prisma id data)))
      end
  end.
Proof.
  unfold UsersService.updateBehaviorPreferences. simpl.
  destruct (Prisma.user_findUnique prisma id) as [existing|];
    [|reflexivity].
  simpl. unfold generateEmbedding.
  destruct (World.generateEmbedding world _); reflexivity.
Qed.

(** ** The trait schemas *)

Lemma z_required_number_within (lo hi : N) (v : option (json N)) (x : N) :
  z_required (z_number lo hi) v = Some x -> within lo hi x = true.
Proof.
  unfold z_required. destruct v as [j|]; [|discriminate].
  intros Hx. apply (z_number_within _ _ _ Hx).
Qed.

Lemma userTraitsSchema_partial_within (j : json N)
    (val : PartialTraits.t N) :
  userTraitsSchema_partial j = Some val ->
  forall x : N, In (Some x) (partial_traits val) ->
                within num_zero num_five x = true.
Proof.
  unfold userTraitsSchema_partial.
  destruct j as [| | | | |fields]; try discriminate.
  repeat match goal with
         | |- context [obind (z_optional ?schema ?v) _] =>
             let o := fresh "o" in
             let Ho := fresh "Ho" in
             destruct (z_optional schema v) as [o|] eqn:Ho;
             [cbn [obind]|discriminate]
         end.
  intros [= <-] x Hin. unfold partial_traits in Hin.
  cbn [PartialTraits.adventurous PartialTraits.decisive
       PartialTraits.eccentric PartialTraits.flexible PartialTraits.loyal
       PartialTraits.optimistic PartialTraits.patient
       PartialTraits.perfectionist PartialTraits.punctual] in Hin.
  simpl in Hin.
  repeat (destruct Hin as [Hin|Hin];
          [eapply z_optional_number_within; [|exact Hin]; eassumption|]).
  contradiction.
Qed.

Lemma updateUserTraitsSchema_partial (j : json N)
    (input : UpdateUserTraitsInput.t N) :
  updateUserTraitsSchema j = Some input ->
  exists j' : json N,
    userTraitsSchema_partial j' = Some (UpdateUserTraitsInput.traits input)
    /\ (0 < Object_keys_length (UpdateUserTraitsInput.traits input))%nat.
Proof.
  unfold updateUserTraitsSchema.
  destruct j as [| | | | |fields]; try discriminate.
  unfold z_required at 1.
  destruct (json_get "traits" fields) as [j'|]; [|discriminate].
  destruct (userTraitsSchema_partial j') as [val|] eqn:Hval;
    [|discriminate].
  cbn [obind].
  destruct (Nat.ltb 0 (Object_keys_length val)) eqn:Hkeys; [|discriminate].
  cbn [obind].
  destruct (z_optional behaviorPreferencesSchema _); [|discriminate].
  cbn [obind]. intros [= <-]. exists j'. split; [exact Hval|].
  apply Nat.ltb_lt. exact Hkeys.
Qed.

Lemma nullish_within (lo hi : N) (o : option N) (stored : N) :
  (forall x, o = Some x -> within lo hi x = true) ->
  within lo hi stored = true ->
  within lo hi (nullish o stored) = true.
Proof.
  intros Ho Hstored. destruct o as [x|]; simpl; auto.
Qed.

Lemma updatedTraits_within (val : PartialTraits.t N)
    (existing : Traits.t N) :
  (forall x : N, In (Some x) (partial_traits val) ->
                 within num_zero num_five x = true) ->
  traits_within existing = true ->
  traits_within (UsersService.updatedTraits val existing) = true.
Proof.
  intros Hval. unfold traits_within, UsersService.updatedTraits,
    getUserTraitVector.
  cbn [Traits.adventurous Traits.decisive Traits.eccentric Traits.flexible
       Traits.loyal Traits.optimistic Traits.patient Traits.perfectionist
       Traits.punctual forallb].
  rewrite !andb_true_iff. unfold partial_traits in Hval.
  intros [H1 [H2 [H3 [H4 [H5 [H6 [H7 [H8 [H9 _]]]]]]]]].
  repeat split;
    (apply nullish_within; [|assumption]);
    intros x Hx; apply Hval; rewrite <- Hx; simpl; auto 12.
Qed.

End UsersVendorsFacts.

(** X17.  Every run of [UsersService.updateTraits] is fixed by what the
    database and the embedding service answer.  If no user has the id, the
    only call is the lookup and the run resolves to [null].  Otherwise the
    run requests one embedding, for the prompt of the stored name and test
    flag with the merged traits and with the preferences of the input or,
    without them, the stored ones.  If the request is rejected, the run
    throws the embedding failure after these two calls.  If it is answered,
    the third and last call updates the user with the merged traits, the
    embedding just generated and those preferences, and the run returns the
    updated row.  Hence the run resolves to [null] exactly when no user has
    the id, and it writes to the database exactly when it returns a row. *)
Theorem updateTraits_run :
  forall (N : Type) (HN : JsNumber N) (world : World.t N)
         (prisma : Prisma.t N) (id : Z)
         (input : UpdateUserTraitsInput.t N),
    let run := UsersService.updateTraits world prisma id input in
    match Prisma.user_findUnique prisma id with
    | None => run = ([UserFindUnique id], Returned None)
    | Some existing =>
        let traits :=
          UsersService.updatedTraits (UpdateUserTraitsInput.traits input)
            (UserRow.traits existing) in
        let behaviorPreferences :=
          match UpdateUserTraitsInput.behaviorPreferences input with
          | Some bp => Some bp
          | None => UserRow.behaviorPreferences existing
          end in
        let prompt :=
          UsersService.buildUserPrompt world (UserRow.name existing) traits
            behaviorPreferences (Some (UserRow.isTestUser existing)) in
        match World.generateEmbedding world prompt with
        | None =>
            run = ([UserFindUnique id; GenerateEmbedding prompt],
                   Thrown EmbeddingFailure)
        | Some embedding =>
            let data :=
              {| UserUpdateData.traits := Some traits;
                 UserUpdateData.embedding := embedding;
                 UserUpdateData.behaviorPreferences :=
                   behaviorPreferences |} in
            run = ([UserFindUnique id; GenerateEmbedding prompt;
                    UserUpdate id data],
                   Returned (Some (Prisma.user_update prisma id data)))
        end
    end
    /\ (snd run = Returned None
        <-> Prisma.user_findUnique prisma id = None)
    /\ (existsb (@is_write N) (fst run) = true
        <-> exists row : UserRow.t N, snd run = Returned (Some row)).
Proof.
  intros N HN world prisma id input run.
  pose proof (updateTraits_runs world prisma id input) as Hrun.
  cbv zeta in Hrun. fold run in Hrun. cbv zeta.
  destruct (Prisma.user_findUnique prisma id) as [existing|].
  - destruct (World.generateEmbedding world _) as [embedding|];
      rewrite Hrun; cbn [fst snd existsb is_write orb];
      (split; [reflexivity|]); split; split; intros Hgoal;
      try discriminate; try reflexivity; eauto.
    destruct Hgoal as [row Hrow]. discriminate.
  - rewrite Hrun. cbn [fst snd existsb is_write orb].
    split; [reflexivity|]. split; split; intros Hgoal;
      try discriminate; try reflexivity.
    destruct Hgoal as [row Hrow]. discriminate.
Qed.

(** X18.  [updateTraits] keeps the stored traits in range: when the body
    passed [updateUserTraitsSchema] and the nine stored traits of the user
    are numbers from 0 to 5, so are the nine traits of every update that the
    call writes. *)
Theorem updateTraits_keeps_traits_in_range :
  forall (N : Type) (HN : JsNumber N) (world : World.t N)
         (prisma : Prisma.t N) (id : Z) (body : json N)
         (input : UpdateUserTraitsInput.t N) (existing : UserRow.t N),
    updateUserTraitsSchema body = Some input ->
    Prisma.user_findUnique prisma id = Some existing ->
    traits_within (UserRow.traits existing) = true ->
    forall (id' : Z) (data : UserUpdateData.t N),
      In (UserUpdate id' data)
         (fst (UsersService.updateTraits world prisma id input)) ->
      exists traits : Traits.t N,
        UserUpdateData.traits data = Some traits
        /\ traits_within traits = true.
Proof.
  intros N HN world prisma id body input existing Hbody Hfound Hstored
         id' data Hin.
  destruct (updateUserTraitsSchema_partial _ Hbody) as [j' [Hpartial _]].
  pose proof (updateTraits_runs world prisma id input) as Hrun.
  cbv zeta in Hrun. rewrite Hfound in Hrun.
  destruct (World.generateEmbedding world _) as [embedding|];
    rewrite Hrun in Hin; cbn [fst] in Hin.
  - destruct Hin as [Hin|[Hin|[Hin|[]]]]; try discriminate.
    injection Hin as _ <-. eexists. split; [reflexivity|].
    apply updatedTraits_within; [|exact Hstored].
    apply (userTraitsSchema_partial_within _ Hpartial).
  - destruct Hin as [Hin|[Hin|[]]]; discriminate.
Qed.

Lemma updateTraits_keeps_traits_in_range_witness :
  updateUserTraitsSchema Samples.traits_body = Some Samples.traits_input
  /\ exists (data : UserUpdateData.t float) (traits : Traits.t float),
       In (UserUpdate 1 data)
          (fst (UsersService.updateTraits Fixtures.world Samples.prisma 1
                  Samples.traits_input))
       /\ UserUpdateData.traits data = Some traits
       /\ traits_within traits = true.
Proof.
  split; [reflexivity|].
  pose proof (@updateTraits_keeps_traits_in_range float _ Fixtures.world
                Samples.prisma 1 Samples.traits_body Samples.traits_input
                Samples.alex_row eq_refl eq_refl eq_refl 1%Z _
                (or_intror (or_intror (or_introl eq_refl)))) as Hrange.
  destruct Hrange as [traits [Htraits Hwithin]].
  eexists. exists traits.
  split; [right; right; left; reflexivity|].
  split; [exact Htraits|exact Hwithin].
Defined.

(** X19.  A body that [updateUserTraitsSchema] accepts sets at least one of
    the nine traits, and every trait it sets is a number from 0 to 5.  So a
    body whose [traits] object has none of the nine lower-case keys (it is
    empty, or has only other keys) is rejected. *)
Theorem updateUserTraitsSchema_sets_a_trait :
  forall (N : Type) (HN : JsNumber N) (body : json N)
         (input : UpdateUserTraitsInput.t N),
    updateUserTraitsSchema body = Some input ->
    (exists x : N,
        In (Some x) (partial_traits (UpdateUserTraitsInput.traits input)))
    /\ (forall x : N,
          In (Some x) (partial_traits (UpdateUserTraitsInput.traits input)) ->
          within num_zero num_five x = true).
Proof.
  intros N HN body input Hbody.
  destruct (updateUserTraitsSchema_partial _ Hbody)
    as [j' [Hpartial Hkeys]].
  split; [|apply (userTraitsSchema_partial_within _ Hpartial)].
  unfold Object_keys_length in Hkeys.
  destruct (filter _ (partial_traits (UpdateUserTraitsInput.traits input)))
    as [|o rest] eqn:Hfilter; [simpl in Hkeys; lia|].
  assert (Hin : In o (filter
                        (fun o => match o with
                                  | Some _ => true
                                  | None => false
                                  end)
                        (partial_traits
                           (UpdateUserTraitsInput.traits input))))
    by (rewrite Hfilter; left; reflexivity).
  apply filter_In in Hin. destruct Hin as [Hin Hsome].
  destruct o as [x|]; [|discriminate]. exists x. exact Hin.
Qed.

Lemma updateUserTraitsSchema_sets_a_trait_witness :
  updateUserTraitsSchema Samples.traits_body = Some Samples.traits_input
  /\ exists x : float,
       In (Some x)
          (partial_traits
             (UpdateUserTraitsInput.traits Samples.traits_input)).
Proof.
  split; [reflexivity|].
  exact (proj1 (@updateUserTraitsSchema_sets_a_trait float _
                  Samples.traits_body Samples.traits_input eq_refl)).
Defined.

(** The schema on bodies whose [traits] object sets no trait. *)
Example updateUserTraitsSchema_rejects_no_trait :
  updateUserTraitsSchema (JObj [("traits"%string, @JObj float [])]) = None
  /\ updateUserTraitsSchema
       (JObj [("traits"%string,
               JObj [("Patient"%string, JNum 4%float)])])
     = None.
Proof. split; reflexivity. Qed.

(** X20.  Every run of [UsersService.updateBehaviorPreferences] is fixed by
    what the database and the embedding service answer.  If no user has
    the id, the only call is the lookup and the run resolves to [null].
    Otherwise the run requests one embedding, for the prompt of the stored
    name, test flag and traits with the new preferences.  If the request is
    rejected, the run throws the embedding failure after these two calls.
    If it is answered, the third and last call updates the user with the
    new preferences and the embedding just generated, and with no trait,
    and the run returns the updated row.  Hence the run resolves to [null]
    exactly when no user has the id, and it writes to the database exactly
    when it returns a row. *)
Theorem updateBehaviorPreferences_run :
  forall (N : Type) (HN : JsNumber N) (world : World.t N)
         (prisma : Prisma.t N) (id : Z) (behaviorPreferences : json N),
    let run :=
      UsersService.updateBehaviorPreferences world prisma id
        behaviorPreferences in
    match Prisma.user_findUnique prisma id with
    | None => run = ([UserFindUnique id], Returned None)
    | Some existing =>
        let prompt :=
          UsersService.buildUserPrompt world (UserRow.name existing)
            (UserRow.traits existing) (Some behaviorPreferences)
            (Some (UserRow.isTestUser existing)) in
        match World.generateEmbedding world prompt with
        | None =>
            run = ([UserFindUnique id; GenerateEmbedding prompt],
                   Thrown EmbeddingFailure)
        | Some embedding =>
            let data :=
              {| UserUpdateData.traits := None;
                 UserUpdateData.embedding := embedding;
                 UserUpdateData.behaviorPreferences :=
                   Some behaviorPreferences |} in
            run = ([UserFindUnique id; GenerateEmbedding prompt;
                    UserUpdate id data],
                   Returned (Some (Prisma.user_update prisma id data)))
        end
    end
    /\ (snd run = Returned None
        <-> Prisma.user_findUnique prisma id = None)
    /\ (existsb (@is_write N) (fst run) = true
        <-> exists row : UserRow.t N, snd run = Returned (Some row)).
Proof.
  intros N HN world prisma id behaviorPreferences run.
  pose proof (updateBehaviorPreferences_runs world prisma id
                behaviorPreferences) as Hrun.
  cbv zeta in Hrun. fold run in Hrun. cbv zeta.
  destruct (Prisma.user_findUnique prisma id) as [existing|].
  - destruct (World.generateEmbedding world _) as [embedding|];
      rewrite Hrun; cbn [fst snd existsb is_write orb];
      (split; [reflexivity|]); split; split; intros Hgoal;
      try discriminate; try reflexivity; eauto.
    destruct Hgoal as [row Hrow]. discriminate.
  - rewrite Hrun. cbn [fst snd existsb is_write orb].
    split; [reflexivity|]. split; split; intros Hgoal;
      try discriminate; try reflexivity.
    destruct Hgoal as [row Hrow]. discriminate.
Qed.

(** X21.  Test mode changes nothing for a user whose stored embedding is up
    to date: when the user is not a test user, no adjustments are supplied,
    and the embedding service returns the stored embedding for the prompt
    that the users service builds from the stored name, traits and
    preferences, [computeRecommendations] with [testMode] true returns the
    recommendations that it returns with [testMode] false. *)
Theorem testMode_without_adjustments_matches_baseline :
  forall (N : Type) (HN : JsNumber N) (world : World.t N) (userId : Z)
         (user : User.t N) (adjustmentsRaw : option string)
         (options : option (option bool)),
    World.users world userId = Some user ->
    payload_supplied adjustmentsRaw = false ->
    World.generateEmbedding world
      (UsersService.buildUserPrompt world (User.name user)
         (User.traits user) (User.behaviorPreferences user) (Some false))
    = Some (User.embedding user) ->
    exists baseline test : Result.t N,
      result (computeRecommendations world userId false adjustmentsRaw
                options)
      = Returned (Some baseline)
      /\ result (computeRecommendations world userId true adjustmentsRaw
                   options)
         = Returned (Some test)
      /\ Result.recommendations test = Result.recommendations baseline.
Proof.
  intros N HN world userId user adjustmentsRaw options Huser Hnone Hsame.
  rewrite buildUserPrompt_agrees in Hsame by discriminate.
  rewrite !(computeRecommendations_existing_user world userId _
              adjustmentsRaw options Huser).
  rewrite (parseAdjustments_not_supplied world adjustmentsRaw Hnone).
  simpl. rewrite effectiveTraits_none.
  unfold embeddingsService_generateEmbedding. rewrite Hsame. simpl.
  eexists. eexists. split; [reflexivity|]. split; reflexivity.
Qed.

Lemma testMode_without_adjustments_matches_baseline_witness :
  exists baseline test : Result.t float,
    result (computeRecommendations Samples.steady_world 1 false None None)
    = Returned (Some baseline)
    /\ result (computeRecommendations Samples.steady_world 1 true None None)
       = Returned (Some test)
    /\ Result.recommendations test = Result.recommendations baseline.
Proof.
  exact (@testMode_without_adjustments_matches_baseline float _
           Samples.steady_world 1 Fixtures.alex None None eq_refl eq_refl
           eq_refl).
Defined.

(** X22.  [VendorsService.create] requests one embedding, for the prompt of
    the input, and writes nothing when that fails.  When it succeeds it
    creates one vendor, with the input's name, description and traits and
    the embedding just generated; for a vendor stored as written, the prompt
    that the debug endpoint of the recommendations shows is the prompt its
    embedding was generated from, and its trait vector lists the input's
    twelve traits in the schema's order. *)
Theorem vendor_create_run :
  forall (N : Type) (HN : JsNumber N) (world : World.t N)
         (prisma : Prisma.t N) (input : CreateVendorInput.t N),
    let run := VendorsService.create world prisma input in
    let prompt := VendorsService.buildVendorPrompt world input in
    match World.generateEmbedding world prompt with
    | None => run = ([GenerateEmbedding prompt], Thrown EmbeddingFailure)
    | Some embedding =>
        exists data : VendorCreateData.t N,
          data = {| VendorCreateData.name := CreateVendorInput.name input;
                    VendorCreateData.description :=
                      CreateVendorInput.description input;
                    VendorCreateData.traits :=
                      CreateVendorInput.traits input;
                    VendorCreateData.embedding := embedding |}
          /\ run = ([GenerateEmbedding prompt; VendorCreate data],
                    Returned (Prisma.vendor_create prisma data))
          /\ forall id : Z,
               buildVendorPromptForDebug world (vendor_row id data) = prompt
               /\ Vendor.embedding (vendor_row id data) = embedding
               /\ getVendorTraitVector (vendor_row id data)
                  = vendor_trait_values (CreateVendorInput.traits input)
    end.
Proof.
  intros N HN world prisma input run prompt. subst run.
  unfold VendorsService.create. fold prompt. unfold generateEmbedding.
  destruct (World.generateEmbedding world prompt) as [embedding|];
    [|reflexivity].
  simpl. eexists. split; [reflexivity|]. split; [reflexivity|].
  intros id. repeat split; reflexivity.
Qed.

(* ================================================================= *)
(** * Validated traits on binary64 numbers *)

Module Binary64Traits.

Import Binary64 Binary64Laws Binary64Order.

Lemma within_0_5 (x : float) :
  within 0%float 5%float x = true ->
  (0 <=? x)%float = true /\ (x <=? 5)%float = true.
Proof.
  unfold within. rewrite !andb_true_iff, !negb_true_iff.
  intros [[Hnan Hlo] Hhi].
  split; apply le_total; try reflexivity; assumption.
Qed.

Lemma finite_between_0_and_5 (m : float) :
  (0 <=? m)%float = true -> (m <=? 5)%float = true ->
  PrimFloat.is_finite m = true.
Proof.
  intros Hlo Hhi.
  destruct (leb_not_nan _ _ Hhi) as [Hnan _].
  unfold PrimFloat.is_finite, is_infinity. rewrite Hnan. simpl.
  rewrite FloatAxioms.leb_spec in Hlo, Hhi.
  rewrite FloatAxioms.eqb_spec, FloatAxioms.abs_spec.
  change (Prim2SF 0) with (S754_zero false) in Hlo.
  change (Prim2SF infinity) with (S754_infinity false).
  destruct (Prim2SF m) as [s|s| |s mm e]; try reflexivity.
  destruct s; [discriminate Hlo|discriminate Hhi].
Qed.

(** The largest of a non-empty list of numbers from 0 to 5 is a finite
    number that is not negative. *)
Lemma Math_max_of_traits (v : list float) :
  v <> [] ->
  Forall (fun x => within 0%float 5%float x = true) v ->
  PrimFloat.is_finite (Math_max v) = true
  /\ (0 <=? Math_max v)%float = true.
Proof.
  intros Hne Hall.
  assert (Hupper : (Math_max v <=? 5)%float = true).
  { apply fold_max_bounded; [reflexivity|].
    apply (Forall_impl _ (fun x Hx => proj2 (within_0_5 x Hx)) Hall). }
  destruct (leb_not_nan _ _ Hupper) as [Hnan _].
  destruct (fold_max_upper v neg_infinity Hnan) as [_ Hbelow].
  destruct v as [|x v]; [congruence|].
  inversion Hall as [|? ? Hx _]; subst.
  inversion Hbelow as [|? ? Hxmax _]; subst.
  assert (Hlower : (0 <=? Math_max (x :: v))%float = true)
    by exact (le_trans _ _ _ (proj1 (within_0_5 x Hx)) Hxmax).
  split; [|exact Hlower].
  apply finite_between_0_and_5; assumption.
Qed.

Lemma traits_normalize_within_one (v : list float) :
  v <> [] ->
  Forall (fun x => within 0%float 5%float x = true) v ->
  (Math_max (normalizeVector v) <=? 1)%float = true.
Proof.
  intros Hne Hall. destruct (Math_max_of_traits Hne Hall) as [Hfin Hpos].
  apply normalizeVector_bounded; assumption.
Qed.

Lemma vendorTraitsSchema_within (j : json float)
    (t : VendorTraits.t float) :
  vendorTraitsSchema j = Some t ->
  Forall (fun x => within 0%float 5%float x = true) (vendor_trait_values t).
Proof.
  unfold vendorTraitsSchema.
  destruct j as [| | | | |fields]; try discriminate.
  repeat match goal with
         | |- context [obind (z_required ?schema ?v) _] =>
             let x := fresh "x" in
             let Hx := fresh "Hx" in
             destruct (z_required schema v) as [x|] eqn:Hx;
             [cbn [obind]; apply z_required_number_within in Hx
             |discriminate]
         end.
  intros [= <-]. unfold vendor_trait_values.
  cbn [VendorTraits.serviceQuality VendorTraits.interactionStyle
       VendorTraits.serviceConduct VendorTraits.expertise
       VendorTraits.environment VendorTraits.atmosphere VendorTraits.design
       VendorTraits.hospitality VendorTraits.outcomeQuality
       VendorTraits.waitingTime VendorTraits.physicalElements
       VendorTraits.experienceTone].
  repeat constructor; assumption.
Qed.

Lemma userTraitsSchema_within (j : json float) (t : Traits.t float) :
  userTraitsSchema j = Some t ->
  Forall (fun x => within 0%float 5%float x = true) (getUserTraitVector t).
Proof.
  unfold userTraitsSchema.
  destruct j as [| | | | |fields]; try discriminate.
  repeat match goal with
         | |- context [obind (z_required ?schema ?v) _] =>
             let x := fresh "x" in
             let Hx := fresh "Hx" in
             destruct (z_required schema v) as [x|] eqn:Hx;
             [cbn [obind]; apply z_required_number_within in Hx
             |discriminate]
         end.
  intros [= <-]. unfold getUserTraitVector.
  cbn [Traits.adventurous Traits.decisive Traits.eccentric Traits.flexible
       Traits.loyal Traits.optimistic Traits.patient Traits.perfectionist
       Traits.punctual].
  repeat constructor; assumption.
Qed.

End Binary64Traits.

(** X23.  On binary64 numbers, the traits that the creation schemas accept
    normalise into the unit range: for a body accepted by
    [createVendorSchema], every one of the twelve traits is a number from 0
    to 5 and the largest component of their normalised vector is at most 1;
    the same holds for the nine traits of a body accepted by
    [createUserSchema]. *)
Theorem validated_traits_normalize_within_one :
  (forall (body : json float) (input : CreateVendorInput.t float),
      createVendorSchema body = Some input ->
      let v := vendor_trait_values (CreateVendorInput.traits input) in
      Forall (fun x => within 0%float 5%float x = true) v
      /\ (Math_max (normalizeVector v) <=? 1)%float = true)
  /\ (forall (body : json float) (input : CreateUserInput.t float),
        createUserSchema body = Some input ->
        let v := getUserTraitVector (CreateUserInput.traits input) in
        Forall (fun x => within 0%float 5%float x = true) v
        /\ (Math_max (normalizeVector v) <=? 1)%float = true).
Proof.
  split.
  - intros body input. unfold createVendorSchema.
    destruct body as [| | | | |fields]; try discriminate.
    destruct (z_required z_string_min_1 _); [cbn [obind]|discriminate].
    destruct (z_optional z_string _); [cbn [obind]|discriminate].
    unfold z_required at 1.
    destruct (json_get "traits" fields) as [j|]; [|discriminate].
    destruct (vendorTraitsSchema j) as [t|] eqn:Ht; [|discriminate].
    cbn [obind]. intros [= <-]. cbn [CreateVendorInput.traits]. cbv zeta.
    pose proof (Binary64Traits.vendorTraitsSchema_within _ Ht) as Hall.
    split; [exact Hall|].
    apply Binary64Traits.traits_normalize_within_one; [discriminate|].
    exact Hall.
  - intros body input. unfold createUserSchema.
    destruct body as [| | | | |fields]; try discriminate.
    destruct (z_required z_string_min_1 _); [cbn [obind]|discriminate].
    unfold z_required at 1.
    destruct (json_get "traits" fields) as [j|]; [|discriminate].
    destruct (userTraitsSchema j) as [t|] eqn:Ht; [|discriminate].
    cbn [obind].
    destruct (z_optional behaviorPreferencesSchema _);
      [cbn [obind]|discriminate].
    destruct (z_optional z_boolean _); [cbn [obind]|discriminate].
    intros [= <-]. cbn [CreateUserInput.traits]. cbv zeta.
    pose proof (Binary64Traits.userTraitsSchema_within _ Ht) as Hall.
    split; [exact Hall|].
    apply Binary64Traits.traits_normalize_within_one; [discriminate|].
    exact Hall.
Qed.

Lemma validated_traits_normalize_within_one_witness :
  exists input : CreateVendorInput.t float,
    createVendorSchema Samples.cafe_body = Some input
    /\ (Math_max
          (normalizeVector
             (vendor_trait_values (CreateVendorInput.traits input)))
        <=? 1)%float = true.
Proof.
  eexists. split; [reflexivity|].
  exact (proj2 (proj1 validated_traits_normalize_within_one
                  Samples.cafe_body _ eq_refl)).
Defined.

(* ================================================================= *)
(** * Exact quotients on binary64 numbers *)

Unset Implicit Arguments.
Local Open Scope Z_scope.

(** ** Quotients by itself and by one *)

Lemma div_eucl_exact (q b : Z) :
  0 < b -> Z.div_eucl (q * b) b = (q, 0).
Proof.
  intros Hb.
  pose proof (Z.div_mul q b ltac:(lia)) as Hq.
  pose proof (Z.mod_mul q b ltac:(lia)) as Hr.
  unfold Z.div, Z.modulo in *.
  destruct (Z.div_eucl (q * b) b) as [q' r']. simpl in *. congruence.
Qed.

Lemma new_location_exact (n : Z) : new_location n 0 = loc_Exact.
Proof.
  unfold new_location. destruct (Z.even n); reflexivity.
Qed.

(** The quotient of a mantissa by itself, before rounding. *)
Lemma SFdiv_core_self (m : positive) (e : Z) :
  SFdiv_core_binary prec emax (Zpos m) e (Zpos m) e
  = (2 ^ 53, -53, loc_Exact).
Proof.
  unfold SFdiv_core_binary.
  replace (Zdigits2 (Zpos m) + e - (Zdigits2 (Zpos m) + e)) with 0 by lia.
  rewrite Z.sub_diag.
  change (Z.min (SpecFloat.fexp prec emax 0) 0) with (-53).
  change (0 - -53) with 53.
  cbv beta iota zeta.
  rewrite Z.shiftl_mul_pow2 by lia.
  rewrite (Z.mul_comm (Zpos m)), div_eucl_exact by lia.
  rewrite new_location_exact. reflexivity.
Qed.

Lemma SFdiv_self (s : bool) (m : positive) (e : Z) :
  SFdiv prec emax (S754_finite s m e) (S754_finite s m e)
  = S754_finite false 4503599627370496 (-52).
Proof.
  unfold SFdiv. rewrite SFdiv_core_self. rewrite xorb_nilpotent.
  vm_compute. reflexivity.
Qed.

(** The quotient of a mantissa by the mantissa of 1, before rounding. *)
Lemma SFdiv_core_one (m : positive) (e : Z) :
  SpecFloat.bounded prec emax m e = true ->
  exists k : Z,
    (k = 0 \/ k = 1)
    /\ SFdiv_core_binary prec emax (Zpos m) e 4503599627370496 (-52)
       = (Zpos m * 2 ^ k, e - k, loc_Exact)
    /\ SpecFloat.fexp prec emax (Zdigits2 (Zpos m * 2 ^ k) + (e - k)) = e.
Proof.
  intros Hb.
  pose proof (bounded_facts prec emax m e Hb) as [Hemin [Hdigits Hnormal]].
  unfold SpecFloat.bounded in Hb. apply andb_true_iff in Hb.
  destruct Hb as [Hcanon _]. unfold canonical_mantissa in Hcanon.
  apply Z.eqb_eq in Hcanon.
  unfold SFdiv_core_binary.
  change (Zdigits2 4503599627370496) with 53.
  change (Zdigits2 (Zpos m)) with (Zpos (digits2_pos m)).
  unfold SpecFloat.fexp, SpecFloat.emin in *.
  change prec with 53 in *. change emax with 1024 in *.
  set (d := Zpos (digits2_pos m)) in *.
  destruct (Z.eq_dec e (3 - 1024 - 53)) as [Hsub|Hnorm].
  - exists 0. split; [left; reflexivity|].
    replace (Z.min (Z.max (d + e - (53 + -52) - 53) (3 - 1024 - 53))
               (e - -52)) with e by lia.
    replace (e - -52 - e) with 52 by lia.
    cbv beta iota zeta.
    rewrite Z.shiftl_mul_pow2 by lia.
    change 4503599627370496 with (2 ^ 52).
    rewrite div_eucl_exact by lia. rewrite new_location_exact.
    change (2 ^ 0) with 1. rewrite Z.mul_1_r, Z.sub_0_r.
    split; [reflexivity|]. fold d. exact Hcanon.
  - exists 1. split; [right; reflexivity|].
    assert (Hd : d = 53) by (apply Hnormal; lia).
    replace (Z.min (Z.max (d + e - (53 + -52) - 53) (3 - 1024 - 53))
               (e - -52)) with (e - 1) by lia.
    replace (e - -52 - (e - 1)) with 53 by lia.
    cbv beta iota zeta.
    rewrite Z.shiftl_mul_pow2 by lia.
    change (2 ^ 53) with (2 * 2 ^ 52). rewrite Z.mul_assoc.
    change 4503599627370496 with (2 ^ 52).
    rewrite div_eucl_exact by lia. rewrite new_location_exact.
    change (2 ^ 1) with 2.
    split; [reflexivity|].
    replace (Zpos m * 2) with (Zpos m~0) by lia.
    change (Zdigits2 (Zpos m~0)) with (Zpos (Pos.succ (digits2_pos m))).
    rewrite Pos2Z.inj_succ. fold d. lia.
Qed.

Lemma shr_1_double (m : positive) :
  shr_1 {| shr_m := Zpos m~0; shr_r := false; shr_s := false |}
  = {| shr_m := Zpos m; shr_r := false; shr_s := false |}.
Proof. reflexivity. Qed.

(** Rounding leaves a number that is already representable as it is. *)
Lemma binary_round_aux_exact (s : bool) (m : positive) (e k : Z) :
  SpecFloat.bounded prec emax m e = true ->
  k = 0 \/ k = 1 ->
  SpecFloat.fexp prec emax (Zdigits2 (Zpos m * 2 ^ k) + (e - k)) = e ->
  binary_round_aux prec emax s (Zpos m * 2 ^ k) (e - k) loc_Exact
  = S754_finite s m e.
Proof.
  intros Hb Hk Hfexp.
  assert (Hstep : shr_fexp prec emax (Zpos m * 2 ^ k) (e - k) loc_Exact
                  = ({| shr_m := Zpos m; shr_r := false; shr_s := false |},
                     e)).
  { unfold shr_fexp. rewrite Hfexp. destruct Hk as [->| ->].
    - change (2 ^ 0) with 1. rewrite Z.mul_1_r, Z.sub_0_r, Z.sub_diag.
      reflexivity.
    - change (2 ^ 1) with 2. replace (Zpos m * 2) with (Zpos m~0) by lia.
      replace (e - (e - 1)) with 1 by lia.
      unfold shr. cbn [SpecFloat.iter_pos shr_record_of_loc].
      rewrite shr_1_double. f_equal. lia. }
  unfold binary_round_aux. rewrite Hstep.
  cbn [shr_m loc_of_shr_record round_nearest_even shr_r shr_s].
  assert (Hstep' : shr_fexp prec emax (Zpos m) e loc_Exact
                   = ({| shr_m := Zpos m; shr_r := false; shr_s := false |},
                      e)).
  { unfold shr_fexp.
    unfold SpecFloat.bounded in Hb. apply andb_true_iff in Hb.
    destruct Hb as [Hcanon _]. unfold canonical_mantissa in Hcanon.
    apply Z.eqb_eq in Hcanon.
    change (Zdigits2 (Zpos m)) with (Zpos (digits2_pos m)).
    rewrite Hcanon, Z.sub_diag. reflexivity. }
  rewrite Hstep'. cbn [shr_m].
  unfold SpecFloat.bounded in Hb. apply andb_true_iff in Hb.
  destruct Hb as [_ Hle]. rewrite Hle. reflexivity.
Qed.

Lemma SFdiv_one (x : spec_float) :
  SpecFloat.valid_binary prec emax x = true ->
  SFdiv prec emax x (S754_finite false 4503599627370496 (-52)) = x.
Proof.
  intros Hvalid. destruct x as [s|s| |s m e]; simpl.
  - rewrite xorb_false_r. reflexivity.
  - rewrite xorb_false_r. reflexivity.
  - reflexivity.
  - simpl in Hvalid.
    destruct (SFdiv_core_one m e Hvalid) as [k [Hk [Hcore Hfexp]]].
    rewrite Hcore, xorb_false_r.
    apply binary_round_aux_exact; assumption.
Qed.

Local Close Scope Z_scope.
Set Implicit Arguments.

Module Binary64Exact.

Import Binary64 Binary64Laws Binary64Order.

Lemma div_self (m : float) :
  (0 <? m)%float = true -> PrimFloat.is_finite m = true ->
  (m / m)%float = 1%float.
Proof.
  intros Hpos Hfin.
  destruct (positive_finite m Hpos Hfin) as [my [ey Hm]].
  apply Prim2SF_inj. rewrite FloatAxioms.div_spec, Hm.
  rewrite SFdiv_self. reflexivity.
Qed.

Lemma div_one (y : float) : (y / 1)%float = y.
Proof.
  apply Prim2SF_inj. rewrite FloatAxioms.div_spec.
  change (Prim2SF 1) with (S754_finite false 4503599627370496 (-52)).
  apply SFdiv_one. apply Prim2SF_valid.
Qed.

Lemma positive_not_zero (m : float) :
  (0 <? m)%float = true -> (m =? 0)%float = false.
Proof.
  rewrite FloatAxioms.ltb_spec, FloatAxioms.eqb_spec.
  unfold SFltb, SFeqb.
  rewrite (SFcompare_antisym (Prim2SF 0) (Prim2SF m)).
  destruct (SFcompare (Prim2SF 0) (Prim2SF m)) as [[| |]|]; simpl;
    congruence.
Qed.

(** [Math.max] returns its starting value or one of its arguments. *)
Lemma fold_max_in (v : list float) :
  forall h : float,
    PrimFloat.is_nan (fold_left max_step v h) = false ->
    fold_left max_step v h = h \/ In (fold_left max_step v h) v.
Proof.
  induction v as [|x v IH]; intros h Hnan; simpl in *; [left; reflexivity|].
  assert (Hstep : PrimFloat.is_nan (max_step h x) = false).
  { destruct (PrimFloat.is_nan (max_step h x)) eqn:Hn; [|reflexivity].
    apply Binary64NaN.is_nan_eq in Hn. rewrite Hn, fold_max_nan in Hnan.
    discriminate. }
  destruct (max_step_nan h x Hstep) as [Hh Hx].
  destruct (IH _ Hnan) as [Heq|Hin]; [|right; right; exact Hin].
  rewrite Heq.
  destruct (max_step_upper h x Hh Hx) as [[->| ->] _]; auto.
Qed.

Lemma le_antisym_one (y : float) :
  (y <=? 1)%float = true -> (1 <=? y)%float = true -> y = 1%float.
Proof.
  rewrite !FloatAxioms.leb_spec. unfold SFleb. intros Hle Hge.
  rewrite (SFcompare_antisym (Prim2SF y) (Prim2SF 1)) in Hge.
  destruct (SFcompare (Prim2SF y) (Prim2SF 1)) as [[| |]|] eqn:Hc;
    try discriminate.
  apply Prim2SF_inj.
  destruct (Binary64NaN.SFcompare_Eq _ _ Hc) as [Heq|[s [s' [_ Hone]]]];
    [exact Heq|discriminate Hone].
Qed.

(** The vector normalised by a positive finite maximum. *)
Lemma normalizeVector_positive (v : list float) :
  PrimFloat.is_finite (Math_max v) = true ->
  (0 <? Math_max v)%float = true ->
  normalizeVector v = map (fun x => (x / Math_max v)%float) v
  /\ In 1%float (normalizeVector v)
  /\ Math_max (normalizeVector v) = 1%float.
Proof.
  intros Hfin Hpos.
  assert (Hshape : normalizeVector v
                   = map (fun x => (x / Math_max v)%float) v).
  { unfold normalizeVector.
    change (Math_max v === num_zero)%js with (Math_max v =? 0)%float.
    rewrite (@positive_not_zero _ Hpos). reflexivity. }
  assert (Hnan : PrimFloat.is_nan (Math_max v) = false).
  { pose proof (lt_le _ _ Hpos) as Hle.
    apply (leb_not_nan _ _ Hle). }
  assert (Hin : In 1%float (normalizeVector v)).
  { rewrite Hshape. apply in_map_iff. exists (Math_max v).
    split; [apply div_self; assumption|].
    destruct (@fold_max_in v neg_infinity Hnan) as [Heq|Hin];
      [|exact Hin].
    exfalso. unfold Math_max in Hpos.
    change (@num_max float number) with max_step in Hpos.
    change (@num_neg_infinity float number) with neg_infinity in Hpos.
    rewrite Heq in Hpos. discriminate Hpos. }
  split; [exact Hshape|]. split; [exact Hin|].
  assert (Hupper : (Math_max (normalizeVector v) <=? 1)%float = true)
    by (apply normalizeVector_bounded; [exact Hfin|apply lt_le; exact Hpos]).
  apply le_antisym_one; [exact Hupper|].
  destruct (leb_not_nan _ _ Hupper) as [Hnan' _].
  destruct (fold_max_upper (normalizeVector v) neg_infinity Hnan')
    as [_ Hall].
  rewrite Forall_forall in Hall. apply Hall. exact Hin.
Qed.

Lemma normalizeVector_of_zeros (v : list float) :
  normalizeVector (map (fun _ => 0%float) v) = map (fun _ => 0%float) v.
Proof.
  assert (Hrepeat : map (fun _ : float => 0%float) v
                    = repeat 0%float (List.length v)).
  { induction v as [|x v IH]; simpl; [reflexivity|]. rewrite IH.
    reflexivity. }
  rewrite Hrepeat.
  exact (@normalizeVector_zeros float _ _ (List.length v)).
Qed.

End Binary64Exact.

(** X24.  On binary64 numbers, when the maximum of the vector is finite and
    positive, [normalizeVector] divides every component by it, the result
    has a component that is exactly 1, and the maximum of the result is
    exactly 1 (a correctly rounded quotient of a number by itself is 1). *)
Theorem normalizeVector_maximum_is_one :
  forall v : list float,
    PrimFloat.is_finite (Math_max v) = true ->
    (0 <? Math_max v)%float = true ->
    normalizeVector v = map (fun x => (x / Math_max v)%float) v
    /\ In 1%float (normalizeVector v)
    /\ Math_max (normalizeVector v) = 1%float.
Proof.
  intros v Hfin Hpos.
  exact (Binary64Exact.normalizeVector_positive v Hfin Hpos).
Qed.

Lemma normalizeVector_maximum_is_one_witness :
  Math_max (normalizeVector [3%float; 0.1%float; 5%float]) = 1%float.
Proof.
  exact (proj2 (proj2 (normalizeVector_maximum_is_one
                         [3%float; 0.1%float; 5%float] eq_refl eq_refl))).
Defined.

(** X25.  On binary64 numbers, [normalizeVector] is idempotent on the
    vectors whose maximum is finite and not negative: normalising the
    normalised vector gives it back (the maximum of a normalised vector is 1
    or 0, and a quotient by 1 is exact). *)
Theorem normalizeVector_idempotent :
  forall v : list float,
    PrimFloat.is_finite (Math_max v) = true ->
    (0 <=? Math_max v)%float = true ->
    normalizeVector (normalizeVector v) = normalizeVector v.
Proof.
  intros v Hfin Hpos.
  destruct (Math_max v =? 0)%float eqn:Hzero.
  - assert (Hshape : normalizeVector v = map (fun _ => 0%float) v).
    { unfold normalizeVector.
      change (Math_max v === num_zero)%js with (Math_max v =? 0)%float.
      rewrite Hzero. reflexivity. }
    rewrite Hshape. apply Binary64Exact.normalizeVector_of_zeros.
  - pose proof (Binary64Order.zero_lt _ Hpos Hzero) as Hlt.
    destruct (Binary64Exact.normalizeVector_positive v Hfin Hlt)
      as [_ [_ Hone]].
    unfold normalizeVector at 1. rewrite Hone.
    change (1%float === num_zero)%js with false. cbv iota.
    rewrite (map_ext _ (fun x => x) Binary64Exact.div_one).
    apply map_id.
Qed.

Lemma normalizeVector_idempotent_witness :
  normalizeVector (normalizeVector [3%float; 0.1%float; 5%float])
  = normalizeVector [3%float; 0.1%float; 5%float].
Proof.
  exact (normalizeVector_idempotent [3%float; 0.1%float; 5%float]
           eq_refl eq_refl).
Defined.

(* ================================================================= *)
(** * The cosine in exact arithmetic *)

Section ExactBounds.
Local Open Scope R_scope.

(** The Cauchy-Schwarz inequality for the vectors of the loop. *)
Lemma dot_product_squared (a : list R) :
  forall b : list R,
    dot_product a b * dot_product a b
    <= dot_product a a * dot_product b b.
Proof.
  induction a as [|x a IH]; intros [|y b]; simpl; try nra.
  - specialize (IH b).
    pose proof (dot_self_nonneg a) as HA.
    pose proof (dot_self_nonneg b) as HB.
    set (A := dot_product a a) in *. set (B := dot_product b b) in *.
    set (D := dot_product a b) in *.
    assert (Hcross : 2 * (x * y * D) <= A * (y * y) + B * (x * x)).
    { destruct (Rle_dec (2 * (x * y * D)) (A * (y * y) + B * (x * x)))
        as [Hle|Hgt]; [exact Hle|]. exfalso.
      assert (H0 : 0 <= A * (y * y) + B * (x * x)) by nra.
      assert (H1 : (A * (y * y) + B * (x * x)) * (A * (y * y) + B * (x * x))
                   < (2 * (x * y * D)) * (2 * (x * y * D))) by nra.
      assert (H2 : 4 * (A * B) * (x * x * (y * y))
                   <= (A * (y * y) + B * (x * x))
                      * (A * (y * y) + B * (x * x)))
        by (pose proof (Rle_0_sqr (A * (y * y) - B * (x * x))) as Hs;
            unfold Rsqr in Hs; nra).
      assert (H3 : (D * D) * (x * x * (y * y))
                   <= (A * B) * (x * x * (y * y))).
      { apply Rmult_le_compat_r; [|exact IH]. nra. }
      nra. }
    nra.
Qed.

Lemma dot_product_bound (a b : list R) :
  Rabs (dot_product a b) <= euclidean_norm a * euclidean_norm b.
Proof.
  unfold euclidean_norm.
  rewrite <- sqrt_mult by apply dot_self_nonneg.
  rewrite <- sqrt_Rsqr_abs. apply sqrt_le_1_alt. unfold Rsqr.
  apply dot_product_squared.
Qed.


Lemma cosineSimilarity_within_unit (a b : list R) :
  exists c : R,
    cosineSimilarity (map Fin a) (map Fin b) = Fin c /\ -1 <= c <= 1.
Proof.
  destruct (length_guard_cases a b) as [Hguard|[Ha Hlen]].
  - exists 0. split; [|lra].
    change (Fin 0) with (@num_zero xreal _).
    apply cosineSimilarity_length_guard.
    destruct Hguard as [->|[->|Hne]];
      [left; reflexivity|right; left; reflexivity|].
    right. right. rewrite !length_map. exact Hne.
  - rewrite (@cosineSimilarity_fin a b Ha Hlen).
    destruct (Req_b (dot_product a a) 0 || Req_b (dot_product b b) 0)%bool
      eqn:Hzero.
    + exists 0. split; [reflexivity|lra].
    + eexists. split; [reflexivity|].
      apply orb_false_iff in Hzero. destruct Hzero as [Ea Eb].
      apply Req_b_false in Ea, Eb.
      pose proof (dot_product_bound a b) as Hbound.
      assert (Hna : 0 < euclidean_norm a).
      { unfold euclidean_norm. apply sqrt_lt_R0.
        pose proof (dot_self_nonneg a). lra. }
      assert (Hnb : 0 < euclidean_norm b).
      { unfold euclidean_norm. apply sqrt_lt_R0.
        pose proof (dot_self_nonneg b). lra. }
      assert (Hpos : 0 < euclidean_norm a * euclidean_norm b)
        by (apply Rmult_lt_0_compat; assumption).
      set (c := dot_product a b / (euclidean_norm a * euclidean_norm b)).
      assert (Hc : Rabs c <= 1).
      { unfold c, Rdiv. rewrite Rabs_mult.
        rewrite (Rabs_right (/ _))
          by (apply Rle_ge; left; apply Rinv_0_lt_compat; exact Hpos).
        apply (Rmult_le_reg_r (euclidean_norm a * euclidean_norm b));
          [exact Hpos|].
        rewrite Rmult_assoc, Rinv_l by lra. lra. }
      pose proof (Rle_abs c) as Hle.
      pose proof (Rle_abs (- c)) as Hge. rewrite Rabs_Ropp in Hge.
      lra.
Qed.

Lemma cosineSimilarity_self (a : list R) :
  euclidean_norm a <> 0 ->
  cosineSimilarity (map Fin a) (map Fin a) = Fin 1.
Proof.
  intros Hnorm.
  assert (Ha : a <> []).
  { intros ->. apply Hnorm. unfold euclidean_norm. simpl. apply sqrt_0. }
  rewrite (@cosineSimilarity_fin a a Ha eq_refl).
  assert (Hdot : dot_product a a <> 0).
  { intros Hz. apply Hnorm. apply euclidean_norm_zero. exact Hz. }
  rewrite (Req_b_neq Hdot). simpl. f_equal.
  unfold euclidean_norm. rewrite sqrt_sqrt by apply dot_self_nonneg.
  field. exact Hdot.
Qed.

End ExactBounds.

(** On binary64 numbers rounding can push the similarity of a vector with
    itself above 1. *)
Example cosineSimilarity_self_above_one :
  cosineSimilarity [0.1%float; 0.7%float] [0.1%float; 0.7%float]
  = 1.0000000000000002%float.
Proof. vm_compute. reflexivity. Qed.

(** In exact arithmetic (no rounding, no overflow), an idealisation of
    the numbers of the program,
    [cosineSimilarity] of two vectors of finite numbers is a finite number
    from -1 to 1, and the similarity of a vector of non-zero norm with
    itself is 1. *)
Theorem cosineSimilarity_exact_range :
  forall a b : list R,
    (exists c : R,
        cosineSimilarity (map Fin a) (map Fin b) = Fin c /\ (-1 <= c <= 1)%R)
    /\ (euclidean_norm a <> 0%R ->
        cosineSimilarity (map Fin a) (map Fin a) = Fin 1).
Proof.
  intros a b. split.
  - apply cosineSimilarity_within_unit.
  - apply cosineSimilarity_self.
Qed.

(* ================================================================= *)
(** * The traits of a response, and the creation of a user *)

Section ResponseFacts.

Context {N : Type} `{JsNumber N}.
Variable world : World.t N.

Lemma parseAdjustments_validated (adjustmentsRaw : option string)
    (a : Adjustments.t N) :
  parseAdjustments world adjustmentsRaw = ret (Some a) ->
  exists j : json N, adjustmentsSchema j = Some a.
Proof.
  unfold parseAdjustments. destruct adjustmentsRaw as [raw|];
    [|discriminate].
  destruct (String.eqb raw ""); [discriminate|].
  destruct (World.JSON_parse world raw) as [parsed|]; [|discriminate].
  destruct (adjustmentsSchema parsed) as [a'|] eqn:Hschema;
    [|discriminate].
  intros [= <-]. exists parsed. exact Hschema.
Qed.

Lemma effectiveTraits_within (user : User.t N)
    (adjustments : option (Adjustments.t N)) :
  (forall a, adjustments = Some a ->
             forall x : N, In (Some x) (trait_overrides a) ->
                           within num_zero num_five x = true) ->
  traits_within (User.traits user) = true ->
  traits_within (effectiveTraits user adjustments) = true.
Proof.
  intros Hval. unfold traits_within, effectiveTraits, getUserTraitVector.
  cbn [Traits.adventurous Traits.decisive Traits.eccentric Traits.flexible
       Traits.loyal Traits.optimistic Traits.patient Traits.perfectionist
       Traits.punctual forallb].
  rewrite !andb_true_iff.
  intros [H1 [H2 [H3 [H4 [H5 [H6 [H7 [H8 [H9 _]]]]]]]]].
  destruct adjustments as [a|]; cbn [adjusted].
  - specialize (Hval a eq_refl). unfold trait_overrides in Hval.
    repeat split;
      (apply nullish_within; [|assumption]);
      intros x Hx; apply Hval; rewrite <- Hx; simpl; auto 12.
  - cbn [nullish]. repeat split; assumption.
Qed.

End ResponseFacts.

(** X27.  The traits of a response are in range: when the nine stored
    traits of the user are numbers from 0 to 5, so are the nine traits that
    [computeRecommendations] reports in [user.traits] and scores with,
    whatever the adjustments (an override outside the range does not pass
    the schema). *)
Theorem response_traits_in_range :
  forall (N : Type) (HN : JsNumber N) (world : World.t N) (userId : Z)
         (user : User.t N) (testMode : bool) (adjustmentsRaw : option string)
         (options : option (option bool)) (r : Result.t N),
    World.users world userId = Some user ->
    traits_within (User.traits user) = true ->
    result (computeRecommendations world userId testMode adjustmentsRaw
              options)
    = Returned (Some r) ->
    traits_within (ResultUser.traits (Result.user r)) = true.
Proof.
  intros N HN world userId user testMode adjustmentsRaw options r Huser
         Hstored Hrun.
  destruct (computeRecommendations_ranked world _ _ _ _ Hrun)
    as [user' [adjustments [userEmbedding [Huser' [Hparse ->]]]]].
  assert (user' = user) by congruence. subst user'.
  unfold rankVendors. cbn [Result.user ResultUser.traits].
  apply effectiveTraits_within; [|exact Hstored].
  intros a -> x Hx.
  destruct (parseAdjustments_validated world adjustmentsRaw Hparse)
    as [j Hschema].
  exact (proj1 (@adjustmentsSchema_overrides_within N HN j a Hschema) x Hx).
Qed.

Lemma response_traits_in_range_witness :
  exists r : Result.t float,
    result (computeRecommendations Fixtures.world 1 true
              (Some Fixtures.empty_object_text) None)
    = Returned (Some r)
    /\ traits_within (ResultUser.traits (Result.user r)) = true.
Proof.
  eexists. split; [reflexivity|].
  exact (@response_traits_in_range float _ Fixtures.world 1 Fixtures.alex
           true (Some Fixtures.empty_object_text) None _ eq_refl eq_refl
           eq_refl).
Defined.

(** X28.  [UsersService.create] requests one embedding, for the prompt of
    the input, and writes nothing when that fails.  When it succeeds it
    creates one user with the input's name and traits, the embedding just
    generated, the input's preferences or [null], and the test flag, which
    is false when omitted; and unless the user is a test user, the prompt is
    the one that the recommendations service builds from the same name,
    traits and preferences. *)
Theorem user_create_run :
  forall (N : Type) (HN : JsNumber N) (world : World.t N)
         (prisma : Prisma.t N) (input : CreateUserInput.t N),
    let run := UsersService.create world prisma input in
    let prompt :=
      UsersService.buildUserPrompt world (CreateUserInput.name input)
        (CreateUserInput.traits input)
        (CreateUserInput.behaviorPreferences input)
        (CreateUserInput.isTestUser input) in
    match World.generateEmbedding world prompt with
    | None => run = ([GenerateEmbedding prompt], Thrown EmbeddingFailure)
    | Some embedding =>
        let data :=
          {| UserCreateData.name := CreateUserInput.name input;
             UserCreateData.traits := CreateUserInput.traits input;
             UserCreateData.embedding := embedding;
             UserCreateData.behaviorPreferences :=
               CreateUserInput.behaviorPreferences input;
             UserCreateData.isTestUser :=
               match CreateUserInput.isTestUser input with
               | Some true => true
               | _ => false
               end |} in
        run = ([GenerateEmbedding prompt; UserCreate data],
               Returned (Prisma.user_create prisma data))
        /\ (UserCreateData.isTestUser data = false ->
            prompt
            = buildUserPromptFromTraits world (CreateUserInput.name input)
                (CreateUserInput.traits input)
                (CreateUserInput.behaviorPreferences input))
    end.
Proof.
  intros N HN world prisma input run prompt. subst run.
  unfold UsersService.create. fold prompt. unfold generateEmbedding.
  destruct (World.generateEmbedding world prompt) as [embedding|];
    [|reflexivity].
  cbv zeta. cbn [UserCreateData.isTestUser]. split.
  - simpl. destruct (CreateUserInput.isTestUser input) as [[|]|];
      reflexivity.
  - intros Hplain. unfold prompt. apply buildUserPrompt_agrees.
    destruct (CreateUserInput.isTestUser input) as [[|]|]; congruence.
Qed.

(* ================================================================= *)
(** * The behaviour score over a consistent database *)

Section IntegrityFacts.

Context {N : Type} `{JsNumber N}.

(** Every liked interaction whose vendor is in the table resolves in the
    liked-vendors map. *)
Lemma liked_interactions_resolve (user : User.t N)
    (vendors : list (Vendor.t N)) :
  NoDup (map (@Vendor.id N) vendors) ->
  (forall i : InteractionRow.t,
      In i (User.interactions user) -> InteractionRow.liked i = true ->
      In (InteractionRow.vendorId i) (map (@Vendor.id N) vendors)) ->
  all_liked_resolve (map summarize (User.interactions user))
    (buildLikedVendorsTraitMap user vendors) = true.
Proof.
  intros Hnodup Hknown. unfold all_liked_resolve.
  apply forallb_forall. intros s Hs. apply filter_In in Hs.
  destruct Hs as [Hin Hliked]. apply in_map_iff in Hin.
  destruct Hin as [i [<- Hi]]. unfold summarize in *.
  cbn [InteractionSummary.vendorId InteractionSummary.liked] in *.
  destruct (proj1 (in_map_iff _ _ _) (Hknown i Hi Hliked))
    as [vendor [Hid Hvendor]].
  rewrite <- Hid.
  change (buildLikedVendorsTraitMap user vendors)
    with (fold_left
            (fun m vendor =>
               if liked_by user (Vendor.id vendor)
               then NumberMap.set (Vendor.id vendor)
                      (getVendorTraitVector vendor) m
               else m)
            vendors NumberMap.empty).
  rewrite (@liked_map_loop_vendor N user vendors Hnodup NumberMap.empty
             vendor Hvendor).
  assert (Hby : liked_by user (Vendor.id vendor) = true).
  { unfold liked_by. apply existsb_exists. exists i.
    split; [exact Hi|]. rewrite Hid, Z.eqb_refl, Hliked. reflexivity. }
  rewrite Hby. reflexivity.
Qed.

End IntegrityFacts.

(** X29.  On binary64 numbers, over a consistent database the behaviour
    score is the formula of the specification.  When the vendor ids are
    distinct, the user has at most one interaction per vendor (and fewer
    than 2^32 interactions), and every liked interaction names a vendor of
    the vendor table, every liked vendor resolves in the liked-vendors map,
    and the behaviour score of every recommendation is 0.6 times the direct
    score plus 0.4 times the average trait similarity to all the liked
    vendors. *)
Theorem behaviorScore_over_consistent_database :
  forall (world : World.t float) (userId : Z) (user : User.t float)
         (testMode : bool) (adjustmentsRaw : option string)
         (options : option (option bool)) (r : Result.t float),
    World.users world userId = Some user ->
    NoDup (map (@Vendor.id float) (World.vendors world)) ->
    NoDup (map InteractionRow.vendorId (User.interactions user)) ->
    (Z.of_nat (List.length (User.interactions user)) < 2 ^ 32)%Z ->
    (forall i : InteractionRow.t,
        In i (User.interactions user) -> InteractionRow.liked i = true ->
        In (InteractionRow.vendorId i)
           (map (@Vendor.id float) (World.vendors world))) ->
    result (computeRecommendations world userId testMode adjustmentsRaw
              options)
    = Returned (Some r) ->
    let userInteractions := map summarize (User.interactions user) in
    let likedVendorsTraitMap :=
      buildLikedVendorsTraitMap user (World.vendors world) in
    all_liked_resolve userInteractions likedVendorsTraitMap = true
    /\ Forall
         (fun item =>
            Scores.behaviorScore (RecommendationItem.scores item)
            = behaviorScore_spec
                (Vendor.id (RecommendationItem.vendor item))
                userInteractions
                (getVendorTraitVector (RecommendationItem.vendor item))
                likedVendorsTraitMap)
         (Result.recommendations r).
Proof.
  intros world userId user testMode adjustmentsRaw options r Huser Hvendors
         Hpairs Hsmall Hknown Hrun userInteractions likedVendorsTraitMap.
  assert (Hresolve : all_liked_resolve userInteractions likedVendorsTraitMap
                     = true)
    by (apply liked_interactions_resolve; assumption).
  split; [exact Hresolve|].
  destruct (computeRecommendations_ranked world _ _ _ _ Hrun)
    as [user' [adjustments [userEmbedding [Huser' [_ ->]]]]].
  assert (user' = user) by congruence. subst user'.
  unfold rankVendors. cbn [Result.recommendations].
  eapply Permutation_Forall; [apply Array_sort_permutation|].
  apply Forall_forall. intros item Hitem. apply in_map_iff in Hitem.
  destruct Hitem as [vendor [<- _]]. unfold scoreVendor.
  cbn [RecommendationItem.scores RecommendationItem.vendor
       Scores.behaviorScore].
  fold userInteractions. fold likedVendorsTraitMap.
  apply (@computeBehaviorScoreForVendor_spec float _ _ (Vendor.id vendor)
           userInteractions (getVendorTraitVector vendor)
           likedVendorsTraitMap).
  - unfold userInteractions. rewrite map_map. exact Hpairs.
  - unfold userInteractions. rewrite length_map. exact Hsmall.
  - exact Hresolve.
Qed.

Lemma behaviorScore_over_consistent_database_witness :
  exists r : Result.t float,
    result (computeRecommendations Fixtures.world 1 false None None)
    = Returned (Some r)
    /\ map (fun item => Scores.behaviorScore (RecommendationItem.scores item))
         (Result.recommendations r)
       = map (fun item =>
                behaviorScore_spec
                  (Vendor.id (RecommendationItem.vendor item))
                  (map summarize (User.interactions Fixtures.alex))
                  (getVendorTraitVector (RecommendationItem.vendor item))
                  (buildLikedVendorsTraitMap Fixtures.alex
                     (World.vendors Fixtures.world)))
           (Result.recommendations r).
Proof.
  eexists. split; [reflexivity|].
  assert (Hvendors : NoDup (map (@Vendor.id float)
                              (World.vendors Fixtures.world)))
    by (repeat constructor; simpl; intuition discriminate).
  assert (Hpairs : NoDup (map InteractionRow.vendorId
                            (User.interactions Fixtures.alex)))
    by (repeat constructor; simpl; intuition discriminate).
  assert (Hknown : forall i : InteractionRow.t,
             In i (User.interactions Fixtures.alex) ->
             InteractionRow.liked i = true ->
             In (InteractionRow.vendorId i)
                (map (@Vendor.id float) (World.vendors Fixtures.world))).
  { intros i [<-|[]] _. left. reflexivity. }
  pose proof (proj2 (@behaviorScore_over_consistent_database Fixtures.world
                       1 Fixtures.alex false None None _ eq_refl Hvendors
                       Hpairs eq_refl Hknown eq_refl)) as Hall.
  apply map_ext_in. intros item Hitem.
  rewrite Forall_forall in Hall. exact (Hall item Hitem).
Defined.

(** X30.  On binary64 numbers, the weight normalisation leaves the weights
    as they are in two cases: when their sum is falsy (0 or NaN), because
    the divisor is then 1, and when their sum is exactly 1, as for the
    default weights 0.5, 0.3 and 0.2; in both cases a quotient by 1 is
    exact.  In every other case each weight is divided by the sum. *)
Theorem normalizeWeights_fixed_points :
  forall w : Weights.t float,
    let sum :=
      (Weights.embedding w + Weights.traits w + Weights.behavior w)%float in
    (Binary64.truthy sum = false \/ sum = 1%float -> normalizeWeights w = w)
    /\ (Binary64.truthy sum = true ->
        normalizeWeights w
        = {| Weights.embedding := (Weights.embedding w / sum)%float;
             Weights.traits := (Weights.traits w / sum)%float;
             Weights.behavior := (Weights.behavior w / sum)%float |})
    /\ normalizeWeights (@defaultWeights float _) = defaultWeights.
Proof.
  intros w sum.
  assert (Hone : forall v : Weights.t float,
             {| Weights.embedding := (Weights.embedding v / 1)%float;
                Weights.traits := (Weights.traits v / 1)%float;
                Weights.behavior := (Weights.behavior v / 1)%float |} = v).
  { intros [e t b]. cbn [Weights.embedding Weights.traits Weights.behavior].
    rewrite !Binary64Exact.div_one. reflexivity. }
  split; [|split].
  - intros Hcase. unfold normalizeWeights, num_or.
    change (@num_truthy float _) with Binary64.truthy.
    change (@num_add float _) with PrimFloat.add.
    change (@num_div float _) with PrimFloat.div.
    change (@num_one float _) with 1%float.
    fold sum. destruct (Binary64.truthy sum) eqn:Htruthy.
    + destruct Hcase as [Hfalse|Hsum]; [discriminate|].
      rewrite Hsum. apply Hone.
    + apply Hone.
  - intros Htruthy. unfold normalizeWeights, num_or.
    change (@num_truthy float _) with Binary64.truthy.
    change (@num_add float _) with PrimFloat.add.
    change (@num_div float _) with PrimFloat.div.
    fold sum. rewrite Htruthy. reflexivity.
  - reflexivity.
Qed.

(* ================================================================= *)
(** * The rounding error of the binary64 operations

    Binary64 numbers are read as real numbers, and the operations of
    [SpecFloat], which specify the primitive floats, are shown to round the
    exact result to a nearest number. *)

Unset Implicit Arguments.

Local Open Scope R_scope.

Lemma Rabs_le_between (a b : R) : Rabs a <= b -> - b <= a <= b.
Proof. unfold Rabs. destruct (Rcase_abs a); lra. Qed.

Lemma pow2_pos (e : Z) : 0 < pow2 e.
Proof. apply powerRZ_lt. lra. Qed.

Lemma pow2_add (a b : Z) : pow2 (a + b) = pow2 a * pow2 b.
Proof. apply powerRZ_add. lra. Qed.

Lemma pow2_0 : pow2 0 = 1.
Proof. reflexivity. Qed.

Lemma pow2_1 : pow2 1 = 2.
Proof. unfold pow2. simpl. lra. Qed.

Lemma pow2_m1 : pow2 (-1) = / 2.
Proof. unfold pow2. simpl. lra. Qed.

Lemma pow2_opp (a : Z) : pow2 (- a) = / pow2 a.
Proof. apply powerRZ_neg'. Qed.

Lemma pow2_succ (a : Z) : pow2 (a + 1) = 2 * pow2 a.
Proof. rewrite pow2_add, pow2_1. lra. Qed.

Lemma pow2_pred (a : Z) : pow2 (a - 1) = pow2 a / 2.
Proof.
  replace a with ((a - 1) + 1)%Z at 2 by lia. rewrite pow2_succ. lra.
Qed.

Lemma pow2_cancel (a : Z) : pow2 a * pow2 (- a) = 1.
Proof. rewrite <- pow2_add, Z.add_opp_diag_r. reflexivity. Qed.

Lemma pow2_scale (x : R) (a : Z) : x * pow2 (- a) * pow2 a = x.
Proof.
  rewrite Rmult_assoc, (Rmult_comm (pow2 (- a))), pow2_cancel. ring.
Qed.

Lemma pow2_IZR (k : Z) : (0 <= k)%Z -> pow2 k = IZR (2 ^ k).
Proof.
  intros Hk. destruct k as [|p|p]; try lia.
  - reflexivity.
  - unfold pow2. change (2 ^ Zpos p)%Z with (Z.pow_pos 2 p).
    rewrite Zpower_pos_powerRZ. reflexivity.
Qed.

Lemma pow2_le (a b : Z) : (a <= b)%Z -> pow2 a <= pow2 b.
Proof.
  intros Hab. replace b with (a + (b - a))%Z by lia.
  rewrite pow2_add, (pow2_IZR (b - a)) by lia.
  assert (H1 : (1 <= 2 ^ (b - a))%Z).
  { assert (0 < 2 ^ (b - a))%Z by (apply Z.pow_pos_nonneg; lia). lia. }
  apply IZR_le in H1. pose proof (pow2_pos a). nra.
Qed.

Lemma pow2_lt (a b : Z) : (a < b)%Z -> pow2 a < pow2 b.
Proof.
  intros Hab. apply Rlt_le_trans with (pow2 (a + 1)).
  - rewrite pow2_succ. pose proof (pow2_pos a). lra.
  - apply pow2_le. lia.
Qed.

Lemma pow2_lt_inv (a b : Z) : pow2 a < pow2 b -> (a < b)%Z.
Proof.
  intros H. destruct (Z.lt_ge_cases a b) as [Hlt|Hge]; [exact Hlt|].
  pose proof (pow2_le b a Hge). lra.
Qed.

Lemma shr_1_located (mrs : shr_record) (y : R) :
  (0 <= shr_m mrs)%Z -> located mrs y -> located (shr_1 mrs) (y / 2).
Proof.
  destruct mrs as [m r s]. unfold located. cbn [shr_m shr_r shr_s].
  intros Hm Hy.
  destruct m as [|[p|p|]|p]; try lia; cbn [shr_1 shr_m shr_r shr_s].
  - destruct r, s; cbn [orb]; lra.
  - change (Zpos p~1) with (2 * Zpos p + 1)%Z in Hy.
    rewrite plus_IZR, mult_IZR in Hy.
    destruct r, s; cbn [orb]; lra.
  - change (Zpos p~0) with (2 * Zpos p)%Z in Hy.
    rewrite mult_IZR in Hy.
    destruct r, s; cbn [orb]; lra.
  - destruct r, s; cbn [orb]; lra.
Qed.

Lemma shr_1_nonneg (mrs : shr_record) :
  (0 <= shr_m mrs)%Z -> (0 <= shr_m (shr_1 mrs))%Z.
Proof.
  intros Hm. rewrite shr_1_m by assumption. apply Z.div_pos; lia.
Qed.

Lemma iter_located (k : positive) :
  forall (mrs : shr_record) (y : R),
    (0 <= shr_m mrs)%Z -> located mrs y ->
    located (SpecFloat.iter_pos shr_1 k mrs) (y * pow2 (- Zpos k))
    /\ (0 <= shr_m (SpecFloat.iter_pos shr_1 k mrs))%Z.
Proof.
  induction k as [k IH|k IH|]; intros mrs y Hm Hy.
  - change (SpecFloat.iter_pos shr_1 k~1 mrs)
      with (SpecFloat.iter_pos shr_1 k
              (SpecFloat.iter_pos shr_1 k (shr_1 mrs))).
    destruct (IH _ _ (shr_1_nonneg _ Hm) (shr_1_located _ _ Hm Hy))
      as [H1 Hm1].
    destruct (IH _ _ Hm1 H1) as [H2 Hm2]. split; [|exact Hm2].
    replace (y * pow2 (- Zpos k~1))
      with (y / 2 * pow2 (- Zpos k) * pow2 (- Zpos k)); [exact H2|].
    replace (- Zpos k~1)%Z with (- 1 + (- Zpos k + - Zpos k))%Z by lia.
    rewrite !pow2_add, pow2_m1. lra.
  - change (SpecFloat.iter_pos shr_1 k~0 mrs)
      with (SpecFloat.iter_pos shr_1 k (SpecFloat.iter_pos shr_1 k mrs)).
    destruct (IH _ _ Hm Hy) as [H1 Hm1].
    destruct (IH _ _ Hm1 H1) as [H2 Hm2]. split; [|exact Hm2].
    replace (y * pow2 (- Zpos k~0))
      with (y * pow2 (- Zpos k) * pow2 (- Zpos k)); [exact H2|].
    replace (- Zpos k~0)%Z with (- Zpos k + - Zpos k)%Z by lia.
    rewrite !pow2_add. lra.
  - change (SpecFloat.iter_pos shr_1 1 mrs) with (shr_1 mrs).
    split; [|apply shr_1_nonneg; exact Hm].
    change (pow2 (- Zpos 1)) with (pow2 (-1)). rewrite pow2_m1.
    apply shr_1_located; assumption.
Qed.

Lemma shr_located (mrs : shr_record) (e n : Z) (x : R) :
  (0 <= shr_m mrs)%Z -> (0 <= n)%Z ->
  located mrs (x * pow2 (- e)) ->
  snd (shr mrs e n) = (e + n)%Z
  /\ located (fst (shr mrs e n)) (x * pow2 (- (e + n)))
  /\ shr_m (fst (shr mrs e n)) = (shr_m mrs / 2 ^ n)%Z.
Proof.
  intros Hm Hn Hy. destruct n as [|k|k]; try lia; cbn [shr fst snd].
  - rewrite Z.add_0_r, Z.pow_0_r, Z.div_1_r. auto.
  - split; [reflexivity|].
    destruct (iter_located k _ _ Hm Hy) as [H1 _].
    split; [|apply shr_m_iter; exact Hm].
    replace (x * pow2 (- (e + Zpos k)))
      with (x * pow2 (- e) * pow2 (- Zpos k)); [exact H1|].
    replace (- (e + Zpos k))%Z with (- e + - Zpos k)%Z by lia.
    rewrite pow2_add. lra.
Qed.

Lemma round_nearest_even_located (mrs : shr_record) (y : R) :
  located mrs y ->
  let r := round_nearest_even (shr_m mrs) (loc_of_shr_record mrs) in
  (r = shr_m mrs \/ r = (shr_m mrs + 1)%Z)
  /\ Rabs (IZR r - y) <= / 2
  /\ IZR (shr_m mrs) <= y
  /\ (shr_r mrs = false -> shr_s mrs = false -> r = shr_m mrs).
Proof.
  destruct mrs as [m r s]. unfold located. cbn [shr_m shr_r shr_s].
  intros Hy.
  destruct r, s; cbn [loc_of_shr_record round_nearest_even];
    try destruct (Z.even m); rewrite ?plus_IZR;
    (split; [auto|split; [apply Rabs_le; lra|split; [lra|]]]);
    try discriminate; auto.
Qed.

Local Open Scope Z_scope.

Lemma Zdigits2_lower (m : Z) : 0 < m -> 2 ^ (Zdigits2 m - 1) <= m.
Proof.
  destruct m as [|p|p]; try lia. intros _. apply digits2_pos_lower.
Qed.

Lemma Zdigits2_upper (m : Z) : 0 <= m -> m < 2 ^ Zdigits2 m.
Proof.
  destruct m as [|p|p]; try lia; intros _.
  - simpl. lia.
  - apply digits2_pos_upper.
Qed.

Lemma Zdigits2_nonneg (m : Z) : 0 <= Zdigits2 m.
Proof. destruct m; simpl; lia. Qed.

Lemma Zdigits2_below (m k : Z) : 0 <= k -> 0 <= m < 2 ^ k -> Zdigits2 m <= k.
Proof.
  intros Hk [Hm0 Hm].
  destruct (Z.eq_dec m 0) as [->|Hne]; [simpl; lia|].
  pose proof (Zdigits2_lower m ltac:(lia)) as Hlow.
  destruct (Z.le_gt_cases (Zdigits2 m) k) as [Hle|Hgt]; [exact Hle|].
  exfalso.
  assert (2 ^ k <= 2 ^ (Zdigits2 m - 1)) by (apply Z.pow_le_mono_r; lia).
  lia.
Qed.

Lemma Zdigits2_above (m k : Z) : 0 <= k -> 2 ^ k <= m -> k + 1 <= Zdigits2 m.
Proof.
  intros Hk Hm.
  assert (Hpos : 0 < 2 ^ k) by (apply Z.pow_pos_nonneg; lia).
  pose proof (Zdigits2_upper m ltac:(lia)) as Hup.
  pose proof (Zdigits2_nonneg m) as Hd.
  destruct (Z.le_gt_cases (k + 1) (Zdigits2 m)) as [Hle|Hgt]; [exact Hle|].
  exfalso.
  assert (2 ^ Zdigits2 m <= 2 ^ k) by (apply Z.pow_le_mono_r; lia).
  lia.
Qed.

Lemma Zdigits2_pow2 (k : Z) : 0 <= k -> Zdigits2 (2 ^ k) = k + 1.
Proof.
  intros Hk.
  assert (Hpos : 0 < 2 ^ k) by (apply Z.pow_pos_nonneg; lia).
  pose proof (Zdigits2_above (2 ^ k) k Hk ltac:(lia)) as H1.
  assert (H2 : Zdigits2 (2 ^ k) <= k + 1).
  { apply Zdigits2_below; [lia|]. split; [lia|].
    rewrite Z.pow_add_r by lia. change (2 ^ 1) with 2. lia. }
  lia.
Qed.

Lemma Zdigits2_shift (p : positive) (k : Z) :
  0 <= k -> Zdigits2 (Zpos p * 2 ^ k) = Zpos (digits2_pos p) + k.
Proof.
  intros Hk. set (d := Zpos (digits2_pos p)).
  pose proof (digits2_pos_lower p) as Hlow.
  pose proof (digits2_pos_upper p) as Hup. fold d in Hlow, Hup.
  assert (Hd : 1 <= d) by (unfold d; lia).
  assert (Hpk : 0 < 2 ^ k) by (apply Z.pow_pos_nonneg; lia).
  assert (H1 : d + k <= Zdigits2 (Zpos p * 2 ^ k)).
  { replace (d + k) with (d - 1 + k + 1) by lia.
    apply Zdigits2_above; [lia|]. rewrite Z.pow_add_r by lia. nia. }
  assert (H2 : Zdigits2 (Zpos p * 2 ^ k) <= d + k).
  { apply Zdigits2_below; [lia|]. split; [nia|].
    rewrite Z.pow_add_r by lia. nia. }
  lia.
Qed.

Lemma shl_align_spec (p : positive) (e e' : Z) :
  snd (shl_align p e e') = Z.min e e'
  /\ Zpos (fst (shl_align p e e')) = Zpos p * 2 ^ (e - Z.min e e').
Proof.
  destruct (Z.le_gt_cases e' e) as [Hle|Hgt].
  - replace (Z.min e e') with e' by lia.
    split; [|apply shl_align_value; exact Hle].
    unfold shl_align. destruct (e' - e) eqn:Hd; simpl; lia.
  - replace (Z.min e e') with e by lia.
    unfold shl_align. destruct (e' - e) eqn:Hd; try lia; simpl;
      rewrite Z.sub_diag, Z.pow_0_r; lia.
Qed.

Section RoundingError.
Variables prec emax : Z.
Hypothesis prec_pos : 0 < prec.
Hypothesis prec_lt_emax : prec < emax.

Abbreviation emin := (SpecFloat.emin prec emax).
Abbreviation fexp := (SpecFloat.fexp prec emax).

(** Rounding to nearest, ties to even, of a non-negative real given by a
    mantissa, an exponent and a location: the result is within half a unit
    of the last place. *)
Lemma binary_round_aux_correct (s : bool) (m e : Z) (l : location)
    (x : R) :
  0 <= m ->
  located (shr_record_of_loc m l) (x * pow2 (- e)) ->
  e <= fexp (Zdigits2 m + e) ->
  exists m2 e2 : Z,
    binary_round_aux prec emax s m e l = SF_of_rounded prec emax s m2 e2
    /\ 0 <= m2 /\ emin <= e2
    /\ (Rabs (IZR m2 * pow2 e2 - x) <= pow2 (fexp (Zdigits2 m + e)) / 2)%R
    /\ (emin < fexp (Zdigits2 m + e) ->
        (pow2 (prec - 1 + fexp (Zdigits2 m + e)) <= x)%R)
    /\ (emin < e2 -> 2 ^ (prec - 1) <= m2)
    /\ (l = loc_Exact -> e = fexp (Zdigits2 m + e) ->
        (IZR m2 * pow2 e2)%R = x).
Proof.
  intros Hm Hloc He.
  set (d := Zdigits2 m) in *. set (e1 := fexp (d + e)) in *.
  assert (Hmin : emin <= e1) by (unfold e1, SpecFloat.fexp; lia).
  unfold binary_round_aux, shr_fexp. fold d. fold e1.
  assert (Hm0 : 0 <= shr_m (shr_record_of_loc m l))
    by (rewrite shr_m_of_loc; exact Hm).
  destruct (shr_located (shr_record_of_loc m l) e (e1 - e) x Hm0
              ltac:(lia) Hloc) as [Hs1 [Hl1 Hv1]].
  destruct (shr (shr_record_of_loc m l) e (e1 - e)) as [mrs1 e1'] eqn:Hshr.
  cbn [fst snd] in Hs1, Hl1, Hv1.
  replace (e + (e1 - e)) with e1 in * by lia. subst e1'.
  rewrite shr_m_of_loc in Hv1.
  assert (Hp : 0 < 2 ^ (e1 - e)) by (apply Z.pow_pos_nonneg; lia).
  assert (Hm1 : 0 <= shr_m mrs1).
  { rewrite Hv1. apply Z.div_pos; lia. }
  assert (Hup : shr_m mrs1 < 2 ^ prec).
  { rewrite Hv1. apply Z.div_lt_upper_bound; [exact Hp|].
    pose proof (Zdigits2_upper m Hm) as Hu. fold d in Hu.
    apply Z.lt_le_trans with (2 ^ d); [exact Hu|].
    rewrite <- Z.pow_add_r by lia.
    apply Z.pow_le_mono_r; [lia|]. unfold e1, SpecFloat.fexp. lia. }
  assert (Hnormal : emin < e1 -> 2 ^ (prec - 1) <= shr_m mrs1).
  { intros Hlt. assert (He1 : e1 = d + e - prec)
      by (unfold e1, SpecFloat.fexp in *; lia).
    assert (Hd : 0 < d) by lia.
    assert (Hmpos : 0 < m).
    { destruct m as [|p|p]; try lia. unfold d in Hd. simpl in Hd. lia. }
    pose proof (Zdigits2_lower m Hmpos) as Hlow. fold d in Hlow.
    rewrite Hv1. apply Z.div_le_lower_bound; [exact Hp|].
    rewrite <- Z.pow_add_r by lia.
    replace (e1 - e + (prec - 1)) with (d - 1) by lia. exact Hlow. }
  destruct (round_nearest_even_located mrs1 _ Hl1) as [Hr [Herr [Hfloor Hex]]].
  set (r := round_nearest_even (shr_m mrs1) (loc_of_shr_record mrs1)) in *.
  assert (Hr0 : 0 <= r) by lia.
  assert (Hvalue : forall m2 e2 : Z,
             (IZR m2 * pow2 e2 = IZR r * pow2 e1)%R ->
             (Rabs (IZR m2 * pow2 e2 - x) <= pow2 e1 / 2)%R).
  { intros m2 e2 ->.
    replace (IZR r * pow2 e1 - x)%R
      with ((IZR r - x * pow2 (- e1)) * pow2 e1)%R.
    - rewrite Rabs_mult, (Rabs_pos_eq (pow2 e1))
        by (apply Rlt_le, pow2_pos).
      pose proof (pow2_pos e1). nra.
    - rewrite Rmult_minus_distr_r, pow2_scale. reflexivity. }
  assert (Hx : emin < e1 -> (pow2 (prec - 1 + e1) <= x)%R).
  { intros Hlt. specialize (Hnormal Hlt).
    apply IZR_le in Hnormal. rewrite <- pow2_IZR in Hnormal by lia.
    rewrite pow2_add.
    rewrite <- (pow2_scale x e1). pose proof (pow2_pos e1). nra. }
  assert (Hexact : l = loc_Exact -> e = e1 -> IZR r = (x * pow2 (- e1))%R).
  { intros -> Hee. replace (e1 - e) with 0 in Hshr by lia.
    cbn [shr shr_record_of_loc] in Hshr. injection Hshr as <- _.
    unfold r. cbn [shr_m loc_of_shr_record round_nearest_even].
    unfold located in Hl1. cbn [shr_m shr_r shr_s] in Hl1.
    symmetry. exact Hl1. }
  destruct (Z.eq_dec r (2 ^ prec)) as [Hcarry|Hnocarry].
  - exists (2 ^ (prec - 1)), (e1 + 1).
    assert (Hpp : 0 < 2 ^ (prec - 1)) by (apply Z.pow_pos_nonneg; lia).
    assert (Hval : (IZR (2 ^ (prec - 1)) * pow2 (e1 + 1)
                    = IZR r * pow2 e1)%R).
    { rewrite Hcarry, <- !pow2_IZR, <- !pow2_add by lia. f_equal. lia. }
    repeat split; try lia.
    + rewrite Hcarry, Zdigits2_pow2 by lia.
      replace (fexp (prec + 1 + e1) - e1) with 1
        by (unfold SpecFloat.fexp; lia).
      cbn [shr SpecFloat.iter_pos shr_record_of_loc].
      rewrite shr_1_m by (cbn [shr_m]; lia). cbn [shr_m].
      replace (2 ^ prec / 2) with (2 ^ (prec - 1)).
      * reflexivity.
      * replace prec with (prec - 1 + 1) at 2 by lia.
        rewrite Z.pow_add_r by lia. change (2 ^ 1) with 2.
        rewrite Z.div_mul by lia. reflexivity.
    + apply Hvalue. exact Hval.
    + exact Hx.
    + intros Hl Hee. rewrite Hval, (Hexact Hl Hee). apply pow2_scale.
  - exists r, e1.
    assert (Hrlt : r < 2 ^ prec) by lia.
    pose proof (Zdigits2_below r prec ltac:(lia) ltac:(lia)) as Hd'.
    repeat split; try lia.
    + assert (Hn2 : fexp (Zdigits2 r + e1) - e1 <= 0)
        by (unfold SpecFloat.fexp; lia).
      destruct (fexp (Zdigits2 r + e1) - e1) as [|k|k] eqn:Hk; try lia;
        cbn [shr shr_record_of_loc shr_m]; reflexivity.
    + apply Hvalue. reflexivity.
    + exact Hx.
    + intros Hl Hee. rewrite (Hexact Hl Hee). apply pow2_scale.
Qed.

Lemma emin_le_emax_prec : emin <= emax - prec.
Proof. unfold SpecFloat.emin. lia. Qed.

Lemma SF2R_of_rounded (s : bool) (m2 e2 : Z) :
  0 <= m2 -> e2 <= emax - prec ->
  SF_is_finite (SF_of_rounded prec emax s m2 e2) = true
  /\ SF2R (SF_of_rounded prec emax s m2 e2)
     = (sign_R s * (IZR m2 * pow2 e2))%R.
Proof.
  intros Hm He. unfold SF_of_rounded.
  destruct m2 as [|p|p]; try lia.
  - split; [reflexivity|]. simpl. ring.
  - replace (e2 <=? emax - prec) with true by (symmetry; apply Z.leb_le; lia).
    split; [reflexivity|]. cbn [SF2R].
    destruct s; cbn [cond_Zopp sign_R].
    + rewrite opp_IZR. ring.
    + ring.
Qed.

Lemma Rabs_sign (s : bool) (a b : R) :
  (Rabs (sign_R s * a - sign_R s * b) = Rabs (a - b))%R.
Proof.
  destruct s; unfold sign_R.
  - replace (-1 * a - -1 * b)%R with (- (a - b))%R by ring.
    apply Rabs_Ropp.
  - f_equal. ring.
Qed.

(** Rounding a real below half the overflow threshold gives a finite
    number within half a unit of the last place. *)
Lemma binary_round_aux_error (s : bool) (m e : Z) (l : location) (x : R) :
  0 <= m ->
  located (shr_record_of_loc m l) (x * pow2 (- e)) ->
  e <= fexp (Zdigits2 m + e) ->
  (x < pow2 (emax - 1))%R ->
  SF_is_finite (binary_round_aux prec emax s m e l) = true
  /\ (Rabs (SF2R (binary_round_aux prec emax s m e l) - sign_R s * x)
      <= pow2 (fexp (Zdigits2 m + e)) / 2)%R
  /\ (emin < fexp (Zdigits2 m + e) ->
      (pow2 (prec - 1 + fexp (Zdigits2 m + e)) <= x)%R)
  /\ (l = loc_Exact -> e = fexp (Zdigits2 m + e) ->
      SF2R (binary_round_aux prec emax s m e l) = (sign_R s * x)%R).
Proof.
  intros Hm Hloc He Hx.
  destruct (binary_round_aux_correct s m e l x Hm Hloc He)
    as [m2 [e2 [Hz [Hm2 [He2 [Herr [Hnormal [Hcanon Hexact]]]]]]]].
  set (e1 := fexp (Zdigits2 m + e)) in *.
  assert (Hmin : emin <= e1) by (unfold e1, SpecFloat.fexp; lia).
  assert (Hv : (IZR m2 * pow2 e2 < pow2 emax)%R).
  { apply Rabs_le_between in Herr.
    replace emax with (emax - 1 + 1) by lia. rewrite pow2_succ.
    destruct (Z.eq_dec e1 emin) as [Heq|Hne].
    - assert (pow2 e1 <= pow2 (emax - 1))%R.
      { apply pow2_le. rewrite Heq. unfold SpecFloat.emin. lia. }
      pose proof (pow2_pos e1). lra.
    - assert (Hlt : emin < e1) by lia. specialize (Hnormal Hlt).
      assert (pow2 e1 <= pow2 (prec - 1 + e1))%R by (apply pow2_le; lia).
      pose proof (pow2_pos e1). lra. }
  assert (Hfit : e2 <= emax - prec).
  { destruct (Z.le_gt_cases e2 (emax - prec)) as [Hle|Hgt]; [exact Hle|].
    exfalso. pose proof emin_le_emax_prec.
    assert (Hbig : 2 ^ (prec - 1) <= m2) by (apply Hcanon; lia).
    apply IZR_le in Hbig. rewrite <- pow2_IZR in Hbig by lia.
    assert (Hp : (pow2 (emax - prec + 1) <= pow2 e2)%R)
      by (apply pow2_le; lia).
    assert (Hprod : (pow2 (prec - 1) * pow2 (emax - prec + 1)
                     = pow2 emax)%R).
    { rewrite <- pow2_add. f_equal. lia. }
    pose proof (pow2_pos (prec - 1)). pose proof (pow2_pos (emax - prec + 1)).
    nra. }
  destruct (SF2R_of_rounded s m2 e2 Hm2 Hfit) as [Hfin Hval].
  rewrite Hz. rewrite Hval.
  split; [exact Hfin|]. split; [rewrite Rabs_sign; exact Herr|].
  split; [exact Hnormal|].
  intros Hl Hee. rewrite (Hexact Hl Hee). reflexivity.
Qed.

Lemma half_ulp_bound (e1 : Z) (x : R) :
  emin <= e1 ->
  (emin < e1 -> (pow2 (prec - 1 + e1) <= x)%R) ->
  (0 <= x)%R ->
  (pow2 e1 / 2 <= x * pow2 (- prec) + pow2 (emin - 1))%R
  /\ ((pow2 (emin + prec - 1) <= x)%R ->
      (pow2 e1 / 2 <= x * pow2 (- prec))%R).
Proof.
  intros Hmin Hnormal Hx.
  pose proof (pow2_pos (- prec)) as Hu. pose proof (pow2_pos (emin - 1)).
  destruct (Z.eq_dec e1 emin) as [Heq|Hne].
  - rewrite Heq, <- pow2_pred. split; [nra|].
    intros Hlow.
    replace (emin - 1) with ((emin + prec - 1) + - prec) by lia.
    rewrite pow2_add. nra.
  - assert (Hlt : emin < e1) by lia. specialize (Hnormal Hlt).
    assert (Hgoal : (pow2 e1 / 2 <= x * pow2 (- prec))%R).
    { rewrite <- pow2_pred.
      replace (e1 - 1) with ((prec - 1 + e1) + - prec) by lia.
      rewrite pow2_add. nra. }
    split; [lra|intros _; exact Hgoal].
Qed.

(** A mantissa at an exponent, once rounded: the relative error is at most
    [2 ^ (- prec)], and nothing is lost when the exponent is the least
    one. *)
Lemma binary_round_error (s : bool) (p : positive) (e : Z) :
  emin <= e ->
  (IZR (Zpos p) * pow2 e < pow2 (emax - 1))%R ->
  SF_is_finite (binary_round prec emax s p e) = true
  /\ (Rabs (SF2R (binary_round prec emax s p e)
            - sign_R s * (IZR (Zpos p) * pow2 e))
      <= IZR (Zpos p) * pow2 e * pow2 (- prec))%R.
Proof.
  intros He Hx. unfold binary_round.
  set (d := Zpos (digits2_pos p)). set (fe := fexp (d + e)).
  destruct (shl_align_spec p e fe) as [Hez Hmz].
  destruct (shl_align p e fe) as [mz ez]. cbn [fst snd] in Hez, Hmz.
  set (x := (IZR (Zpos p) * pow2 e)%R) in *.
  assert (Hx0 : (0 < x)%R).
  { unfold x. apply Rmult_lt_0_compat; [apply IZR_lt; lia|apply pow2_pos]. }
  assert (Hdig : Zdigits2 (Zpos mz) + ez = d + e).
  { rewrite Hmz, Zdigits2_shift by lia. fold d. lia. }
  assert (Hloc : located (shr_record_of_loc (Zpos mz) loc_Exact)
                   (x * pow2 (- ez))).
  { unfold located. cbn [shr_record_of_loc shr_m shr_r shr_s].
    rewrite Hmz, mult_IZR, <- pow2_IZR by lia. unfold x.
    rewrite Rmult_assoc, <- pow2_add. do 2 f_equal. lia. }
  destruct (binary_round_aux_error s (Zpos mz) ez loc_Exact x
              ltac:(lia) Hloc ltac:(rewrite Hdig; fold fe; lia) Hx)
    as [Hfin [Herr [Hnormal Hexact]]].
  rewrite Hdig in Herr, Hnormal, Hexact. fold fe in Herr, Hnormal, Hexact.
  split; [exact Hfin|].
  pose proof (pow2_pos (- prec)) as Hu.
  destruct (Z.le_gt_cases fe e) as [Hle|Hgt].
  - rewrite (Hexact eq_refl ltac:(lia)).
    replace (sign_R s * x - sign_R s * x)%R with 0%R by ring.
    rewrite Rabs_R0. nra.
  - assert (Hmin : emin <= fe) by (unfold fe, SpecFloat.fexp; lia).
    destruct (half_ulp_bound fe x Hmin Hnormal ltac:(lra)) as [_ Hrel].
    eapply Rle_trans; [exact Herr|]. apply Hrel.
    eapply Rle_trans; [|apply Hnormal; lia]. apply pow2_le. lia.
Qed.

Lemma SF2R_aligned (s : bool) (m : positive) (e ez : Z) :
  ez <= e ->
  (IZR (cond_Zopp s (Zpos (fst (shl_align m e ez)))) * pow2 ez)%R
  = SF2R (S754_finite s m e).
Proof.
  intros Hle. rewrite shl_align_value by exact Hle. cbn [SF2R].
  destruct s; cbn [cond_Zopp]; rewrite ?opp_IZR, mult_IZR, <- pow2_IZR by lia;
    replace e with ((e - ez) + ez) at 2 by lia; rewrite pow2_add; ring.
Qed.

(** The sum of two finite numbers is the rounded exact sum. *)
Lemma SFadd_error (x y : spec_float) :
  SpecFloat.valid_binary prec emax x = true ->
  SpecFloat.valid_binary prec emax y = true ->
  SF_is_finite x = true -> SF_is_finite y = true ->
  (Rabs (SF2R x + SF2R y) < pow2 (emax - 1))%R ->
  SF_is_finite (SFadd prec emax x y) = true
  /\ (Rabs (SF2R (SFadd prec emax x y) - (SF2R x + SF2R y))
      <= Rabs (SF2R x + SF2R y) * pow2 (- prec))%R.
Proof.
  intros Hvx Hvy Hfx Hfy Hsum.
  pose proof (pow2_pos (- prec)) as Hu.
  assert (Hzero : forall a : R,
             (Rabs (a - a) <= Rabs a * pow2 (- prec))%R).
  { intros a. replace (a - a)%R with 0%R by ring. rewrite Rabs_R0.
    pose proof (Rabs_pos a). nra. }
  destruct x as [sx|sx| |sx mx ex]; try discriminate;
    destruct y as [sy|sy| |sy my ey]; try discriminate.
  - split; [destruct sx, sy; reflexivity|].
    replace (SF2R (SFadd prec emax (S754_zero sx) (S754_zero sy))) with 0%R
      by (destruct sx, sy; reflexivity).
    cbn [SF2R]. replace (0 - (0 + 0))%R with 0%R by ring.
    rewrite Rplus_0_r, Rabs_R0. lra.
  - split; [reflexivity|]. cbn [SFadd].
    change (SF2R (S754_zero sx)) with 0%R.
    rewrite !Rplus_0_l. apply Hzero.
  - split; [reflexivity|]. cbn [SFadd].
    change (SF2R (S754_zero sy)) with 0%R.
    rewrite !Rplus_0_r. apply Hzero.
  - cbn [SpecFloat.valid_binary] in Hvx, Hvy.
    destruct (bounded_facts _ _ _ _ Hvx) as [Hex _].
    destruct (bounded_facts _ _ _ _ Hvy) as [Hey _].
    cbn [SFadd].
    rewrite <- (SF2R_aligned sx mx ex (Z.min ex ey)) in * by lia.
    rewrite <- (SF2R_aligned sy my ey (Z.min ex ey)) in * by lia.
    rewrite <- Rmult_plus_distr_r, <- plus_IZR in *.
    set (M := cond_Zopp sx (Zpos (fst (shl_align mx ex (Z.min ex ey))))
              + cond_Zopp sy (Zpos (fst (shl_align my ey (Z.min ex ey)))))
      in *.
    set (ez := Z.min ex ey) in *.
    assert (Hez : emin <= ez) by (unfold ez; lia).
    pose proof (pow2_pos ez) as Hpz.
    destruct M as [|p|p]; cbn [binary_normalize].
    + split; [reflexivity|]. cbn [SF2R]. rewrite Rmult_0_l.
      replace (0 - 0)%R with 0%R by ring. rewrite Rabs_R0, Rmult_0_l.
      apply Rle_refl.
    + assert (Hpos : (0 < IZR (Zpos p) * pow2 ez)%R).
      { apply Rmult_lt_0_compat; [apply IZR_lt; lia|exact Hpz]. }
      rewrite (Rabs_pos_eq (IZR (Zpos p) * pow2 ez)) in Hsum |- * by lra.
      destruct (binary_round_error false p ez Hez Hsum) as [Hfin Herr].
      split; [exact Hfin|]. unfold sign_R in Herr.
      rewrite Rmult_1_l in Herr. exact Herr.
    + assert (Hpos : (0 < IZR (Zpos p) * pow2 ez)%R).
      { apply Rmult_lt_0_compat; [apply IZR_lt; lia|exact Hpz]. }
      change (Zneg p) with (- Zpos p) in *. rewrite opp_IZR in *.
      replace (- IZR (Zpos p) * pow2 ez)%R
        with (- (IZR (Zpos p) * pow2 ez))%R in * by ring.
      rewrite (Rabs_Ropp (IZR (Zpos p) * pow2 ez)),
        (Rabs_pos_eq (IZR (Zpos p) * pow2 ez)) in Hsum |- * by lra.
      destruct (binary_round_error true p ez Hez Hsum) as [Hfin Herr].
      split; [exact Hfin|]. unfold sign_R in Herr.
      replace (-1 * (IZR (Zpos p) * pow2 ez))%R
        with (- (IZR (Zpos p) * pow2 ez))%R in Herr by ring.
      exact Herr.
Qed.

Lemma SF2R_finite (s : bool) (m : positive) (e : Z) :
  SF2R (S754_finite s m e) = (sign_R s * (IZR (Zpos m) * pow2 e))%R.
Proof.
  cbn [SF2R]. destruct s; cbn [cond_Zopp sign_R].
  - rewrite opp_IZR. ring.
  - ring.
Qed.

Lemma Rabs_sign_R (s : bool) (a : R) : Rabs (sign_R s * a) = Rabs a.
Proof.
  destruct s; unfold sign_R.
  - replace (-1 * a)%R with (- a)%R by ring. apply Rabs_Ropp.
  - f_equal. ring.
Qed.

Lemma sign_R_xorb (s t : bool) :
  sign_R (xorb s t) = (sign_R s * sign_R t)%R.
Proof. destruct s, t; unfold sign_R; simpl; ring. Qed.

Lemma sign_R_inv (s : bool) : (/ sign_R s)%R = sign_R s.
Proof. destruct s; unfold sign_R; lra. Qed.

Lemma finite_value_pos (m : positive) (e : Z) :
  (0 < IZR (Zpos m) * pow2 e)%R.
Proof.
  apply Rmult_lt_0_compat; [apply IZR_lt; lia|apply pow2_pos].
Qed.

(** The quotient of two mantissas, before it is rounded, locates the exact
    quotient. *)
Lemma SFdiv_core_located (mx my : positive) (ex ey : Z) :
  let '(q, e', l) :=
    SFdiv_core_binary prec emax (Zpos mx) ex (Zpos my) ey in
  0 <= q
  /\ located (shr_record_of_loc q l)
       (IZR (Zpos mx) * pow2 ex / (IZR (Zpos my) * pow2 ey) * pow2 (- e'))
  /\ e' <= fexp (Zdigits2 q + e').
Proof.
  unfold SFdiv_core_binary. cbn [Zdigits2].
  set (d1 := Zpos (digits2_pos mx)). set (d2 := Zpos (digits2_pos my)).
  set (k := d1 + ex - (d2 + ey)).
  set (e' := Z.min (fexp k) (ex - ey)).
  assert (Hs : 0 <= ex - ey - e') by (unfold e'; lia).
  set (m' := match ex - ey - e' with
             | Zpos _ => Z.shiftl (Zpos mx) (ex - ey - e')
             | Z0 => Zpos mx
             | Zneg _ => 0
             end).
  assert (Hm' : m' = Zpos mx * 2 ^ (ex - ey - e')).
  { unfold m'. destruct (ex - ey - e') as [|s|s] eqn:Es; try lia.
    apply Z.shiftl_mul_pow2. lia. }
  assert (Hps : 0 < 2 ^ (ex - ey - e')) by (apply Z.pow_pos_nonneg; lia).
  pose proof (Z_div_mod m' (Zpos my) ltac:(lia)) as Hdiv.
  destruct (Z.div_eucl m' (Zpos my)) as [q r] eqn:Hqr.
  destruct Hdiv as [Heq Hr].
  assert (Hq : 0 <= q) by nia.
  split; [exact Hq|]. split.
  - set (Y := (IZR (Zpos mx) * pow2 ex / (IZR (Zpos my) * pow2 ey)
               * pow2 (- e'))%R).
    assert (Hmy : (0 < IZR (Zpos my))%R) by (apply IZR_lt; lia).
    assert (HY : (Y * IZR (Zpos my) = IZR q * IZR (Zpos my) + IZR r)%R).
    { rewrite <- mult_IZR, <- plus_IZR, (Z.mul_comm q), <- Heq, Hm'.
      rewrite mult_IZR, <- pow2_IZR by lia. unfold Y.
      replace (ex - ey - e') with (ex + (- ey + - e')) by lia.
      rewrite !pow2_add, (pow2_opp ey).
      pose proof (pow2_pos ey). field. lra. }
    assert (Hr0 : (0 <= IZR r)%R) by (apply IZR_le; lia).
    assert (Hr1 : (IZR r < IZR (Zpos my))%R) by (apply IZR_lt; lia).
    unfold new_location.
    destruct (Z.even (Zpos my)) eqn:Heven;
      unfold new_location_even, new_location_odd;
      destruct (Z.eqb_spec r 0) as [Hr00|Hrn0].
    + unfold located; cbn [shr_record_of_loc shr_m shr_r shr_s].
      rewrite Hr00 in HY. nra.
    + assert (Hrpos : (1 <= IZR r)%R) by (apply IZR_le; lia).
      destruct (Z.compare_spec (2 * r) (Zpos my)) as [Hc|Hc|Hc];
        [apply (f_equal IZR) in Hc|apply IZR_lt in Hc|apply IZR_lt in Hc];
        rewrite mult_IZR in Hc; unfold located;
        cbn [shr_record_of_loc shr_m shr_r shr_s]; try split; nra.
    + unfold located; cbn [shr_record_of_loc shr_m shr_r shr_s].
      rewrite Hr00 in HY. nra.
    + assert (Hrpos : (1 <= IZR r)%R) by (apply IZR_le; lia).
      assert (Hodd : 2 * r <> Zpos my).
      { intros Hc. rewrite <- Hc, Z.even_mul in Heven. discriminate. }
      destruct (Z.compare_spec (2 * r + 1) (Zpos my)) as [Hc|Hc|Hc].
      * assert (Hc' : 2 * r < Zpos my) by lia.
        apply IZR_lt in Hc'. rewrite mult_IZR in Hc'.
        unfold located; cbn [shr_record_of_loc shr_m shr_r shr_s].
        split; nra.
      * assert (Hc' : 2 * r < Zpos my) by lia.
        apply IZR_lt in Hc'. rewrite mult_IZR in Hc'.
        unfold located; cbn [shr_record_of_loc shr_m shr_r shr_s].
        split; nra.
      * assert (Hc' : Zpos my < 2 * r) by lia.
        apply IZR_lt in Hc'. rewrite mult_IZR in Hc'.
        unfold located; cbn [shr_record_of_loc shr_m shr_r shr_s].
        split; nra.
  - destruct (Z.le_gt_cases e' emin) as [Hle|Hgt];
      [unfold SpecFloat.fexp; lia|].
    assert (Hk : fexp k = k - prec /\ e' <= k - prec)
      by (unfold e', SpecFloat.fexp in *; lia).
    destruct Hk as [Hk1 Hk2].
    pose proof (digits2_pos_lower mx) as Hlow. fold d1 in Hlow.
    pose proof (digits2_pos_upper my) as Hup. fold d2 in Hup.
    assert (Hd1 : 1 <= d1) by (unfold d1; lia).
    assert (Hd2 : 1 <= d2) by (unfold d2; lia).
    set (j := d1 + (ex - ey - e') - d2 - 1).
    assert (Hj : 0 <= j) by (unfold j, k in *; lia).
    assert (Hqj : 2 ^ j <= q).
    { assert (Hqdiv : q = m' / Zpos my).
      { change q with (fst (q, r)). rewrite <- Hqr. reflexivity. }
      rewrite Hqdiv. apply Z.div_le_lower_bound; [lia|].
      rewrite Hm'.
      assert (Hpj : 0 < 2 ^ j) by (apply Z.pow_pos_nonneg; lia).
      assert (Hsplit : 2 ^ (d1 - 1) * 2 ^ (ex - ey - e')
                       = 2 ^ d2 * 2 ^ j).
      { rewrite <- !Z.pow_add_r by lia. f_equal. unfold j. lia. }
      nia. }
    pose proof (Zdigits2_above q j Hj Hqj) as Hdq.
    unfold SpecFloat.fexp. unfold j, k in *. lia.
Qed.

(** The quotient of two finite numbers is the rounded exact quotient. *)
Lemma SFdiv_error (x y : spec_float) :
  SpecFloat.valid_binary prec emax x = true ->
  SpecFloat.valid_binary prec emax y = true ->
  SF_is_finite x = true -> SF_is_finite y = true ->
  SF2R y <> 0%R ->
  (Rabs (SF2R x / SF2R y) < pow2 (emax - 1))%R ->
  SF_is_finite (SFdiv prec emax x y) = true
  /\ (Rabs (SF2R (SFdiv prec emax x y) - SF2R x / SF2R y)
      <= Rabs (SF2R x / SF2R y) * pow2 (- prec) + pow2 (emin - 1))%R
  /\ ((pow2 (emin + prec - 1) <= Rabs (SF2R x / SF2R y))%R ->
      (Rabs (SF2R (SFdiv prec emax x y) - SF2R x / SF2R y)
       <= Rabs (SF2R x / SF2R y) * pow2 (- prec))%R).
Proof.
  intros Hvx Hvy Hfx Hfy Hy Hq.
  pose proof (pow2_pos (- prec)) as Hu.
  pose proof (pow2_pos (emin - 1)) as Heta.
  destruct y as [sy|sy| |sy my ey]; try discriminate;
    [exfalso; apply Hy; reflexivity|].
  destruct x as [sx|sx| |sx mx ex]; try discriminate.
  - split; [reflexivity|]. cbn [SFdiv].
    change (SF2R (S754_zero sx)) with 0%R.
    change (SF2R (S754_zero (xorb sx sy))) with 0%R.
    unfold Rdiv. rewrite Rmult_0_l, Rminus_0_r, Rabs_R0, Rmult_0_l.
    split; [lra|]. intros _. apply Rle_refl.
  - cbn [SFdiv].
    pose proof (SFdiv_core_located mx my ex ey) as Hcore.
    destruct (SFdiv_core_binary prec emax (Zpos mx) ex (Zpos my) ey)
      as [[q e'] l]. destruct Hcore as [Hq0 [Hloc He']].
    set (X := (IZR (Zpos mx) * pow2 ex / (IZR (Zpos my) * pow2 ey))%R) in *.
    pose proof (finite_value_pos mx ex) as Hpx.
    pose proof (finite_value_pos my ey) as Hpy.
    assert (HX : (0 < X)%R) by (apply Rdiv_lt_0_compat; assumption).
    assert (Hquot : (SF2R (S754_finite sx mx ex) / SF2R (S754_finite sy my ey)
                     = sign_R (xorb sx sy) * X)%R).
    { rewrite !SF2R_finite. unfold X.
      pose proof (pow2_pos ey).
      assert (0 < IZR (Zpos my))%R by (apply IZR_lt; lia).
      destruct sx, sy; unfold sign_R; cbn [xorb]; field; repeat split; lra. }
    rewrite Hquot in *. rewrite Rabs_sign_R, (Rabs_pos_eq X) in * by lra.
    destruct (binary_round_aux_error (xorb sx sy) q e' l X Hq0 Hloc He' Hq)
      as [Hfin [Herr [Hnormal _]]].
    split; [exact Hfin|].
    assert (Hmin : emin <= fexp (Zdigits2 q + e'))
      by (unfold SpecFloat.fexp; lia).
    destruct (half_ulp_bound _ X Hmin Hnormal ltac:(lra)) as [Hb1 Hb2].
    split; [lra|]. intros Hlow. specialize (Hb2 Hlow). lra.
Qed.

(** The product of two finite numbers is the rounded exact product. *)
Lemma SFmul_error (x y : spec_float) :
  SpecFloat.valid_binary prec emax x = true ->
  SpecFloat.valid_binary prec emax y = true ->
  SF_is_finite x = true -> SF_is_finite y = true ->
  (Rabs (SF2R x * SF2R y) < pow2 (emax - 1))%R ->
  SF_is_finite (SFmul prec emax x y) = true
  /\ (Rabs (SF2R (SFmul prec emax x y) - SF2R x * SF2R y)
      <= Rabs (SF2R x * SF2R y) * pow2 (- prec) + pow2 (emin - 1))%R
  /\ ((pow2 (emin + prec - 1) <= Rabs (SF2R x * SF2R y))%R ->
      (Rabs (SF2R (SFmul prec emax x y) - SF2R x * SF2R y)
       <= Rabs (SF2R x * SF2R y) * pow2 (- prec))%R).
Proof.
  intros Hvx Hvy Hfx Hfy Hp.
  pose proof (pow2_pos (- prec)) as Hu.
  pose proof (pow2_pos (emin - 1)) as Heta.
  assert (Hzero : forall z : spec_float,
             SF2R z = 0%R ->
             forall a b : R, (a * b = 0)%R ->
             (Rabs (SF2R z - a * b)
              <= Rabs (a * b) * pow2 (- prec) + pow2 (emin - 1))%R
             /\ ((pow2 (emin + prec - 1) <= Rabs (a * b))%R ->
                 (Rabs (SF2R z - a * b)
                  <= Rabs (a * b) * pow2 (- prec))%R)).
  { intros z -> a b ->. rewrite Rminus_0_r, Rabs_R0, Rmult_0_l.
    split; [lra|]. intros _. apply Rle_refl. }
  destruct x as [sx|sx| |sx mx ex]; try discriminate;
    destruct y as [sy|sy| |sy my ey]; try discriminate;
    try (split; [reflexivity|];
         apply Hzero; [reflexivity|cbn [SF2R]; ring]).
  cbn [SFmul].
  cbn [SpecFloat.valid_binary] in Hvx, Hvy.
  destruct (bounded_facts _ _ _ _ Hvx) as [Hex [Hdx Hnx]].
  destruct (bounded_facts _ _ _ _ Hvy) as [Hey [Hdy Hny]].
  set (X := (IZR (Zpos (mx * my)) * pow2 (ex + ey))%R).
  pose proof (finite_value_pos (mx * my) (ex + ey)) as HX. fold X in HX.
  assert (Hprod : (SF2R (S754_finite sx mx ex) * SF2R (S754_finite sy my ey)
                   = sign_R (xorb sx sy) * X)%R).
  { rewrite !SF2R_finite, sign_R_xorb. unfold X.
    rewrite Pos2Z.inj_mul, mult_IZR, pow2_add. ring. }
  rewrite Hprod in *. rewrite Rabs_sign_R, (Rabs_pos_eq X) in * by lra.
  assert (Hloc : located (shr_record_of_loc (Zpos (mx * my)) loc_Exact)
                   (X * pow2 (- (ex + ey)))).
  { unfold located. cbn [shr_record_of_loc shr_m shr_r shr_s]. unfold X.
    rewrite Rmult_assoc, pow2_cancel. ring. }
  assert (He : ex + ey <= fexp (Zdigits2 (Zpos (mx * my)) + (ex + ey))).
  { destruct (Z.le_gt_cases (ex + ey) emin) as [Hle|Hgt];
      [unfold SpecFloat.fexp; lia|].
    assert (Hdig : prec <= Zdigits2 (Zpos (mx * my))).
    { pose proof (digits2_pos_lower mx) as Hlx.
      pose proof (digits2_pos_lower my) as Hly.
      set (dx := Zpos (digits2_pos mx)) in *.
      set (dy := Zpos (digits2_pos my)) in *.
      assert (Hdx1 : 1 <= dx) by (unfold dx; lia).
      assert (Hdy1 : 1 <= dy) by (unfold dy; lia).
      assert (Hone : prec <= dx + dy - 1).
      { unfold SpecFloat.emin in *. lia. }
      apply Z.le_trans with (dx + dy - 2 + 1); [lia|].
      apply Zdigits2_above; [lia|].
      replace (dx + dy - 2) with ((dx - 1) + (dy - 1)) by lia.
      rewrite Z.pow_add_r, Pos2Z.inj_mul by lia.
      assert (0 < 2 ^ (dx - 1)) by (apply Z.pow_pos_nonneg; lia).
      assert (0 < 2 ^ (dy - 1)) by (apply Z.pow_pos_nonneg; lia).
      nia. }
    unfold SpecFloat.fexp. lia. }
  destruct (binary_round_aux_error (xorb sx sy) (Zpos (mx * my)) (ex + ey)
              loc_Exact X ltac:(lia) Hloc He Hp)
    as [Hfin [Herr [Hnormal _]]].
  split; [exact Hfin|].
  assert (Hmin : emin <= fexp (Zdigits2 (Zpos (mx * my)) + (ex + ey)))
    by (unfold SpecFloat.fexp; lia).
  destruct (half_ulp_bound _ X Hmin Hnormal ltac:(lra)) as [Hb1 Hb2].
  split; [lra|]. intros Hlow. specialize (Hb2 Hlow). lra.
Qed.

Lemma sqrt_pow2_square (k : Z) : R_sqrt.sqrt (pow2 k * pow2 k) = pow2 k.
Proof. apply sqrt_square. apply Rlt_le, pow2_pos. Qed.

(** The integer square root of a mantissa, before it is rounded, locates
    the exact square root. *)
Lemma SFsqrt_core_located (m : positive) (e : Z) :
  let '(q, e', l) := SFsqrt_core_binary prec emax (Zpos m) e in
  0 <= q
  /\ located (shr_record_of_loc q l)
       (R_sqrt.sqrt (IZR (Zpos m) * pow2 e) * pow2 (- e'))
  /\ e' <= fexp (Zdigits2 q + e').
Proof.
  unfold SFsqrt_core_binary. cbn [Zdigits2].
  set (d := Zpos (digits2_pos m)).
  set (K := Z.div2 (d + e + 1)).
  set (e' := Z.min (fexp K) (Z.div2 e)).
  assert (Hdiv2 : 2 * Z.div2 e <= e).
  { rewrite Z.div2_div. pose proof (Z.mul_div_le e 2 ltac:(lia)). lia. }
  assert (HK : 2 * K <= d + e + 1).
  { unfold K. rewrite Z.div2_div.
    pose proof (Z.mul_div_le (d + e + 1) 2 ltac:(lia)). lia. }
  assert (Hs : 0 <= e - 2 * e') by (unfold e'; lia).
  set (m' := match e - 2 * e' with
             | Zpos _ => Z.shiftl (Zpos m) (e - 2 * e')
             | Z0 => Zpos m
             | Zneg _ => 0
             end).
  assert (Hm' : m' = Zpos m * 2 ^ (e - 2 * e')).
  { unfold m'. destruct (e - 2 * e') as [|s|s] eqn:Es; try lia.
    apply Z.shiftl_mul_pow2. lia. }
  assert (Hps : 0 < 2 ^ (e - 2 * e')) by (apply Z.pow_pos_nonneg; lia).
  assert (Hm'pos : 0 < m') by nia.
  pose proof (Z.sqrtrem_spec m' ltac:(lia)) as Hsq.
  destruct (Z.sqrtrem m') as [q r]. destruct Hsq as [Heq Hr].
  assert (Hq : 0 <= q) by lia.
  split; [exact Hq|]. split.
  - set (Y := (R_sqrt.sqrt (IZR (Zpos m) * pow2 e) * pow2 (- e'))%R).
    assert (HY0 : (0 <= Y)%R).
    { unfold Y. apply Rmult_le_pos; [apply sqrt_pos|].
      apply Rlt_le, pow2_pos. }
    assert (HY2 : (Y * Y = IZR q * IZR q + IZR r)%R).
    { rewrite <- mult_IZR, <- plus_IZR, <- Heq, Hm'.
      rewrite mult_IZR, <- pow2_IZR by lia. unfold Y.
      pose proof (finite_value_pos m e) as Hx.
      replace (R_sqrt.sqrt (IZR (Zpos m) * pow2 e) * pow2 (- e')
               * (R_sqrt.sqrt (IZR (Zpos m) * pow2 e) * pow2 (- e')))%R
        with (R_sqrt.sqrt (IZR (Zpos m) * pow2 e)
              * R_sqrt.sqrt (IZR (Zpos m) * pow2 e)
              * (pow2 (- e') * pow2 (- e')))%R by ring.
      rewrite sqrt_sqrt by lra. rewrite Rmult_assoc. f_equal.
      rewrite <- !pow2_add. f_equal. lia. }
    assert (Hq0 : (0 <= IZR q)%R) by (apply IZR_le; exact Hq).
    assert (Hr0 : (0 <= IZR r)%R) by (apply IZR_le; lia).
    assert (Hr2 : (IZR r <= 2 * IZR q)%R).
    { rewrite <- mult_IZR. apply IZR_le. lia. }
    destruct (Z.eqb_spec r 0) as [Hr00|Hrn0].
    + unfold located; cbn [shr_record_of_loc shr_m shr_r shr_s].
      rewrite Hr00 in HY2. nra.
    + assert (Hrpos : (1 <= IZR r)%R) by (apply IZR_le; lia).
      destruct (Z.leb_spec r q) as [Hle|Hgt].
      * apply IZR_le in Hle.
        unfold located; cbn [shr_record_of_loc shr_m shr_r shr_s].
        split; nra.
      * assert (Hgt' : (IZR q + 1 <= IZR r)%R).
        { rewrite <- plus_IZR. apply IZR_le. lia. }
        unfold located; cbn [shr_record_of_loc shr_m shr_r shr_s].
        split; nra.
  - destruct (Z.le_gt_cases e' emin) as [Hle|Hgt];
      [unfold SpecFloat.fexp; lia|].
    assert (Hk : e' <= K - prec) by (unfold e', SpecFloat.fexp in *; lia).
    pose proof (digits2_pos_lower m) as Hlow. fold d in Hlow.
    assert (Hd1 : 1 <= d) by (unfold d; lia).
    assert (Hbig : 2 ^ (prec - 1) * 2 ^ (prec - 1) <= m').
    { rewrite Hm', <- Z.pow_add_r by lia.
      apply Z.le_trans with (2 ^ (d - 1) * 2 ^ (e - 2 * e')).
      - rewrite <- Z.pow_add_r by lia. apply Z.pow_le_mono_r; lia.
      - nia. }
    assert (Hqbig : 2 ^ (prec - 1) <= q).
    { assert (Hpp : 0 < 2 ^ (prec - 1)) by (apply Z.pow_pos_nonneg; lia).
      destruct (Z.le_gt_cases (2 ^ (prec - 1)) q) as [H|H]; [exact H|].
      exfalso. nia. }
    pose proof (Zdigits2_above q (prec - 1) ltac:(lia) Hqbig) as Hdq.
    unfold SpecFloat.fexp. lia.
Qed.

(** The square root of a finite number that is not negative is the rounded
    exact square root; it neither overflows nor underflows. *)
Lemma SFsqrt_error (x : spec_float) :
  SpecFloat.valid_binary prec emax x = true ->
  SF_is_finite x = true ->
  (0 <= SF2R x)%R ->
  SF_is_finite (SFsqrt prec emax x) = true
  /\ (Rabs (SF2R (SFsqrt prec emax x) - R_sqrt.sqrt (SF2R x))
      <= R_sqrt.sqrt (SF2R x) * pow2 (- prec))%R.
Proof.
  intros Hvx Hfx Hx0.
  pose proof (pow2_pos (- prec)) as Hu.
  destruct x as [sx|sx| |sx mx ex]; try discriminate.
  - split; [reflexivity|]. cbn [SFsqrt SF2R].
    rewrite sqrt_0, Rminus_0_r, Rabs_R0. lra.
  - rewrite SF2R_finite in Hx0 |- *.
    pose proof (finite_value_pos mx ex) as HX.
    destruct sx; [unfold sign_R in Hx0; lra|].
    unfold sign_R. rewrite Rmult_1_l. cbn [SFsqrt].
    set (X := (IZR (Zpos mx) * pow2 ex)%R) in *.
    cbn [SpecFloat.valid_binary] in Hvx.
    destruct (bounded_facts _ _ _ _ Hvx) as [Hex [Hdx _]].
    assert (Hbound : SpecFloat.bounded prec emax mx ex = true) by exact Hvx.
    unfold SpecFloat.bounded in Hbound. apply andb_true_iff in Hbound.
    destruct Hbound as [_ Hemax]. apply Z.leb_le in Hemax.
    pose proof (SFsqrt_core_located mx ex) as Hcore.
    destruct (SFsqrt_core_binary prec emax (Zpos mx) ex) as [[q e'] l].
    destruct Hcore as [Hq0 [Hloc He']]. fold X in Hloc.
    assert (Hupper : (X < pow2 (emax - 1) * pow2 (emax - 1))%R).
    { pose proof (digits2_pos_upper mx) as Hup. apply IZR_lt in Hup.
      rewrite <- pow2_IZR in Hup by lia.
      assert (Hd : (pow2 (Zpos (digits2_pos mx)) <= pow2 prec)%R)
        by (apply pow2_le; lia).
      assert (He : (pow2 ex <= pow2 (emax - prec))%R)
        by (apply pow2_le; lia).
      assert (Hpe : (pow2 prec * pow2 (emax - prec)
                     <= pow2 (emax - 1) * pow2 (emax - 1))%R).
      { rewrite <- !pow2_add. apply pow2_le. lia. }
      pose proof (pow2_pos ex). pose proof (pow2_pos prec).
      unfold X. nra. }
    assert (Hlower : (pow2 (emin + prec - 1) * pow2 (emin + prec - 1)
                      <= X)%R).
    { assert (H1 : (1 <= IZR (Zpos mx))%R) by (apply IZR_le; lia).
      assert (He : (pow2 emin <= pow2 ex)%R) by (apply pow2_le; lia).
      assert (Hpe : (pow2 (emin + prec - 1) * pow2 (emin + prec - 1)
                     <= pow2 emin)%R).
      { rewrite <- pow2_add. apply pow2_le. unfold SpecFloat.emin. lia. }
      pose proof (pow2_pos emin). unfold X. nra. }
    assert (Hs1 : (R_sqrt.sqrt X < pow2 (emax - 1))%R).
    { rewrite <- (sqrt_pow2_square (emax - 1)).
      apply sqrt_lt_1_alt. lra. }
    assert (Hs2 : (pow2 (emin + prec - 1) <= R_sqrt.sqrt X)%R).
    { rewrite <- (sqrt_pow2_square (emin + prec - 1)).
      apply sqrt_le_1_alt. exact Hlower. }
    destruct (binary_round_aux_error false q e' l (R_sqrt.sqrt X) Hq0 Hloc
                He' Hs1) as [Hfin [Herr [Hnormal _]]].
    split; [exact Hfin|].
    unfold sign_R in Herr. rewrite Rmult_1_l in Herr.
    assert (Hmin : emin <= fexp (Zdigits2 q + e'))
      by (unfold SpecFloat.fexp; lia).
    pose proof (sqrt_pos X) as Hsp.
    destruct (half_ulp_bound _ (R_sqrt.sqrt X) Hmin Hnormal Hsp) as [_ Hb2].
    specialize (Hb2 Hs2). lra.
Qed.

Lemma SFmul_zero (x y : spec_float) :
  SF_is_finite x = true -> SF_is_finite y = true ->
  (SF2R x * SF2R y = 0)%R ->
  SF2R (SFmul prec emax x y) = 0%R.
Proof.
  intros Hfx Hfy Hp.
  destruct x as [sx|sx| |sx mx ex]; try discriminate;
    destruct y as [sy|sy| |sy my ey]; try discriminate;
    try reflexivity.
  exfalso. rewrite !SF2R_finite in Hp.
  pose proof (finite_value_pos mx ex). pose proof (finite_value_pos my ey).
  destruct sx, sy; unfold sign_R in Hp; nra.
Qed.

Lemma SF2R_abs (x : spec_float) : SF2R (SFabs x) = Rabs (SF2R x).
Proof.
  destruct x as [s|s| |s m e]; cbn [SFabs];
    try (cbn [SF2R]; rewrite Rabs_R0; reflexivity).
  rewrite !SF2R_finite, Rabs_sign_R.
  unfold sign_R. rewrite Rmult_1_l. symmetry. apply Rabs_pos_eq.
  apply Rlt_le, finite_value_pos.
Qed.

(** The order of finite numbers is the order of the reals they stand
    for. *)
Lemma SFltb_R (x y : spec_float) :
  SpecFloat.valid_binary prec emax x = true ->
  SpecFloat.valid_binary prec emax y = true ->
  SF_is_finite x = true -> SF_is_finite y = true ->
  (SFltb x y = true <-> (SF2R x < SF2R y)%R).
Proof.
  intros Hvx Hvy Hfx Hfy.
  destruct x as [sx|sx| |sx mx ex]; try discriminate;
    destruct y as [sy|sy| |sy my ey]; try discriminate.
  - cbn. split; [discriminate|lra].
  - rewrite SF2R_finite. pose proof (finite_value_pos my ey).
    change (SF2R (S754_zero sx)) with 0%R.
    destruct sy; unfold SFltb, sign_R; cbn; split;
      try discriminate; try reflexivity; lra.
  - rewrite SF2R_finite. pose proof (finite_value_pos mx ex).
    change (SF2R (S754_zero sy)) with 0%R.
    destruct sx; unfold SFltb, sign_R; cbn; split;
      try discriminate; try reflexivity; lra.
  - cbn [SpecFloat.valid_binary] in Hvx, Hvy.
    pose proof (sub_mantissa_sign prec emax prec_pos sy sx my mx ey ex
                  Hvy Hvx) as Hsign.
    rewrite <- (SF2R_aligned sx mx ex (Z.min ey ex)) by lia.
    rewrite <- (SF2R_aligned sy my ey (Z.min ey ex)) by lia.
    pose proof (pow2_pos (Z.min ey ex)) as Hp.
    unfold SFltb. split.
    + intros Hlt.
      assert (Hc : SFcompare (S754_finite sx mx ex) (S754_finite sy my ey)
                   = Some Lt).
      { destruct (SFcompare (S754_finite sx mx ex) (S754_finite sy my ey))
          as [[| |]|]; try discriminate; reflexivity. }
      apply Hsign in Hc. apply IZR_lt in Hc. rewrite minus_IZR in Hc. nra.
    + intros Hlt. rewrite (proj1 Hsign); [reflexivity|].
      apply lt_IZR. rewrite minus_IZR. nra.
Qed.

Lemma SFleb_R (x y : spec_float) :
  SpecFloat.valid_binary prec emax x = true ->
  SpecFloat.valid_binary prec emax y = true ->
  SF_is_finite x = true -> SF_is_finite y = true ->
  (SFleb x y = true <-> (SF2R x <= SF2R y)%R).
Proof.
  intros Hvx Hvy Hfx Hfy.
  pose proof (SFltb_R y x Hvy Hvx Hfy Hfx) as Hlt.
  unfold SFleb, SFltb in *. rewrite (SFcompare_antisym x y) in Hlt.
  assert (Hsome : exists c, SFcompare x y = Some c).
  { destruct x as [sx|sx| |sx mx ex]; try discriminate;
      destruct y as [sy|sy| |sy my ey]; try discriminate; cbn; eauto. }
  destruct Hsome as [c Hc]. rewrite Hc in *. cbn in Hlt.
  destruct c; cbn in Hlt; split; intros Hgoal;
    try reflexivity; try discriminate.
  - destruct (Rle_lt_dec (SF2R x) (SF2R y)) as [Hle|Hgt]; [exact Hle|].
    apply Hlt in Hgt. discriminate.
  - destruct (Rle_lt_dec (SF2R x) (SF2R y)) as [Hle|Hgt]; [exact Hle|].
    apply Hlt in Hgt. discriminate.
  - assert (SF2R y < SF2R x)%R by (apply Hlt; reflexivity). lra.
Qed.

Lemma SFeqb_R (x y : spec_float) :
  SpecFloat.valid_binary prec emax x = true ->
  SpecFloat.valid_binary prec emax y = true ->
  SF_is_finite x = true -> SF_is_finite y = true ->
  (SFeqb x y = true <-> SF2R x = SF2R y).
Proof.
  intros Hvx Hvy Hfx Hfy.
  pose proof (SFltb_R y x Hvy Hvx Hfy Hfx) as Hgt.
  pose proof (SFltb_R x y Hvx Hvy Hfx Hfy) as Hlt.
  unfold SFeqb, SFltb in *. rewrite (SFcompare_antisym x y) in Hgt.
  assert (Hsome : exists c, SFcompare x y = Some c).
  { destruct x as [sx|sx| |sx mx ex]; try discriminate;
      destruct y as [sy|sy| |sy my ey]; try discriminate; cbn; eauto. }
  destruct Hsome as [c Hc]. rewrite Hc in *. cbn in Hgt.
  destruct c; cbn in Hgt; split; intros Hgoal;
    try reflexivity; try discriminate.
  - destruct (Rtotal_order (SF2R x) (SF2R y)) as [H|[H|H]];
      [apply Hlt in H; discriminate|exact H|apply Hgt in H; discriminate].
  - assert (SF2R x < SF2R y)%R by (apply Hlt; reflexivity). lra.
  - assert (SF2R y < SF2R x)%R by (apply Hgt; reflexivity). lra.
Qed.

End RoundingError.

(** ** On the primitive floats *)

Module Binary64Real.

Lemma binary64_prec_lt_emax : prec < emax.
Proof. reflexivity. Qed.

Lemma is_finite_SF (x : float) :
  PrimFloat.is_finite x = SF_is_finite (Prim2SF x).
Proof.
  unfold PrimFloat.is_finite, PrimFloat.is_nan, PrimFloat.is_infinity.
  rewrite !FloatAxioms.eqb_spec, FloatAxioms.abs_spec.
  change (Prim2SF infinity) with (S754_infinity false).
  destruct (Prim2SF x) as [s|s| |s m e] eqn:Hx; cbn [SFabs SF_is_finite].
  - destruct s; reflexivity.
  - destruct s; reflexivity.
  - reflexivity.
  - unfold SFeqb. rewrite SFcompare_refl by discriminate. reflexivity.
Qed.

Lemma finite_SF (x : float) :
  PrimFloat.is_finite x = true -> SF_is_finite (Prim2SF x) = true.
Proof. rewrite is_finite_SF. auto. Qed.

Lemma add_R (x y : float) :
  PrimFloat.is_finite x = true -> PrimFloat.is_finite y = true ->
  (Rabs (B2R x + B2R y) < pow2 1023)%R ->
  PrimFloat.is_finite (x + y) = true
  /\ (Rabs (B2R (x + y) - (B2R x + B2R y))
      <= Rabs (B2R x + B2R y) * pow2 (-53))%R.
Proof.
  intros Hx Hy Hsum. rewrite is_finite_SF. unfold B2R.
  rewrite FloatAxioms.add_spec.
  apply (SFadd_error prec emax Binary64Laws.binary64_prec_pos
           binary64_prec_lt_emax);
    auto using Prim2SF_valid, finite_SF.
Qed.

Lemma div_R (x y : float) :
  PrimFloat.is_finite x = true -> PrimFloat.is_finite y = true ->
  B2R y <> 0%R ->
  (Rabs (B2R x / B2R y) < pow2 1023)%R ->
  PrimFloat.is_finite (x / y) = true
  /\ (Rabs (B2R (x / y) - B2R x / B2R y)
      <= Rabs (B2R x / B2R y) * pow2 (-53) + pow2 (-1075))%R
  /\ ((pow2 (-1022) <= Rabs (B2R x / B2R y))%R ->
      (Rabs (B2R (x / y) - B2R x / B2R y)
       <= Rabs (B2R x / B2R y) * pow2 (-53))%R).
Proof.
  intros Hx Hy Hy0 Hq. rewrite is_finite_SF. unfold B2R.
  rewrite FloatAxioms.div_spec.
  apply (SFdiv_error prec emax Binary64Laws.binary64_prec_pos
           binary64_prec_lt_emax);
    auto using Prim2SF_valid, finite_SF.
Qed.

Lemma mul_R (x y : float) :
  PrimFloat.is_finite x = true -> PrimFloat.is_finite y = true ->
  (Rabs (B2R x * B2R y) < pow2 1023)%R ->
  PrimFloat.is_finite (x * y) = true
  /\ (Rabs (B2R (x * y) - B2R x * B2R y)
      <= Rabs (B2R x * B2R y) * pow2 (-53) + pow2 (-1075))%R
  /\ ((pow2 (-1022) <= Rabs (B2R x * B2R y))%R ->
      (Rabs (B2R (x * y) - B2R x * B2R y)
       <= Rabs (B2R x * B2R y) * pow2 (-53))%R).
Proof.
  intros Hx Hy Hq. rewrite is_finite_SF. unfold B2R.
  rewrite FloatAxioms.mul_spec.
  apply (SFmul_error prec emax Binary64Laws.binary64_prec_pos
           binary64_prec_lt_emax);
    auto using Prim2SF_valid, finite_SF.
Qed.

Lemma mul_zero_R (x y : float) :
  PrimFloat.is_finite x = true -> PrimFloat.is_finite y = true ->
  (B2R x * B2R y = 0)%R -> B2R (x * y) = 0%R.
Proof.
  intros Hx Hy Hp. unfold B2R. rewrite FloatAxioms.mul_spec.
  apply SFmul_zero; auto using finite_SF.
Qed.

Lemma sqrt_R (x : float) :
  PrimFloat.is_finite x = true -> (0 <= B2R x)%R ->
  PrimFloat.is_finite (PrimFloat.sqrt x) = true
  /\ (Rabs (B2R (PrimFloat.sqrt x) - R_sqrt.sqrt (B2R x))
      <= R_sqrt.sqrt (B2R x) * pow2 (-53))%R.
Proof.
  intros Hx Hx0. rewrite is_finite_SF. unfold B2R.
  rewrite FloatAxioms.sqrt_spec.
  apply (SFsqrt_error prec emax Binary64Laws.binary64_prec_pos
           binary64_prec_lt_emax);
    auto using Prim2SF_valid, finite_SF.
Qed.

Lemma abs_R (x : float) : B2R (abs x) = Rabs (B2R x).
Proof. unfold B2R. rewrite FloatAxioms.abs_spec. apply SF2R_abs. Qed.

Lemma abs_finite (x : float) :
  PrimFloat.is_finite (abs x) = PrimFloat.is_finite x.
Proof.
  rewrite !is_finite_SF, FloatAxioms.abs_spec.
  destruct (Prim2SF x); reflexivity.
Qed.

Lemma ltb_R (x y : float) :
  PrimFloat.is_finite x = true -> PrimFloat.is_finite y = true ->
  ((x <? y)%float = true <-> (B2R x < B2R y)%R).
Proof.
  intros Hx Hy. rewrite FloatAxioms.ltb_spec.
  apply (SFltb_R prec emax Binary64Laws.binary64_prec_pos);
    auto using Prim2SF_valid, finite_SF.
Qed.

Lemma leb_R (x y : float) :
  PrimFloat.is_finite x = true -> PrimFloat.is_finite y = true ->
  ((x <=? y)%float = true <-> (B2R x <= B2R y)%R).
Proof.
  intros Hx Hy. rewrite FloatAxioms.leb_spec.
  apply (SFleb_R prec emax Binary64Laws.binary64_prec_pos);
    auto using Prim2SF_valid, finite_SF.
Qed.

Lemma eqb_R (x y : float) :
  PrimFloat.is_finite x = true -> PrimFloat.is_finite y = true ->
  ((x =? y)%float = true <-> B2R x = B2R y).
Proof.
  intros Hx Hy. rewrite FloatAxioms.eqb_spec.
  apply (SFeqb_R prec emax Binary64Laws.binary64_prec_pos);
    auto using Prim2SF_valid, finite_SF.
Qed.

Lemma B2R_0 : B2R 0 = 0%R.
Proof. reflexivity. Qed.

Lemma pow2_Zneg (p : positive) : pow2 (Zneg p) = (/ IZR (2 ^ Zpos p))%R.
Proof.
  change (Zneg p) with (- Zpos p). rewrite pow2_opp, pow2_IZR by lia.
  reflexivity.
Qed.

Lemma u_value : pow2 (-53) = (/ 9007199254740992)%R.
Proof. rewrite pow2_Zneg. reflexivity. Qed.

Lemma B2R_1 : B2R 1 = 1%R.
Proof.
  unfold B2R.
  change (Prim2SF 1) with (S754_finite false 4503599627370496 (-52)).
  cbn [SF2R cond_Zopp]. rewrite pow2_Zneg.
  change (2 ^ 52) with 4503599627370496. lra.
Qed.

(** A number that the schema accepts between two finite bounds is finite
    and lies between them. *)
Lemma within_R (lo hi x : float) :
  PrimFloat.is_finite lo = true -> PrimFloat.is_finite hi = true ->
  within lo hi x = true ->
  PrimFloat.is_finite x = true /\ (B2R lo <= B2R x <= B2R hi)%R.
Proof.
  intros Hlo Hhi Hw. unfold within in Hw.
  cbn [num_is_nan num_ltb Binary64.number] in Hw.
  apply andb_true_iff in Hw. destruct Hw as [Hw Hhigh].
  apply andb_true_iff in Hw. destruct Hw as [Hnan Hlow].
  apply negb_true_iff in Hnan, Hlow, Hhigh.
  assert (Hfin : PrimFloat.is_finite x = true).
  { rewrite is_finite_SF in *.
    unfold PrimFloat.is_nan in Hnan.
    rewrite FloatAxioms.eqb_spec in Hnan.
    rewrite FloatAxioms.ltb_spec in Hlow, Hhigh.
    destruct (Prim2SF x) as [s|s| |s m e]; try reflexivity.
    - destruct s.
      + destruct (Prim2SF lo) as [s'|s'| |s' m' e']; try discriminate;
          cbn in Hlow; discriminate.
      + destruct (Prim2SF hi) as [s'|s'| |s' m' e']; try discriminate;
          cbn in Hhigh; discriminate.
    - cbn in Hnan. discriminate. }
  split; [exact Hfin|]. split.
  - destruct (Rle_lt_dec (B2R lo) (B2R x)) as [H|H]; [exact H|].
    apply (ltb_R x lo Hfin Hlo) in H. congruence.
  - destruct (Rle_lt_dec (B2R x) (B2R hi)) as [H|H]; [exact H|].
    apply (ltb_R hi x Hhi Hfin) in H. congruence.
Qed.

End Binary64Real.

(* ================================================================= *)
(** * The weight normalisation on binary64 numbers *)

Module Binary64Weights.

Import Binary64Real.
Local Open Scope R_scope.

Lemma div_le_bound (a b c : R) : 0 < b -> a <= c * b -> a / b <= c.
Proof.
  intros Hb H. apply Rmult_le_reg_r with b; [exact Hb|].
  unfold Rdiv. rewrite Rmult_assoc, Rinv_l by lra. lra.
Qed.

Lemma div_ge_bound (a b c : R) : 0 < b -> c * b <= a -> c <= a / b.
Proof.
  intros Hb H. apply Rmult_le_reg_r with b; [exact Hb|].
  unfold Rdiv. rewrite Rmult_assoc, Rinv_l by lra. lra.
Qed.

Lemma pow2_1023_large : 8 <= pow2 1023.
Proof.
  replace 8 with (pow2 3) by (unfold pow2; simpl; lra).
  apply pow2_le. lia.
Qed.

Lemma eta_small : 0 < pow2 (-1075) <= / 1000000000000000000000000000000.
Proof.
  split; [apply pow2_pos|].
  apply Rle_trans with (pow2 (-100)); [apply pow2_le; lia|].
  rewrite pow2_Zneg.
  change (2 ^ 100)%Z with 1267650600228229401496703205376%Z. lra.
Qed.

(** The sum of three numbers between 0 and 1, as the program adds them. *)
Lemma sum_of_three (e t b : float) :
  within 0%float 1%float e = true ->
  within 0%float 1%float t = true ->
  within 0%float 1%float b = true ->
  PrimFloat.is_finite e = true /\ PrimFloat.is_finite t = true
  /\ PrimFloat.is_finite b = true
  /\ PrimFloat.is_finite (e + t + b) = true
  /\ 0 <= B2R e <= 1 /\ 0 <= B2R t <= 1 /\ 0 <= B2R b <= 1
  /\ (1 - 2 * pow2 (-53)) * B2R (e + t + b) <= B2R e + B2R t + B2R b
  /\ B2R e + B2R t + B2R b <= (1 + 3 * pow2 (-53)) * B2R (e + t + b).
Proof.
  intros He Ht Hb.
  destruct (within_R 0 1 e eq_refl eq_refl He) as [Hfe HE].
  destruct (within_R 0 1 t eq_refl eq_refl Ht) as [Hft HT].
  destruct (within_R 0 1 b eq_refl eq_refl Hb) as [Hfb HB].
  rewrite B2R_0, B2R_1 in HE, HT, HB.
  pose proof pow2_1023_large as Hbig.
  destruct (add_R e t Hfe Hft) as [Hf1 H1].
  { rewrite Rabs_pos_eq by lra. lra. }
  rewrite (Rabs_pos_eq (B2R e + B2R t)) in H1 by lra.
  apply Rabs_le_between in H1. rewrite u_value in *.
  destruct (add_R (e + t) b Hf1 Hfb) as [Hf2 H2].
  { apply Rabs_def1; lra. }
  rewrite (Rabs_pos_eq (B2R (e + t) + B2R b)) in H2 by lra.
  apply Rabs_le_between in H2. rewrite u_value in *.
  repeat split; try assumption; try lra.
Qed.

Lemma B2R_lower_tolerance : B2R (1 - 0x1p-50) = 1 - / 1125899906842624.
Proof.
  unfold B2R.
  replace (Prim2SF (1 - 0x1p-50))
    with (S754_finite false 9007199254740984 (-53))
    by (vm_compute; reflexivity).
  cbn [SF2R cond_Zopp]. rewrite u_value. lra.
Qed.

Lemma B2R_upper_tolerance : B2R (1 + 0x1p-50) = 1 + / 1125899906842624.
Proof.
  unfold B2R.
  replace (Prim2SF (1 + 0x1p-50))
    with (S754_finite false 4503599627370500 (-52))
    by (vm_compute; reflexivity).
  cbn [SF2R cond_Zopp]. rewrite pow2_Zneg.
  change (2 ^ 52)%Z with 4503599627370496%Z. lra.
Qed.

(** A quotient of a part by the rounded sum. *)
Lemma weight_quotient (x s : float) :
  PrimFloat.is_finite x = true -> PrimFloat.is_finite s = true ->
  0 < B2R s -> 0 <= B2R x <= 2 * B2R s ->
  PrimFloat.is_finite (x / s) = true
  /\ Rabs (B2R (x / s) - B2R x / B2R s)
     <= B2R x / B2R s * / 9007199254740992 + pow2 (-1075)
  /\ 0 <= B2R x / B2R s <= 2.
Proof.
  intros Hfx Hfs Hs Hx.
  pose proof pow2_1023_large as Hbig.
  assert (Hq : 0 <= B2R x / B2R s <= 2).
  { split; [apply div_ge_bound; lra|apply div_le_bound; lra]. }
  destruct (div_R x s Hfx Hfs ltac:(lra)) as [Hf [Herr _]].
  { rewrite Rabs_pos_eq by lra. lra. }
  rewrite (Rabs_pos_eq (B2R x / B2R s)), u_value in Herr by lra.
  auto.
Qed.

End Binary64Weights.

Import Binary64Real Binary64Weights.

(** C3.  On binary64 numbers, for every raw weight triple with each
    component in [0,1], the sum of the three is positive or zero.  If it is
    positive, each output weight is the raw weight divided by the sum, and
    the normalised triple sums to 1 within a tolerance of [2 ^ -50].  If it
    is zero, the divisor is 1, so each output weight is its raw value, which
    is zero, and nothing is divided by zero. *)
Theorem normalizeWeights_binary64 :
  forall e t b : float,
    within 0%float 1%float e = true ->
    within 0%float 1%float t = true ->
    within 0%float 1%float b = true ->
    let sum := (e + t + b)%float in
    let w := normalizeWeights (weights_of e t b) in
    ((0 <? sum)%float = true \/ (sum =? 0)%float = true)
    /\ ((0 <? sum)%float = true ->
        w = weights_of (e / sum)%float (t / sum)%float (b / sum)%float
        /\ (1 - 0x1p-50 <=? sum_of_weights w)%float = true
        /\ (sum_of_weights w <=? 1 + 0x1p-50)%float = true)
    /\ ((sum =? 0)%float = true ->
        w = weights_of (e / 1)%float (t / 1)%float (b / 1)%float
        /\ w = weights_of e t b
        /\ (e =? 0)%float = true /\ (t =? 0)%float = true
        /\ (b =? 0)%float = true).
Proof.
  intros e t b He Ht Hb sum w.
  destruct (sum_of_three e t b He Ht Hb)
    as [Hfe [Hft [Hfb [Hfs [HE [HT [HB [Hlow Hup]]]]]]]].
  fold sum in Hfs, Hlow, Hup. rewrite u_value in Hlow, Hup.
  set (E := B2R e) in *. set (T := B2R t) in *. set (B := B2R b) in *.
  set (Sg := B2R sum) in *.
  assert (HS : (0 <= Sg)%R) by lra.
  split; [|split].
  - destruct (Rle_lt_dec Sg 0) as [Hz|Hp].
    + right. apply (eqb_R sum 0 Hfs eq_refl). rewrite B2R_0. fold Sg. lra.
    + left. apply (ltb_R 0 sum eq_refl Hfs). rewrite B2R_0. exact Hp.
  - intros Hpos.
    assert (Hp : (0 < Sg)%R).
    { apply (ltb_R 0 sum eq_refl Hfs) in Hpos. rewrite B2R_0 in Hpos.
      exact Hpos. }
    assert (Htruthy : Binary64.truthy sum = true).
    { unfold Binary64.truthy, PrimFloat.is_zero.
      change zero with 0%float.
      rewrite (Binary64Exact.positive_not_zero Hpos).
      unfold PrimFloat.is_finite in Hfs.
      destruct (PrimFloat.is_nan sum); [discriminate|reflexivity]. }
    assert (Hw : w = weights_of (e / sum)%float (t / sum)%float
                       (b / sum)%float).
    { unfold w, normalizeWeights, weights_of, num_or.
      cbn [Weights.embedding Weights.traits Weights.behavior num_add num_div
           num_truthy num_one Binary64.number].
      fold sum. rewrite Htruthy. reflexivity. }
    split; [exact Hw|].
    rewrite Hw. unfold sum_of_weights, weights_of.
    cbn [Weights.embedding Weights.traits Weights.behavior num_add
         Binary64.number].
    destruct (weight_quotient e sum Hfe Hfs Hp ltac:(fold E Sg; lra))
      as [Hfwe [Hwe Hqe]].
    destruct (weight_quotient t sum Hft Hfs Hp ltac:(fold T Sg; lra))
      as [Hfwt [Hwt Hqt]].
    destruct (weight_quotient b sum Hfb Hfs Hp ltac:(fold B Sg; lra))
      as [Hfwb [Hwb Hqb]].
    fold E T B Sg in Hwe, Hwt, Hwb, Hqe, Hqt, Hqb.
    set (qe := (E / Sg)%R) in *. set (qt := (T / Sg)%R) in *.
    set (qb := (B / Sg)%R) in *.
    assert (HQ : (qe + qt + qb = (E + T + B) / Sg)%R)
      by (unfold qe, qt, qb; field; lra).
    assert (HQlow : (1 - 2 * / 9007199254740992 <= qe + qt + qb)%R).
    { rewrite HQ. apply div_ge_bound; lra. }
    assert (HQup : (qe + qt + qb <= 1 + 3 * / 9007199254740992)%R).
    { rewrite HQ. apply div_le_bound; lra. }
    pose proof eta_small as Heta. set (eta := pow2 (-1075)) in *.
    apply Rabs_le_between in Hwe, Hwt, Hwb.
    pose proof pow2_1023_large as Hbig.
    set (We := B2R (e / sum)) in *. set (Wt := B2R (t / sum)) in *.
    set (Wb := B2R (b / sum)) in *.
    destruct (add_R (e / sum) (t / sum) Hfwe Hfwt) as [Hfa Ha].
    { fold We Wt. apply Rabs_def1; lra. }
    fold We Wt in Ha.
    assert (Habs1 : (Rabs (We + Wt)
                     <= (qe + qt) + 3 * / 9007199254740992)%R).
    { apply Rabs_le; lra. }
    rewrite u_value in Ha. apply Rabs_le_between in Ha.
    set (A := B2R (e / sum + t / sum)) in *.
    destruct (add_R (e / sum + t / sum) (b / sum) Hfa Hfwb) as [Hftot Htot].
    { fold A Wb. apply Rabs_def1; lra. }
    fold A Wb in Htot.
    assert (Habs2 : (Rabs (A + Wb)
                     <= (qe + qt + qb) + 5 * / 9007199254740992)%R).
    { apply Rabs_le; lra. }
    rewrite u_value in Htot. apply Rabs_le_between in Htot.
    set (Tot := B2R (e / sum + t / sum + b / sum)) in *.
    split.
    + apply (leb_R (1 - 0x1p-50) _ eq_refl Hftot).
      rewrite B2R_lower_tolerance.
      fold Tot. lra.
    + apply (leb_R _ (1 + 0x1p-50) Hftot eq_refl).
      rewrite B2R_upper_tolerance.
      fold Tot. lra.
  - intros Hzero.
    assert (Hz : Sg = 0%R).
    { apply (eqb_R sum 0 Hfs eq_refl) in Hzero. rewrite B2R_0 in Hzero.
      exact Hzero. }
    assert (Htruthy : Binary64.truthy sum = false).
    { unfold Binary64.truthy, PrimFloat.is_zero.
      change zero with 0%float. rewrite Hzero, orb_true_r. reflexivity. }
    assert (Hw : w = weights_of (e / 1)%float (t / 1)%float (b / 1)%float).
    { unfold w, normalizeWeights, weights_of, num_or.
      cbn [Weights.embedding Weights.traits Weights.behavior num_add num_div
           num_truthy num_one Binary64.number].
      fold sum. rewrite Htruthy. reflexivity. }
    split; [exact Hw|]. split.
    + rewrite Hw, !Binary64Exact.div_one. reflexivity.
    + repeat split.
      * apply (eqb_R e 0 Hfe eq_refl). rewrite B2R_0. fold E. lra.
      * apply (eqb_R t 0 Hft eq_refl). rewrite B2R_0. fold T. lra.
      * apply (eqb_R b 0 Hfb eq_refl). rewrite B2R_0. fold B. lra.
Qed.

Lemma normalizeWeights_binary64_witness :
  within 0%float 1%float 0.1%float = true
  /\ within 0%float 1%float 0.2%float = true
  /\ within 0%float 1%float 0.3%float = true
  /\ (0 <? 0.1 + 0.2 + 0.3)%float = true
  /\ (1 - 0x1p-50
      <=? sum_of_weights
            (normalizeWeights (weights_of 0.1 0.2 0.3)))%float = true
  /\ (sum_of_weights (normalizeWeights (weights_of 0.1 0.2 0.3))
      <=? 1 + 0x1p-50)%float = true.
Proof.
  assert (He : within 0%float 1%float 0.1%float = true) by reflexivity.
  assert (Ht : within 0%float 1%float 0.2%float = true) by reflexivity.
  assert (Hb : within 0%float 1%float 0.3%float = true) by reflexivity.
  assert (Hpos : (0 <? 0.1 + 0.2 + 0.3)%float = true) by reflexivity.
  split; [exact He|]. split; [exact Ht|]. split; [exact Hb|].
  split; [exact Hpos|].
  destruct (normalizeWeights_binary64 0.1 0.2 0.3 He Ht Hb)
    as [_ [Hpositive _]].
  exact (proj2 (Hpositive Hpos)).
Defined.

(* ================================================================= *)
(** * The cosine similarity on binary64 numbers *)

Section SumFacts.
Context {N : Type} `{JsNumber N}.
Local Open Scope js_scope.

(** The three accumulators of the loop of [cosineSimilarity]. *)
Lemma cosine_loop_sums (a : list N) :
  forall (b : list N) (dot normA normB : N),
    List.length a = List.length b ->
    cosine_loop a b dot normA normB
    = (sum_of_products dot a b, sum_of_products normA a a,
       sum_of_products normB b b).
Proof.
  induction a as [|x a IH]; intros [|y b] dot normA normB Hlen;
    try discriminate; simpl; [reflexivity|].
  apply IH. simpl in Hlen. congruence.
Qed.

(** [cosineSimilarity] once the length guard is passed. *)
Lemma cosineSimilarity_guarded (a b : list N) :
  a <> [] -> List.length a = List.length b ->
  cosineSimilarity a b
  = if (negb (num_truthy (sum_of_products num_zero a a))
        || negb (num_truthy (sum_of_products num_zero b b)))%bool
    then num_zero
    else sum_of_products num_zero a b
         / (num_sqrt (sum_of_products num_zero a a)
            * num_sqrt (sum_of_products num_zero b b)).
Proof.
  intros Ha Hlen. unfold cosineSimilarity.
  rewrite <- Hlen, Nat.eqb_refl.
  destruct a as [|x a]; [congruence|]. cbn [List.length Nat.eqb orb negb].
  rewrite (cosine_loop_sums (x :: a) b _ _ _ Hlen). reflexivity.
Qed.

End SumFacts.

Module Binary64Cosine.

Import Binary64Real.
Local Open Scope R_scope.

Lemma eqb_zero_SF (x : float) :
  (x =? 0)%float = true -> exists s, Prim2SF x = S754_zero s.
Proof.
  rewrite FloatAxioms.eqb_spec. change (Prim2SF 0) with (S754_zero false).
  destruct (Prim2SF x) as [s|s| |s m e]; cbn; try discriminate; eauto;
    destruct s; discriminate.
Qed.

Lemma eqb_zero_R (x : float) :
  (x =? 0)%float = true -> PrimFloat.is_finite x = true /\ B2R x = 0.
Proof.
  intros Hx. destruct (eqb_zero_SF x Hx) as [s Hs].
  rewrite is_finite_SF. unfold B2R. rewrite Hs. split; reflexivity.
Qed.

Lemma B2R_low : B2R 0x1p-200 = pow2 (-200).
Proof.
  unfold B2R.
  replace (Prim2SF 0x1p-200) with (S754_finite false 4503599627370496 (-252))
    by (vm_compute; reflexivity).
  cbn [SF2R cond_Zopp]. change 4503599627370496%Z with (2 ^ 52)%Z.
  rewrite <- pow2_IZR, <- pow2_add by lia. reflexivity.
Qed.

Lemma B2R_high : B2R 0x1p200 = pow2 200.
Proof.
  unfold B2R.
  replace (Prim2SF 0x1p200) with (S754_finite false 4503599627370496 148)
    by (vm_compute; reflexivity).
  cbn [SF2R cond_Zopp]. change 4503599627370496%Z with (2 ^ 52)%Z.
  rewrite <- pow2_IZR, <- pow2_add by lia. reflexivity.
Qed.

Lemma leb_abs_finite (x hi : float) :
  PrimFloat.is_finite hi = true -> (abs x <=? hi)%float = true ->
  PrimFloat.is_finite x = true.
Proof.
  rewrite !is_finite_SF, FloatAxioms.leb_spec, FloatAxioms.abs_spec.
  destruct (Prim2SF x) as [s|s| |s m e]; try reflexivity;
    destruct (Prim2SF hi) as [s'|s'| |s' m' e']; try discriminate;
    cbn; discriminate.
Qed.

Lemma moderate_R (x : float) :
  moderate x = true ->
  PrimFloat.is_finite x = true
  /\ (B2R x = 0 \/ pow2 (-200) <= Rabs (B2R x) <= pow2 200).
Proof.
  unfold moderate. intros Hm. apply orb_true_iff in Hm.
  destruct Hm as [Hz|Hm].
  - destruct (eqb_zero_R x Hz) as [Hf H0]. auto.
  - apply andb_true_iff in Hm. destruct Hm as [Hlo Hhi].
    assert (Hf : PrimFloat.is_finite x = true)
      by (apply (leb_abs_finite x 0x1p200 eq_refl Hhi)).
    split; [exact Hf|]. right.
    assert (Hfa : PrimFloat.is_finite (abs x) = true)
      by (rewrite abs_finite; exact Hf).
    apply (leb_R 0x1p-200 (abs x) eq_refl Hfa) in Hlo.
    apply (leb_R (abs x) 0x1p200 Hfa eq_refl) in Hhi.
    rewrite abs_R in Hlo, Hhi. rewrite B2R_low in Hlo.
    rewrite B2R_high in Hhi. split; assumption.
Qed.

Lemma pow2_twice (k : Z) : pow2 (k + 1) = 2 * pow2 k.
Proof. apply pow2_succ. Qed.

(** The product of two moderate numbers. *)
Lemma product_R (x y : float) :
  moderate x = true -> moderate y = true ->
  PrimFloat.is_finite (x * y) = true
  /\ Rabs (B2R (x * y) - B2R x * B2R y)
     <= Rabs (B2R x * B2R y) * / 9007199254740992
  /\ Rabs (B2R x * B2R y) <= pow2 400
  /\ (B2R x * B2R y <> 0 -> pow2 (-400) <= Rabs (B2R x * B2R y)).
Proof.
  intros Hx Hy.
  destruct (moderate_R x Hx) as [Hfx HX].
  destruct (moderate_R y Hy) as [Hfy HY].
  set (X := B2R x) in *. set (Y := B2R y) in *.
  assert (Hp400 : pow2 200 * pow2 200 = pow2 400)
    by (rewrite <- pow2_add; reflexivity).
  assert (Hm400 : pow2 (-200) * pow2 (-200) = pow2 (-400))
    by (rewrite <- pow2_add; reflexivity).
  pose proof (pow2_pos 200) as H200. pose proof (pow2_pos (-200)) as Hm200.
  pose proof (Rabs_pos X) as HaX. pose proof (Rabs_pos Y) as HaY.
  assert (Hupper : Rabs (X * Y) <= pow2 400).
  { rewrite Rabs_mult.
    destruct HX as [HX|HX]; [rewrite HX, Rabs_R0; pose proof (pow2_pos 400);
                             nra|].
    destruct HY as [HY|HY]; [rewrite HY, Rabs_R0; pose proof (pow2_pos 400);
                             nra|].
    nra. }
  assert (Hlower : X * Y <> 0 -> pow2 (-400) <= Rabs (X * Y)).
  { intros Hne. rewrite Rabs_mult.
    destruct HX as [HX|HX]; [exfalso; apply Hne; rewrite HX; ring|].
    destruct HY as [HY|HY]; [exfalso; apply Hne; rewrite HY; ring|].
    nra. }
  destruct (mul_R x y Hfx Hfy) as [Hf [_ Hrel]].
  { fold X Y. apply Rle_lt_trans with (pow2 400); [exact Hupper|].
    apply pow2_lt. lia. }
  fold X Y in Hrel. rewrite u_value in Hrel.
  split; [exact Hf|]. split; [|split; assumption].
  destruct (Req_dec (X * Y) 0) as [Hz|Hne].
  - rewrite (mul_zero_R x y Hfx Hfy Hz). fold X Y. rewrite Hz.
    rewrite Rminus_0_r, Rabs_R0. lra.
  - apply Hrel. apply Rle_trans with (pow2 (-400)); [|apply Hlower; exact Hne].
    apply pow2_le. lia.
Qed.

(** One turn of the loop: the accumulator stays finite, and grows by at
    most [2 ^ 402]. *)
Lemma accumulate_step (acc x y : float) (k : Z) :
  PrimFloat.is_finite acc = true ->
  moderate x = true -> moderate y = true ->
  (0 <= k < 2 ^ 32)%Z ->
  Rabs (B2R acc) <= IZR k * pow2 402 ->
  PrimFloat.is_finite (acc + x * y) = true
  /\ Rabs (B2R (acc + x * y)) <= IZR (k + 1) * pow2 402
  /\ Rabs (B2R (acc + x * y) - (B2R acc + B2R (x * y)))
     <= Rabs (B2R acc + B2R (x * y)) * / 9007199254740992.
Proof.
  intros Hfa Hx Hy Hk Hacc.
  destruct (product_R x y Hx Hy) as [Hfp [Hperr [Hpup _]]].
  set (A := B2R acc) in *. set (P := B2R (x * y)) in *.
  set (XY := (B2R x * B2R y)%R) in *.
  set (c := pow2 402) in *.
  assert (Hc : pow2 400 = c / 4).
  { unfold c. replace 402%Z with (400 + 1 + 1)%Z by lia.
    rewrite !pow2_twice. lra. }
  assert (Hcpos : 0 < c) by apply pow2_pos.
  assert (Hbig : 17179869184 * c <= pow2 1023).
  { replace 17179869184 with (pow2 34).
    - unfold c. rewrite <- pow2_add. apply pow2_le. lia.
    - rewrite (pow2_IZR 34) by lia. reflexivity. }
  assert (HK : 0 <= IZR k <= 4294967296).
  { split; [apply IZR_le; lia|]. apply IZR_le.
    change 4294967296%Z with (2 ^ 32)%Z. lia. }
  set (bound := (IZR k * c)%R) in *.
  assert (HZ : 0 <= bound <= 4294967296 * c) by (unfold bound; nra).
  apply Rabs_le_between in Hacc, Hperr.
  assert (HP : Rabs P <= c / 2).
  { rewrite Hc in Hpup. pose proof (Rle_abs XY) as H1.
    pose proof (Rle_abs (- XY)) as H2. rewrite Rabs_Ropp in H2.
    apply Rabs_le. lra. }
  apply Rabs_le_between in HP.
  assert (Hsum : Rabs (A + P) <= bound + c / 2) by (apply Rabs_le; lra).
  destruct (add_R acc (x * y) Hfa Hfp) as [Hf Herr].
  { fold A P. lra. }
  fold A P in Herr. rewrite u_value in Herr.
  split; [exact Hf|]. split; [|exact Herr].
  rewrite plus_IZR. fold bound.
  apply Rabs_le_between in Herr. apply Rabs_le_between in Hsum.
  replace ((IZR k + 1) * c) with (bound + c) by (unfold bound; ring).
  apply Rabs_le.
  assert (Habs : Rabs (A + P) <= bound + c / 2) by (apply Rabs_le; lra).
  lra.
Qed.

(** The accumulator after the loop, for vectors of moderate numbers. *)
Lemma accumulate_upper (a : list float) :
  forall (b : list float) (acc : float) (k : Z),
    Forall (fun x => moderate x = true) a ->
    Forall (fun x => moderate x = true) b ->
    PrimFloat.is_finite acc = true ->
    (0 <= k)%Z -> (k + Z.of_nat (List.length a) <= 2 ^ 32)%Z ->
    Rabs (B2R acc) <= IZR k * pow2 402 ->
    PrimFloat.is_finite (sum_of_products acc a b) = true
    /\ Rabs (B2R (sum_of_products acc a b)) <= 4294967296 * pow2 402.
Proof.
  induction a as [|x a IH]; intros b acc k Ha Hb Hf Hk Hlen Hacc.
  - cbn [sum_of_products]. split; [exact Hf|].
    eapply Rle_trans; [exact Hacc|].
    pose proof (pow2_pos 402). cbn [List.length] in Hlen.
    assert (IZR k <= 4294967296).
    { apply IZR_le. change 4294967296%Z with (2 ^ 32)%Z. lia. }
    nra.
  - destruct b as [|y b].
    + cbn [sum_of_products]. split; [exact Hf|].
      eapply Rle_trans; [exact Hacc|].
      pose proof (pow2_pos 402).
      assert (IZR k <= 4294967296).
      { apply IZR_le. change 4294967296%Z with (2 ^ 32)%Z. lia. }
      nra.
    + cbn [sum_of_products]. cbn [List.length] in Hlen.
      inversion Ha as [|? ? Hx Ha']; subst.
      inversion Hb as [|? ? Hy Hb']; subst.
      destruct (accumulate_step acc x y k Hf Hx Hy ltac:(lia) Hacc)
        as [Hf' [Hacc' _]].
      apply (IH b _ (k + 1)%Z Ha' Hb' Hf' ltac:(lia) ltac:(lia) Hacc').
Qed.

(** The sum of the squares of moderate numbers is zero or at least
    [2 ^ -402]. *)
Lemma squares_lower (a : list float) :
  forall (acc : float) (k : Z),
    Forall (fun x => moderate x = true) a ->
    PrimFloat.is_finite acc = true ->
    (0 <= k)%Z -> (k + Z.of_nat (List.length a) <= 2 ^ 32)%Z ->
    Rabs (B2R acc) <= IZR k * pow2 402 ->
    0 <= B2R acc ->
    (B2R acc = 0
     \/ pow2 (-401) - / 9007199254740992 * (IZR k * pow2 (-401))
        <= B2R acc) ->
    0 <= B2R (sum_of_products acc a a)
    /\ (B2R (sum_of_products acc a a) = 0
        \/ pow2 (-402) <= B2R (sum_of_products acc a a)).
Proof.
  assert (HL : pow2 (-401) = 2 * pow2 (-402)).
  { replace (-401)%Z with (-402 + 1)%Z by lia. apply pow2_twice. }
  pose proof (pow2_pos (-402)) as HLpos.
  induction a as [|x a IH]; intros acc k Ha Hf Hk Hlen Hacc Hnonneg Hinv.
  - cbn [sum_of_products]. split; [exact Hnonneg|].
    destruct Hinv as [Hz|Hlow]; [left; exact Hz|right].
    cbn [List.length] in Hlen.
    assert (HK : 0 <= IZR k <= 4294967296).
    { split; [apply IZR_le; lia|]. apply IZR_le.
      change 4294967296%Z with (2 ^ 32)%Z. lia. }
    rewrite HL in Hlow. nra.
  - cbn [sum_of_products]. cbn [List.length] in Hlen.
    inversion Ha as [|? ? Hx Ha']; subst.
    destruct (accumulate_step acc x x k Hf Hx Hx ltac:(lia) Hacc)
      as [Hf' [Hacc' Herr]].
    destruct (product_R x x Hx Hx) as [_ [Hperr [_ Hplow]]].
    set (A := B2R acc) in *. set (P := B2R (x * x)) in *.
    set (X := B2R x) in *. set (A' := B2R (acc + x * x)) in *.
    assert (HXX : 0 <= X * X) by nra.
    rewrite (Rabs_pos_eq (X * X)) in Hperr, Hplow by exact HXX.
    apply Rabs_le_between in Hperr.
    assert (HP : 0 <= P) by lra.
    rewrite (Rabs_pos_eq (A + P)) in Herr by lra.
    apply Rabs_le_between in Herr.
    assert (HK : 0 <= IZR k) by (apply IZR_le; lia).
    apply (IH _ (k + 1)%Z Ha' Hf' ltac:(lia) ltac:(lia) Hacc').
    + fold A'. lra.
    + fold A'. rewrite plus_IZR.
      set (M := (IZR k * pow2 (-401))%R) in *.
      replace ((IZR k + 1) * pow2 (-401)) with (M + pow2 (-401))
        by (unfold M; ring).
      assert (HM : 0 <= M) by (unfold M; nra).
      destruct (Req_dec (X * X) 0) as [Hz|Hne].
      * assert (HP0 : P = 0) by lra.
        destruct Hinv as [HA0|Hlow]; [left; lra|right; lra].
      * specialize (Hplow Hne).
        assert (Hp400 : pow2 (-400) = 2 * pow2 (-401)).
        { replace (-400)%Z with (-401 + 1)%Z by lia. apply pow2_twice. }
        right. destruct Hinv as [HA0|Hlow]; lra.
Qed.

(** The sum of the squares of moderate numbers, one of them not zero, is
    not zero. *)
Lemma squares_nonzero (a : list float) :
  forall (acc : float) (k : Z),
    Forall (fun x => moderate x = true) a ->
    PrimFloat.is_finite acc = true ->
    (0 <= k)%Z -> (k + Z.of_nat (List.length a) <= 2 ^ 32)%Z ->
    Rabs (B2R acc) <= IZR k * pow2 402 ->
    0 <= B2R acc ->
    (0 < B2R acc \/ Exists (fun x => (x =? 0)%float = false) a) ->
    0 < B2R (sum_of_products acc a a).
Proof.
  induction a as [|x a IH]; intros acc k Ha Hf Hk Hlen Hacc Hnonneg Hsome.
  - cbn [sum_of_products]. destruct Hsome as [Hpos|Hex]; [exact Hpos|].
    inversion Hex.
  - cbn [sum_of_products]. cbn [List.length] in Hlen.
    inversion Ha as [|? ? Hx Ha']; subst.
    destruct (accumulate_step acc x x k Hf Hx Hx ltac:(lia) Hacc)
      as [Hf' [Hacc' Herr]].
    destruct (product_R x x Hx Hx) as [_ [Hperr _]].
    destruct (moderate_R x Hx) as [Hfx _].
    pose proof (eqb_R x 0 Hfx eq_refl) as Hzero. rewrite B2R_0 in Hzero.
    set (A := B2R acc) in *. set (P := B2R (x * x)) in *.
    set (X := B2R x) in *. set (A' := B2R (acc + x * x)) in *.
    assert (HXX : 0 <= X * X) by nra.
    rewrite (Rabs_pos_eq (X * X)) in Hperr by exact HXX.
    apply Rabs_le_between in Hperr.
    assert (HP : 0 <= P) by lra.
    rewrite (Rabs_pos_eq (A + P)) in Herr by lra.
    apply Rabs_le_between in Herr.
    apply (IH _ (k + 1)%Z Ha' Hf' ltac:(lia) ltac:(lia) Hacc').
    + fold A'. lra.
    + fold A'. destruct Hsome as [Hpos|Hex]; [left; lra|].
      inversion Hex as [? ? Hhead|? ? Htail]; subst; [left|right; exact Htail].
      assert (HX : X <> 0).
      { intros HX0. apply Hzero in HX0. congruence. }
      assert (0 < X * X) by nra. lra.
Qed.

Lemma norm_nonzero_R (a : list float) :
  Forall (fun x => moderate x = true) a ->
  (Z.of_nat (List.length a) <= 2 ^ 32)%Z ->
  Exists (fun x => (x =? 0)%float = false) a ->
  0 < B2R (sum_of_products 0%float a a).
Proof.
  intros Ha Hlen Hex.
  assert (H0 : Rabs (B2R 0) <= IZR 0 * pow2 402).
  { rewrite B2R_0, Rabs_R0. lra. }
  apply (squares_nonzero a 0%float 0 Ha eq_refl ltac:(lia) ltac:(lia) H0).
  - rewrite B2R_0. lra.
  - right. exact Hex.
Qed.

Lemma norm_R (a : list float) :
  Forall (fun x => moderate x = true) a ->
  (Z.of_nat (List.length a) <= 2 ^ 32)%Z ->
  PrimFloat.is_finite (sum_of_products 0%float a a) = true
  /\ 0 <= B2R (sum_of_products 0%float a a) <= pow2 434
  /\ (B2R (sum_of_products 0%float a a) = 0
      \/ pow2 (-402) <= B2R (sum_of_products 0%float a a)).
Proof.
  intros Ha Hlen.
  assert (H0 : Rabs (B2R 0) <= IZR 0 * pow2 402).
  { rewrite B2R_0, Rabs_R0. lra. }
  destruct (accumulate_upper a a 0%float 0 Ha Ha eq_refl ltac:(lia)
              ltac:(lia) H0) as [Hf Hup].
  destruct (squares_lower a 0%float 0 Ha eq_refl ltac:(lia) ltac:(lia) H0)
    as [Hnonneg Hlow].
  { rewrite B2R_0. lra. }
  { left. apply B2R_0. }
  split; [exact Hf|]. split; [|exact Hlow]. split; [exact Hnonneg|].
  apply Rabs_le_between in Hup.
  replace (pow2 434) with (4294967296 * pow2 402); [lra|].
  replace 4294967296 with (pow2 32).
  - rewrite <- pow2_add. reflexivity.
  - rewrite (pow2_IZR 32) by lia. reflexivity.
Qed.

Lemma dot_R (a b : list float) :
  Forall (fun x => moderate x = true) a ->
  Forall (fun x => moderate x = true) b ->
  (Z.of_nat (List.length a) <= 2 ^ 32)%Z ->
  PrimFloat.is_finite (sum_of_products 0%float a b) = true
  /\ Rabs (B2R (sum_of_products 0%float a b)) <= pow2 434.
Proof.
  intros Ha Hb Hlen.
  assert (H0 : Rabs (B2R 0) <= IZR 0 * pow2 402).
  { rewrite B2R_0, Rabs_R0. lra. }
  destruct (accumulate_upper a b 0%float 0 Ha Hb eq_refl ltac:(lia)
              ltac:(lia) H0) as [Hf Hup].
  split; [exact Hf|].
  replace (pow2 434) with (4294967296 * pow2 402); [lra|].
  replace 4294967296 with (pow2 32).
  - rewrite <- pow2_add. reflexivity.
  - rewrite (pow2_IZR 32) by lia. reflexivity.
Qed.

(** The square root of a sum of squares that is not zero. *)
Lemma sqrt_norm_R (n : float) :
  PrimFloat.is_finite n = true ->
  pow2 (-402) <= B2R n <= pow2 434 ->
  PrimFloat.is_finite (PrimFloat.sqrt n) = true
  /\ pow2 (-202) <= B2R (PrimFloat.sqrt n) <= pow2 218.
Proof.
  intros Hf [Hlo Hhi].
  pose proof (pow2_pos (-402)) as Hpos.
  destruct (sqrt_R n Hf ltac:(lra)) as [Hfs Herr].
  split; [exact Hfs|].
  assert (H1 : pow2 (-201) <= R_sqrt.sqrt (B2R n)).
  { rewrite <- (sqrt_pow2_square (-201)). apply sqrt_le_1_alt.
    rewrite <- pow2_add. exact Hlo. }
  assert (H2 : R_sqrt.sqrt (B2R n) <= pow2 217).
  { rewrite <- (sqrt_pow2_square 217). apply sqrt_le_1_alt.
    rewrite <- pow2_add. exact Hhi. }
  rewrite u_value in Herr. apply Rabs_le_between in Herr.
  assert (Ha : pow2 (-201) = 2 * pow2 (-202)).
  { replace (-201)%Z with (-202 + 1)%Z by lia. apply pow2_twice. }
  assert (Hb : pow2 218 = 2 * pow2 217).
  { replace 218%Z with (217 + 1)%Z by lia. apply pow2_twice. }
  pose proof (pow2_pos (-202)). pose proof (pow2_pos 217).
  split; lra.
Qed.

(** The quotient that [cosineSimilarity] returns is finite. *)
Lemma quotient_finite (dot normA normB : float) :
  PrimFloat.is_finite dot = true ->
  PrimFloat.is_finite normA = true -> PrimFloat.is_finite normB = true ->
  Rabs (B2R dot) <= pow2 434 ->
  pow2 (-402) <= B2R normA <= pow2 434 ->
  pow2 (-402) <= B2R normB <= pow2 434 ->
  PrimFloat.is_finite
    (dot / (PrimFloat.sqrt normA * PrimFloat.sqrt normB)) = true.
Proof.
  intros Hfd Hfa Hfb Hd Ha Hb.
  destruct (sqrt_norm_R normA Hfa Ha) as [Hfsa [Hsa1 Hsa2]].
  destruct (sqrt_norm_R normB Hfb Hb) as [Hfsb [Hsb1 Hsb2]].
  set (sa := PrimFloat.sqrt normA) in *.
  set (sb := PrimFloat.sqrt normB) in *.
  set (SA := B2R sa) in *. set (SB := B2R sb) in *.
  pose proof (pow2_pos (-202)) as Hp202. pose proof (pow2_pos 218) as Hp218.
  assert (Hm404 : pow2 (-202) * pow2 (-202) = pow2 (-404))
    by (rewrite <- pow2_add; reflexivity).
  assert (Hp436 : pow2 218 * pow2 218 = pow2 436)
    by (rewrite <- pow2_add; reflexivity).
  assert (Hprod : pow2 (-404) <= SA * SB <= pow2 436).
  { rewrite <- Hm404, <- Hp436. split; nra. }
  pose proof (pow2_pos (-404)) as Hp404.
  destruct (mul_R sa sb Hfsa Hfsb) as [Hfden [_ Hrel]].
  { fold SA SB. rewrite Rabs_pos_eq by lra.
    apply Rle_lt_trans with (pow2 436); [lra|]. apply pow2_lt. lia. }
  fold SA SB in Hrel. rewrite (Rabs_pos_eq (SA * SB)) in Hrel by lra.
  assert (Hnormal : pow2 (-1022) <= SA * SB).
  { apply Rle_trans with (pow2 (-404)); [apply pow2_le; lia|lra]. }
  specialize (Hrel Hnormal). rewrite u_value in Hrel.
  apply Rabs_le_between in Hrel.
  set (den := (sa * sb)%float) in *. set (DEN := B2R den) in *.
  assert (Hm405 : pow2 (-404) = 2 * pow2 (-405)).
  { replace (-404)%Z with (-405 + 1)%Z by lia. apply pow2_twice. }
  pose proof (pow2_pos (-405)) as Hp405.
  assert (Hden : pow2 (-405) <= DEN) by lra.
  assert (Hne : DEN <> 0) by lra.
  destruct (div_R dot den Hfd Hfden Hne) as [Hfq _]; [|exact Hfq].
  fold DEN.
  unfold Rdiv. rewrite Rabs_mult, Rabs_inv, (Rabs_pos_eq DEN) by lra.
  apply Rle_lt_trans with (pow2 434 * / pow2 (-405)).
  - pose proof (Rabs_pos (B2R dot)).
    assert (0 < / DEN <= / pow2 (-405)).
    { split; [apply Rinv_0_lt_compat; lra|].
      apply Rinv_le_contravar; lra. }
    nra.
  - rewrite <- pow2_opp, <- pow2_add. apply pow2_lt. lia.
Qed.

Lemma truthy_R (x : float) :
  PrimFloat.is_finite x = true ->
  (Binary64.truthy x = true <-> B2R x <> 0).
Proof.
  intros Hf. unfold Binary64.truthy, PrimFloat.is_zero.
  change zero with 0%float.
  assert (Hnan : PrimFloat.is_nan x = false).
  { unfold PrimFloat.is_finite in Hf.
    destruct (PrimFloat.is_nan x); [discriminate|reflexivity]. }
  rewrite Hnan. cbn [orb].
  pose proof (eqb_R x 0 Hf eq_refl) as Heq. rewrite B2R_0 in Heq.
  destruct (x =? 0)%float; cbn [negb]; split; intros H;
    try reflexivity; try discriminate.
  - exfalso. apply H. apply Heq. reflexivity.
  - intros Hz. apply Heq in Hz. discriminate.
Qed.

(** The sum of the squares of zeros is zero. *)
Lemma zeros_sum (a : list float) :
  forall acc : float,
    (acc =? 0)%float = true ->
    Forall (fun x => (x =? 0)%float = true) a ->
    (sum_of_products acc a a =? 0)%float = true.
Proof.
  pose proof (pow2_pos 1023) as Hbig.
  induction a as [|x a IH]; intros acc Hacc Ha; cbn [sum_of_products];
    [exact Hacc|].
  inversion Ha as [|? ? Hx Ha']; subst.
  apply IH; [|exact Ha'].
  destruct (eqb_zero_R acc Hacc) as [Hfa HA].
  destruct (eqb_zero_R x Hx) as [Hfx HX].
  destruct (mul_R x x Hfx Hfx) as [Hfp _].
  { rewrite HX, Rmult_0_l, Rabs_R0. exact Hbig. }
  assert (HP : B2R (x * x) = 0).
  { apply mul_zero_R; try assumption. rewrite HX. ring. }
  destruct (add_R acc (x * x) Hfa Hfp) as [Hf Herr].
  { rewrite HA, HP, Rplus_0_l, Rabs_R0. exact Hbig. }
  rewrite HA, HP, Rplus_0_l, Rabs_R0, Rmult_0_l, Rminus_0_r in Herr.
  apply (eqb_R _ 0 Hf eq_refl). rewrite B2R_0.
  pose proof (Rabs_pos (B2R (acc + x * x))) as Hpos.
  destruct (Req_dec (B2R (acc + x * x)) 0) as [Hz|Hne]; [exact Hz|].
  apply Rabs_pos_lt in Hne. lra.
Qed.

Lemma zeros_falsy (a : list float) :
  Forall (fun x => (x =? 0)%float = true) a ->
  Binary64.truthy (sum_of_products 0%float a a) = false.
Proof.
  intros Ha. unfold Binary64.truthy, PrimFloat.is_zero.
  change zero with 0%float.
  rewrite (zeros_sum a 0%float eq_refl Ha), orb_true_r. reflexivity.
Qed.

End Binary64Cosine.

Import Binary64Real Binary64Cosine.

(** C5 (amended).  On binary64 numbers, for all vectors [a] and [b],
    [cosineSimilarity(a, b)] is exactly 0 when either vector is empty, when
    the lengths differ, when all the components of either vector are zero,
    and whenever the sum of squares of either vector, as the loop computes
    it, is zero or NaN; in all other cases it is the computed dot product
    divided by the product of the square roots of the two computed sums of
    squares.  When the vectors have at most [2 ^ 32] components, each of
    them zero or of a magnitude between [2 ^ -200] and [2 ^ 200], the result
    is a finite number, and it is that quotient as soon as the vectors have
    the same length and each has a component that is not zero. *)
Theorem cosineSimilarity_binary64 :
  forall a b : list float,
    let dot := sum_of_products 0%float a b in
    let normA := sum_of_products 0%float a a in
    let normB := sum_of_products 0%float b b in
    (a = [] \/ b = [] \/ List.length a <> List.length b ->
     cosineSimilarity a b = 0%float)
    /\ (Forall (fun x => (x =? 0)%float = true) a
        \/ Forall (fun x => (x =? 0)%float = true) b ->
        cosineSimilarity a b = 0%float)
    /\ (a <> [] -> List.length a = List.length b ->
        (Binary64.truthy normA = false \/ Binary64.truthy normB = false ->
         cosineSimilarity a b = 0%float)
        /\ (Binary64.truthy normA = true -> Binary64.truthy normB = true ->
            cosineSimilarity a b
            = (dot / (PrimFloat.sqrt normA * PrimFloat.sqrt normB))%float))
    /\ ((Z.of_nat (List.length a) <= 2 ^ 32)%Z ->
        Forall (fun x => moderate x = true) a ->
        Forall (fun x => moderate x = true) b ->
        PrimFloat.is_finite (cosineSimilarity a b) = true
        /\ (List.length a = List.length b ->
            Exists (fun x => (x =? 0)%float = false) a ->
            Exists (fun x => (x =? 0)%float = false) b ->
            cosineSimilarity a b
            = (dot / (PrimFloat.sqrt normA * PrimFloat.sqrt normB))%float)).
Proof.
  intros a b dot normA normB.
  assert (Hguard : a = [] \/ b = [] \/ List.length a <> List.length b ->
                   cosineSimilarity a b = 0%float).
  { intros Hg.
    exact (@cosineSimilarity_length_guard float Binary64.number a b Hg). }
  assert (Hcases : (a = [] \/ b = [] \/ List.length a <> List.length b)
                   \/ (a <> [] /\ List.length a = List.length b)).
  { destruct a as [|x a]; [left; left; reflexivity|].
    destruct (Nat.eq_dec (List.length (x :: a)) (List.length b))
      as [Heq|Hne].
    - right. split; [discriminate|exact Heq].
    - left. right. right. exact Hne. }
  assert (Hpassed : a <> [] -> List.length a = List.length b ->
            cosineSimilarity a b
            = if (negb (Binary64.truthy normA)
                  || negb (Binary64.truthy normB))%bool
              then 0%float
              else (dot / (PrimFloat.sqrt normA
                           * PrimFloat.sqrt normB))%float).
  { intros Ha Hlen.
    exact (@cosineSimilarity_guarded float Binary64.number a b Ha Hlen). }
  split; [exact Hguard|]. split; [|split].
  - intros Hzeros.
    destruct Hcases as [Hg|[Ha Hlen]]; [exact (Hguard Hg)|].
    rewrite (Hpassed Ha Hlen).
    destruct Hzeros as [Hz|Hz]; unfold normA, normB;
      rewrite (zeros_falsy _ Hz); [reflexivity|].
    rewrite orb_true_r. reflexivity.
  - intros Ha Hlen. rewrite (Hpassed Ha Hlen). split.
    + intros [Hf|Hf]; rewrite Hf; [reflexivity|].
      rewrite orb_true_r. reflexivity.
    + intros Hta Htb. rewrite Hta, Htb. reflexivity.
  - intros Hn Hma Hmb. split.
    + destruct Hcases as [Hg|[Ha Hlen]];
        [rewrite (Hguard Hg); reflexivity|].
      rewrite (Hpassed Ha Hlen).
      destruct (Binary64.truthy normA) eqn:Hta; [|reflexivity].
      destruct (Binary64.truthy normB) eqn:Htb; [|reflexivity].
      cbn [negb orb].
      destruct (dot_R a b Hma Hmb Hn) as [Hfd Hd].
      destruct (norm_R a Hma Hn) as [Hfa [Hna Hla]].
      destruct (norm_R b Hmb ltac:(rewrite <- Hlen; exact Hn))
        as [Hfb [Hnb Hlb]].
      fold dot in Hfd, Hd. fold normA in Hfa, Hna, Hla.
      fold normB in Hfb, Hnb, Hlb.
      apply (truthy_R normA Hfa) in Hta. apply (truthy_R normB Hfb) in Htb.
      apply quotient_finite; try assumption.
      * destruct Hla as [Hz|Hlow]; [contradiction|].
        split; [exact Hlow|lra].
      * destruct Hlb as [Hz|Hlow]; [contradiction|].
        split; [exact Hlow|lra].
    + intros Hlen Hea Heb.
      assert (Ha : a <> []) by (intros ->; inversion Hea).
      rewrite (Hpassed Ha Hlen).
      destruct (norm_R a Hma Hn) as [Hfa _].
      destruct (norm_R b Hmb ltac:(rewrite <- Hlen; exact Hn)) as [Hfb _].
      pose proof (norm_nonzero_R a Hma Hn Hea) as Hpa.
      pose proof (norm_nonzero_R b Hmb ltac:(rewrite <- Hlen; exact Hn) Heb)
        as Hpb.
      fold normA in Hfa, Hpa. fold normB in Hfb, Hpb.
      rewrite (proj2 (truthy_R normA Hfa)) by lra.
      rewrite (proj2 (truthy_R normB Hfb)) by lra.
      reflexivity.
Qed.

(** A sum of squares that underflows: the vector is not zero, yet its
    similarity with itself is 0. *)
Example cosineSimilarity_underflow_is_zero :
  sum_of_products 0%float [1e-200%float] [1e-200%float] = 0%float
  /\ cosineSimilarity [1e-200%float] [1e-200%float] = 0%float.
Proof. split; vm_compute; reflexivity. Qed.

Lemma cosineSimilarity_binary64_witness :
  cosineSimilarity [3%float; 4%float] [4%float; 3%float] = 0.96%float
  /\ PrimFloat.is_finite
       (cosineSimilarity [3%float; 4%float] [4%float; 3%float]) = true
  /\ cosineSimilarity [0%float; (-0)%float] [4%float; 3%float] = 0%float.
Proof.
  destruct (cosineSimilarity_binary64 [3%float; 4%float]
              [4%float; 3%float]) as [_ [_ [Hformula Hfinite]]].
  destruct (Hformula ltac:(discriminate) eq_refl) as [_ Hvalue].
  split; [rewrite (Hvalue eq_refl eq_refl); vm_compute; reflexivity|].
  split.
  - apply Hfinite; [vm_compute; discriminate| |];
      repeat constructor.
  - destruct (cosineSimilarity_binary64 [0%float; (-0)%float]
                [4%float; 3%float]) as [_ [Hzero _]].
    apply Hzero. left. repeat constructor.
Defined.

(** ** The similarity of a vector with itself *)

Module Binary64Self.

Import Binary64Real Binary64Cosine.
Local Open Scope R_scope.

Lemma between_finite (lo hi x : float) :
  PrimFloat.is_finite lo = true -> PrimFloat.is_finite hi = true ->
  (lo <=? x)%float = true -> (x <=? hi)%float = true ->
  PrimFloat.is_finite x = true.
Proof.
  rewrite !is_finite_SF, !FloatAxioms.leb_spec.
  destruct (Prim2SF x) as [s|s| |s m e]; try reflexivity;
    destruct (Prim2SF lo) as [s1|s1| |s1 m1 e1]; try discriminate;
    destruct (Prim2SF hi) as [s2|s2| |s2 m2 e2]; try discriminate;
    destruct s; cbn; try discriminate.
Qed.

Lemma B2R_pow2_low : B2R 0x1p-1021 = pow2 (-1021).
Proof.
  unfold B2R.
  replace (Prim2SF 0x1p-1021)
    with (S754_finite false 4503599627370496 (-1073))
    by (vm_compute; reflexivity).
  cbn [SF2R cond_Zopp]. change 4503599627370496%Z with (2 ^ 52)%Z.
  rewrite <- pow2_IZR, <- pow2_add by lia. reflexivity.
Qed.

Lemma B2R_pow2_high : B2R 0x1p1021 = pow2 1021.
Proof.
  unfold B2R.
  replace (Prim2SF 0x1p1021)
    with (S754_finite false 4503599627370496 969)
    by (vm_compute; reflexivity).
  cbn [SF2R cond_Zopp]. change 4503599627370496%Z with (2 ^ 52)%Z.
  rewrite <- pow2_IZR, <- pow2_add by lia. reflexivity.
Qed.

Lemma square_between (r s lo hi : R) :
  0 <= r -> 0 <= lo -> lo * r <= s <= hi * r ->
  lo * lo * (r * r) <= s * s <= hi * hi * (r * r).
Proof.
  intros Hr Hlo [H1 H2].
  assert (Hlr : 0 <= lo * r) by (apply Rmult_le_pos; assumption).
  assert (Ha : 0 <= (s - lo * r) * (s + lo * r))
    by (apply Rmult_le_pos; lra).
  assert (Hb : 0 <= (hi * r - s) * (hi * r + s))
    by (apply Rmult_le_pos; lra).
  split; nra.
Qed.

(** A normal number divided by the square of its square root. *)
Lemma self_quotient (n : float) :
  PrimFloat.is_finite n = true ->
  pow2 (-1021) <= B2R n <= pow2 1021 ->
  PrimFloat.is_finite (n / (PrimFloat.sqrt n * PrimFloat.sqrt n)) = true
  /\ 1 - / 1125899906842624
     <= B2R (n / (PrimFloat.sqrt n * PrimFloat.sqrt n))
     <= 1 + / 1125899906842624.
Proof.
  intros Hf [Hlo Hhi].
  pose proof (pow2_pos (-1021)) as Hpos.
  set (Nr := B2R n) in *.
  destruct (sqrt_R n Hf ltac:(fold Nr; lra)) as [Hfs Hs].
  fold Nr in Hs. rewrite u_value in Hs. apply Rabs_le_between in Hs.
  set (s := PrimFloat.sqrt n) in *. set (Sq := B2R s) in *.
  set (r := R_sqrt.sqrt Nr) in *.
  assert (Hr0 : 0 <= r) by apply sqrt_pos.
  assert (Hrr : r * r = Nr) by (apply sqrt_sqrt; lra).
  destruct (square_between r Sq (1 - / 9007199254740992)
              (1 + / 9007199254740992) Hr0 ltac:(lra) ltac:(lra))
    as [Hs1 Hs2].
  rewrite Hrr in Hs1, Hs2.
  assert (Hm1022 : pow2 (-1021) = 2 * pow2 (-1022)).
  { replace (-1021)%Z with (-1022 + 1)%Z by lia. apply pow2_twice. }
  assert (Hp1023 : pow2 1023 = 4 * pow2 1021).
  { replace 1023%Z with (1021 + 1 + 1)%Z by lia. rewrite !pow2_twice. lra. }
  pose proof (pow2_pos (-1022)) as Hp1022.
  assert (Hone : 1 <= pow2 1021).
  { rewrite <- pow2_0. apply pow2_le. lia. }
  assert (Hsmall : pow2 (-1022) <= / 2).
  { rewrite <- pow2_m1. apply pow2_le. lia. }
  assert (HSS : pow2 (-1022) <= Sq * Sq < pow2 1023) by lra.
  destruct (mul_R s s Hfs Hfs) as [Hfd [_ Hd]].
  { fold Sq. rewrite Rabs_pos_eq by lra. lra. }
  fold Sq in Hd. rewrite (Rabs_pos_eq (Sq * Sq)) in Hd by lra.
  specialize (Hd ltac:(lra)). rewrite u_value in Hd.
  apply Rabs_le_between in Hd.
  set (d := (s * s)%float) in *. set (D := B2R d) in *.
  assert (HD : (1 - 3 * / 9007199254740992) * Nr <= D
               <= (1 + 4 * / 9007199254740992) * Nr) by lra.
  assert (HDpos : 0 < D) by lra.
  assert (Hq1 : 1 - 4 * / 9007199254740992 <= Nr / D).
  { apply Binary64Weights.div_ge_bound; lra. }
  assert (Hq2 : Nr / D <= 1 + 4 * / 9007199254740992).
  { apply Binary64Weights.div_le_bound; lra. }
  assert (Hne : D <> 0) by lra.
  destruct (div_R n d Hf Hfd Hne) as [Hfq [_ Hq]].
  { fold Nr D. rewrite Rabs_pos_eq by lra. lra. }
  fold Nr D in Hq. rewrite (Rabs_pos_eq (Nr / D)) in Hq by lra.
  assert (Hnormal : pow2 (-1022) <= Nr / D) by lra.
  specialize (Hq Hnormal).
  rewrite u_value in Hq. apply Rabs_le_between in Hq.
  split; [exact Hfq|]. lra.
Qed.
End Binary64Self.

Import Binary64Real Binary64Weights Binary64Cosine Binary64Self.

(** X26.  On binary64 numbers, the similarity of a vector with itself is
    the computed sum of its squares divided by the square of the square root
    of that sum, and it is 1 within a tolerance of [2 ^ -50], whenever the
    sum of squares is between [2 ^ -1021] and [2 ^ 1021], so that it has
    neither underflowed nor overflowed; this is so for every vector of at
    most [2 ^ 32] components, each zero or of a magnitude between
    [2 ^ -200] and [2 ^ 200], and one of them not zero. *)
Theorem cosineSimilarity_self_binary64 :
  forall a : list float,
    let norm := sum_of_products 0%float a a in
    let close :=
      cosineSimilarity a a
      = (norm / (PrimFloat.sqrt norm * PrimFloat.sqrt norm))%float
      /\ (1 - 0x1p-50 <=? cosineSimilarity a a)%float = true
      /\ (cosineSimilarity a a <=? 1 + 0x1p-50)%float = true in
    ((0x1p-1021 <=? norm)%float = true ->
     (norm <=? 0x1p1021)%float = true -> close)
    /\ ((Z.of_nat (List.length a) <= 2 ^ 32)%Z ->
        Forall (fun x => moderate x = true) a ->
        Exists (fun x => (x =? 0)%float = false) a ->
        close).
Proof.
  intros a norm close.
  assert (Hreal : PrimFloat.is_finite norm = true ->
                  (pow2 (-1021) <= B2R norm <= pow2 1021)%R -> close).
  { intros Hf HN.
    assert (Ha : a <> []).
    { intros ->. unfold norm in HN. cbn [sum_of_products] in HN.
      rewrite B2R_0 in HN. pose proof (pow2_pos (-1021)). lra. }
    assert (Htruthy : Binary64.truthy norm = true).
    { apply (truthy_R norm Hf). pose proof (pow2_pos (-1021)). lra. }
    assert (Hvalue : cosineSimilarity a a
                     = (norm / (PrimFloat.sqrt norm
                                * PrimFloat.sqrt norm))%float).
    { assert (Hpassed : cosineSimilarity a a
                         = if (negb (Binary64.truthy norm)
                               || negb (Binary64.truthy norm))%bool
                           then 0%float
                           else (norm / (PrimFloat.sqrt norm
                                         * PrimFloat.sqrt norm))%float)
        by exact (@cosineSimilarity_guarded float Binary64.number a a Ha
                    eq_refl).
      rewrite Hpassed, Htruthy. reflexivity. }
    unfold close. split; [exact Hvalue|]. rewrite Hvalue.
    destruct (self_quotient norm Hf HN) as [Hfq [Hq1 Hq2]].
    split.
    - apply (leb_R (1 - 0x1p-50) _ eq_refl Hfq).
      rewrite B2R_lower_tolerance. exact Hq1.
    - apply (leb_R _ (1 + 0x1p-50) Hfq eq_refl).
      rewrite B2R_upper_tolerance. exact Hq2. }
  split.
  - intros Hlo Hhi.
    assert (Hf : PrimFloat.is_finite norm = true)
      by (apply (between_finite 0x1p-1021 0x1p1021 norm eq_refl eq_refl
                   Hlo Hhi)).
    apply (Hreal Hf).
    apply (leb_R 0x1p-1021 norm eq_refl Hf) in Hlo.
    apply (leb_R norm 0x1p1021 Hf eq_refl) in Hhi.
    rewrite B2R_pow2_low in Hlo. rewrite B2R_pow2_high in Hhi.
    split; assumption.
  - intros Hn Hma Hex.
    destruct (norm_R a Hma Hn) as [Hf [[_ Hup] Hlow]].
    pose proof (norm_nonzero_R a Hma Hn Hex) as Hpos.
    fold norm in Hf, Hup, Hlow, Hpos.
    apply (Hreal Hf).
    destruct Hlow as [Hz|Hlow]; [lra|].
    split.
    + apply Rle_trans with (pow2 (-402)); [apply pow2_le; lia|exact Hlow].
    + apply Rle_trans with (pow2 434); [exact Hup|apply pow2_le; lia].
Qed.

Lemma cosineSimilarity_self_binary64_witness :
  ((1 - 0x1p-50
    <=? cosineSimilarity [0.1%float; 0.7%float] [0.1%float; 0.7%float])%float
   = true
   /\ (cosineSimilarity [0.1%float; 0.7%float] [0.1%float; 0.7%float]
       <=? 1 + 0x1p-50)%float = true)
  /\ (Forall (fun x => moderate x = true) [3%float; 0%float; 4%float]
      /\ Exists (fun x => (x =? 0)%float = false)
           [3%float; 0%float; 4%float]
      /\ (cosineSimilarity [3%float; 0%float; 4%float]
            [3%float; 0%float; 4%float] <=? 1 + 0x1p-50)%float = true).
Proof.
  split.
  - destruct (cosineSimilarity_self_binary64 [0.1%float; 0.7%float])
      as [Hnormal _].
    exact (proj2 (Hnormal eq_refl eq_refl)).
  - assert (Hm : Forall (fun x => moderate x = true)
                   [3%float; 0%float; 4%float])
      by (repeat constructor).
    assert (He : Exists (fun x => (x =? 0)%float = false)
                   [3%float; 0%float; 4%float])
      by (left; reflexivity).
    split; [exact Hm|]. split; [exact He|].
    destruct (cosineSimilarity_self_binary64 [3%float; 0%float; 4%float])
      as [_ Hmoderate].
    assert (Hn : (Z.of_nat (List.length [3%float; 0%float; 4%float])
                  <= 2 ^ 32)%Z) by (vm_compute; discriminate).
    exact (proj2 (proj2 (Hmoderate Hn Hm He))).
Defined.
